(* ===== verification/_CoqProject ===== *)
-Q . S2P
Prelude.v
Memdb.v
ProxyConfig.v
Structs.v
ConnectTables.v
AclTables.v
ConfigEntries.v
ConfigValidate.v
DiscoveryChain.v
Delay.v
TombstoneGC.v
Store.v
Graveyard.v
Kvs.v
Intention.v
ConnectCA.v
Autopilot.v
AclState.v
ConfigState.v
PreparedQuery.v
Session.v
Catalog.v
Coordinate.v
Txn.v
Fsm.v
Snapshot.v
Logic.v
DiscoveryGraph.v
DiscoveryLoops.v
DiscoveryNodes.v
DiscoveryAssemble.v
DiscoveryFacts.v
DiscoveryMarkers.v
DiscoveryProps.v
MemdbFacts.v
Radix.v
Acl.v
Authorizer.v
AclCache.v
Filter.v
FilterProps.v
CatalogRead.v
ServiceValidate.v
Endpoint.v
SessionEndpoint.v
Replication.v
LocalState.v
AclEndpoint.v
StoreFacts.v
ConfigFacts.v
SideFacts.v
Frames.v
SnapshotFacts.v
KvSpec.v
KvRefine.v
FsmFacts.v
CatalogInv.v
ConfigSound.v
ConfigProps.v
CatalogSound.v
SnapshotCatalog.v
SessionFacts.v
SessionInv.v
SessionProps.v
IntentionProps.v
KvProps.v
ListProps.v
CatalogProps.v
SnapshotProps.v
CatalogReadProps.v
TxnProps.v
GcProps.v
AclMerge.v
AclProps.v
EndpointProps.v
SessionTimerProps.v
ReplicationProps.v
ReplicationTokens.v
LocalProps.v
AclEndpointProps.v
