(* ===== verification/Prelude.v ===== *)
(** * The replicated state of an OpenGyoza server

    OpenGyoza is a service-discovery and configuration system: agents register
    nodes, services and health checks in a catalog; clients keep configuration
    in a key/value store, take locks on keys through sessions, and store query
    templates.  All of it lives in the _state store_ of a server
    (agent/consul/state), an in-memory database that changes only when the
    replicated state machine (agent/consul/fsm) applies an entry of the Raft
    log.  Every server applies the same log, so what the servers agree on, and
    what the clients may rely on, are properties of these functions.  This
    library is a shallow embedding of them with the theorems that make them
    correct.

    ** How the program is modelled

    The Go packages are modelled as they are written: one record per struct,
    one definition per function or method under the name it has in Go, the
    guards, early returns and error paths in the order of the code.

    - An operation on a transaction is a function in the monad [Tx] of
      [Prelude] and [Store]: the state is a transaction (the tables, whether it
      may write, the lock delays, the local clock), the outcome is a value
      ([Ok]), a Go [error] ([Err]) or a run-time panic ([Panic]).  A failing
      operation keeps the state it reached: what rolls back is the transaction
      of the surrounding [Store] method ([write_txn]), as with memdb's [Abort].
    - Indexes (Raft indexes, lock indexes) are [N]; increments wrap at 2^64
      ([u64_add]).  Durations and times are [Z] nanoseconds.
    - go-memdb is a third-party package.  What the code relies on is documented
      behaviour of its tables, written in [Memdb]: a table is a finite map from
      the bytes of the primary index; a secondary index files each record under
      the bytes its indexer computes, followed by the primary key unless it is
      unique; [Get] with a "_prefix" index returns what is filed under a
      prefix.  The indexers are kept at the level of bytes (terminating NUL,
      lower case, UUID and partial-UUID parsing), because several behaviours of
      the store depend on them.
    - Loops over collected slices are folds over lists: a definition of the
      state store is a structural recursion or a composition, without fuel.
      The compiler of discovery chains loops until nothing changes, and
      follows redirects and splitters wherever they lead: those loops have a
      fuel computed from the config entries or the nodes, and running out of
      it is a panic with a message of its own, which C39 excludes.
    - The runtime ranges over a map in an order of its own: where that order
      can matter ([DiscoveryChain]) it is a parameter, a permutation per loop;
      where it only decides which of several errors is reported
      ([ValidateMetadata]), the model reports all of them ([EAnyOf]).
    - Weights of splits are IEEE 754 single precision numbers, computed with
      the Standard Library's [spec_float].
    - Wall-clock time is an argument (each log entry carries the time at which
      this server applies it), so the theorems say what depends on it.
    - What the state machine calls but is not in the repository is a parameter
      of [fsm_run], the record [externals]: the compiler of query templates (on
      a third-party expression language), and the [CompilerEnv] of the chain
      compiler (the order of maps, the decoding of opaque configuration, a
      hash).  C24 assumes that templates compile without a panic, and C35 that
      the templates a store holds are accepted.

    ** The parts and where they are

    Definitions, bottom up:
    - [Prelude]: outcomes, the state monad and its loops, 64-bit arithmetic,
      tactics and hint databases.
    - [Memdb]: tables, indexers, [First], [Get], [Insert], [Delete].
    - [Structs]: the records of agent/structs and of the state store, with
      their comparison, conversion and validation methods; [ConnectTables] and
      [AclTables]: those of Connect, autopilot and the ACL system, with the
      schemas of their tables.
    - [Delay] (state/delay.go): the local lock delays and their timers.
    - [TombstoneGC] (state/tombstone_gc.go): expiration bins for tombstones.
    - [Store] (state/state_store.go, schema.go and the table schemas of the other
      files): the database, transactions, the index table.  The tables of
      Connect and autopilot, and those of the ACL system, are two groups of
      the database.
    - [Graveyard] (state/graveyard.go), [Kvs] (state/kvs.go), [PreparedQuery]
      (state/prepared_query.go), [Session] (state/session.go), [Catalog]
      (state/catalog.go, the write paths), [CatalogRead] (the read methods of
      the same file), [Coordinate] (state/coordinate.go),
      [Intention] (agent/structs/intention.go, state/intention.go, the decision
      of connect/uri_service.go), [ConnectCA] (state/connect_ca.go),
      [Autopilot] (state/autopilot.go), [AclState] (state/acl.go), [Txn]
      (state/txn.go).
    - [Fsm] (fsm/commands_oss.go): a command per message type, its apply
      function, and [fsm_run], which applies a log to a store.
    - [ProxyConfig] (agent/structs/connect_proxy_config.go, check_type.go) and
      [ServiceValidate] (NodeService.Validate and what it calls): proxies,
      upstreams, exposed paths, check definitions and their validation.
    - [Snapshot] (fsm/snapshot_oss.go, snapshot.go, fsm.go): the records a
      snapshot holds, in their order, and the restore that replays them into a
      fresh store.
    - [Radix]: the interface of the radix trees (third-party), with laws, and an
      instance; [Acl] (acl/policy.go): policies, their validation and their
      merging, with service rules behind pointers; [Authorizer] (acl/acl.go):
      rule trees and the methods of the interface Authorizer, for the static
      and the policy authorizer; [AclCache] (agent/structs/acl.go,
      acl_cache.go): compiling the policies of a token through the caches.
    - [Filter] (consul/filter.go, the filters of consul/acl.go): what of a reply
      a token may see, the in-place loops included.
    - [Endpoint] (consul/catalog_endpoint.go, kvs_endpoint.go, txn_endpoint.go,
      the vetting of consul/acl.go, raftApply of rpc.go): requests that are
      validated, vetted by the rules of the token and submitted to Raft, which
      is a parameter: what else the log applies before the entry, and whether
      the submission fails ([raft_run]).
    - [SessionEndpoint] (consul/session_endpoint.go, session_ttl.go,
      session_timers.go, and the parser of durations of Go's package time): the
      requests of sessions and the timers of the leader, which have an identity
      apart from the map that names them.
    - [Replication] (consul/acl_replication.go, acl_replication_types.go,
      config_replication.go, replication.go, the hashes of agent/structs/acl.go):
      the rounds in which a secondary datacenter copies policies, roles, tokens
      and config entries from the primary one, whose answers are arguments, and
      the loops that run them.
    - [AclEndpoint] (consul/acl_endpoint.go, acl_authmethod.go, acl_server.go,
      authmethod/authmethods.go): the requests on tokens, policies, roles,
      binding rules and auth methods, bootstrapping, logins, and what they drop
      from the caches.  New IDs are taken from a list of draws; the loop that
      draws until an ID is free ends with a panic of the model when the list
      does.
    - [LocalState] (agent/local/state.go, agent/ae): what an agent registers
      locally, the marks of what is in sync, and its anti-entropy with the
      servers, an interface with a contract.
    - [ConfigEntries] (agent/structs/config_entry.go and
      config_entry_discoverychain.go): the five kinds of config entry, split
      weights, and the interface [CompilerEnv] of what the runtime and
      third-party code decide; [ConfigValidate] (the same files): how entries
      are normalized and validated.
    - [DiscoveryChain] (agent/structs/discovery_chain.go, connect/sni.go,
      consul/discoverychain): compiling the routers, splitters and resolvers of
      a service into a graph of nodes and targets.
    - [ConfigState] (state/config_entry.go): the table of config entries, whose
      writes read the entries of a chain through overrides, by work lists with
      fuel, and compile every chain they check.

    The parts interact through the tables: the write paths of the catalog
    destroy sessions (a check that turns critical, a check or node that goes
    away), destroying a session releases or deletes keys and deletes prepared
    queries, deleting keys writes tombstones and, on commit, hints the
    collector, and locking a key reads the sessions and the lock delays.
    Writing a config entry compiles discovery chains inside the transaction.

    Theorems:
    - [Logic], [MemdbFacts], [StoreFacts]: the program logic of [Tx] (runs of
      the primitives; framing, determinism, soundness as predicates closed
      under the monad's operations, discharged by hint databases).
    - [SideFacts]: the operations of Connect and the ACL system do not panic
      and leave the core tables alone.  [Frames]: an operation stays in any
      relation that the writes to its tables stay in; [store_txn] lists the
      transactions the state machine commits, so an invariant of the database
      is proved per transaction ([keeps], [fsm_run_keeps], [reachable_keeps]).
      [SnapshotFacts]: the invariant that every row can be stored again under its
      key.
    - [KvSpec], [KvRefine]: an abstract key/value store (entries
      and tombstones, no indexes, no transactions), and the refinement of it by
      the KV commands (C1).
    - [FsmFacts]: replicas that apply the same log agree, whatever their local
      clocks, their lock delays and the orders in which they range over maps
      (C2; [DiscoveryFacts] and [ConfigFacts] show that the verdict of a
      validation does not depend on that order).
    - [SessionFacts], [SessionInv], [SessionProps]: locks, check mappings and
      queries always name live sessions (C3); destroying and creating a session
      (C4 to C6).
    - [KvProps]: mutual exclusion of locks and the functional behaviour of
      acquiring one (C7, C8).
    - [ListProps]: what listings return and how their index moves (C9 to C12).
    - [TxnProps]: atomicity and isolation of transactions, and the errors they
      lose (C14 to C16).
    - [GcProps]: tombstones wait and are collected (C19, C21), a lock delay
      refuses the lock as long as it should when no older timer of the key is
      pending (C22), and the timer that ends one early.
    - [CatalogInv], [CatalogSound], [CatalogProps]: services and checks stay on
      registered nodes and services, the state machine does not panic, and
      critical checks end sessions (C24, C26).
    - [CatalogReadProps]: the listing and the health query of a service answer
      exactly its instances (C17), and the index of a service does not move
      when an instance is renamed away from it (C37).
    - [FilterProps]: the in-place loops are list filters, so a reply shows what
      the token may read, the services of a node being judged by their IDs
      (C13).
    - [EndpointProps]: a KV request changes only keys that its token may write
      (C20), a registration that passes the vetting without any rights (C25),
      and other ways around the vetting.
    - [SessionTimerProps]: a session timer does not fire before the deadline of
      the last renewal (C23), and the race in which it does.
    - [ConfigFacts], [ConfigSound], [ConfigProps]: what is read for a chain, as
      a function of the tables; a validation does not panic when routes have
      destinations; with names in lower case, an entry is stored exactly when
      the chains it checks compile with it (C18), and what those checks miss.
    - [AclMerge], [AclProps]: authorizers decide by the strongest
      rule of the longest match (C27, C28), a writable prefix is writable to
      its last key (C29), writing implies reading, parsed policies are
      valid (C31), and two ways in which a cached policy changes what a token
      may do (one is C32).
    - [AclEndpointProps]: no request on tokens changes the identity of one when
      no other write comes between its checks and its own (C30), what happens
      when one does, and what a clone leaves out.
    - [ReplicationProps], [ReplicationTokens]: the comparison of sorted lists
      and the batches; a round of token replication converges when nothing else
      writes (C33), and the errors that others drop.
    - [LocalProps]: a full synchronization that succeeds leaves the catalog
      with what the agent registered (C38).
    - [IntentionProps]: the order of intentions, uniqueness of their pairs, and
      the decision of a match (C34).
    - [SnapshotFacts], [SnapshotCatalog], [SnapshotProps]: the snapshot of a
      store that is fit for it ([restorable]) restores its rows (C35), and
      states or answers that do not survive one (C36).
    - [DiscoveryGraph], [DiscoveryLoops],
      [DiscoveryNodes], [DiscoveryAssemble], [DiscoveryFacts],
      [DiscoveryMarkers], [DiscoveryProps]: the program logic of the chain compiler; the search for
      cycles as a decision of acyclicity; the loops of flattening and pruning;
      the targets redirects can reach; the nodes the recursion records; every
      compilation ends (C39) with a chain that can be walked (C40); the order
      of maps does not decide whether it succeeds, and without overrides it
      does not panic.

    ** What is not modelled

    - Watch channels and the waiting of blocking queries: reads return their
      index, which is what a blocking query waits on, but not the channels.
    - Encoding (msgpack, JSON, HCL), RPC forwarding, HTTP, DNS, gossip, Raft:
      I/O around the state store, or third-party.
    - Metrics and logging.
    - Templates of prepared queries (their expression language is third-party).
    - The resolution of tokens (the RPC to the primary datacenter and its
      caches): the endpoints take the authorizer as an argument.  Validators of
      auth methods (Kubernetes), and the languages of their selectors and bind
      names, are interfaces.
    - Forwarding to the leader or to another datacenter, filter expressions and
      the sorting of replies by distance.
    - The leader's reconciliation with the gossip pool, the agent's checks and
      proxies, DNS, HTTP, the command line and the configuration builder: they
      drive the replicated core over RPC.
    - The chunking of large Raft entries.
    - Two-queue eviction of the ACL caches: they keep what they are given.

*)

From stdpp Require Export base list option gmap strings sorting numbers.
From Stdlib Require Export Ascii.

(** ** Outcomes: the value, the Go [error], or a run-time panic *)

Inductive error :=
| ErrMissingNode
| ErrMissingService
| ErrMissingSessionID
| ErrMissingQueryID
| ErrNotFound
| EMsg (fmt : string) (args : list string)
| EWrap (fmt : string) (args : list string) (cause : error)
(** One of these, by the order in which the runtime ranges over a map. *)
| EAnyOf (errs : list error).

Inductive outcome (A : Type) :=
| Ok (a : A)
| Err (e : error)
| Panic (what : string).
Arguments Ok {_} a.
Arguments Err {_} e.
Arguments Panic {_} what.

Definition obind {A B} (o : outcome A) (k : A → outcome B) : outcome B :=
  match o with Ok a => k a | Err e => Err e | Panic w => Panic w end.

(** Go's [if err != nil { return fmt.Errorf("...: %s", err) }]. *)
Definition owrap {A} (fmt : string) (o : outcome A) : outcome A :=
  match o with Err e => Err (EWrap fmt [] e) | _ => o end.

Definition is_ok {A} (o : outcome A) : bool :=
  match o with Ok _ => true | _ => false end.

(** ** A state monad with outcomes: the state survives an error, because
    the Go code only rolls back what lives inside the memdb transaction. *)

Definition M (S A : Type) : Type := S → outcome A * S.

Definition mreturn {S A} (a : A) : M S A := λ s, (Ok a, s).
Definition mthrow {S A} (e : error) : M S A := λ s, (Err e, s).
Definition mpanic {S A} (w : string) : M S A := λ s, (Panic w, s).
Definition mget {S A} (f : S → A) : M S A := λ s, (Ok (f s), s).
Definition mmodify {S} (f : S → S) : M S unit := λ s, (Ok tt, f s).
Definition mlift {S A} (o : outcome A) : M S A := λ s, (o, s).

Definition mbind' {S A B} (m : M S A) (k : A → M S B) : M S B := λ s,
  match m s with
  | (Ok a, s') => k a s'
  | (Err e, s') => (Err e, s')
  | (Panic w, s') => (Panic w, s')
  end.

Definition mwrap {S A} (fmt : string) (m : M S A) : M S A := λ s,
  match m s with
  | (Err e, s') => (Err (EWrap fmt [] e), s')
  | r => r
  end.

(** The error of [m] as a value: what [x, err := m()] binds before [err] is
    looked at. *)
Definition mtry {S A} (m : M S A) : M S (outcome A) := λ s,
  match m s with
  | (Panic w, s') => (Panic w, s')
  | (r, s') => (Ok r, s')
  end.

Fixpoint mfor {S A} (l : list A) (body : A → M S unit) : M S unit :=
  match l with
  | [] => mreturn tt
  | x :: l => mbind' (body x) (λ _, mfor l body)
  end.

(** A loop that assigns a variable, and one that collects its results. *)
Fixpoint mfold {S A B} (f : B → A → M S B) (b : B) (l : list A) : M S B :=
  match l with
  | [] => mreturn b
  | x :: l => mbind' (f b x) (λ b, mfold f b l)
  end.
Fixpoint mmap {S A B} (f : A → M S B) (l : list A) : M S (list B) :=
  match l with
  | [] => mreturn []
  | x :: l => mbind' (f x) (λ y, mbind' (mmap f l) (λ ys, mreturn (y :: ys)))
  end.

Declare Scope gyoza_scope.
Delimit Scope gyoza_scope with gyoza.
Notation "'let*' x ':=' m 'in' k" := (mbind' m (λ x, k))
  (at level 10, x pattern, m at level 100, k at level 200) : gyoza_scope.
Notation "m ';;;' k" := (mbind' m (λ _, k))
  (at level 99, k at level 200, right associativity) : gyoza_scope.
Notation "'for' x 'in' l 'do' body" := (mfor l (λ x, body))
  (at level 98, x pattern, l at level 97, body at level 98) : gyoza_scope.
Open Scope gyoza_scope.

(** ** Machine integers: Go's [uint64] *)

Definition u64_mod : N := 18446744073709551616%N.
Definition u64_add (a b : N) : N := ((a + b) mod u64_mod)%N.

(** The accumulation loop [if f e > acc { acc = f e }]. *)
Definition max_loop {A} (f : A → N) (acc : N) (l : list A) : N :=
  fold_left (λ acc e, if (acc <? f e)%N then f e else acc) l acc.

(** ** Byte strings *)

Definition nul : string := String "000" EmptyString.

(** Go's [strings.ToLower] on ASCII. *)
Definition lower_ascii (c : ascii) : ascii :=
  let n := N_of_ascii c in
  if ((65 <=? n) && (n <=? 90))%N then ascii_of_N (n + 32) else c.
Fixpoint to_lower (s : string) : string :=
  match s with
  | EmptyString => EmptyString
  | String c s => String (lower_ascii c) (to_lower s)
  end.

Fixpoint nul_free (s : string) : bool :=
  match s with
  | EmptyString => true
  | String c s => negb (Ascii.eqb c "000") && nul_free s
  end.

(** Go's [encoding/hex.DecodeString]. *)
Definition hex_digit (c : ascii) : option N :=
  let n := N_of_ascii c in
  if ((48 <=? n) && (n <=? 57))%N then Some (n - 48)%N
  else if ((97 <=? n) && (n <=? 102))%N then Some (n - 87)%N
  else if ((65 <=? n) && (n <=? 70))%N then Some (n - 55)%N
  else None.
Fixpoint hex_decode (s : string) : option string :=
  match s with
  | EmptyString => Some EmptyString
  | String _ EmptyString => None
  | String a (String b s) =>
      match hex_digit a, hex_digit b, hex_decode s with
      | Some x, Some y, Some r => Some (String (ascii_of_N (16 * x + y)) r)
      | _, _, _ => None
      end
  end.

(** Go's [strings.Count(s, c)] and [strings.Replace(s, c, "", -1)] for a
    one-byte [c]. *)
Fixpoint count_char (c : ascii) (s : string) : nat :=
  match s with
  | EmptyString => 0
  | String d s => (if Ascii.eqb c d then 1 else 0) + count_char c s
  end.
Fixpoint remove_char (c : ascii) (s : string) : string :=
  match s with
  | EmptyString => EmptyString
  | String d s => if Ascii.eqb c d then remove_char c s else String d (remove_char c s)
  end.

(** Big-endian bytes of a [uint64] and [fmt.Sprintf("%x", ...)]. *)
Definition be64 (n : N) : string :=
  foldr (λ i s, String (ascii_of_N (N.shiftr n (8 * i) mod 256)) s) "" [7; 6; 5; 4; 3; 2; 1; 0]%N.
Definition hex_char (n : N) : ascii := ascii_of_N (if (n <? 10)%N then 48 + n else 87 + n).
Fixpoint hex_encode (s : string) : string :=
  match s with
  | EmptyString => EmptyString
  | String c s => let n := N_of_ascii c in String (hex_char (n / 16)) (String (hex_char (n mod 16)) (hex_encode s))
  end.

(** ** Lists ordered by their key bytes *)

Definition key_le {A} (x y : string * A) : Prop := String.le x.1 y.1.
#[export] Instance key_le_dec {A} : RelDecision (@key_le A).
Proof. intros x y. unfold key_le. apply _. Defined.
#[export] Instance key_le_trans {A} : Transitive (@key_le A).
Proof. intros x y z ??. unfold key_le in *. by etrans. Qed.
#[export] Instance key_le_total {A} : Total (@key_le A).
Proof. intros x y. unfold key_le. apply String.le_total. Qed.

Definition sort_keys {A} (l : list (string * A)) : list (string * A) :=
  merge_sort key_le l.

(** ** Hint databases

    [memdb]: facts on tables and frames; [det]: operations that are functions
    of the tables alone; [frame]: operations whose runs stay in a relation;
    [quiet], [sound]: operations that leave the catalog alone, or consistent;
    [acl]: functions that return permissions; [aside]: operations beside the core
    tables; [writes]: operations framed by the tables they write. *)

Create HintDb memdb.
Create HintDb det.
Create HintDb frame.
Create HintDb quiet.
Create HintDb sound.
Create HintDb acl.
Create HintDb aside.
Create HintDb writes.
