(* ===== verification/Memdb.v ===== *)
(** * The memdb tables of the state store

    A table is a finite map from the bytes of its primary ("id") index to the
    stored object.  Secondary indexes are not stored: their content is the
    function of the primary table that go-memdb keeps up to date on every
    [Insert] and [Delete].  The indexers are those of go-memdb's [index.go]
    ([StringFieldIndex], [UUIDFieldIndex], [CompoundIndex],
    [StringMapFieldIndex], [FieldSetIndex]), byte for byte. *)

From S2P Require Import Prelude.

(** ** Indexers: what [FromObject] returns *)

Inductive from_object :=
| FoErr (e : error)
| FoMissing
| FoVals (vals : list string).

(** [StringFieldIndex.FromObject] on the value of the field. *)
Definition string_index (lowercase : bool) (val : string) : from_object :=
  if decide (val = "") then FoMissing
  else FoVals [(if lowercase then to_lower val else val) +:+ nul].

(** [StringFieldIndex.FromArgs]. *)
Definition string_args (lowercase : bool) (arg : string) : string :=
  (if lowercase then to_lower arg else arg) +:+ nul.

(** [UUIDFieldIndex.parseString(s, true)]. *)
Definition uuid_parse (s : string) : outcome string :=
  if negb (String.length s =? 36)%nat then Err (EMsg "UUID must be 36 characters" [])
  else if (4 <? count_char "-" s)%nat then Err (EMsg "UUID should have maximum of 4 hyphens" [])
  else
    let sanitized := remove_char "-" s in
    if Nat.odd (String.length sanitized)
    then Err (EMsg "Input (without hyphens) must be even length" [])
    else match hex_decode sanitized with
         | Some b => Ok b
         | None => Err (EMsg "Invalid UUID" [])
         end.

(** [UUIDFieldIndex.FromObject]. *)
Definition uuid_index (val : string) : from_object :=
  if decide (val = "") then FoMissing
  else match uuid_parse val with
       | Ok b => FoVals [b]
       | Err e => FoErr e
       | Panic w => FoErr (EMsg w [])
       end.

(** [CompoundIndex.FromObject] over single-value sub-indexes. *)
Fixpoint compound_index (allow_missing : bool) (out : string) (subs : list from_object) : from_object :=
  match subs with
  | [] => FoVals [out]
  | FoErr e :: _ => FoErr (EWrap "sub-index error" [] e)
  | FoMissing :: _ => if allow_missing then FoVals [out] else FoMissing
  | FoVals vs :: subs => compound_index allow_missing (out +:+ default "" (head vs)) subs
  end.

(** [FieldSetIndex.FromObject]. *)
Definition field_set_index (val : string) : from_object :=
  FoVals [if decide (val = "") then String "000" "" else String "001" ""].

(** [ConditionalIndex.FromObject] on the answer of its condition. *)
Definition conditional_index (b : bool) : from_object :=
  FoVals [if b then String "001" "" else String "000" ""].

(** [StringMapFieldIndex.FromObject] (not lowercased) on a possibly nil map. *)
Definition string_map_index (m : option (gmap string string)) : from_object :=
  match omap (λ '(k, v), if decide (k = "") then None else Some (k +:+ nul +:+ v +:+ nul))
             (map_to_list (default ∅ m)) with
  | [] => FoMissing
  | vs => FoVals vs
  end.

(** ** Schemas *)

Record IndexSchema (A : Type) := mkIndex {
  ix_name : string;
  ix_unique : bool;
  ix_allow_missing : bool;
  ix_from : A → from_object
}.
Arguments mkIndex {_} _ _ _ _.
Arguments ix_name {_} _.
Arguments ix_unique {_} _.
Arguments ix_allow_missing {_} _.
Arguments ix_from {_} _ _.

Class TableSchema (A : Type) := {
  table_name : string;
  table_id : A → from_object;
  table_indexes : list (IndexSchema A)
}.

Definition primary_key {A} `{TableSchema A} (x : A) : option string :=
  match table_id x with FoVals (k :: _) => Some k | _ => None end.

(** The keys under which the index [ix] files the object [x] whose primary
    key is [k]: a non-unique index appends the primary key. *)
Definition index_keys {A} (ix : IndexSchema A) (k : string) (x : A) : list string :=
  match ix_from ix x with
  | FoVals vs => if ix_unique ix then vs else (λ v, v +:+ k) <$> vs
  | _ => []
  end.

(** ** Operations of a table inside a transaction *)

(** Every index must accept the object. *)
Fixpoint check_indexes {A} (ixs : list (IndexSchema A)) (x : A) : outcome unit :=
  match ixs with
  | [] => Ok tt
  | ix :: ixs =>
      match ix_from ix x with
      | FoErr e => Err (EWrap "failed to build index" [ix_name ix] e)
      | FoMissing =>
          if ix_allow_missing ix then check_indexes ixs x
          else Err (EMsg "missing value for index" [ix_name ix])
      | FoVals _ => check_indexes ixs x
      end
  end.

(** [Txn.Insert]. *)
Definition table_insert {A} `{TableSchema A} (t : gmap string A) (x : A) : outcome (gmap string A) :=
  match table_id x with
  | FoErr e => Err (EWrap "failed to build primary index" [] e)
  | FoVals (k :: _) => obind (check_indexes table_indexes x) (λ _, Ok (<[k := x]> t))
  | _ => Err (EMsg "object missing primary index" [])
  end.

(** [Txn.Delete]. *)
Definition table_delete {A} `{TableSchema A} (t : gmap string A) (x : A) : outcome (gmap string A) :=
  match table_id x with
  | FoErr e => Err (EWrap "failed to build primary index" [] e)
  | FoVals (k :: _) =>
      match t !! k with
      | Some _ => Ok (delete k t)
      | None => Err ErrNotFound
      end
  | _ => Err (EMsg "object missing primary index" [])
  end.

(** [Txn.Get] on a secondary index: the objects filed under a key with the
    prefix [p], in the byte order of the index. *)
Definition index_entries {A} (ix : IndexSchema A) (p : string) (t : gmap string A) : list (string * A) :=
  '(k, x) ← map_to_list t;
  b ← remove_dups (index_keys ix k x);
  if String.prefix p b then [(b, x)] else [].
Definition table_scan {A} (ix : IndexSchema A) (p : string) (t : gmap string A) : list A :=
  snd <$> sort_keys (index_entries ix p t).

(** [Txn.Get] on the primary index ("id" with no argument, "id_prefix"). *)
Definition table_prefix {A} (p : string) (t : gmap string A) : list A :=
  snd <$> sort_keys (filter (λ kx, String.prefix p kx.1) (map_to_list t)).

(** [Txn.DeletePrefix] on the primary index. *)
Definition table_delete_prefix {A} (p : string) (t : gmap string A) : gmap string A :=
  filter (λ kx, ¬ String.prefix p kx.1) t.
