(* ===== verification/ProxyConfig.v ===== *)
(** * Proxies and check definitions (agent/structs/connect_proxy_config.go,
      check_type.go)

    The parts of a service and of a check that describe a proxy and a probe.
    Opaque configuration ([map[string]interface{}]) is kept as its canonical
    encoding; a slice or map that may be nil is an option, since
    [reflect.DeepEqual] tells nil from empty. *)

From S2P Require Import Prelude.

(** ** Proxies *)

(** [MeshGatewayConfig] and its modes. *)
Definition MeshGatewayModeDefault : string := "".
Definition MeshGatewayModeNone : string := "none".
Definition MeshGatewayModeLocal : string := "local".
Definition MeshGatewayModeRemote : string := "remote".
Record MeshGatewayConfig := mkMeshGateway { mg_Mode : string }.
#[export] Instance MeshGatewayConfig_eq_dec : EqDecision MeshGatewayConfig.
Proof. solve_decision. Defined.
(** [ValidateMeshGatewayMode]. *)
Definition ValidateMeshGatewayMode (mode : string) : outcome string :=
  if decide (mode ∈ [MeshGatewayModeNone; MeshGatewayModeDefault; MeshGatewayModeLocal; MeshGatewayModeRemote])
  then Ok mode else Err (EMsg "Invalid Mesh Gateway Mode: %q" [mode]).

Record ExposePath := mkExposePath {
  xp_ListenerPort : Z;
  xp_Path : string;
  xp_LocalPathPort : Z;
  xp_Protocol : string;
  xp_ParsedFromCheck : bool
}.
#[export] Instance ExposePath_eq_dec : EqDecision ExposePath.
Proof. solve_decision. Defined.
Record ExposeConfig := mkExpose { xc_Checks : bool; xc_Paths : option (list ExposePath) }.
#[export] Instance ExposeConfig_eq_dec : EqDecision ExposeConfig.
Proof. solve_decision. Defined.
Definition no_expose : ExposeConfig := mkExpose false None.

Record Upstream := mkUpstream {
  up_DestinationType : string;
  up_DestinationNamespace : string;
  up_DestinationName : string;
  up_Datacenter : string;
  up_LocalBindAddress : string;
  up_LocalBindPort : Z;
  up_Config : string;
  up_MeshGateway : MeshGatewayConfig
}.
#[export] Instance Upstream_eq_dec : EqDecision Upstream.
Proof. solve_decision. Defined.
Definition UpstreamDestTypeService : string := "service".
Definition UpstreamDestTypePreparedQuery : string := "prepared_query".
(** [Upstream.Validate]. *)
Definition Upstream_Validate (u : Upstream) : outcome unit :=
  if decide (up_DestinationType u ∉ [UpstreamDestTypePreparedQuery; UpstreamDestTypeService; ""])
  then Err (EMsg "unknown upstream destination type: %q" [up_DestinationType u])
  else if decide (up_DestinationName u = "") then Err (EMsg "upstream destination name cannot be empty" [])
  else if decide (up_LocalBindPort u = 0%Z) then Err (EMsg "upstream local bind port cannot be zero" [])
  else Ok tt.
Record UpstreamKey := mkUpstreamKey {
  uk_DestinationType : string;
  uk_DestinationName : string;
  uk_DestinationNamespace : string;
  uk_Datacenter : string
}.
#[export] Instance UpstreamKey_eq_dec : EqDecision UpstreamKey.
Proof. solve_decision. Defined.
(** [Upstream.ToKey] and [Upstream.Identifier]. *)
Definition Upstream_ToKey (u : Upstream) : UpstreamKey :=
  mkUpstreamKey (up_DestinationType u) (up_DestinationName u) (up_DestinationNamespace u) (up_Datacenter u).
Definition Upstream_Identifier (u : Upstream) : string :=
  let name := up_DestinationName u in
  let name := if decide (up_DestinationNamespace u ≠ "" ∧ up_DestinationNamespace u ≠ "default")
              then up_DestinationNamespace u +:+ "/" +:+ name else name in
  let name := if decide (up_Datacenter u ≠ "") then name +:+ "?dc=" +:+ up_Datacenter u else name in
  let typ := up_DestinationType u in
  if decide (typ = "" ∨ typ = UpstreamDestTypeService) then name else typ +:+ ":" +:+ name.

Record ConnectProxyConfig := mkProxy {
  cp_DestinationServiceName : string;
  cp_DestinationServiceID : string;
  cp_LocalServiceAddress : string;
  cp_LocalServicePort : Z;
  cp_Config : string;
  cp_Upstreams : option (list Upstream);
  cp_MeshGateway : MeshGatewayConfig;
  cp_Expose : ExposeConfig
}.
#[export] Instance ConnectProxyConfig_eq_dec : EqDecision ConnectProxyConfig.
Proof. solve_decision. Defined.
(** The zero value, of a service that is no proxy. *)
Definition no_proxy : ConnectProxyConfig := mkProxy "" "" "" 0 "" None (mkMeshGateway "") no_expose.

(** ** Checks *)

(** [HealthCheckDefinition] (agent/structs/structs.go): durations are
    nanoseconds. *)
Record HealthCheckDefinition := mkDefinition {
  hd_HTTP : string;
  hd_TLSSkipVerify : bool;
  hd_Header : option (gmap string (option (list string)));
  hd_Method : string;
  hd_TCP : string;
  hd_Interval : Z;
  hd_OutputMaxSize : N;
  hd_Timeout : Z;
  hd_DeregisterCriticalServiceAfter : Z;
  hd_ScriptArgs : option (list string);
  hd_DockerContainerID : string;
  hd_Shell : string;
  hd_GRPC : string;
  hd_GRPCUseTLS : bool;
  hd_AliasNode : string;
  hd_AliasService : string;
  hd_TTL : Z
}.
#[export] Instance HealthCheckDefinition_eq_dec : EqDecision HealthCheckDefinition.
Proof. solve_decision. Defined.
Definition no_definition : HealthCheckDefinition :=
  mkDefinition "" false None "" "" 0 0 0 0 None "" "" "" false "" "" 0.

Record CheckType := mkCheckType {
  ct_CheckID : string;
  ct_Name : string;
  ct_Status : string;
  ct_Notes : string;
  ct_ScriptArgs : option (list string);
  ct_HTTP : string;
  ct_Header : option (gmap string (option (list string)));
  ct_Method : string;
  ct_TCP : string;
  ct_Interval : Z;
  ct_AliasNode : string;
  ct_AliasService : string;
  ct_DockerContainerID : string;
  ct_Shell : string;
  ct_GRPC : string;
  ct_GRPCUseTLS : bool;
  ct_TLSSkipVerify : bool;
  ct_Timeout : Z;
  ct_TTL : Z;
  ct_ProxyHTTP : string;
  ct_ProxyGRPC : string;
  ct_DeregisterCriticalServiceAfter : Z;
  ct_OutputMaxSize : Z
}.
Definition IsScript (c : CheckType) : bool := bool_decide (0 < length (default [] (ct_ScriptArgs c))).
Definition IsAlias (c : CheckType) : bool := bool_decide (ct_AliasNode c ≠ "" ∨ ct_AliasService c ≠ "").
Definition IsTTL (c : CheckType) : bool := bool_decide (0 < ct_TTL c)%Z.
Definition IsMonitor (c : CheckType) : bool :=
  IsScript c && bool_decide (ct_DockerContainerID c = "") && bool_decide (0 < ct_Interval c)%Z.
Definition IsHTTP (c : CheckType) : bool := bool_decide (ct_HTTP c ≠ "") && bool_decide (0 < ct_Interval c)%Z.
Definition IsTCP (c : CheckType) : bool := bool_decide (ct_TCP c ≠ "") && bool_decide (0 < ct_Interval c)%Z.
Definition IsDocker (c : CheckType) : bool :=
  IsScript c && bool_decide (ct_DockerContainerID c ≠ "") && bool_decide (0 < ct_Interval c)%Z.
Definition IsGRPC (c : CheckType) : bool := bool_decide (ct_GRPC c ≠ "") && bool_decide (0 < ct_Interval c)%Z.
(** [CheckType.Type]. *)
Definition CheckType_Type (c : CheckType) : string :=
  if IsGRPC c then "grpc" else if IsHTTP c then "http" else if IsTTL c then "ttl" else if IsTCP c then "tcp"
  else if IsAlias c then "alias" else if IsDocker c then "docker" else if IsScript c then "script" else "".
(** [CheckType.Validate]. *)
Definition CheckType_Validate (c : CheckType) : outcome unit :=
  let intervalCheck := IsScript c || bool_decide (ct_HTTP c ≠ "") || bool_decide (ct_TCP c ≠ "") ||
                       bool_decide (ct_GRPC c ≠ "") in
  if decide (0 < ct_Interval c ∧ 0 < ct_TTL c)%Z then Err (EMsg "Interval and TTL cannot both be specified" [])
  else if intervalCheck && bool_decide (ct_Interval c ≤ 0)%Z
  then Err (EMsg "Interval must be > 0 for Script, HTTP, or TCP checks" [])
  else if intervalCheck && IsAlias c then Err (EMsg "Interval cannot be set for Alias checks" [])
  else if IsAlias c && bool_decide (0 < ct_TTL c)%Z then Err (EMsg "TTL must be not be set for Alias checks" [])
  else if negb intervalCheck && negb (IsAlias c) && bool_decide (ct_TTL c ≤ 0)%Z
  then Err (EMsg "TTL must be > 0 for TTL checks" [])
  else if decide (ct_OutputMaxSize c < 0)%Z then Err (EMsg "MaxOutputMaxSize must be positive" [])
  else Ok tt.
