(* ===== verification/Structs.v ===== *)
(** * The data the state store keeps (agent/structs, agent/consul/state)

    Records for the Go structs, with their comparison and conversion methods.
    A Go [uint64] is an [N], an [int] a [Z]; a slice or a map that the code
    compares with [reflect.DeepEqual] is an [option], since a nil one differs
    from an empty one there.  [[]byte] is the string of its bytes. *)

From S2P Require Import Prelude Memdb ProxyConfig.

(** ** KV entries *)

Record DirEntry := mkDirEntry {
  de_LockIndex : N;
  de_Key : string;
  de_Flags : N;
  de_Value : string;
  de_Session : string;
  de_CreateIndex : N;
  de_ModifyIndex : N
}.
#[export] Instance DirEntry_eq_dec : EqDecision DirEntry.
Proof. solve_decision. Defined.

(** [DirEntry.Clone]: every field is copied. *)
Definition DirEntry_Clone (d : DirEntry) : DirEntry :=
  mkDirEntry (de_LockIndex d) (de_Key d) (de_Flags d) (de_Value d) (de_Session d)
    (de_CreateIndex d) (de_ModifyIndex d).

(** [DirEntry.Equal]: the Raft indexes are not compared. *)
Definition DirEntry_Equal (d o : DirEntry) : bool :=
  (de_LockIndex d =? de_LockIndex o)%N &&
  bool_decide (de_Key d = de_Key o) &&
  (de_Flags d =? de_Flags o)%N &&
  bool_decide (de_Value d = de_Value o) &&
  bool_decide (de_Session d = de_Session o).

Definition de_set_indexes (create modify : N) (d : DirEntry) : DirEntry :=
  mkDirEntry (de_LockIndex d) (de_Key d) (de_Flags d) (de_Value d) (de_Session d) create modify.
Definition de_set_session (s : string) (d : DirEntry) : DirEntry :=
  mkDirEntry (de_LockIndex d) (de_Key d) (de_Flags d) (de_Value d) s (de_CreateIndex d) (de_ModifyIndex d).
Definition de_set_lock (l : N) (d : DirEntry) : DirEntry :=
  mkDirEntry l (de_Key d) (de_Flags d) (de_Value d) (de_Session d) (de_CreateIndex d) (de_ModifyIndex d).
Definition de_set_value (v : string) (d : DirEntry) : DirEntry :=
  mkDirEntry (de_LockIndex d) (de_Key d) (de_Flags d) v (de_Session d) (de_CreateIndex d) (de_ModifyIndex d).

Record Tombstone := mkTombstone { ts_Key : string; ts_Index : N }.
#[export] Instance Tombstone_eq_dec : EqDecision Tombstone.
Proof. solve_decision. Defined.

Record IndexEntry := mkIndexEntry { ie_Key : string; ie_Value : N }.
#[export] Instance IndexEntry_eq_dec : EqDecision IndexEntry.
Proof. solve_decision. Defined.

(** ** Sessions *)

Definition SessionKeysRelease : string := "release".
Definition SessionKeysDelete : string := "delete".

(** [MaxLockDelay = 60 * time.Second], in nanoseconds. *)
Definition MaxLockDelay : Z := 60000000000.

Record Session := mkSession {
  sess_ID : string;
  sess_Name : string;
  sess_Node : string;
  sess_Checks : list string;
  sess_LockDelay : Z;
  sess_Behavior : string;
  sess_TTL : string;
  sess_CreateIndex : N;
  sess_ModifyIndex : N
}.
#[export] Instance Session_eq_dec : EqDecision Session.
Proof. solve_decision. Defined.

Record sessionCheck := mkSessionCheck { sc_Node : string; sc_CheckID : string; sc_Session : string }.
#[export] Instance sessionCheck_eq_dec : EqDecision sessionCheck.
Proof. solve_decision. Defined.

(** ** Catalog *)

Record Node := mkNode {
  node_ID : string;
  node_Node : string;
  node_Address : string;
  node_Datacenter : string;
  node_TaggedAddresses : option (gmap string string);
  node_Meta : option (gmap string string);
  node_CreateIndex : N;
  node_ModifyIndex : N
}.
#[export] Instance Node_eq_dec : EqDecision Node.
Proof. solve_decision. Defined.

(** [Node.IsSame]. *)
Definition Node_IsSame (n other : Node) : bool :=
  bool_decide (node_ID n = node_ID other) &&
  bool_decide (node_Node n = node_Node other) &&
  bool_decide (node_Address n = node_Address other) &&
  bool_decide (node_Datacenter n = node_Datacenter other) &&
  bool_decide (node_TaggedAddresses n = node_TaggedAddresses other) &&
  bool_decide (node_Meta n = node_Meta other).

Definition node_set_indexes (create modify : N) (n : Node) : Node :=
  mkNode (node_ID n) (node_Node n) (node_Address n) (node_Datacenter n)
    (node_TaggedAddresses n) (node_Meta n) create modify.

Definition ServiceKindTypical : string := "".
Definition ServiceKindConnectProxy : string := "connect-proxy".
Definition ServiceKindMeshGateway : string := "mesh-gateway".

Record ServiceAddress := mkServiceAddress { sa_Address : string; sa_Port : Z }.
#[export] Instance ServiceAddress_eq_dec : EqDecision ServiceAddress.
Proof. solve_decision. Defined.

Record Weights := mkWeights { w_Passing : Z; w_Warning : Z }.
#[export] Instance Weights_eq_dec : EqDecision Weights.
Proof. solve_decision. Defined.

(** [ServiceConnect]: a nested SidecarService is expanded by the agent and is
    nil in a request that reaches the servers. *)
Record ServiceConnect := mkServiceConnect { sco_Native : bool }.
#[export] Instance ServiceConnect_eq_dec : EqDecision ServiceConnect.
Proof. solve_decision. Defined.

(** [ServiceNode], including the node-related fields that are empty in the
    store and filled in on the way out. *)
Record ServiceNode := mkServiceNode {
  sn_ID : string;
  sn_Node : string;
  sn_Address : string;
  sn_Datacenter : string;
  sn_TaggedAddresses : option (gmap string string);
  sn_NodeMeta : option (gmap string string);
  sn_ServiceKind : string;
  sn_ServiceID : string;
  sn_ServiceName : string;
  sn_ServiceTags : option (list string);
  sn_ServiceAddress : string;
  sn_ServiceTaggedAddresses : option (gmap string ServiceAddress);
  sn_ServiceWeights : Weights;
  sn_ServiceMeta : option (gmap string string);
  sn_ServicePort : Z;
  sn_ServiceEnableTagOverride : bool;
  sn_ServiceProxy : ConnectProxyConfig;
  sn_ServiceConnect : ServiceConnect;
  sn_CreateIndex : N;
  sn_ModifyIndex : N
}.
#[export] Instance ServiceNode_eq_dec : EqDecision ServiceNode.
Proof. solve_decision. Defined.

Record NodeService := mkNodeService {
  ns_Kind : string;
  ns_ID : string;
  ns_Service : string;
  ns_Tags : option (list string);
  ns_Address : string;
  ns_TaggedAddresses : option (gmap string ServiceAddress);
  ns_Meta : option (gmap string string);
  ns_Port : Z;
  ns_Weights : option Weights;
  ns_EnableTagOverride : bool;
  ns_Proxy : ConnectProxyConfig;
  ns_Connect : ServiceConnect;
  ns_CreateIndex : N;
  ns_ModifyIndex : N
}.
#[export] Instance NodeService_eq_dec : EqDecision NodeService.
Proof. solve_decision. Defined.

(** [ServiceNode.PartialClone]. *)
Definition ServiceNode_PartialClone (s : ServiceNode) : ServiceNode := {|
  sn_ID := ""; sn_Node := sn_Node s; sn_Address := ""; sn_Datacenter := "";
  sn_TaggedAddresses := None; sn_NodeMeta := None;
  sn_ServiceKind := sn_ServiceKind s;
  sn_ServiceID := sn_ServiceID s;
  sn_ServiceName := sn_ServiceName s;
  sn_ServiceTags := Some (default [] (sn_ServiceTags s));
  sn_ServiceAddress := sn_ServiceAddress s;
  sn_ServiceTaggedAddresses :=
    match sn_ServiceTaggedAddresses s with
    | Some m => if decide (size m = 0) then None else Some m
    | None => None
    end;
  sn_ServiceWeights := sn_ServiceWeights s;
  sn_ServiceMeta := Some (default ∅ (sn_ServiceMeta s));
  sn_ServicePort := sn_ServicePort s;
  sn_ServiceEnableTagOverride := sn_ServiceEnableTagOverride s;
  sn_ServiceProxy := sn_ServiceProxy s;
  sn_ServiceConnect := sn_ServiceConnect s;
  sn_CreateIndex := sn_CreateIndex s;
  sn_ModifyIndex := sn_ModifyIndex s
|}.

(** [ServiceNode.ToNodeService]. *)
Definition ServiceNode_ToNodeService (s : ServiceNode) : NodeService := {|
  ns_Kind := sn_ServiceKind s;
  ns_ID := sn_ServiceID s;
  ns_Service := sn_ServiceName s;
  ns_Tags := sn_ServiceTags s;
  ns_Address := sn_ServiceAddress s;
  ns_TaggedAddresses := sn_ServiceTaggedAddresses s;
  ns_Meta := sn_ServiceMeta s;
  ns_Port := sn_ServicePort s;
  ns_Weights := Some (sn_ServiceWeights s);
  ns_EnableTagOverride := sn_ServiceEnableTagOverride s;
  ns_Proxy := sn_ServiceProxy s;
  ns_Connect := sn_ServiceConnect s;
  ns_CreateIndex := sn_CreateIndex s;
  ns_ModifyIndex := sn_ModifyIndex s
|}.

(** [ValidateWeights]. *)
Definition ValidateWeights (w : option Weights) : outcome unit :=
  match w with
  | None => Ok tt
  | Some w =>
      if (w_Passing w <? 1)%Z then Err (EMsg "Passing must be greater than 0" [])
      else if (w_Warning w <? 0)%Z then Err (EMsg "Warning must be greater or equal than 0" [])
      else if ((65535 <? w_Passing w) || (65535 <? w_Warning w))%Z
      then Err (EMsg "DNS Weight must be between 0 and 65535" [])
      else Ok tt
  end.

(** [NodeService.ToServiceNode]. *)
Definition NodeService_ToServiceNode (s : NodeService) (node : string) : ServiceNode :=
  let theWeights :=
    match ns_Weights s with
    | Some w => if is_ok (ValidateWeights (Some w)) then w else mkWeights 1 1
    | None => mkWeights 1 1
    end in
  {| sn_ID := ""; sn_Node := node; sn_Address := ""; sn_Datacenter := "";
     sn_TaggedAddresses := None; sn_NodeMeta := None;
     sn_ServiceKind := ns_Kind s;
     sn_ServiceID := ns_ID s;
     sn_ServiceName := ns_Service s;
     sn_ServiceTags := ns_Tags s;
     sn_ServiceAddress := ns_Address s;
     sn_ServiceTaggedAddresses := ns_TaggedAddresses s;
     sn_ServiceWeights := theWeights;
     sn_ServiceMeta := ns_Meta s;
     sn_ServicePort := ns_Port s;
     sn_ServiceEnableTagOverride := ns_EnableTagOverride s;
     sn_ServiceProxy := ns_Proxy s;
     sn_ServiceConnect := ns_Connect s;
     sn_CreateIndex := ns_CreateIndex s;
     sn_ModifyIndex := ns_ModifyIndex s |}.

(** [NodeService.IsSame]: the Raft indexes are not compared. *)
Definition NodeService_IsSame (s other : NodeService) : bool :=
  bool_decide (ns_ID s = ns_ID other) &&
  bool_decide (ns_Service s = ns_Service other) &&
  bool_decide (ns_Tags s = ns_Tags other) &&
  bool_decide (ns_Address s = ns_Address other) &&
  bool_decide (ns_Port s = ns_Port other) &&
  bool_decide (ns_TaggedAddresses s = ns_TaggedAddresses other) &&
  bool_decide (ns_Weights s = ns_Weights other) &&
  bool_decide (ns_Meta s = ns_Meta other) &&
  bool_decide (ns_EnableTagOverride s = ns_EnableTagOverride other) &&
  bool_decide (ns_Kind s = ns_Kind other) &&
  bool_decide (ns_Proxy s = ns_Proxy other) &&
  bool_decide (ns_Connect s = ns_Connect other).

(** [ServiceNode.IsSameService]. *)
Definition ServiceNode_IsSameService (s other : ServiceNode) : bool :=
  bool_decide (sn_ID s = sn_ID other) &&
  bool_decide (sn_Node s = sn_Node other) &&
  bool_decide (sn_ServiceKind s = sn_ServiceKind other) &&
  bool_decide (sn_ServiceID s = sn_ServiceID other) &&
  bool_decide (sn_ServiceName s = sn_ServiceName other) &&
  bool_decide (sn_ServiceTags s = sn_ServiceTags other) &&
  bool_decide (sn_ServiceAddress s = sn_ServiceAddress other) &&
  bool_decide (sn_ServiceTaggedAddresses s = sn_ServiceTaggedAddresses other) &&
  bool_decide (sn_ServicePort s = sn_ServicePort other) &&
  bool_decide (sn_ServiceMeta s = sn_ServiceMeta other) &&
  bool_decide (sn_ServiceWeights s = sn_ServiceWeights other) &&
  bool_decide (sn_ServiceEnableTagOverride s = sn_ServiceEnableTagOverride other) &&
  bool_decide (sn_ServiceProxy s = sn_ServiceProxy other) &&
  bool_decide (sn_ServiceConnect s = sn_ServiceConnect other).

Definition sn_set_indexes (create modify : N) (s : ServiceNode) : ServiceNode :=
  mkServiceNode (sn_ID s) (sn_Node s) (sn_Address s) (sn_Datacenter s) (sn_TaggedAddresses s)
    (sn_NodeMeta s) (sn_ServiceKind s) (sn_ServiceID s) (sn_ServiceName s) (sn_ServiceTags s)
    (sn_ServiceAddress s) (sn_ServiceTaggedAddresses s) (sn_ServiceWeights s) (sn_ServiceMeta s)
    (sn_ServicePort s) (sn_ServiceEnableTagOverride s) (sn_ServiceProxy s) (sn_ServiceConnect s)
    create modify.

Definition sn_fill_node (n : Node) (s : ServiceNode) : ServiceNode :=
  mkServiceNode (node_ID n) (sn_Node s) (node_Address n) (node_Datacenter n) (node_TaggedAddresses n)
    (node_Meta n) (sn_ServiceKind s) (sn_ServiceID s) (sn_ServiceName s) (sn_ServiceTags s)
    (sn_ServiceAddress s) (sn_ServiceTaggedAddresses s) (sn_ServiceWeights s) (sn_ServiceMeta s)
    (sn_ServicePort s) (sn_ServiceEnableTagOverride s) (sn_ServiceProxy s) (sn_ServiceConnect s)
    (sn_CreateIndex s) (sn_ModifyIndex s).

(** ** Health checks *)

Definition HealthCritical : string := "critical".
Definition HealthPassing : string := "passing".
Definition HealthWarning : string := "warning".
Definition HealthAny : string := "any".
Definition SerfCheckID : string := "serfHealth".

(** [HealthCheck]. *)
Record HealthCheck := mkHealthCheck {
  hc_Node : string;
  hc_CheckID : string;
  hc_Name : string;
  hc_Status : string;
  hc_Notes : string;
  hc_Output : string;
  hc_ServiceID : string;
  hc_ServiceName : string;
  hc_ServiceTags : option (list string);
  hc_Type : string;
  hc_Definition : HealthCheckDefinition;
  hc_CreateIndex : N;
  hc_ModifyIndex : N
}.
#[export] Instance HealthCheck_eq_dec : EqDecision HealthCheck.
Proof. solve_decision. Defined.

(** [HealthCheck.IsSame]; note that [Type] is not compared. *)
Definition HealthCheck_IsSame (c other : HealthCheck) : bool :=
  bool_decide (hc_Node c = hc_Node other) &&
  bool_decide (hc_CheckID c = hc_CheckID other) &&
  bool_decide (hc_Name c = hc_Name other) &&
  bool_decide (hc_Status c = hc_Status other) &&
  bool_decide (hc_Notes c = hc_Notes other) &&
  bool_decide (hc_Output c = hc_Output other) &&
  bool_decide (hc_ServiceID c = hc_ServiceID other) &&
  bool_decide (hc_ServiceName c = hc_ServiceName other) &&
  bool_decide (hc_ServiceTags c = hc_ServiceTags other) &&
  bool_decide (hc_Definition c = hc_Definition other).

(** [HealthCheck.Clone]. *)
Definition HealthCheck_Clone (c : HealthCheck) : HealthCheck := c.

Definition hc_set_indexes (create modify : N) (c : HealthCheck) : HealthCheck :=
  mkHealthCheck (hc_Node c) (hc_CheckID c) (hc_Name c) (hc_Status c) (hc_Notes c) (hc_Output c)
    (hc_ServiceID c) (hc_ServiceName c) (hc_ServiceTags c) (hc_Type c) (hc_Definition c) create modify.
Definition hc_set_status (st : string) (c : HealthCheck) : HealthCheck :=
  mkHealthCheck (hc_Node c) (hc_CheckID c) (hc_Name c) st (hc_Notes c) (hc_Output c)
    (hc_ServiceID c) (hc_ServiceName c) (hc_ServiceTags c) (hc_Type c) (hc_Definition c)
    (hc_CreateIndex c) (hc_ModifyIndex c).
Definition hc_set_service (name : string) (tags : option (list string)) (c : HealthCheck) : HealthCheck :=
  mkHealthCheck (hc_Node c) (hc_CheckID c) (hc_Name c) (hc_Status c) (hc_Notes c) (hc_Output c)
    (hc_ServiceID c) name tags (hc_Type c) (hc_Definition c) (hc_CreateIndex c) (hc_ModifyIndex c).

(** ** Node metadata (ValidateMetadata, SatisfiesMetaFilters) *)

Definition meta_key_char (c : ascii) : bool :=
  let n := N_of_ascii c in
  (((48 <=? n) && (n <=? 57)) || ((65 <=? n) && (n <=? 90)) ||
   ((97 <=? n) && (n <=? 122)) || (n =? 95) || (n =? 45))%N.
(** [metaKeyFormat]: the regexp [^[a-zA-Z0-9_-]+$]. *)
Fixpoint all_chars (P : ascii → bool) (s : string) : bool :=
  match s with EmptyString => true | String c s => P c && all_chars P s end.
Definition metaKeyFormat (s : string) : bool :=
  bool_decide (s ≠ "") && all_chars meta_key_char s.

(** [validateMetaPair] with the limits [metaKeyMaxLength = 128] and
    [metaValueMaxLength = 512] and the reserved prefix "consul-". *)
Definition validateMetaPair (key value : string) (allowConsulPrefix : bool) : outcome unit :=
  if decide (key = "") then Err (EMsg "Key cannot be blank" [])
  else if negb (metaKeyFormat key) then Err (EMsg "Key contains invalid characters" [])
  else if (128 <? String.length key)%nat then Err (EMsg "Key is too long" [])
  else if String.prefix "consul-" key && negb allowConsulPrefix
  then Err (EMsg "Key prefix is reserved for internal use" [])
  else if (512 <? String.length value)%nat then Err (EMsg "Value is too long" [])
  else Ok tt.

(** [ValidateMetadata] ([metaMaxKeyPairs = 64]).  The loop ranges over the map
    in an order of the runtime and its error names the first bad pair it meets,
    [validate_pairs] on that order; the error of the model is all of these,
    [EAnyOf] (lemma [ValidateMetadata_any_order] of [FsmFacts]). *)
Fixpoint validate_pairs (allowConsulPrefix : bool) (l : list (string * string)) : outcome unit :=
  match l with
  | [] => Ok tt
  | (k, v) :: l =>
      match validateMetaPair k v allowConsulPrefix with
      | Ok _ => validate_pairs allowConsulPrefix l
      | Err e => Err (EWrap "Couldn't load metadata pair" [k; v] e)
      | Panic w => Panic w
      end
  end.
Definition bad_pairs (allowConsulPrefix : bool) (l : list (string * string)) : list error :=
  omap (λ kv, match validate_pairs allowConsulPrefix [kv] with Err e => Some e | _ => None end) l.
Definition ValidateMetadata (meta : option (gmap string string)) (allowConsulPrefix : bool) : outcome unit :=
  let m := default ∅ meta in
  if (64 <? size m)%nat then Err (EMsg "Node metadata cannot contain more than 64 key/value pairs" [])
  else match bad_pairs allowConsulPrefix (map_to_list m) with [] => Ok tt | errs => Err (EAnyOf errs) end.

(** [SatisfiesMetaFilters]. *)
Definition SatisfiesMetaFilters (meta : option (gmap string string)) (filters : gmap string string) : bool :=
  forallb (λ '(key, value), bool_decide (default ∅ meta !! key = Some value)) (map_to_list filters).

(** ** Registration requests *)

Record RegisterRequest := mkRegisterRequest {
  rr_Datacenter : string;
  rr_ID : string;
  rr_Node : string;
  rr_Address : string;
  rr_TaggedAddresses : option (gmap string string);
  rr_NodeMeta : option (gmap string string);
  rr_Service : option NodeService;
  rr_Check : option HealthCheck;
  rr_Checks : list HealthCheck;
  rr_SkipNodeUpdate : bool
}.

(** [RegisterRequest.ChangesNode]. *)
Definition RegisterRequest_ChangesNode (r : RegisterRequest) (node : option Node) : bool :=
  match node with
  | None => true
  | Some node =>
      if rr_SkipNodeUpdate r then false
      else bool_decide (rr_ID r ≠ node_ID node) || bool_decide (rr_Node r ≠ node_Node node) ||
           bool_decide (rr_Address r ≠ node_Address node) ||
           bool_decide (rr_Datacenter r ≠ node_Datacenter node) ||
           bool_decide (rr_TaggedAddresses r ≠ node_TaggedAddresses node) ||
           bool_decide (rr_NodeMeta r ≠ node_Meta node)
  end.

Record DeregisterRequest := mkDeregisterRequest {
  dr_Datacenter : string; dr_Node : string; dr_ServiceID : string; dr_CheckID : string
}.

(** ** Prepared queries and coordinates, as far as sessions and nodes touch them *)

Record PreparedQuery := mkPreparedQuery {
  pq_ID : string;
  pq_Name : string;
  pq_Session : string;
  pq_Token : string;
  pq_Template_Type : string;
  pq_rest : string;
  pq_CreateIndex : N;
  pq_ModifyIndex : N
}.
#[export] Instance PreparedQuery_eq_dec : EqDecision PreparedQuery.
Proof. solve_decision. Defined.

(** [Coordinate]; [Coord] is a Serf Vivaldi coordinate, of which only its
    own [IsValid] is consulted. *)
Record Coordinate := mkCoordinate {
  co_Node : string; co_Segment : string; co_IsValid : bool; co_rest : string
}.
#[export] Instance Coordinate_eq_dec : EqDecision Coordinate.
Proof. solve_decision. Defined.
