(* ===== verification/ConnectTables.v ===== *)
(** * Intentions, the Connect CA and autopilot: their records and tables

    The structs of agent/structs/intention.go, agent/structs/connect_ca.go and
    agent/consul/autopilot/structs.go that the state store keeps, and the
    schemas of their tables (state/intention.go, state/connect_ca.go,
    state/autopilot.go).  A [time.Time] is a [Z]; an arbitrary configuration
    map ([map[string]interface{}]), which the store only carries, is its
    canonical encoding. *)

From S2P Require Import Prelude Memdb.

(** ** Intentions *)

Definition IntentionWildcard : string := "*".
Definition IntentionDefaultNamespace : string := "default".
Definition IntentionActionAllow : string := "allow".
Definition IntentionActionDeny : string := "deny".
Definition IntentionSourceConsul : string := "consul".

Record Intention := mkIntention {
  ixn_ID : string;
  ixn_Description : string;
  ixn_SourceNS : string;
  ixn_SourceName : string;
  ixn_DestinationNS : string;
  ixn_DestinationName : string;
  ixn_SourceType : string;
  ixn_Action : string;
  ixn_DefaultAddr : string;
  ixn_DefaultPort : Z;
  ixn_Meta : option (gmap string string);
  ixn_Precedence : Z;
  ixn_CreatedAt : Z;
  ixn_UpdatedAt : Z;
  ixn_Hash : option string;
  ixn_CreateIndex : N;
  ixn_ModifyIndex : N
}.
#[export] Instance Intention_eq_dec : EqDecision Intention.
Proof. solve_decision. Defined.

Definition ixn_set_precedence (p : Z) (x : Intention) : Intention :=
  mkIntention (ixn_ID x) (ixn_Description x) (ixn_SourceNS x) (ixn_SourceName x) (ixn_DestinationNS x)
    (ixn_DestinationName x) (ixn_SourceType x) (ixn_Action x) (ixn_DefaultAddr x) (ixn_DefaultPort x)
    (ixn_Meta x) p (ixn_CreatedAt x) (ixn_UpdatedAt x) (ixn_Hash x) (ixn_CreateIndex x) (ixn_ModifyIndex x).
Definition ixn_set_indexes (created : Z) (create modify : N) (x : Intention) : Intention :=
  mkIntention (ixn_ID x) (ixn_Description x) (ixn_SourceNS x) (ixn_SourceName x) (ixn_DestinationNS x)
    (ixn_DestinationName x) (ixn_SourceType x) (ixn_Action x) (ixn_DefaultAddr x) (ixn_DefaultPort x)
    (ixn_Meta x) (ixn_Precedence x) created (ixn_UpdatedAt x) (ixn_Hash x) create modify.
Definition ixn_set_meta (m : option (gmap string string)) (x : Intention) : Intention :=
  mkIntention (ixn_ID x) (ixn_Description x) (ixn_SourceNS x) (ixn_SourceName x) (ixn_DestinationNS x)
    (ixn_DestinationName x) (ixn_SourceType x) (ixn_Action x) (ixn_DefaultAddr x) (ixn_DefaultPort x)
    m (ixn_Precedence x) (ixn_CreatedAt x) (ixn_UpdatedAt x) (ixn_Hash x) (ixn_CreateIndex x) (ixn_ModifyIndex x).

Definition intentions_destination_index : IndexSchema Intention :=
  mkIndex "destination" false true (λ x,
    compound_index false "" [string_index true (ixn_DestinationNS x); string_index true (ixn_DestinationName x)]).
Definition intentions_source_index : IndexSchema Intention :=
  mkIndex "source" false true (λ x,
    compound_index false "" [string_index true (ixn_SourceNS x); string_index true (ixn_SourceName x)]).
Definition intentions_source_destination_index : IndexSchema Intention :=
  mkIndex "source_destination" true true (λ x,
    compound_index false "" [string_index true (ixn_SourceNS x); string_index true (ixn_SourceName x);
                             string_index true (ixn_DestinationNS x); string_index true (ixn_DestinationName x)]).
#[export] Instance intentionsTableSchema : TableSchema Intention := {|
  table_name := "connect-intentions";
  table_id x := uuid_index (ixn_ID x);
  table_indexes := [intentions_destination_index; intentions_source_index; intentions_source_destination_index]
|}.

(** ** The Connect CA *)

Record CARoot := mkCARoot {
  car_ID : string;
  car_Name : string;
  car_SerialNumber : N;
  car_SigningKeyID : string;
  car_ExternalTrustDomain : string;
  car_NotBefore : Z;
  car_NotAfter : Z;
  car_RootCert : string;
  car_IntermediateCerts : list string;
  car_SigningCert : string;
  car_SigningKey : string;
  car_Active : bool;
  car_RotatedOutAt : Z;
  car_PrivateKeyType : string;
  car_PrivateKeyBits : Z;
  car_CreateIndex : N;
  car_ModifyIndex : N
}.
#[export] Instance CARoot_eq_dec : EqDecision CARoot.
Proof. solve_decision. Defined.
Definition car_set_indexes (create modify : N) (r : CARoot) : CARoot :=
  mkCARoot (car_ID r) (car_Name r) (car_SerialNumber r) (car_SigningKeyID r) (car_ExternalTrustDomain r)
    (car_NotBefore r) (car_NotAfter r) (car_RootCert r) (car_IntermediateCerts r) (car_SigningCert r)
    (car_SigningKey r) (car_Active r) (car_RotatedOutAt r) (car_PrivateKeyType r) (car_PrivateKeyBits r)
    create modify.
#[export] Instance caRootTableSchema : TableSchema CARoot := {|
  table_name := "connect-ca-roots";
  table_id r := string_index false (car_ID r);
  table_indexes := []
|}.

Record CAConfiguration := mkCAConfiguration {
  cac_ClusterID : string;
  cac_Provider : string;
  cac_Config : string;
  cac_CreateIndex : N;
  cac_ModifyIndex : N
}.
#[export] Instance CAConfiguration_eq_dec : EqDecision CAConfiguration.
Proof. solve_decision. Defined.

(** [ConditionalIndex] with the condition "true": one row, always overwritten. *)
Definition one_row : string := String "001" "".
#[export] Instance caConfigTableSchema : TableSchema CAConfiguration := {|
  table_name := "connect-ca-config";
  table_id _ := FoVals [one_row];
  table_indexes := []
|}.

Record CAConsulProviderState := mkCAConsulProviderState {
  cap_ID : string;
  cap_PrivateKey : string;
  cap_RootCert : string;
  cap_IntermediateCert : string;
  cap_CreateIndex : N;
  cap_ModifyIndex : N
}.
#[export] Instance CAConsulProviderState_eq_dec : EqDecision CAConsulProviderState.
Proof. solve_decision. Defined.
#[export] Instance caBuiltinProviderTableSchema : TableSchema CAConsulProviderState := {|
  table_name := "connect-ca-builtin";
  table_id s := string_index false (cap_ID s);
  table_indexes := []
|}.

(** ** Autopilot *)

Record AutopilotConfig := mkAutopilotConfig {
  ap_CleanupDeadServers : bool;
  ap_LastContactThreshold : Z;
  ap_MaxTrailingLogs : N;
  ap_MinQuorum : N;
  ap_ServerStabilizationTime : Z;
  ap_CreateIndex : N;
  ap_ModifyIndex : N
}.
#[export] Instance AutopilotConfig_eq_dec : EqDecision AutopilotConfig.
Proof. solve_decision. Defined.
#[export] Instance autopilotConfigTableSchema : TableSchema AutopilotConfig := {|
  table_name := "autopilot-config";
  table_id _ := FoVals [one_row];
  table_indexes := []
|}.
