(* ===== verification/AclTables.v ===== *)
(** * ACL tokens, policies, roles, binding rules and auth methods

    The structs of agent/structs/acl.go and acl_legacy.go that the state store
    keeps, and the schemas of their tables with their indexers
    (state/acl.go).  A [time.Time] is a [Z], in nanoseconds since the Unix
    epoch.  [SanitizeLegacyACLTokenRules] and [SanitizeLegacyACLToken] do
    nothing in the open-source build and are left out. *)

From S2P Require Import Prelude Memdb.

(** The zero [time.Time]: January 1 of the year 1. *)
Definition zero_time : Z := -62135596800000000000.
(** [Time.Unix]. *)
Definition time_unix (t : Z) : Z := t / 1000000000.

Definition ACLPolicyGlobalManagementID : string := "00000000-0000-0000-0000-000000000001".
Definition ACLTokenAnonymousID : string := "00000000-0000-0000-0000-000000000002".

(** ** Structs *)

Record ACLTokenPolicyLink := mkTokenPolicyLink { tpl_ID : string; tpl_Name : string }.
#[export] Instance ACLTokenPolicyLink_eq_dec : EqDecision ACLTokenPolicyLink.
Proof. solve_decision. Defined.
Record ACLTokenRoleLink := mkTokenRoleLink { trl_ID : string; trl_Name : string }.
#[export] Instance ACLTokenRoleLink_eq_dec : EqDecision ACLTokenRoleLink.
Proof. solve_decision. Defined.
Record ACLRolePolicyLink := mkRolePolicyLink { rpl_ID : string; rpl_Name : string }.
#[export] Instance ACLRolePolicyLink_eq_dec : EqDecision ACLRolePolicyLink.
Proof. solve_decision. Defined.
Record ACLServiceIdentity := mkServiceIdentity { asi_ServiceName : string; asi_Datacenters : list string }.
#[export] Instance ACLServiceIdentity_eq_dec : EqDecision ACLServiceIdentity.
Proof. solve_decision. Defined.

Record ACLToken := mkACLToken {
  act_AccessorID : string;
  act_SecretID : string;
  act_Description : string;
  act_Policies : list ACLTokenPolicyLink;
  act_Roles : list ACLTokenRoleLink;
  act_ServiceIdentities : list ACLServiceIdentity;
  act_Type : string;
  act_Rules : string;
  act_Local : bool;
  act_AuthMethod : string;
  act_ExpirationTime : option Z;
  act_ExpirationTTL : Z;
  act_CreateTime : Z;
  act_Hash : option string;
  act_CreateIndex : N;
  act_ModifyIndex : N
}.
#[export] Instance ACLToken_eq_dec : EqDecision ACLToken.
Proof. solve_decision. Defined.

Definition act_set_links (ps : list ACLTokenPolicyLink) (rs : list ACLTokenRoleLink) (t : ACLToken) : ACLToken :=
  mkACLToken (act_AccessorID t) (act_SecretID t) (act_Description t) ps rs (act_ServiceIdentities t)
    (act_Type t) (act_Rules t) (act_Local t) (act_AuthMethod t) (act_ExpirationTime t) (act_ExpirationTTL t)
    (act_CreateTime t) (act_Hash t) (act_CreateIndex t) (act_ModifyIndex t).
Definition act_set_accessor (a : string) (t : ACLToken) : ACLToken :=
  mkACLToken a (act_SecretID t) (act_Description t) (act_Policies t) (act_Roles t) (act_ServiceIdentities t)
    (act_Type t) (act_Rules t) (act_Local t) (act_AuthMethod t) (act_ExpirationTime t) (act_ExpirationTTL t)
    (act_CreateTime t) (act_Hash t) (act_CreateIndex t) (act_ModifyIndex t).
Definition act_set_indexes (create modify : N) (t : ACLToken) : ACLToken :=
  mkACLToken (act_AccessorID t) (act_SecretID t) (act_Description t) (act_Policies t) (act_Roles t)
    (act_ServiceIdentities t) (act_Type t) (act_Rules t) (act_Local t) (act_AuthMethod t)
    (act_ExpirationTime t) (act_ExpirationTTL t) (act_CreateTime t) (act_Hash t) create modify.

(** [ACLToken.HasExpirationTime]. *)
Definition HasExpirationTime (t : ACLToken) : bool :=
  match act_ExpirationTime t with None => false | Some e => bool_decide (e ≠ zero_time) end.
(** [ACLToken.IsExpired]. *)
Definition IsExpired (t : ACLToken) (asOf : Z) : bool :=
  if bool_decide (asOf = zero_time) || negb (HasExpirationTime t) then false
  else bool_decide (default 0 (act_ExpirationTime t) < asOf)%Z.
(** [ACLToken.UsesNonLegacyFields]. *)
Definition UsesNonLegacyFields (t : ACLToken) : bool :=
  (0 <? length (act_Policies t))%nat || (0 <? length (act_ServiceIdentities t))%nat ||
  (0 <? length (act_Roles t))%nat || bool_decide (act_Type t = "") || HasExpirationTime t ||
  bool_decide (act_ExpirationTTL t ≠ 0%Z) || bool_decide (act_AuthMethod t ≠ "").

Record ACLPolicy := mkACLPolicy {
  acp_ID : string;
  acp_Name : string;
  acp_Description : string;
  acp_Rules : string;
  acp_Syntax : Z;
  acp_Datacenters : list string;
  acp_Hash : option string;
  acp_CreateIndex : N;
  acp_ModifyIndex : N;
}.
#[export] Instance ACLPolicy_eq_dec : EqDecision ACLPolicy.
Proof. solve_decision. Defined.
Definition acp_set_indexes (create modify : N) (p : ACLPolicy) : ACLPolicy :=
  mkACLPolicy (acp_ID p) (acp_Name p) (acp_Description p) (acp_Rules p) (acp_Syntax p) (acp_Datacenters p)
    (acp_Hash p) create modify.

Record ACLRole := mkACLRole {
  acr_ID : string;
  acr_Name : string;
  acr_Description : string;
  acr_Policies : list ACLRolePolicyLink;
  acr_ServiceIdentities : list ACLServiceIdentity;
  acr_Hash : option string;
  acr_CreateIndex : N;
  acr_ModifyIndex : N
}.
#[export] Instance ACLRole_eq_dec : EqDecision ACLRole.
Proof. solve_decision. Defined.
Definition acr_set_policies (ps : list ACLRolePolicyLink) (r : ACLRole) : ACLRole :=
  mkACLRole (acr_ID r) (acr_Name r) (acr_Description r) ps (acr_ServiceIdentities r) (acr_Hash r)
    (acr_CreateIndex r) (acr_ModifyIndex r).
Definition acr_set_indexes (create modify : N) (r : ACLRole) : ACLRole :=
  mkACLRole (acr_ID r) (acr_Name r) (acr_Description r) (acr_Policies r) (acr_ServiceIdentities r)
    (acr_Hash r) create modify.

Record ACLBindingRule := mkACLBindingRule {
  abr_ID : string;
  abr_Description : string;
  abr_AuthMethod : string;
  abr_Selector : string;
  abr_BindType : string;
  abr_BindName : string;
  abr_CreateIndex : N;
  abr_ModifyIndex : N
}.
#[export] Instance ACLBindingRule_eq_dec : EqDecision ACLBindingRule.
Proof. solve_decision. Defined.
Definition abr_set_indexes (create modify : N) (r : ACLBindingRule) : ACLBindingRule :=
  mkACLBindingRule (abr_ID r) (abr_Description r) (abr_AuthMethod r) (abr_Selector r) (abr_BindType r)
    (abr_BindName r) create modify.

(** [ACLAuthMethod]; [Config] is carried as its canonical encoding. *)
Record ACLAuthMethod := mkACLAuthMethod {
  aam_Name : string;
  aam_Type : string;
  aam_Description : string;
  aam_Config : string;
  aam_CreateIndex : N;
  aam_ModifyIndex : N
}.
#[export] Instance ACLAuthMethod_eq_dec : EqDecision ACLAuthMethod.
Proof. solve_decision. Defined.
Definition aam_set_indexes (create modify : N) (m : ACLAuthMethod) : ACLAuthMethod :=
  mkACLAuthMethod (aam_Name m) (aam_Type m) (aam_Description m) (aam_Config m) create modify.

(** [ACL]: a token of the first ACL system. *)
Record ACL := mkACL {
  acl_ID : string;
  acl_Name : string;
  acl_Type : string;
  acl_Rules : string;
  acl_CreateIndex : N;
  acl_ModifyIndex : N
}.
(** [ACL.Convert]. *)
Definition ACL_Convert (a : ACL) : ACLToken :=
  mkACLToken "" (acl_ID a) (acl_Name a) [] [] [] (acl_Type a) (acl_Rules a) false "" None 0 zero_time None
    (acl_CreateIndex a) (acl_ModifyIndex a).
(** [ACLToken.Convert]. *)
Definition ACLToken_Convert (t : ACLToken) : outcome ACL :=
  if decide (act_Type t = "") then Err (EMsg "Cannot convert ACLToken into compat token" [])
  else Ok (mkACL (act_SecretID t) (act_Description t) (act_Type t) (act_Rules t) (act_CreateIndex t) (act_ModifyIndex t)).

(** ** Indexers *)

(** [TokenPoliciesIndex], [TokenRolesIndex] and [RolePoliciesIndex] on the
    identifiers of the links. *)
Definition links_index (ids : list string) : from_object :=
  match ids with [] => FoMissing | _ => FoVals ((λ id, id +:+ nul) <$> ids) end.
Definition TokenPoliciesIndex_FromObject (t : ACLToken) : from_object := links_index (tpl_ID <$> act_Policies t).
Definition TokenRolesIndex_FromObject (t : ACLToken) : from_object := links_index (trl_ID <$> act_Roles t).
Definition RolePoliciesIndex_FromObject (r : ACLRole) : from_object := links_index (rpl_ID <$> acr_Policies r).
Definition links_args (id : string) : string := id +:+ nul.

(** [TokenExpirationIndex.encodeTime] and [FromObject]. *)
Definition encodeTime (t : Z) : string := be64 (Z.to_N (time_unix t mod 18446744073709551616)).
Definition TokenExpirationIndex_FromObject (LocalFilter : bool) (t : ACLToken) : from_object :=
  if bool_decide (LocalFilter ≠ act_Local t) then FoMissing
  else if negb (HasExpirationTime t) then FoMissing
  else
    let e := default 0%Z (act_ExpirationTime t) in
    if (time_unix e <? 0)%Z
    then FoErr (EMsg "token expiration time cannot be before the unix epoch" [])
    else FoVals [encodeTime e].

(** ** Schemas *)

Definition tokens_accessor_index : IndexSchema ACLToken :=
  mkIndex "accessor" true true (λ t, uuid_index (act_AccessorID t)).
Definition tokens_policies_index : IndexSchema ACLToken := mkIndex "policies" false true TokenPoliciesIndex_FromObject.
Definition tokens_roles_index : IndexSchema ACLToken := mkIndex "roles" false true TokenRolesIndex_FromObject.
Definition tokens_authmethod_index : IndexSchema ACLToken :=
  mkIndex "authmethod" false true (λ t, string_index false (act_AuthMethod t)).
Definition tokens_local_index : IndexSchema ACLToken :=
  mkIndex "local" false false (λ t, conditional_index (act_Local t)).
Definition tokens_expires_index (local : bool) : IndexSchema ACLToken :=
  mkIndex (if local then "expires-local" else "expires-global") false true (TokenExpirationIndex_FromObject local).
Definition tokens_needs_upgrade_index : IndexSchema ACLToken :=
  mkIndex "needs-upgrade" false false (λ t, conditional_index (bool_decide (act_AccessorID t = ""))).
#[export] Instance tokensTableSchema : TableSchema ACLToken := {|
  table_name := "acl-tokens";
  table_id t := string_index false (act_SecretID t);
  table_indexes := [tokens_accessor_index; tokens_policies_index; tokens_roles_index; tokens_authmethod_index;
                    tokens_local_index; tokens_expires_index false; tokens_expires_index true;
                    tokens_needs_upgrade_index]
|}.

Definition policies_name_index : IndexSchema ACLPolicy :=
  mkIndex "name" true false (λ p, string_index true (acp_Name p)).
#[export] Instance policiesTableSchema : TableSchema ACLPolicy := {|
  table_name := "acl-policies";
  table_id p := uuid_index (acp_ID p);
  table_indexes := [policies_name_index]
|}.

Definition roles_name_index : IndexSchema ACLRole :=
  mkIndex "name" true false (λ r, string_index true (acr_Name r)).
Definition roles_policies_index : IndexSchema ACLRole := mkIndex "policies" false true RolePoliciesIndex_FromObject.
#[export] Instance rolesTableSchema : TableSchema ACLRole := {|
  table_name := "acl-roles";
  table_id r := uuid_index (acr_ID r);
  table_indexes := [roles_name_index; roles_policies_index]
|}.

Definition binding_rules_authmethod_index : IndexSchema ACLBindingRule :=
  mkIndex "authmethod" false false (λ r, string_index true (abr_AuthMethod r)).
#[export] Instance bindingRulesTableSchema : TableSchema ACLBindingRule := {|
  table_name := "acl-binding-rules";
  table_id r := uuid_index (abr_ID r);
  table_indexes := [binding_rules_authmethod_index]
|}.

#[export] Instance authMethodsTableSchema : TableSchema ACLAuthMethod := {|
  table_name := "acl-auth-methods";
  table_id m := string_index true (aam_Name m);
  table_indexes := []
|}.
