(* ===== verification/ConfigEntries.v ===== *)
(** * Config entries (agent/structs/config_entry.go,
      config_entry_discoverychain.go)

    The centralized configuration of services and proxies, and the routers,
    splitters and resolvers from which discovery chains are compiled: their
    structs, normalization, validation and the services they refer to.

    Weights are [float32] and computed as such: [f32] is the IEEE 754 model of
    the standard library at 24 bits of precision. *)

From Stdlib Require Export Floats.SpecFloat.
From S2P Require Import Prelude Memdb ProxyConfig.

(** ** [float32] and the conversions of Go *)

Definition f32 : Type := spec_float.
#[export] Instance spec_float_eq_dec : EqDecision spec_float.
Proof. solve_decision. Defined.
(** [float32(z)] of an integer. *)
Definition f32_of_Z (z : Z) : f32 := binary_normalize 24 128 z 0 false.
Definition f32_mul : f32 → f32 → f32 := SFmul 24 128.
Definition f32_div : f32 → f32 → f32 := SFdiv 24 128.
(** [math.Round(float64(v))]: half away from zero; [None] for NaN and the
    infinities.  The conversion to [float64] is exact. *)
Definition round_half_away (m e : Z) : Z :=
  if decide (0 ≤ e)%Z then (m * 2 ^ e)%Z else ((m + 2 ^ (- e - 1)) / 2 ^ (- e))%Z.
Definition math_Round (v : f32) : option Z :=
  match v with
  | S754_zero _ => Some 0%Z
  | S754_finite s m e =>
      let r := round_half_away (Zpos m) e in Some (if s then (- r)%Z else r)
  | _ => None
  end.
Definition int64_range (z : Z) : bool := bool_decide (- 2 ^ 63 ≤ z < 2 ^ 63)%Z.
(** [int] arithmetic wraps at 64 bits. *)
Definition int64_add (a b : Z) : Z := ((a + b + 2 ^ 63) mod 2 ^ 64 - 2 ^ 63)%Z.

(** What Go leaves open and what the compiler of discovery chains takes from
    outside the repository. *)
Class CompilerEnv := {
  (** [int(f)] for a value that does not fit, which depends on the machine. *)
  int_overflow : f32 → Z;
  (** The order in which the [n]th loop over a map ranges over its keys. *)
  range_order : nat → list string → list string;
  (** mapstructure's [WeakDecode] of the field "protocol" out of the
      configuration of the proxies; empty when it fails. *)
  decode_protocol : string → string;
  (** hashstructure's [Hash] of a mesh gateway mode, a protocol and a timeout. *)
  hash_customization : string → string → Z → error + N
}.
(** The runtime ranges over every key once. *)
Class CompilerEnvLaws `{CompilerEnv} : Prop :=
  range_order_perm : ∀ n l, range_order n l ≡ₚ l.

(** An environment for examples: loops over maps run in a given order. *)
Definition sample_env (order : list string → list string) : CompilerEnv := {|
  int_overflow _ := (- 2 ^ 63)%Z;
  range_order _ := order;
  decode_protocol _ := "";
  hash_customization _ _ _ := inr 4294967296%N
|}.

Section float.
Context `{CompilerEnv}.

(** [scaleWeight] and [NormalizeServiceSplitWeight]. *)
Definition scaleWeight (v : f32) : Z :=
  let x := f32_mul v (f32_of_Z 100) in
  match math_Round x with
  | Some z => if int64_range z then z else int_overflow x
  | None => int_overflow x
  end.
Definition NormalizeServiceSplitWeight (weight : f32) : f32 :=
  f32_div (f32_of_Z (scaleWeight weight)) (f32_of_Z 100).
End float.

(** ** Service and proxy defaults *)

Definition ServiceDefaults : string := "service-defaults".
Definition ProxyDefaults : string := "proxy-defaults".
Definition ServiceRouter : string := "service-router".
Definition ServiceSplitter : string := "service-splitter".
Definition ServiceResolver : string := "service-resolver".
Definition ProxyConfigGlobal : string := "global".

Record RaftIndex := mkRaftIndex { CreateIndex : N; ModifyIndex : N }.
#[export] Instance RaftIndex_eq_dec : EqDecision RaftIndex.
Proof. solve_decision. Defined.

Record ServiceConfigEntry := mkServiceConfig {
  scfg_Kind : string;
  scfg_Name : string;
  scfg_Protocol : string;
  scfg_MeshGateway : MeshGatewayConfig;
  scfg_Expose : ExposeConfig;
  scfg_ExternalSNI : string;
  scfg_RaftIndex : RaftIndex
}.
#[export] Instance ServiceConfigEntry_eq_dec : EqDecision ServiceConfigEntry.
Proof. solve_decision. Defined.

(** The configuration map of the proxies is its canonical encoding. *)
Record ProxyConfigEntry := mkProxyConfig {
  pcfg_Kind : string;
  pcfg_Name : string;
  pcfg_Config : string;
  pcfg_MeshGateway : MeshGatewayConfig;
  pcfg_Expose : ExposeConfig;
  pcfg_RaftIndex : RaftIndex
}.
#[export] Instance ProxyConfigEntry_eq_dec : EqDecision ProxyConfigEntry.
Proof. solve_decision. Defined.

(** ** Routers *)

Record ServiceRouteHTTPMatchHeader := mkHeaderMatch {
  hm_Name : string;
  hm_Present : bool;
  hm_Exact : string;
  hm_Prefix : string;
  hm_Suffix : string;
  hm_Regex : string;
  hm_Invert : bool
}.
#[export] Instance ServiceRouteHTTPMatchHeader_eq_dec : EqDecision ServiceRouteHTTPMatchHeader.
Proof. solve_decision. Defined.
Record ServiceRouteHTTPMatchQueryParam := mkQueryParamMatch {
  qm_Name : string;
  qm_Present : bool;
  qm_Exact : string;
  qm_Regex : string
}.
#[export] Instance ServiceRouteHTTPMatchQueryParam_eq_dec : EqDecision ServiceRouteHTTPMatchQueryParam.
Proof. solve_decision. Defined.
Record ServiceRouteHTTPMatch := mkHTTPMatch {
  http_PathExact : string;
  http_PathPrefix : string;
  http_PathRegex : string;
  http_Header : list ServiceRouteHTTPMatchHeader;
  http_QueryParam : list ServiceRouteHTTPMatchQueryParam;
  http_Methods : list string
}.
#[export] Instance ServiceRouteHTTPMatch_eq_dec : EqDecision ServiceRouteHTTPMatch.
Proof. solve_decision. Defined.
(** Pointers are options. *)
Record ServiceRouteMatch := mkRouteMatch { rm_HTTP : option ServiceRouteHTTPMatch }.
#[export] Instance ServiceRouteMatch_eq_dec : EqDecision ServiceRouteMatch.
Proof. solve_decision. Defined.
Record ServiceRouteDestination := mkDestination {
  dst_Service : string;
  dst_ServiceSubset : string;
  dst_Namespace : string;
  dst_PrefixRewrite : string;
  dst_RequestTimeout : Z;
  dst_NumRetries : N;
  dst_RetryOnConnectFailure : bool;
  dst_RetryOnStatusCodes : list N
}.
#[export] Instance ServiceRouteDestination_eq_dec : EqDecision ServiceRouteDestination.
Proof. solve_decision. Defined.
Record ServiceRoute := mkRoute {
  route_Match : option ServiceRouteMatch;
  route_Destination : option ServiceRouteDestination
}.
#[export] Instance ServiceRoute_eq_dec : EqDecision ServiceRoute.
Proof. solve_decision. Defined.
Record ServiceRouterConfigEntry := mkRouter {
  rtr_Kind : string;
  rtr_Name : string;
  rtr_Routes : list ServiceRoute;
  rtr_RaftIndex : RaftIndex
}.
#[export] Instance ServiceRouterConfigEntry_eq_dec : EqDecision ServiceRouterConfigEntry.
Proof. solve_decision. Defined.

(** ** Splitters *)

Record ServiceSplit := mkSplit {
  spl_Weight : f32;
  spl_Service : string;
  spl_ServiceSubset : string;
  spl_Namespace : string
}.
#[export] Instance ServiceSplit_eq_dec : EqDecision ServiceSplit.
Proof. solve_decision. Defined.
Record ServiceSplitterConfigEntry := mkSplitter {
  spr_Kind : string;
  spr_Name : string;
  spr_Splits : list ServiceSplit;
  spr_RaftIndex : RaftIndex
}.
#[export] Instance ServiceSplitterConfigEntry_eq_dec : EqDecision ServiceSplitterConfigEntry.
Proof. solve_decision. Defined.

(** ** Resolvers *)

Record ServiceResolverSubset := mkSubset { sub_Filter : string; sub_OnlyPassing : bool }.
#[export] Instance ServiceResolverSubset_eq_dec : EqDecision ServiceResolverSubset.
Proof. solve_decision. Defined.
Record ServiceResolverRedirect := mkRedirect {
  rd_Service : string;
  rd_ServiceSubset : string;
  rd_Namespace : string;
  rd_Datacenter : string
}.
#[export] Instance ServiceResolverRedirect_eq_dec : EqDecision ServiceResolverRedirect.
Proof. solve_decision. Defined.
Record ServiceResolverFailover := mkFailover {
  fo_Service : string;
  fo_ServiceSubset : string;
  fo_Namespace : string;
  fo_Datacenters : list string
}.
#[export] Instance ServiceResolverFailover_eq_dec : EqDecision ServiceResolverFailover.
Proof. solve_decision. Defined.
Record ServiceResolverConfigEntry := mkResolver {
  rsv_Kind : string;
  rsv_Name : string;
  rsv_DefaultSubset : string;
  rsv_Subsets : gmap string ServiceResolverSubset;
  rsv_Redirect : option ServiceResolverRedirect;
  rsv_Failover : gmap string ServiceResolverFailover;
  rsv_ConnectTimeout : Z;
  rsv_RaftIndex : RaftIndex
}.
#[export] Instance ServiceResolverConfigEntry_eq_dec : EqDecision ServiceResolverConfigEntry.
Proof. solve_decision. Defined.

(** [SubsetExists] and [IsDefault]. *)
Definition SubsetExists (e : ServiceResolverConfigEntry) (name : string) : bool :=
  bool_decide (name = "") || bool_decide (is_Some (rsv_Subsets e !! name)).
Definition Resolver_IsDefault (e : ServiceResolverConfigEntry) : bool :=
  bool_decide (rsv_DefaultSubset e = "") && bool_decide (rsv_Subsets e = ∅) &&
  bool_decide (rsv_Redirect e = None) && bool_decide (rsv_Failover e = ∅) &&
  bool_decide (rsv_ConnectTimeout e = 0%Z).

(** ** The interface [ConfigEntry] *)

Inductive ConfigEntry :=
| CEService (e : ServiceConfigEntry)
| CEProxy (e : ProxyConfigEntry)
| CERouter (e : ServiceRouterConfigEntry)
| CESplitter (e : ServiceSplitterConfigEntry)
| CEResolver (e : ServiceResolverConfigEntry).
#[export] Instance ConfigEntry_eq_dec : EqDecision ConfigEntry.
Proof. solve_decision. Defined.

(** [GetKind], [GetName] and [GetRaftIndex]. *)
Definition GetKind (c : ConfigEntry) : string :=
  match c with
  | CEService _ => ServiceDefaults
  | CEProxy _ => ProxyDefaults
  | CERouter _ => ServiceRouter
  | CESplitter _ => ServiceSplitter
  | CEResolver _ => ServiceResolver
  end.
Definition GetName (c : ConfigEntry) : string :=
  match c with
  | CEService e => scfg_Name e
  | CEProxy e => pcfg_Name e
  | CERouter e => rtr_Name e
  | CESplitter e => spr_Name e
  | CEResolver e => rsv_Name e
  end.
Definition GetRaftIndex (c : ConfigEntry) : RaftIndex :=
  match c with
  | CEService e => scfg_RaftIndex e
  | CEProxy e => pcfg_RaftIndex e
  | CERouter e => rtr_RaftIndex e
  | CESplitter e => spr_RaftIndex e
  | CEResolver e => rsv_RaftIndex e
  end.
(** Assigning through the pointer [GetRaftIndex] returns. *)
Definition SetRaftIndex (r : RaftIndex) (c : ConfigEntry) : ConfigEntry :=
  match c with
  | CEService e => CEService (mkServiceConfig (scfg_Kind e) (scfg_Name e) (scfg_Protocol e) (scfg_MeshGateway e)
      (scfg_Expose e) (scfg_ExternalSNI e) r)
  | CEProxy e => CEProxy (mkProxyConfig (pcfg_Kind e) (pcfg_Name e) (pcfg_Config e) (pcfg_MeshGateway e)
      (pcfg_Expose e) r)
  | CERouter e => CERouter (mkRouter (rtr_Kind e) (rtr_Name e) (rtr_Routes e) r)
  | CESplitter e => CESplitter (mkSplitter (spr_Kind e) (spr_Name e) (spr_Splits e) r)
  | CEResolver e => CEResolver (mkResolver (rsv_Kind e) (rsv_Name e) (rsv_DefaultSubset e) (rsv_Subsets e)
      (rsv_Redirect e) (rsv_Failover e) (rsv_ConnectTimeout e) r)
  end.
(** [MakeConfigEntry] and [ValidateConfigEntryKind]. *)
Definition ValidateConfigEntryKind (kind : string) : bool :=
  bool_decide (kind ∈ [ServiceDefaults; ProxyDefaults; ServiceRouter; ServiceSplitter; ServiceResolver]).
Definition no_raft : RaftIndex := mkRaftIndex 0 0.
Definition MakeConfigEntry (kind name : string) : outcome ConfigEntry :=
  if decide (kind = ServiceDefaults)
  then Ok (CEService (mkServiceConfig "" name "" (mkMeshGateway "") no_expose "" no_raft))
  else if decide (kind = ProxyDefaults)
  then Ok (CEProxy (mkProxyConfig "" name "" (mkMeshGateway "") no_expose no_raft))
  else if decide (kind = ServiceRouter) then Ok (CERouter (mkRouter "" name [] no_raft))
  else if decide (kind = ServiceSplitter) then Ok (CESplitter (mkSplitter "" name [] no_raft))
  else if decide (kind = ServiceResolver) then Ok (CEResolver (mkResolver "" name "" ∅ None ∅ 0 no_raft))
  else Err (EMsg "invalid config entry kind: %s" [kind]).

(** ** [ListRelatedServices] *)

(** The keys of a set of names, sorted. *)
Definition sorted_names (l : list string) : list string := merge_sort String.le (remove_dups l).
Definition nonempty (s : string) : bool := bool_decide (s ≠ "").

Definition Router_ListRelatedServices (e : ServiceRouterConfigEntry) : list string :=
  sorted_names (rtr_Name e ::
    filter (λ s, s ≠ "") (omap (λ r, dst_Service <$> route_Destination r) (rtr_Routes e))).
Definition Splitter_ListRelatedServices (e : ServiceSplitterConfigEntry) : list string :=
  sorted_names (filter (λ s, s ≠ "") (spl_Service <$> spr_Splits e)).
Definition Resolver_ListRelatedServices (e : ServiceResolverConfigEntry) : list string :=
  sorted_names (filter (λ s, s ≠ "")
    (match rsv_Redirect e with Some r => [rd_Service r] | None => [] end ++
     ((λ kf, fo_Service kf.2) <$> map_to_list (rsv_Failover e)))).
(** The entries that implement [discoveryChainConfigEntry]. *)
Definition ListRelatedServices (c : ConfigEntry) : option (list string) :=
  match c with
  | CERouter e => Some (Router_ListRelatedServices e)
  | CESplitter e => Some (Splitter_ListRelatedServices e)
  | CEResolver e => Some (Resolver_ListRelatedServices e)
  | _ => None
  end.

(** ** The table (configTableSchema of state/config_entry.go) *)

(** The field [Kind], which [Normalize] sets to [GetKind]. *)
Definition Kind (c : ConfigEntry) : string :=
  match c with
  | CEService e => scfg_Kind e
  | CEProxy e => pcfg_Kind e
  | CERouter e => rtr_Kind e
  | CESplitter e => spr_Kind e
  | CEResolver e => rsv_Kind e
  end.
(** [ConfigEntryLinkIndex.FromObject]: kind and name are indexed without
    regard to case, links as they are. *)
Definition ConfigEntryLinkIndex_FromObject (c : ConfigEntry) : from_object :=
  match ListRelatedServices c with
  | None => FoMissing
  | Some [] => FoMissing
  | Some linkedServices => FoVals ((λ s, s +:+ nul) <$> linkedServices)
  end.
Definition config_kind_index : IndexSchema ConfigEntry :=
  mkIndex "kind" false false (λ c, string_index true (Kind c)).
Definition config_link_index : IndexSchema ConfigEntry :=
  mkIndex "link" false true ConfigEntryLinkIndex_FromObject.
#[export] Instance configTableSchema : TableSchema ConfigEntry := {|
  table_name := "config-entries";
  table_id c := compound_index false "" [string_index true (Kind c); string_index true (GetName c)];
  table_indexes := [config_kind_index; config_link_index]
|}.
