(* ===== verification/ConfigValidate.v ===== *)
(** * Normalizing and validating config entries (agent/structs/config_entry.go,
      config_entry_discoverychain.go)

    What the RPC endpoint runs on an entry before it proposes it to the log
    (agent/consul/config_endpoint.go, [Apply]). *)

From S2P Require Import Prelude Memdb ProxyConfig ConfigEntries.

(** Go's [strings.ToUpper] on ASCII, and [strings.HasPrefix(s, "/")]. *)
Definition upper_ascii (c : ascii) : ascii :=
  let n := N_of_ascii c in
  if ((97 <=? n) && (n <=? 122))%N then ascii_of_N (n - 32) else c.
Fixpoint to_upper (s : string) : string :=
  match s with
  | EmptyString => EmptyString
  | String c s => String (upper_ascii c) (to_upper s)
  end.
Definition rooted (s : string) : bool := String.prefix "/" s.
(** How many of the conditions hold: [parts++] under each of them. *)
Definition parts (l : list bool) : nat := length (filter (λ b, b = true) l).
(** The indexes in an error message. *)
Fixpoint decimal_digits (fuel : nat) (n : N) (acc : string) : string :=
  match fuel with
  | O => acc
  | S fuel =>
      let acc := String (ascii_of_N (48 + n mod 10)) acc in
      if (n <? 10)%N then acc else decimal_digits fuel (n / 10) acc
  end.
Definition itoa (n : nat) : string := decimal_digits (S n) (N.of_nat n) "".
(** The loop [for i, x := range l] whose body may return an error. *)
Fixpoint each_from {A} (i : nat) (body : nat → A → outcome unit) (l : list A) : outcome unit :=
  match l with
  | [] => Ok tt
  | x :: l => obind (body i x) (λ _, each_from (S i) body l)
  end.
Abbreviation each := (each_from 0).
Definition require (b : bool) (e : error) : outcome unit := if b then Ok tt else Err e.

(** ** Normalize *)

Definition ServiceConfigEntry_Normalize (e : ServiceConfigEntry) : ServiceConfigEntry :=
  mkServiceConfig ServiceDefaults (scfg_Name e) (to_lower (scfg_Protocol e)) (scfg_MeshGateway e)
    (scfg_Expose e) (scfg_ExternalSNI e) (scfg_RaftIndex e).
Definition ProxyConfigEntry_Normalize (e : ProxyConfigEntry) : ProxyConfigEntry :=
  mkProxyConfig ProxyDefaults ProxyConfigGlobal (pcfg_Config e) (pcfg_MeshGateway e) (pcfg_Expose e)
    (pcfg_RaftIndex e).
Definition normalize_route (r : ServiceRoute) : ServiceRoute :=
  match route_Match r with
  | Some (mkRouteMatch (Some h)) =>
      mkRoute (Some (mkRouteMatch (Some (mkHTTPMatch (http_PathExact h) (http_PathPrefix h) (http_PathRegex h)
        (http_Header h) (http_QueryParam h) (to_upper <$> http_Methods h))))) (route_Destination r)
  | _ => r
  end.
Definition ServiceRouterConfigEntry_Normalize (e : ServiceRouterConfigEntry) : ServiceRouterConfigEntry :=
  mkRouter ServiceRouter (rtr_Name e) (normalize_route <$> rtr_Routes e) (rtr_RaftIndex e).
Definition ServiceSplitterConfigEntry_Normalize `{CompilerEnv} (e : ServiceSplitterConfigEntry) :
    ServiceSplitterConfigEntry :=
  mkSplitter ServiceSplitter (spr_Name e)
    ((λ s, mkSplit (NormalizeServiceSplitWeight (spl_Weight s)) (spl_Service s) (spl_ServiceSubset s)
             (spl_Namespace s)) <$> spr_Splits e) (spr_RaftIndex e).
Definition ServiceResolverConfigEntry_Normalize (e : ServiceResolverConfigEntry) : ServiceResolverConfigEntry :=
  mkResolver ServiceResolver (rsv_Name e) (rsv_DefaultSubset e) (rsv_Subsets e) (rsv_Redirect e)
    (rsv_Failover e) (rsv_ConnectTimeout e) (rsv_RaftIndex e).
Definition Normalize `{CompilerEnv} (c : ConfigEntry) : ConfigEntry :=
  match c with
  | CEService e => CEService (ServiceConfigEntry_Normalize e)
  | CEProxy e => CEProxy (ProxyConfigEntry_Normalize e)
  | CERouter e => CERouter (ServiceRouterConfigEntry_Normalize e)
  | CESplitter e => CESplitter (ServiceSplitterConfigEntry_Normalize e)
  | CEResolver e => CEResolver (ServiceResolverConfigEntry_Normalize e)
  end.

(** ** Validate *)

Definition ProxyConfigEntry_Validate (e : ProxyConfigEntry) : outcome unit :=
  require (bool_decide (pcfg_Name e = ProxyConfigGlobal))
    (EMsg "invalid name (%q), only %q is supported" [pcfg_Name e; ProxyConfigGlobal]).

Definition validate_header (i j : nat) (hdr : ServiceRouteHTTPMatchHeader) : outcome unit :=
  obind (require (nonempty (hm_Name hdr)) (EMsg "Route[%d] Header[%d] missing required Name field" [itoa i; itoa j]))
  (λ _, require (parts [hm_Present hdr; nonempty (hm_Exact hdr); nonempty (hm_Regex hdr); nonempty (hm_Prefix hdr);
                        nonempty (hm_Suffix hdr)] =? 1)%nat
    (EMsg "Route[%d] Header[%d] should only contain one of Present, Exact, Prefix, Suffix, or Regex"
       [itoa i; itoa j])).
Definition validate_query_param (i j : nat) (qm : ServiceRouteHTTPMatchQueryParam) : outcome unit :=
  obind (require (nonempty (qm_Name qm)) (EMsg "Route[%d] QueryParam[%d] missing required Name field" [itoa i; itoa j]))
  (λ _, require (parts [qm_Present qm; nonempty (qm_Exact qm); nonempty (qm_Regex qm)] =? 1)%nat
    (EMsg "Route[%d] QueryParam[%d] should only contain one of Present, Exact, or Regex" [itoa i; itoa j])).
(** The set [found] of the methods already seen. *)
Fixpoint validate_methods (i : nat) (found : gset string) (methods : list string) : outcome unit :=
  match methods with
  | [] => Ok tt
  | m :: methods =>
      obind (require (bool_decide (m ∉ found)) (EMsg "Route[%d] Methods contains %q more than once" [itoa i; m]))
        (λ _, validate_methods i ({[m]} ∪ found) methods)
  end.
Definition validate_http (i : nat) (h : ServiceRouteHTTPMatch) : outcome unit :=
  let path ok s msg := require (negb (nonempty s) || ok) (EMsg msg [itoa i; s]) in
  obind (path (rooted (http_PathExact h)) (http_PathExact h) "Route[%d] PathExact doesn't start with '/': %q") (λ _,
  obind (path (rooted (http_PathPrefix h)) (http_PathPrefix h) "Route[%d] PathPrefix doesn't start with '/': %q") (λ _,
  obind (require (parts [nonempty (http_PathExact h); nonempty (http_PathPrefix h); nonempty (http_PathRegex h)] <=? 1)%nat
    (EMsg "Route[%d] should only contain at most one of PathExact, PathPrefix, or PathRegex" [itoa i])) (λ _,
  obind (each (validate_header i) (http_Header h)) (λ _,
  obind (each (validate_query_param i) (http_QueryParam h)) (λ _,
  validate_methods i ∅ (http_Methods h)))))).
(** [eligibleForPrefixRewrite]. *)
Definition prefix_rewritable (r : ServiceRoute) : bool :=
  match route_Match r with
  | Some (mkRouteMatch (Some h)) => nonempty (http_PathExact h) || nonempty (http_PathPrefix h)
  | _ => false
  end.
Definition validate_route (i : nat) (route : ServiceRoute) : outcome unit :=
  obind (match route_Match route with
         | Some (mkRouteMatch (Some h)) => validate_http i h
         | _ => Ok tt
         end) (λ _,
  match route_Destination route with
  | Some d =>
      require (negb (nonempty (dst_PrefixRewrite d)) || prefix_rewritable route)
        (EMsg "Route[%d] cannot make use of PrefixRewrite without configuring either PathExact or PathPrefix" [itoa i])
  | None => Ok tt
  end).
Definition ServiceRouterConfigEntry_Validate (e : ServiceRouterConfigEntry) : outcome unit :=
  obind (require (nonempty (rtr_Name e)) (EMsg "Name is required" []))
    (λ _, each validate_route (rtr_Routes e)).

(** The set [found] holds the splits without their weights. *)
Fixpoint validate_distinct (name : string) (found : list (string * string * string)) (splits : list ServiceSplit) :
    outcome unit :=
  match splits with
  | [] => Ok tt
  | s :: splits =>
      let service := if decide (spl_Service s = "") then name else spl_Service s in
      let key := (service, spl_ServiceSubset s, spl_Namespace s) in
      obind (require (bool_decide (key ∉ found))
        (EMsg "split destination occurs more than once: service=%q, subset=%q, namespace=%q"
           [service; spl_ServiceSubset s; spl_Namespace s]))
        (λ _, validate_distinct name (key :: found) splits)
  end.
Definition maxScaledWeight : Z := 100 * 100.
Definition sumScaled `{CompilerEnv} (splits : list ServiceSplit) : Z :=
  fold_left (λ sum s, int64_add sum (scaleWeight (spl_Weight s))) splits 0%Z.
Definition ServiceSplitterConfigEntry_Validate `{CompilerEnv} (e : ServiceSplitterConfigEntry) : outcome unit :=
  obind (require (nonempty (spr_Name e)) (EMsg "Name is required" [])) (λ _,
  obind (require (negb (length (spr_Splits e) =? 0)%nat) (EMsg "no splits configured" [])) (λ _,
  obind (validate_distinct (spr_Name e) [] (spr_Splits e)) (λ _,
  require (bool_decide (sumScaled (spr_Splits e) = maxScaledWeight))
    (EMsg "the sum of all split weights must be 100, not %f" [])))).

(** [validateServiceSubset]: the regular expression
    [^[a-z0-9]([a-z0-9-]*[a-z0-9])?$]. *)
Definition lower_alnum (c : ascii) : bool :=
  let n := N_of_ascii c in (((97 <=? n) && (n <=? 122)) || ((48 <=? n) && (n <=? 57)))%N.
Definition valid_label (s : string) : bool :=
  let l := Stdlib.Strings.String.list_ascii_of_string s in
  forallb (λ c, lower_alnum c || Ascii.eqb c "-") l &&
  match head l, head (rev l) with Some a, Some b => lower_alnum a && lower_alnum b | _, _ => false end.
Definition validateServiceSubset (subset : string) : outcome unit :=
  obind (require (nonempty subset && (String.length subset <=? 63)%nat)
    (EMsg "must be non-empty and 63 characters or fewer" [])) (λ _,
  require (valid_label subset)
    (EMsg "must be 63 characters or fewer, begin or end with lower case alphanumeric characters, and contain lower case alphanumeric characters or '-' in between" [])).

Definition isSubset (e : ServiceResolverConfigEntry) (subset : string) : bool :=
  bool_decide (is_Some (rsv_Subsets e !! subset)).
Definition validate_redirect (e : ServiceResolverConfigEntry) (r : ServiceResolverRedirect) : outcome unit :=
  obind (require (bool_decide (rsv_Failover e = ∅)) (EMsg "Redirect and Failover cannot both be set" [])) (λ _,
  obind (require (nonempty (rd_Service r) || nonempty (rd_ServiceSubset r) || nonempty (rd_Namespace r) ||
                  nonempty (rd_Datacenter r)) (EMsg "Redirect is empty" [])) (λ _,
  if decide (rd_Service r = "") then
    obind (require (bool_decide (rd_ServiceSubset r = ""))
      (EMsg "Redirect.ServiceSubset defined without Redirect.Service" [])) (λ _,
    require (bool_decide (rd_Namespace r = "")) (EMsg "Redirect.Namespace defined without Redirect.Service" []))
  else if decide (rd_Service r = rsv_Name e) then
    require (bool_decide (rd_ServiceSubset r = "") || isSubset e (rd_ServiceSubset r))
      (EMsg "Redirect.ServiceSubset %q is not a valid subset of %q" [rd_ServiceSubset r; rd_Service r])
  else Ok tt)).
Definition validate_failover (e : ServiceResolverConfigEntry) (subset : string) (f : ServiceResolverFailover) :
    outcome unit :=
  obind (require (bool_decide (subset = "*") || isSubset e subset)
    (EMsg "Bad Failover[%q]: not a valid subset" [subset])) (λ _,
  obind (require (nonempty (fo_Service f) || nonempty (fo_ServiceSubset f) || nonempty (fo_Namespace f) ||
                  negb (length (fo_Datacenters f) =? 0)%nat)
    (EMsg "Bad Failover[%q] one of Service, ServiceSubset, Namespace, or Datacenters is required" [subset])) (λ _,
  obind (require (bool_decide (fo_ServiceSubset f = "") ||
                  negb (bool_decide (fo_Service f = "") || bool_decide (fo_Service f = rsv_Name e)) ||
                  isSubset e (fo_ServiceSubset f))
    (EMsg "Bad Failover[%q].ServiceSubset %q is not a valid subset of %q" [subset; fo_ServiceSubset f; fo_Service f])) (λ _,
  require (forallb nonempty (fo_Datacenters f))
    (EMsg "Bad Failover[%q].Datacenters: found empty datacenter" [subset])))).
(** The maps are ranged over in the order of their listing; another order can
    only report another of the errors. *)
Definition ServiceResolverConfigEntry_Validate (e : ServiceResolverConfigEntry) : outcome unit :=
  obind (require (nonempty (rsv_Name e)) (EMsg "Name is required" [])) (λ _,
  obind (each (λ _ '(name, _),
           obind (require (nonempty name) (EMsg "Subset defined with empty name" []))
             (λ _, match validateServiceSubset name with
                   | Err c => Err (EWrap "Subset %q is invalid: %v" [name] c)
                   | r => r
                   end)) (map_to_list (rsv_Subsets e))) (λ _,
  obind (require (bool_decide (rsv_DefaultSubset e = "") || isSubset e (rsv_DefaultSubset e))
    (EMsg "DefaultSubset %q is not a valid subset" [rsv_DefaultSubset e])) (λ _,
  obind (match rsv_Redirect e with Some r => validate_redirect e r | None => Ok tt end) (λ _,
  obind (each (λ _ '(subset, f), validate_failover e subset f) (map_to_list (rsv_Failover e))) (λ _,
  require (bool_decide (0 ≤ rsv_ConnectTimeout e)%Z)
    (EMsg "Bad ConnectTimeout '%s', must be >= 0" [])))))).

Definition Validate `{CompilerEnv} (c : ConfigEntry) : outcome unit :=
  match c with
  | CEService _ => Ok tt
  | CEProxy e => ProxyConfigEntry_Validate e
  | CERouter e => ServiceRouterConfigEntry_Validate e
  | CESplitter e => ServiceSplitterConfigEntry_Validate e
  | CEResolver e => ServiceResolverConfigEntry_Validate e
  end.
