(* ===== verification/DiscoveryChain.v ===== *)
(** * The compiler of discovery chains (agent/consul/discoverychain/compile.go)

    [Compile] turns the config entries around a service into a graph of
    routers, splitters and resolvers.  The compiler is an object with mutable
    fields: the monad is [M compiler].

    Nodes and targets are shared by pointer.  Every recorded node is in
    [c_nodes] under its [MapKey], and every target in [c_loadedTargets] under
    its ID, so a pointer is that key and a mutation an update of the entry.

    Loops.  [RESOLVE_AGAIN] and the recursion of [getSplitterNode] have fuel
    that the config entries bound ([resolve_fuel], [splitter_fuel]); the
    search for cycles can visit a node once per path to it, so it is driven
    for up to [2 ^ k] steps ([drive]).  That no loop runs out of fuel is a
    theorem. *)

From S2P Require Import Prelude Memdb ProxyConfig ConfigEntries.

(** ** The structs (agent/structs/discovery_chain.go) *)

(** [DiscoveryChainConfigEntries]; its maps hold no nil pointers. *)
Record DiscoveryChainConfigEntries := mkEntries {
  Routers : gmap string ServiceRouterConfigEntry;
  Splitters : gmap string ServiceSplitterConfigEntry;
  Resolvers : gmap string ServiceResolverConfigEntry;
  Services : gmap string ServiceConfigEntry;
  GlobalProxy : option ProxyConfigEntry
}.
Definition NewDiscoveryChainConfigEntries : DiscoveryChainConfigEntries := mkEntries ∅ ∅ ∅ ∅ None.
Definition GetRouter (e : DiscoveryChainConfigEntries) (name : string) := Routers e !! name.
Definition GetSplitter (e : DiscoveryChainConfigEntries) (name : string) := Splitters e !! name.
Definition GetResolver (e : DiscoveryChainConfigEntries) (name : string) := Resolvers e !! name.
Definition GetService (e : DiscoveryChainConfigEntries) (name : string) := Services e !! name.
Definition IsChainEmpty (e : DiscoveryChainConfigEntries) : bool :=
  bool_decide (Routers e = ∅) && bool_decide (Splitters e = ∅) && bool_decide (Resolvers e = ∅).
Definition Entries_IsEmpty (e : DiscoveryChainConfigEntries) : bool :=
  IsChainEmpty e && bool_decide (Services e = ∅) && bool_decide (GlobalProxy e = None).

(** The three values of [DiscoveryGraphNode.Type]. *)
Inductive NodeType := NodeRouter | NodeSplitter | NodeResolver.
#[export] Instance NodeType_eq_dec : EqDecision NodeType.
Proof. solve_decision. Defined.
Definition NodeType_string (t : NodeType) : string :=
  match t with NodeRouter => "router" | NodeSplitter => "splitter" | NodeResolver => "resolver" end.

Record DiscoveryRoute := mkDRoute { dr_Definition : ServiceRoute; dr_NextNode : string }.
Record DiscoverySplit := mkDSplit { ds_Weight : f32; ds_NextNode : string }.
(** [Failover] is nil or a list of target IDs. *)
Record DiscoveryResolver := mkDResolver {
  res_Default : bool;
  res_ConnectTimeout : Z;
  res_Target : string;
  res_Failover : option (list string)
}.
Record DiscoveryGraphNode := mkGraphNode {
  gn_Type : NodeType;
  gn_Name : string;
  gn_Routes : list DiscoveryRoute;
  gn_Splits : list DiscoverySplit;
  gn_Resolver : option DiscoveryResolver
}.
Definition MapKey (n : DiscoveryGraphNode) : string := NodeType_string (gn_Type n) +:+ ":" +:+ gn_Name n.
Definition IsRouter (n : DiscoveryGraphNode) : bool := bool_decide (gn_Type n = NodeRouter).
Definition IsSplitter (n : DiscoveryGraphNode) : bool := bool_decide (gn_Type n = NodeSplitter).
Definition IsResolver (n : DiscoveryGraphNode) : bool := bool_decide (gn_Type n = NodeResolver).
Definition set_splits (l : list DiscoverySplit) (n : DiscoveryGraphNode) : DiscoveryGraphNode :=
  mkGraphNode (gn_Type n) (gn_Name n) (gn_Routes n) l (gn_Resolver n).

Record DiscoveryTarget := mkTarget {
  tg_ID : string;
  tg_Service : string;
  tg_ServiceSubset : string;
  tg_Namespace : string;
  tg_Datacenter : string;
  tg_MeshGateway : MeshGatewayConfig;
  tg_Subset : ServiceResolverSubset;
  tg_External : bool;
  tg_SNI : string;
  tg_Name : string
}.
(** [setID] and [NewDiscoveryTarget]. *)
Definition target_ID (service subset namespace datacenter : string) : string :=
  if decide (subset = "") then service +:+ "." +:+ namespace +:+ "." +:+ datacenter
  else subset +:+ "." +:+ service +:+ "." +:+ namespace +:+ "." +:+ datacenter.
Definition no_subset : ServiceResolverSubset := mkSubset "" false.
Definition NewDiscoveryTarget (service subset namespace datacenter : string) : DiscoveryTarget :=
  mkTarget (target_ID service subset namespace datacenter) service subset namespace datacenter
    (mkMeshGateway MeshGatewayModeDefault) no_subset false "" "".
Definition set_sni (external : bool) (sni name : string) (t : DiscoveryTarget) : DiscoveryTarget :=
  mkTarget (tg_ID t) (tg_Service t) (tg_ServiceSubset t) (tg_Namespace t) (tg_Datacenter t) (tg_MeshGateway t)
    (tg_Subset t) external sni name.
Definition set_subset (s : ServiceResolverSubset) (t : DiscoveryTarget) : DiscoveryTarget :=
  mkTarget (tg_ID t) (tg_Service t) (tg_ServiceSubset t) (tg_Namespace t) (tg_Datacenter t) (tg_MeshGateway t)
    s (tg_External t) (tg_SNI t) (tg_Name t).
Definition set_gateway (m : MeshGatewayConfig) (t : DiscoveryTarget) : DiscoveryTarget :=
  mkTarget (tg_ID t) (tg_Service t) (tg_ServiceSubset t) (tg_Namespace t) (tg_Datacenter t) m
    (tg_Subset t) (tg_External t) (tg_SNI t) (tg_Name t).

(** agent/connect/sni.go: [ServiceSNI] and [TargetSNI]. *)
Definition ServiceSNI (service subset namespace datacenter trustDomain : string) : string :=
  let namespace := if decide (namespace = "") then "default" else namespace in
  (if decide (subset = "") then "" else subset +:+ ".") +:+
  service +:+ "." +:+ namespace +:+ "." +:+ datacenter +:+ ".internal." +:+ trustDomain.
Definition TargetSNI (t : DiscoveryTarget) (trustDomain : string) : string :=
  ServiceSNI (tg_Service t) (tg_ServiceSubset t) (tg_Namespace t) (tg_Datacenter t) trustDomain.

Record CompiledDiscoveryChain := mkChain {
  chain_ServiceName : string;
  chain_Namespace : string;
  chain_Datacenter : string;
  chain_CustomizationHash : string;
  chain_Protocol : string;
  chain_StartNode : string;
  chain_Nodes : gmap string DiscoveryGraphNode;
  chain_Targets : gmap string DiscoveryTarget
}.
(** [WillFailoverThroughMeshGateway] and [IsDefault]; a missing target is a
    nil pointer. *)
Definition nil_dereference : string := "runtime error: invalid memory address or nil pointer dereference".
Fixpoint any_gateway (targets : gmap string DiscoveryTarget) (ids : list string) : outcome bool :=
  match ids with
  | [] => Ok false
  | id :: ids =>
      match targets !! id with
      | None => Panic nil_dereference
      | Some t =>
          if decide (mg_Mode (tg_MeshGateway t) = MeshGatewayModeLocal ∨ mg_Mode (tg_MeshGateway t) = MeshGatewayModeRemote)
          then Ok true else any_gateway targets ids
      end
  end.
Definition WillFailoverThroughMeshGateway (c : CompiledDiscoveryChain) (node : DiscoveryGraphNode) : outcome bool :=
  if negb (IsResolver node) then Ok false else
  match gn_Resolver node with
  | None => Panic nil_dereference
  | Some r => any_gateway (chain_Targets c) (default [] (res_Failover r))
  end.
Definition Chain_IsDefault (c : CompiledDiscoveryChain) : outcome bool :=
  if decide (chain_StartNode c = "" ∨ chain_Nodes c = ∅) then Ok true else
  match chain_Nodes c !! chain_StartNode c with
  | None => Panic ("not possible: missing node named '" +:+ chain_StartNode c +:+ "' in chain '" +:+
                   chain_ServiceName c +:+ "'")
  | Some node =>
      if negb (IsResolver node) then Ok false else
      match gn_Resolver node with
      | None => Panic nil_dereference
      | Some r =>
          if negb (res_Default r) then Ok false else
          match chain_Targets c !! res_Target r with
          | None => Panic nil_dereference
          | Some target => Ok (bool_decide (tg_Service target = chain_ServiceName c))
          end
      end
  end.

(** ** The compiler *)

Record CompileRequest := mkCompileRequest {
  rq_ServiceName : string;
  rq_EvaluateInNamespace : string;
  rq_EvaluateInDatacenter : string;
  rq_EvaluateInTrustDomain : string;
  rq_UseInDatacenter : string;
  rq_OverrideMeshGateway : MeshGatewayConfig;
  rq_OverrideProtocol : string;
  rq_OverrideConnectTimeout : Z;
  rq_Entries : option DiscoveryChainConfigEntries
}.
Record customizationMarkers := mkMarkers { cm_MeshGateway : bool; cm_Protocol : bool; cm_ConnectTimeout : bool }.
Definition Markers_IsZero (m : customizationMarkers) : bool :=
  negb (cm_MeshGateway m) && negb (cm_Protocol m) && negb (cm_ConnectTimeout m).

(** The fields that change; those of the request are in scope below.
    [c_ranges] counts the loops over maps. *)
Record compiler := mkCompiler {
  c_resolvers : gmap string ServiceResolverConfigEntry;
  c_splitterNodes : gmap string string;
  c_resolveNodes : gmap string string;
  c_usesAdvancedRoutingFeatures : bool;
  c_customizedBy : customizationMarkers;
  c_protocol : string;
  c_startNode : string;
  c_nodes : gmap string DiscoveryGraphNode;
  c_loadedTargets : gmap string DiscoveryTarget;
  c_retainedTargets : gset string;
  c_ranges : nat
}.
Definition c_set_resolvers x c := mkCompiler x (c_splitterNodes c) (c_resolveNodes c) (c_usesAdvancedRoutingFeatures c)
  (c_customizedBy c) (c_protocol c) (c_startNode c) (c_nodes c) (c_loadedTargets c) (c_retainedTargets c) (c_ranges c).
Definition c_set_caches x y c := mkCompiler (c_resolvers c) x y (c_usesAdvancedRoutingFeatures c)
  (c_customizedBy c) (c_protocol c) (c_startNode c) (c_nodes c) (c_loadedTargets c) (c_retainedTargets c) (c_ranges c).
Definition c_set_usesAdvanced x c := mkCompiler (c_resolvers c) (c_splitterNodes c) (c_resolveNodes c) x
  (c_customizedBy c) (c_protocol c) (c_startNode c) (c_nodes c) (c_loadedTargets c) (c_retainedTargets c) (c_ranges c).
Definition c_set_customizedBy x c := mkCompiler (c_resolvers c) (c_splitterNodes c) (c_resolveNodes c)
  (c_usesAdvancedRoutingFeatures c) x (c_protocol c) (c_startNode c) (c_nodes c) (c_loadedTargets c)
  (c_retainedTargets c) (c_ranges c).
Definition c_set_protocol x c := mkCompiler (c_resolvers c) (c_splitterNodes c) (c_resolveNodes c)
  (c_usesAdvancedRoutingFeatures c) (c_customizedBy c) x (c_startNode c) (c_nodes c) (c_loadedTargets c)
  (c_retainedTargets c) (c_ranges c).
Definition c_set_startNode x c := mkCompiler (c_resolvers c) (c_splitterNodes c) (c_resolveNodes c)
  (c_usesAdvancedRoutingFeatures c) (c_customizedBy c) (c_protocol c) x (c_nodes c) (c_loadedTargets c)
  (c_retainedTargets c) (c_ranges c).
Definition c_set_nodes x c := mkCompiler (c_resolvers c) (c_splitterNodes c) (c_resolveNodes c)
  (c_usesAdvancedRoutingFeatures c) (c_customizedBy c) (c_protocol c) (c_startNode c) x (c_loadedTargets c)
  (c_retainedTargets c) (c_ranges c).
Definition c_set_targets x y c := mkCompiler (c_resolvers c) (c_splitterNodes c) (c_resolveNodes c)
  (c_usesAdvancedRoutingFeatures c) (c_customizedBy c) (c_protocol c) (c_startNode c) (c_nodes c) x y (c_ranges c).
Definition c_tick c := mkCompiler (c_resolvers c) (c_splitterNodes c) (c_resolveNodes c)
  (c_usesAdvancedRoutingFeatures c) (c_customizedBy c) (c_protocol c) (c_startNode c) (c_nodes c) (c_loadedTargets c)
  (c_retainedTargets c) (S (c_ranges c)).

(** A [*structs.ConfigEntryGraphError], and a loop that has no fuel left. *)
Definition graph_error (fmt : string) (args : list string) : error :=
  EWrap "ConfigEntryGraphError" [] (EMsg fmt args).
Definition out_of_fuel : string := "out of fuel".

(** Up to [2 ^ k] steps of a loop. *)
Fixpoint drive {S R} (k : nat) (step : S → S + R) (s : S) : S + R :=
  match k with
  | O => step s
  | Datatypes.S k => match drive k step s with inl s => drive k step s | r => r end
  end.

Definition defaultIfEmpty (val defaultVal : string) : string := if decide (val ≠ "") then val else defaultVal.
Definition enableAdvancedRoutingForProtocol (protocol : string) : bool :=
  bool_decide (protocol ∈ ["http"; "http2"; "grpc"]).
Definition newDefaultServiceResolver (serviceName : string) : ServiceResolverConfigEntry :=
  mkResolver ServiceResolver serviceName "" ∅ None ∅ 0 no_raft.
Definition newDefaultServiceRoute (serviceName : string) : ServiceRoute :=
  mkRoute (Some (mkRouteMatch (Some (mkHTTPMatch "" "/" "" [] [] []))))
    (Some (mkDestination serviceName "" "" "" 0 0 false [])).
Definition join (sep : string) (l : list string) : string :=
  match l with [] => "" | x :: l => fold_left (λ acc y, acc +:+ sep +:+ y) l x end.

Abbreviation CM A := (M compiler A).

(** Following a pointer. *)
Definition pointed {A} (o : option A) : CM A :=
  match o with Some x => mreturn x | None => mpanic nil_dereference end.
Definition get_target (id : string) : CM DiscoveryTarget :=
  let* t := mget (λ c, c_loadedTargets c !! id) in pointed t.
Definition get_node (key : string) : CM DiscoveryGraphNode :=
  let* n := mget (λ c, c_nodes c !! key) in pointed n.
Definition modify_target (id : string) (f : DiscoveryTarget → DiscoveryTarget) : CM unit :=
  mmodify (λ c, c_set_targets (alter f id (c_loadedTargets c)) (c_retainedTargets c) c).
Definition modify_node (key : string) (f : DiscoveryGraphNode → DiscoveryGraphNode) : CM unit :=
  mmodify (λ c, c_set_nodes (alter f key (c_nodes c)) c).
Definition customized (f : customizationMarkers → customizationMarkers) : CM unit :=
  mmodify (λ c, c_set_customizedBy (f (c_customizedBy c)) c).
Definition mark_protocol (m : customizationMarkers) := mkMarkers (cm_MeshGateway m) true (cm_ConnectTimeout m).
Definition mark_gateway (m : customizationMarkers) := mkMarkers true (cm_Protocol m) (cm_ConnectTimeout m).
Definition mark_timeout (m : customizationMarkers) := mkMarkers (cm_MeshGateway m) (cm_Protocol m) true.

(** [recordNode]. *)
Definition recordNode (node : DiscoveryGraphNode) : CM unit :=
  match gn_Type node with
  | NodeRouter => mreturn tt
  | NodeSplitter =>
      mmodify (λ c, c_set_caches (<[gn_Name node := MapKey node]> (c_splitterNodes c)) (c_resolveNodes c) c)
  | NodeResolver =>
      let* r := pointed (gn_Resolver node) in
      mmodify (λ c, c_set_caches (c_splitterNodes c) (<[res_Target r := MapKey node]> (c_resolveNodes c)) c)
  end ;;;
  mmodify (λ c, c_set_nodes (<[MapKey node := node]> (c_nodes c)) c).

Section compile.
Context `{CompilerEnv} (req : CompileRequest) (entries : DiscoveryChainConfigEntries).

(** [disableAdvancedRoutingFeatures], set when the compiler is made. *)
Definition disableAdvancedRoutingFeatures : bool :=
  bool_decide (rq_OverrideProtocol req ≠ "") &&
  negb (enableAdvancedRoutingForProtocol (rq_OverrideProtocol req)).

(** [recordProtocol] and [recordServiceProtocol]. *)
Definition recordProtocol (fromService protocol : string) : CM unit :=
  let protocol := if decide (protocol = "") then "tcp" else to_lower protocol in
  let* cur := mget c_protocol in
  if decide (cur = "") then mmodify (c_set_protocol protocol)
  else if decide (cur ≠ protocol) then
    mthrow (graph_error "discovery chain %q uses inconsistent protocols; service %q has %q which is not %q"
              [rq_ServiceName req; fromService; protocol; cur])
  else mreturn tt.
Definition recordServiceProtocol (serviceName : string) : CM unit :=
  match GetService entries serviceName with
  | Some serviceDefault => recordProtocol serviceName (scfg_Protocol serviceDefault)
  | None =>
      match GlobalProxy entries with
      | Some proxy =>
          let p := decode_protocol (pcfg_Config proxy) in
          if decide (p ≠ "") then recordProtocol serviceName p else recordProtocol serviceName ""
      | None => recordProtocol serviceName ""
      end
  end.

(** [newTarget]: the target's ID. *)
Definition newTarget (service serviceSubset namespace datacenter : string) : CM string :=
  if decide (service = "") then mpanic "newTarget called with empty service which makes no sense" else
  let t := NewDiscoveryTarget service serviceSubset (defaultIfEmpty namespace (rq_EvaluateInNamespace req))
             (defaultIfEmpty datacenter (rq_EvaluateInDatacenter req)) in
  let sni := TargetSNI t (rq_EvaluateInTrustDomain req) in
  let t := set_sni false sni sni t in
  let* prev := mget (λ c, c_loadedTargets c !! tg_ID t) in
  match prev with
  | Some prev => mreturn (tg_ID prev)
  | None =>
      mmodify (λ c, c_set_targets (<[tg_ID t := t]> (c_loadedTargets c)) (c_retainedTargets c) c) ;;;
      mreturn (tg_ID t)
  end.

(** [rewriteTarget]. *)
Definition rewriteTarget (id service serviceSubset namespace datacenter : string) : CM string :=
  let* t := get_target id in
  let moved := bool_decide (service ≠ "" ∧ service ≠ tg_Service t) in
  let service2 := if moved then service else tg_Service t in
  let serviceSubset2 := if moved then "" else tg_ServiceSubset t in
  newTarget service2
    (if decide (serviceSubset ≠ "") then serviceSubset else serviceSubset2)
    (if decide (namespace ≠ "") then namespace else tg_Namespace t)
    (if decide (datacenter ≠ "") then datacenter else tg_Datacenter t).

(** ** Resolvers *)

(** The names that config entries can put into a target.  Their combinations
    bound the number of targets, hence of redirects. *)
Definition all_routes : list ServiceRouteDestination :=
  r ← (map_to_list (Routers entries)).*2; omap route_Destination (rtr_Routes r).
Definition all_splits : list ServiceSplit := s ← (map_to_list (Splitters entries)).*2; spr_Splits s.
Definition all_redirects : list ServiceResolverRedirect := omap rsv_Redirect (map_to_list (Resolvers entries)).*2.
Definition all_failovers : list ServiceResolverFailover :=
  r ← (map_to_list (Resolvers entries)).*2; (map_to_list (rsv_Failover r)).*2.
Definition all_services : list string :=
  rq_ServiceName req :: (dst_Service <$> all_routes) ++ (spl_Service <$> all_splits) ++
  (rd_Service <$> all_redirects) ++ (fo_Service <$> all_failovers).
Definition all_subsets : list string :=
  "" :: (dst_ServiceSubset <$> all_routes) ++ (spl_ServiceSubset <$> all_splits) ++
  (rd_ServiceSubset <$> all_redirects) ++ (fo_ServiceSubset <$> all_failovers) ++
  (rsv_DefaultSubset <$> (map_to_list (Resolvers entries)).*2).
Definition all_namespaces : list string :=
  rq_EvaluateInNamespace req :: (dst_Namespace <$> all_routes) ++ (spl_Namespace <$> all_splits) ++
  (rd_Namespace <$> all_redirects) ++ (fo_Namespace <$> all_failovers).
Definition all_datacenters : list string :=
  rq_EvaluateInDatacenter req :: (rd_Datacenter <$> all_redirects) ++ (f ← all_failovers; fo_Datacenters f).
Definition resolve_fuel : nat :=
  S (length all_services * length all_subsets * length all_namespaces * length all_datacenters).

(** Fetching the resolver of a service: a default is materialized. *)
Definition get_resolver (service : string) : CM ServiceResolverConfigEntry :=
  let* r := mget (λ c, c_resolvers c !! service) in
  match r with
  | Some resolver => mreturn resolver
  | None =>
      let resolver := newDefaultServiceResolver service in
      mmodify (λ c, c_set_resolvers (<[service := resolver]> (c_resolvers c)) c) ;;; mreturn resolver
  end.

(** The loop [RESOLVE_AGAIN] of [getResolverNode]: the key of the node when
    it is already there, or the target that is neither redirected nor given a
    default subset, with its resolver.  [order] is [redirectOrder], which
    holds what [redirectHistory] does. *)
Fixpoint resolve (fuel : nat) (order : list string) (target : string) :
    CM (string + string * ServiceResolverConfigEntry) :=
  match fuel with
  | O => mpanic out_of_fuel
  | S fuel =>
      let* prev := mget (λ c, c_resolveNodes c !! target) in
      match prev with
      | Some key => mreturn (inl key)
      | None =>
          let* t := get_target target in
          recordServiceProtocol (tg_Service t) ;;;
          let* resolver := get_resolver (tg_Service t) in
          let history := order ++ [target] in
          if decide (target ∈ order) then
            mthrow (graph_error "detected circular resolver redirect: [%s]" [join " -> " history])
          else
            let* redirected := match rsv_Redirect resolver with
              | Some r =>
                  rewriteTarget target (rd_Service r) (rd_ServiceSubset r) (rd_Namespace r) (rd_Datacenter r)
              | None => mreturn target
              end in
            if decide (redirected ≠ target) then resolve fuel history redirected
            else if decide (tg_ServiceSubset t = "" ∧ rsv_DefaultSubset resolver ≠ "") then
              let* target' := rewriteTarget target "" (rsv_DefaultSubset resolver) "" "" in
              resolve fuel history target'
            else mreturn (inr (target, resolver))
      end
  end.

(** The connect timeout of a resolver node. *)
Definition resolver_timeout (resolver : ServiceResolverConfigEntry) : CM Z :=
  let connectTimeout := if decide (rsv_ConnectTimeout resolver < 1)%Z then 5000000000%Z
                        else rsv_ConnectTimeout resolver in
  if decide (0 < rq_OverrideConnectTimeout req ∧ connectTimeout ≠ rq_OverrideConnectTimeout req)%Z
  then customized mark_timeout ;;; mreturn (rq_OverrideConnectTimeout req)
  else mreturn connectTimeout.

(** An external service is only what it is. *)
Definition check_external (target : string) (resolver : ServiceResolverConfigEntry) : CM unit :=
  let* t := get_target target in
  if tg_External t then
    if decide (is_Some (rsv_Redirect resolver)) then
      mthrow (graph_error "service %q has an external SNI set; cannot define redirects for external services"
                [tg_Service t])
    else if decide (rsv_Subsets resolver ≠ ∅) then
      mthrow (graph_error "service %q has an external SNI set; cannot define subsets for external services"
                [tg_Service t])
    else if decide (rsv_Failover resolver ≠ ∅) then
      mthrow (graph_error "service %q has an external SNI set; cannot define failover for external services"
                [tg_Service t])
    else mreturn tt
  else mreturn tt.

(** The mesh gateway mode of a target. *)
Definition set_mode (mode : string) : DiscoveryTarget → DiscoveryTarget := set_gateway (mkMeshGateway mode).
Definition target_gateway (target : string) : CM unit :=
  let* t := get_target target in
  if decide (tg_Datacenter t = rq_UseInDatacenter req) then modify_target target (set_mode MeshGatewayModeDefault)
  else if tg_External t then modify_target target (set_mode MeshGatewayModeDefault)
  else
    match GetService entries (tg_Service t) with
    | Some serviceDefault => modify_target target (set_gateway (scfg_MeshGateway serviceDefault))
    | None => mreturn tt
    end ;;;
    let* t := get_target target in
    match GlobalProxy entries with
    | Some proxy =>
        if decide (mg_Mode (tg_MeshGateway t) = MeshGatewayModeDefault)
        then modify_target target (set_mode (mg_Mode (pcfg_MeshGateway proxy))) else mreturn tt
    | None => mreturn tt
    end ;;;
    let* t := get_target target in
    let mode := mg_Mode (rq_OverrideMeshGateway req) in
    if decide (mode ≠ MeshGatewayModeDefault ∧ mg_Mode (tg_MeshGateway t) ≠ mode)
    then modify_target target (set_mode mode) ;;; customized mark_gateway
    else mreturn tt.

(** The rest of [getResolverNode] up to the place where a failover stops. *)
Definition build_resolver_node (target : string) (resolver : ServiceResolverConfigEntry) : CM DiscoveryGraphNode :=
  let* t := get_target target in
  if negb (SubsetExists resolver (tg_ServiceSubset t)) then
    mthrow (graph_error "service %q does not have a subset named %q" [tg_Service t; tg_ServiceSubset t])
  else
    let* connectTimeout := resolver_timeout resolver in
    let node := mkGraphNode NodeResolver target [] []
                  (Some (mkDResolver (Resolver_IsDefault resolver) connectTimeout target None)) in
    modify_target target (set_subset (default no_subset (rsv_Subsets resolver !! tg_ServiceSubset t))) ;;;
    match GetService entries (tg_Service t) with
    | Some serviceDefault =>
        if decide (scfg_ExternalSNI serviceDefault ≠ "")
        then modify_target target (λ t, set_sni true (scfg_ExternalSNI serviceDefault) (tg_Name t) t)
        else mreturn tt
    | None => mreturn tt
    end ;;;
    check_external target resolver ;;;
    target_gateway target ;;;
    mmodify (λ c, c_set_targets (c_loadedTargets c) ({[target]} ∪ c_retainedTargets c) c) ;;;
    mreturn node.

(** [getResolverNode(target, true)]: the node is neither cached nor given a
    failover. *)
Definition getResolverNode_failover (target : string) : CM DiscoveryGraphNode :=
  let* r := resolve resolve_fuel [] target in
  match r with
  | inl key => get_node key
  | inr (target, resolver) => build_resolver_node target resolver
  end.

(** The targets of the failover that applies; never the target itself. *)
Definition failover_section (resolver : ServiceResolverConfigEntry) (subset : string) :
    option ServiceResolverFailover :=
  match rsv_Failover resolver !! subset with
  | Some f => Some f
  | None => rsv_Failover resolver !! "*"
  end.
Definition failover_target (target : string) (f : ServiceResolverFailover) (dc : string) : CM (list string) :=
  let* failoverTarget := rewriteTarget target (fo_Service f) (fo_ServiceSubset f) (fo_Namespace f) dc in
  mreturn (if decide (failoverTarget ≠ target) then [failoverTarget] else []).
Definition failover_targets (target : string) (f : ServiceResolverFailover) : CM (list string) :=
  match fo_Datacenters f with
  | [] => failover_target target f ""
  | dcs => let* ts := mmap (failover_target target f) dcs in mreturn (concat ts)
  end.
Definition set_failover (ids : list string) (n : DiscoveryGraphNode) : DiscoveryGraphNode :=
  mkGraphNode (gn_Type n) (gn_Name n) (gn_Routes n) (gn_Splits n)
    ((λ r, mkDResolver (res_Default r) (res_ConnectTimeout r) (res_Target r) (Some ids)) <$> gn_Resolver n).
(** The target a failover ends at, after its own redirects. *)
Definition failover_node_target (target : string) : CM string :=
  let* node := getResolverNode_failover target in
  let* r := pointed (gn_Resolver node) in
  mreturn (res_Target r).

(** [getResolverNode(target, false)]. *)
Definition getResolverNode (target : string) : CM DiscoveryGraphNode :=
  let* r := resolve resolve_fuel [] target in
  match r with
  | inl key => get_node key
  | inr (target, resolver) =>
      let* node := build_resolver_node target resolver in
      recordNode node ;;;
      let* t := get_target target in
      match failover_section resolver (tg_ServiceSubset t) with
      | None => mreturn node
      | Some f =>
          let* ts := failover_targets target f in
          match ts with
          | [] => mreturn node
          | _ =>
              let* ids := mmap failover_node_target ts in
              modify_node (MapKey node) (set_failover ids) ;;;
              get_node (MapKey node)
          end
      end
  end.

(** ** Splitters *)

Definition splitter_fuel : nat := S (size (Splitters entries)).
(** Adding a split to a recorded splitter.  Nothing reads the splits before
    [NextNode] is known. *)
Definition append_split (key : string) (s : DiscoverySplit) : CM unit :=
  modify_node key (λ n, set_splits (gn_Splits n ++ [s]) n).

(** [getSplitterNode]; [None] is the nil node. *)
Fixpoint getSplitterNode (fuel : nat) (name : string) : CM (option DiscoveryGraphNode) :=
  match fuel with
  | O => mpanic out_of_fuel
  | S fuel =>
      let* prev := mget (λ c, c_splitterNodes c !! name) in
      match prev with
      | Some key => let* n := get_node key in mreturn (Some n)
      | None =>
          match GetSplitter entries name with
          | None => mreturn None
          | Some splitter =>
              if disableAdvancedRoutingFeatures then customized mark_protocol ;;; mreturn None else
              let splitNode := mkGraphNode NodeSplitter name [] [] None in
              recordNode splitNode ;;;
              (for split in spr_Splits splitter do
                let svc := defaultIfEmpty (spl_Service split) name in
                let* nextNode :=
                  (if decide (svc ≠ name ∧ spl_ServiceSubset split = "" ∧ spl_Namespace split = "")
                   then getSplitterNode fuel svc else mreturn None) in
                match nextNode with
                | Some nextNode => append_split (MapKey splitNode) (mkDSplit (spl_Weight split) (MapKey nextNode))
                | None =>
                    let* id := newTarget svc (spl_ServiceSubset split) (spl_Namespace split) "" in
                    let* node := getResolverNode id in
                    append_split (MapKey splitNode) (mkDSplit (spl_Weight split) (MapKey node))
                end) ;;;
              mmodify (c_set_usesAdvanced true) ;;;
              let* n := get_node (MapKey splitNode) in
              mreturn (Some n)
          end
      end
  end.

Definition getSplitterOrResolverNode (target : string) : CM DiscoveryGraphNode :=
  let* t := get_target target in
  let* nextNode := getSplitterNode splitter_fuel (tg_Service t) in
  match nextNode with
  | Some node => mreturn node
  | None => getResolverNode target
  end.

(** ** Assembling the chain *)

(** One route of the router; [dest] is dereferenced unchecked. *)
Definition compile_route (route : ServiceRoute) : CM DiscoveryRoute :=
  let* dest := pointed (route_Destination route) in
  let svc := defaultIfEmpty (dst_Service dest) (rq_ServiceName req) in
  let* target := newTarget svc (dst_ServiceSubset dest) (dst_Namespace dest) "" in
  let* node := (if decide (dst_ServiceSubset dest = "" ∧ dst_Namespace dest = "")
                then getSplitterOrResolverNode target else getResolverNode target) in
  mreturn (mkDRoute route (MapKey node)).

Definition default_next : CM DiscoveryGraphNode :=
  let* target := newTarget (rq_ServiceName req) "" "" "" in
  getSplitterOrResolverNode target.

(** The router of the service, unless routing is overridden. *)
Definition get_router : CM (option ServiceRouterConfigEntry) :=
  match GetRouter entries (rq_ServiceName req) with
  | Some router =>
      if disableAdvancedRoutingFeatures then customized mark_protocol ;;; mreturn None else mreturn (Some router)
  | None => mreturn None
  end.

Definition assembleChain : CM unit :=
  let* c := mget id in
  if decide (c_startNode c ≠ "" ∨ c_nodes c ≠ ∅) then
    mthrow (EMsg "assembleChain should only be called once" [])
  else
    (if decide (c_resolvers c = ∅ ∧ IsChainEmpty entries = true) then
       mmodify (c_set_resolvers (<[rq_ServiceName req := newDefaultServiceResolver (rq_ServiceName req)]> ∅))
     else mreturn tt) ;;;
    let* router := get_router in
    match router with
    | None =>
        let* node := default_next in
        mmodify (c_set_startNode (MapKey node))
    | Some router =>
        mmodify (c_set_usesAdvanced true) ;;;
        recordServiceProtocol (rtr_Name router) ;;;
        let* routes := mmap compile_route (rtr_Routes router) in
        let* defaultDestinationNode := default_next in
        let defaultRoute := mkDRoute (newDefaultServiceRoute (rq_ServiceName req)) (MapKey defaultDestinationNode) in
        let routeNode := mkGraphNode NodeRouter (rtr_Name router) (routes ++ [defaultRoute]) [] None in
        mmodify (c_set_startNode (MapKey routeNode)) ;;;
        recordNode routeNode
    end.

(** ** Circular references *)

(** [stringStack] (string_stack.go): the list from its top. *)
Definition stringStack := list string.
Definition Push (v : string) (s : stringStack) : stringStack := v :: s.
Definition Pop (s : stringStack) : option (string * stringStack) :=
  match s with [] => None | v :: s => Some (v, s) end.
Definition Items (s : stringStack) : list string := rev s.

(** The nodes behind a node: [Circular redirects are detected elsewhere and
    failover isn't recursive]. *)
Definition next_nodes (n : DiscoveryGraphNode) : list string :=
  match gn_Type n with
  | NodeRouter => dr_NextNode <$> gn_Routes n
  | NodeSplitter => ds_NextNode <$> gn_Splits n
  | NodeResolver => []
  end.

(** One turn of the loop of [detectCircularReferences]. *)
Record search := mkSearch { s_todo : stringStack; s_visited : gset string; s_visitChain : stringStack }.
Definition detect_step (nodes : gmap string DiscoveryGraphNode) (s : search) : search + outcome unit :=
  match Pop (s_todo s) with
  | None => inr (Ok tt)
  | Some (current, todo) =>
      if decide (current = "_popvisit") then
        match Pop (s_visitChain s) with
        | Some (v, chain) => inl (mkSearch todo (s_visited s ∖ {[v]}) chain)
        | None => inl (mkSearch todo (s_visited s) (s_visitChain s))
        end
      else
        let visitChain := Push current (s_visitChain s) in
        if decide (current ∈ s_visited s) then
          inr (Err (graph_error "detected circular reference: [%s]" [join " -> " (Items visitChain)]))
        else
          match nodes !! current with
          | None => inr (Panic nil_dereference)
          | Some node =>
              inl (mkSearch (fold_left (λ todo n, Push n todo) (next_nodes node) (Push "_popvisit" todo))
                     ({[current]} ∪ s_visited s) visitChain)
          end
  end.
(** Nodes times one more than the largest number of edges of a node: the
    logarithm of a bound on the length of the search. *)
Definition max_degree (nodes : gmap string DiscoveryGraphNode) : nat :=
  list_max ((λ kn, length (next_nodes kn.2)) <$> map_to_list nodes).
Definition search_fuel (nodes : gmap string DiscoveryGraphNode) : nat :=
  (size nodes + 2) * (max_degree nodes + 3).
Definition detectCircularReferences (nodes : gmap string DiscoveryGraphNode) (startNode : string) : outcome unit :=
  match drive (search_fuel nodes) (detect_step nodes) (mkSearch (Push startNode []) ∅ []) with
  | inr r => r
  | inl _ => Panic out_of_fuel
  end.

(** ** Flattening *)

(** The splits that replace one split. *)
Definition flatten_split (nodes : gmap string DiscoveryGraphNode) (split : DiscoverySplit) :
    outcome (bool * list DiscoverySplit) :=
  match nodes !! ds_NextNode split with
  | None => Panic nil_dereference
  | Some nextNode =>
      if negb (IsSplitter nextNode) then Ok (false, [split])
      else Ok (true, (λ innerSplit,
        let effectiveWeight := f32_div (f32_mul (ds_Weight split) (ds_Weight innerSplit)) (f32_of_Z 100) in
        mkDSplit (NormalizeServiceSplitWeight effectiveWeight) (ds_NextNode innerSplit)) <$> gn_Splits nextNode)
  end.
Fixpoint flatten_splits (nodes : gmap string DiscoveryGraphNode) (splits : list DiscoverySplit) :
    outcome (bool * list DiscoverySplit) :=
  match splits with
  | [] => Ok (false, [])
  | split :: splits =>
      obind (flatten_split nodes split) (λ '(changed, fixed),
      obind (flatten_splits nodes splits) (λ '(changed', fixed'), Ok (changed || changed', fixed ++ fixed')))
  end.
(** The body of the loop over the nodes, at the key it has reached. *)
Definition flatten_node (anyChanged : bool) (key : string) : CM bool :=
  let* node := get_node key in
  if negb (IsSplitter node) then mreturn anyChanged else
  let* nodes := mget c_nodes in
  let* r := mlift (flatten_splits nodes (gn_Splits node)) in
  if r.1 then modify_node key (set_splits r.2) ;;; mreturn true else mreturn anyChanged.
(** A range over the keys of a map. *)
Definition range_keys (keys : list string) : CM (list string) :=
  let* n := mget c_ranges in mmodify c_tick ;;; mreturn (range_order n keys).
Fixpoint flatten_rounds (fuel : nat) : CM unit :=
  match fuel with
  | O => mpanic out_of_fuel
  | S fuel =>
      let* nodes := mget c_nodes in
      let* keys := range_keys (map_to_list nodes).*1 in
      let* anyChanged := mfold flatten_node false keys in
      if (anyChanged : bool) then flatten_rounds fuel else mreturn tt
  end.
Definition flattenAdjacentSplitterNodes : CM unit :=
  let* nodes := mget c_nodes in flatten_rounds (size nodes + 1).

(** ** Unused nodes *)

(** The loop of [removeUnusedNodes]; [todo] is a map used as a set, from
    which the first key of a range is taken. *)
Fixpoint reach_loop (fuel : nat) (visited todo : gset string) : CM (gset string) :=
  match fuel with
  | O => mpanic out_of_fuel
  | S fuel =>
      let* keys := range_keys (elements todo) in
      match keys with
      | [] => mreturn visited
      | next :: _ =>
          let todo := todo ∖ {[next]} in
          if decide (next = "") then mreturn visited
          else if decide (next ∈ visited) then reach_loop fuel visited todo
          else
            let visited := {[next]} ∪ visited in
            let* node := mget (λ c, c_nodes c !! next) in
            match node with
            | None => mthrow (EMsg "compilation references non-retained node %q" [next])
            | Some node => reach_loop fuel visited (list_to_set (next_nodes node) ∪ todo)
            end
      end
  end.
Definition reach_fuel (nodes : gmap string DiscoveryGraphNode) : nat :=
  size nodes * (max_degree nodes + 1) + 2.
Definition removeUnusedNodes : CM unit :=
  let* nodes := mget c_nodes in
  let* startNode := mget c_startNode in
  let* visited := reach_loop (reach_fuel nodes) ∅ {[startNode]} in
  if decide (size visited = size nodes) then mreturn tt
  else mmodify (λ c, c_set_nodes (filter (λ kn, kn.1 ∈ visited) (c_nodes c)) c).

(** ** Compiling *)

(** [fmt.Sprintf("%x", v)[0:8]] of a [uint64]. *)
Fixpoint hex_digits (fuel : nat) (n : N) (acc : string) : string :=
  match fuel with
  | O => acc
  | S fuel =>
      let acc := String (hex_char (n mod 16)) acc in
      if (n <? 16)%N then acc else hex_digits fuel (n / 16) acc
  end.
Definition slice_out_of_range : string := "runtime error: slice bounds out of range".
Definition hash_prefix (v : N) : outcome string :=
  let s := hex_digits 16 v "" in
  if (String.length s <? 8)%nat then Panic slice_out_of_range else Ok (String.substring 0 8 s).
Definition customizationHash (m : customizationMarkers) : outcome string :=
  if Markers_IsZero m then Ok "" else
  match hash_customization
          (if cm_MeshGateway m then mg_Mode (rq_OverrideMeshGateway req) else "")
          (if cm_Protocol m then rq_OverrideProtocol req else "")
          (if cm_ConnectTimeout m then rq_OverrideConnectTimeout req else 0%Z) with
  | inr v => hash_prefix v
  | inl e => Err (EWrap "cannot create customization hash key: %v" [] e)
  end.

Definition compile : CM CompiledDiscoveryChain :=
  assembleChain ;;;
  mmodify (c_set_caches ∅ ∅) ;;;
  let* c := mget id in
  if decide (c_startNode c = "") then mpanic "impossible to return no results" else
  mlift (detectCircularReferences (c_nodes c) (c_startNode c)) ;;;
  flattenAdjacentSplitterNodes ;;;
  removeUnusedNodes ;;;
  mmodify (λ c, c_set_targets (filter (λ kt, kt.1 ∈ c_retainedTargets c) (c_loadedTargets c)) (c_retainedTargets c) c) ;;;
  let* c := mget id in
  if negb (enableAdvancedRoutingForProtocol (c_protocol c)) && c_usesAdvancedRoutingFeatures c then
    mthrow (graph_error "discovery chain %q uses a protocol %q that does not permit advanced routing or splitting behavior"
              [rq_ServiceName req; c_protocol c])
  else
    (if decide (rq_OverrideProtocol req ≠ "" ∧ rq_OverrideProtocol req ≠ c_protocol c)
     then mmodify (c_set_protocol (rq_OverrideProtocol req)) ;;; customized mark_protocol
     else mreturn tt) ;;;
    let* c := mget id in
    let* hash := mlift (customizationHash (c_customizedBy c)) in
    mreturn (mkChain (rq_ServiceName req) (rq_EvaluateInNamespace req) (rq_EvaluateInDatacenter req)
               hash (c_protocol c) (c_startNode c) (c_nodes c) (c_loadedTargets c)).
End compile.

(** [Compile]: the checks of the request, and a fresh compiler. *)
Definition new_compiler (entries : DiscoveryChainConfigEntries) : compiler :=
  mkCompiler (Resolvers entries) ∅ ∅ false (mkMarkers false false false) "" "" ∅ ∅ ∅ 0.
Definition Compile `{CompilerEnv} (req : CompileRequest) : outcome CompiledDiscoveryChain :=
  if decide (rq_ServiceName req = "") then Err (EMsg "serviceName is required" [])
  else if decide (rq_EvaluateInNamespace req = "") then Err (EMsg "evaluateInNamespace is required" [])
  else if decide (rq_EvaluateInDatacenter req = "") then Err (EMsg "evaluateInDatacenter is required" [])
  else if decide (rq_EvaluateInTrustDomain req = "") then Err (EMsg "evaluateInTrustDomain is required" [])
  else if decide (rq_UseInDatacenter req = "") then Err (EMsg "useInDatacenter is required" [])
  else match rq_Entries req with
  | None => Err (EMsg "entries is required" [])
  | Some entries => (compile req entries (new_compiler entries)).1
  end.
