(* ===== verification/Delay.v ===== *)
(** * Lock delays (agent/consul/state/delay.go)

    [Delay] marks keys as unacquirable until an expiration time.  Times are
    nanoseconds; the zero [time.Time] that a missing map entry yields is
    [None].  Each [SetExpiration] also arms a [time.AfterFunc]: a pending
    timer, which deletes the key when it fires, whatever was set since. *)

From S2P Require Import Prelude.

Record Delay := mkDelay {
  delay_map : gmap string Z;
  delay_timers : list (Z * string)
}.

(** [NewDelay]. *)
Definition NewDelay : Delay := mkDelay ∅ [].

(** [Delay.GetExpiration]. *)
Definition GetExpiration (d : Delay) (key : string) : option Z := delay_map d !! key.

(** [Delay.SetExpiration]. *)
Definition SetExpiration (d : Delay) (key : string) (now delay : Z) : Delay :=
  mkDelay (<[key := (now + delay)%Z]> (delay_map d)) (((now + delay)%Z, key) :: delay_timers d).

(** The timers that are due at time [t] run their function, [delete(d.delay, key)]. *)
Definition fire_timers (t : Z) (d : Delay) : Delay :=
  mkDelay (fold_right (λ k m, delete k m) (delay_map d)
             (snd <$> filter (λ x, x.1 ≤ t)%Z (delay_timers d)))
          (filter (λ x, t < x.1)%Z (delay_timers d)).

(** [expires.After(now)], the test of [kvsPreApply]. *)
Definition expires_after (e : option Z) (now : Z) : bool :=
  match e with Some e => (now <? e)%Z | None => false end.
