(* ===== verification/TombstoneGC.v ===== *)
(** * Tombstone garbage collection (agent/consul/state/tombstone_gc.go)

    [Hint] files a Raft index under a time bin; when the bin's timer fires the
    highest index of the bin is sent on [expireCh], from where the leader
    issues the reap.  Times are nanoseconds; the channel is the list of the
    values sent. *)

From S2P Require Import Prelude.

(** [TombstoneGC]; an [expireInterval] is its [maxIndex], its timer being
    armed exactly as long as the bin is in [expires]. *)
Record TombstoneGC := mkTombstoneGC {
  gc_ttl : Z;
  gc_granularity : Z;
  gc_enabled : bool;
  gc_expires : gmap Z N;
  gc_expireCh : list N
}.

(** [NewTombstoneGC]. *)
Definition NewTombstoneGC (ttl granularity : Z) : outcome TombstoneGC :=
  if ((ttl <=? 0) || (granularity <=? 0))%Z
  then Err (EMsg "Tombstone TTL and granularity must be positive" [])
  else Ok (mkTombstoneGC ttl granularity false ∅ []).

(** [SetEnabled]: disabling stops all the timers and drops the bins. *)
Definition SetEnabled (enabled : bool) (t : TombstoneGC) : TombstoneGC :=
  if Bool.eqb enabled (gc_enabled t) then t
  else mkTombstoneGC (gc_ttl t) (gc_granularity t) enabled
         (if enabled then gc_expires t else ∅) (gc_expireCh t).

(** [nextExpires]; Go's [%] truncates. *)
Definition nextExpires (t : TombstoneGC) (now : Z) : Z :=
  let expires := (now + gc_ttl t)%Z in
  let remain := Z.rem expires (gc_granularity t) in
  (expires + (gc_granularity t - remain))%Z.

(** [Hint]. *)
Definition Hint_gc (now : Z) (index : N) (t : TombstoneGC) : TombstoneGC :=
  let expires := nextExpires t now in
  if negb (gc_enabled t) then t
  else match gc_expires t !! expires with
       | Some maxIndex =>
           if (maxIndex <? index)%N
           then mkTombstoneGC (gc_ttl t) (gc_granularity t) (gc_enabled t)
                  (<[expires := index]> (gc_expires t)) (gc_expireCh t)
           else t
       | None => mkTombstoneGC (gc_ttl t) (gc_granularity t) (gc_enabled t)
                   (<[expires := index]> (gc_expires t)) (gc_expireCh t)
       end.

(** [PendingExpiration]. *)
Definition PendingExpiration (t : TombstoneGC) : bool := negb (bool_decide (gc_expires t = ∅)).

(** [purgeBin]. *)
Definition purgeBin (expires : Z) (t : TombstoneGC) : N * TombstoneGC :=
  match gc_expires t !! expires with
  | None => (0%N, t)
  | Some maxIndex => (maxIndex, mkTombstoneGC (gc_ttl t) (gc_granularity t) (gc_enabled t)
                                  (delete expires (gc_expires t)) (gc_expireCh t))
  end.

(** [expireTime], the function of a bin's timer. *)
Definition expireTime (expires : Z) (t : TombstoneGC) : TombstoneGC :=
  let '(index, t) := purgeBin expires t in
  if (0 <? index)%N
  then mkTombstoneGC (gc_ttl t) (gc_granularity t) (gc_enabled t) (gc_expires t)
         (gc_expireCh t ++ [index])
  else t.
