(* ===== verification/Store.v ===== *)
(** * The state store: tables, transactions and table indexes (state_store.go)

    [db] is the content of the memdb database, one field per table.  [txn] is
    a running transaction: its view of the tables, whether it may write, the
    reading of the clock, the lock-delay map (which lives outside memdb and is
    not rolled back) and the stack of functions deferred to the commit, which
    are all calls of [TombstoneGC.Hint]. *)

From S2P Require Import Prelude Memdb ProxyConfig Structs ConnectTables AclTables ConfigEntries Delay TombstoneGC.

(** ** Schemas (the [...TableSchema] functions) *)

Definition kvs_session_index : IndexSchema DirEntry :=
  mkIndex "session" false true (λ e, uuid_index (de_Session e)).
#[export] Instance kvsTableSchema : TableSchema DirEntry := {|
  table_name := "kvs";
  table_id e := string_index false (de_Key e);
  table_indexes := [kvs_session_index]
|}.

#[export] Instance tombstonesTableSchema : TableSchema Tombstone := {|
  table_name := "tombstones";
  table_id s := string_index false (ts_Key s);
  table_indexes := []
|}.

#[export] Instance indexTableSchema : TableSchema IndexEntry := {|
  table_name := "index";
  table_id e := string_index true (ie_Key e);
  table_indexes := []
|}.

Definition sessions_node_index : IndexSchema Session :=
  mkIndex "node" false false (λ s, string_index true (sess_Node s)).
#[export] Instance sessionsTableSchema : TableSchema Session := {|
  table_name := "sessions";
  table_id s := uuid_index (sess_ID s);
  table_indexes := [sessions_node_index]
|}.

Definition session_checks_node_check_index : IndexSchema sessionCheck :=
  mkIndex "node_check" false false (λ c,
    compound_index false "" [string_index true (sc_Node c); string_index true (sc_CheckID c)]).
Definition session_checks_session_index : IndexSchema sessionCheck :=
  mkIndex "session" false false (λ c, uuid_index (sc_Session c)).
#[export] Instance sessionChecksTableSchema : TableSchema sessionCheck := {|
  table_name := "session_checks";
  table_id c := compound_index false ""
    [string_index true (sc_Node c); string_index true (sc_CheckID c); uuid_index (sc_Session c)];
  table_indexes := [session_checks_node_check_index; session_checks_session_index]
|}.

Definition nodes_uuid_index : IndexSchema Node :=
  mkIndex "uuid" true true (λ n, uuid_index (node_ID n)).
Definition nodes_meta_index : IndexSchema Node :=
  mkIndex "meta" false true (λ n, string_map_index (node_Meta n)).
#[export] Instance nodesTableSchema : TableSchema Node := {|
  table_name := "nodes";
  table_id n := string_index true (node_Node n);
  table_indexes := [nodes_uuid_index; nodes_meta_index]
|}.

(** [IndexConnectService.FromObject]. *)
Definition IndexConnectService_FromObject (sn : ServiceNode) : from_object :=
  if decide (sn_ServiceKind sn = ServiceKindConnectProxy)
  then FoVals [to_lower (cp_DestinationServiceName (sn_ServiceProxy sn)) +:+ nul]
  else if sco_Native (sn_ServiceConnect sn)
  then FoVals [to_lower (sn_ServiceName sn) +:+ nul]
  else FoMissing.
(** [IndexServiceKind.FromObject]. *)
Definition IndexServiceKind_FromObject (sn : ServiceNode) : from_object :=
  FoVals [to_lower (sn_ServiceKind sn) +:+ nul].

Definition services_node_index : IndexSchema ServiceNode :=
  mkIndex "node" false false (λ s, string_index true (sn_Node s)).
Definition services_service_index : IndexSchema ServiceNode :=
  mkIndex "service" false true (λ s, string_index true (sn_ServiceName s)).
Definition services_connect_index : IndexSchema ServiceNode :=
  mkIndex "connect" false true IndexConnectService_FromObject.
Definition services_kind_index : IndexSchema ServiceNode :=
  mkIndex "kind" false false IndexServiceKind_FromObject.
#[export] Instance servicesTableSchema : TableSchema ServiceNode := {|
  table_name := "services";
  table_id s := compound_index false "" [string_index true (sn_Node s); string_index true (sn_ServiceID s)];
  table_indexes := [services_node_index; services_service_index; services_connect_index; services_kind_index]
|}.

Definition checks_status_index : IndexSchema HealthCheck :=
  mkIndex "status" false false (λ c, string_index false (hc_Status c)).
Definition checks_service_index : IndexSchema HealthCheck :=
  mkIndex "service" false true (λ c, string_index true (hc_ServiceName c)).
Definition checks_node_index : IndexSchema HealthCheck :=
  mkIndex "node" false true (λ c, string_index true (hc_Node c)).
Definition checks_node_service_check_index : IndexSchema HealthCheck :=
  mkIndex "node_service_check" false true (λ c,
    compound_index false "" [string_index true (hc_Node c); field_set_index (hc_ServiceID c)]).
Definition checks_node_service_index : IndexSchema HealthCheck :=
  mkIndex "node_service" false true (λ c,
    compound_index false "" [string_index true (hc_Node c); string_index true (hc_ServiceID c)]).
#[export] Instance checksTableSchema : TableSchema HealthCheck := {|
  table_name := "checks";
  table_id c := compound_index false "" [string_index true (hc_Node c); string_index true (hc_CheckID c)];
  table_indexes := [checks_status_index; checks_service_index; checks_node_index;
                    checks_node_service_check_index; checks_node_service_index]
|}.

Definition coordinates_node_index : IndexSchema Coordinate :=
  mkIndex "node" false false (λ c, string_index true (co_Node c)).
#[export] Instance coordinatesTableSchema : TableSchema Coordinate := {|
  table_name := "coordinates";
  table_id c := compound_index true "" [string_index true (co_Node c); string_index true (co_Segment c)];
  table_indexes := [coordinates_node_index]
|}.

(** [PreparedQueryIndex.FromObject]: a query that is not a template has no
    compiled template and is not indexed. *)
Definition PreparedQueryIndex_FromObject (q : PreparedQuery) : from_object :=
  if decide (pq_Template_Type q = "") then FoMissing else FoVals [nul +:+ to_lower (pq_Name q)].
Definition queries_session_index : IndexSchema PreparedQuery :=
  mkIndex "session" false true (λ q, uuid_index (pq_Session q)).
Definition queries_name_index : IndexSchema PreparedQuery :=
  mkIndex "name" true true (λ q, string_index true (pq_Name q)).
Definition queries_template_index : IndexSchema PreparedQuery :=
  mkIndex "template" true true PreparedQueryIndex_FromObject.
#[export] Instance preparedQueriesTableSchema : TableSchema PreparedQuery := {|
  table_name := "prepared-queries";
  table_id q := uuid_index (pq_ID q);
  table_indexes := [queries_name_index; queries_template_index; queries_session_index]
|}.

(** ** The database

    A field per table; those of Connect, autopilot and config entries, and those
    of the ACL system, are grouped. *)

Record connect_tables := mkConnectTables {
  intentions : gmap string Intention;
  ca_roots : gmap string CARoot;
  ca_config : gmap string CAConfiguration;
  ca_builtin : gmap string CAConsulProviderState;
  autopilot_config : gmap string AutopilotConfig;
  config_entries : gmap string ConfigEntry
}.
Record acl_tables := mkAclTables {
  acl_tokens : gmap string ACLToken;
  acl_policies : gmap string ACLPolicy;
  acl_roles : gmap string ACLRole;
  acl_binding_rules : gmap string ACLBindingRule;
  acl_auth_methods : gmap string ACLAuthMethod
}.
Record db := mkDb {
  kvs : gmap string DirEntry;
  tombstones : gmap string Tombstone;
  index : gmap string IndexEntry;
  sessions : gmap string Session;
  session_checks : gmap string sessionCheck;
  nodes : gmap string Node;
  services : gmap string ServiceNode;
  checks : gmap string HealthCheck;
  coordinates : gmap string Coordinate;
  prepared_queries : gmap string PreparedQuery;
  connect : connect_tables;
  acls : acl_tables
}.

Definition empty_db : db := mkDb ∅ ∅ ∅ ∅ ∅ ∅ ∅ ∅ ∅ ∅ (mkConnectTables ∅ ∅ ∅ ∅ ∅ ∅) (mkAclTables ∅ ∅ ∅ ∅ ∅).

(** Access to the table that holds objects of type [A]. *)
Class TableOf (A : Type) := {
  tbl : db → gmap string A;
  set_tbl : gmap string A → db → db
}.
#[export] Instance kvs_table : TableOf DirEntry := {| tbl := kvs;
  set_tbl t d := mkDb t (tombstones d) (index d) (sessions d) (session_checks d) (nodes d) (services
    d) (checks d) (coordinates d) (prepared_queries d) (connect d) (acls d) |}.
#[export] Instance tombstones_table : TableOf Tombstone := {| tbl := tombstones;
  set_tbl t d := mkDb (kvs d) t (index d) (sessions d) (session_checks d) (nodes d) (services d)
    (checks d) (coordinates d) (prepared_queries d) (connect d) (acls d) |}.
#[export] Instance index_table : TableOf IndexEntry := {| tbl := index;
  set_tbl t d := mkDb (kvs d) (tombstones d) t (sessions d) (session_checks d) (nodes d) (services
    d) (checks d) (coordinates d) (prepared_queries d) (connect d) (acls d) |}.
#[export] Instance sessions_table : TableOf Session := {| tbl := sessions;
  set_tbl t d := mkDb (kvs d) (tombstones d) (index d) t (session_checks d) (nodes d) (services d)
    (checks d) (coordinates d) (prepared_queries d) (connect d) (acls d) |}.
#[export] Instance session_checks_table : TableOf sessionCheck := {| tbl := session_checks;
  set_tbl t d := mkDb (kvs d) (tombstones d) (index d) (sessions d) t (nodes d) (services d) (checks
    d) (coordinates d) (prepared_queries d) (connect d) (acls d) |}.
#[export] Instance nodes_table : TableOf Node := {| tbl := nodes;
  set_tbl t d := mkDb (kvs d) (tombstones d) (index d) (sessions d) (session_checks d) t (services
    d) (checks d) (coordinates d) (prepared_queries d) (connect d) (acls d) |}.
#[export] Instance services_table : TableOf ServiceNode := {| tbl := services;
  set_tbl t d := mkDb (kvs d) (tombstones d) (index d) (sessions d) (session_checks d) (nodes d) t
    (checks d) (coordinates d) (prepared_queries d) (connect d) (acls d) |}.
#[export] Instance checks_table : TableOf HealthCheck := {| tbl := checks;
  set_tbl t d := mkDb (kvs d) (tombstones d) (index d) (sessions d) (session_checks d) (nodes d)
    (services d) t (coordinates d) (prepared_queries d) (connect d) (acls d) |}.
#[export] Instance coordinates_table : TableOf Coordinate := {| tbl := coordinates;
  set_tbl t d := mkDb (kvs d) (tombstones d) (index d) (sessions d) (session_checks d) (nodes d)
    (services d) (checks d) t (prepared_queries d) (connect d) (acls d) |}.
#[export] Instance prepared_queries_table : TableOf PreparedQuery := {| tbl := prepared_queries;
  set_tbl t d := mkDb (kvs d) (tombstones d) (index d) (sessions d) (session_checks d) (nodes d)
    (services d) (checks d) (coordinates d) t (connect d) (acls d) |}.

Definition set_connect (c : connect_tables) (d : db) : db :=
  mkDb (kvs d) (tombstones d) (index d) (sessions d) (session_checks d) (nodes d) (services d)
    (checks d) (coordinates d) (prepared_queries d) c (acls d).
Definition set_acls (a : acl_tables) (d : db) : db :=
  mkDb (kvs d) (tombstones d) (index d) (sessions d) (session_checks d) (nodes d) (services d)
    (checks d) (coordinates d) (prepared_queries d) (connect d) a.
#[export] Instance intentions_table : TableOf Intention := {| tbl d := intentions (connect d);
  set_tbl t d := set_connect (mkConnectTables t (ca_roots (connect d)) (ca_config (connect d))
    (ca_builtin (connect d)) (autopilot_config (connect d)) (config_entries (connect d))) d |}.
#[export] Instance ca_roots_table : TableOf CARoot := {| tbl d := ca_roots (connect d);
  set_tbl t d := set_connect (mkConnectTables (intentions (connect d)) t (ca_config (connect d))
    (ca_builtin (connect d)) (autopilot_config (connect d)) (config_entries (connect d))) d |}.
#[export] Instance ca_config_table : TableOf CAConfiguration := {| tbl d := ca_config (connect d);
  set_tbl t d := set_connect (mkConnectTables (intentions (connect d)) (ca_roots (connect d)) t
    (ca_builtin (connect d)) (autopilot_config (connect d)) (config_entries (connect d))) d |}.
#[export] Instance ca_builtin_table : TableOf CAConsulProviderState := {| tbl d := ca_builtin (connect d);
  set_tbl t d := set_connect (mkConnectTables (intentions (connect d)) (ca_roots (connect d))
    (ca_config (connect d)) t (autopilot_config (connect d)) (config_entries (connect d))) d |}.
#[export] Instance autopilot_config_table : TableOf AutopilotConfig := {| tbl d := autopilot_config (connect d);
  set_tbl t d := set_connect (mkConnectTables (intentions (connect d)) (ca_roots (connect d))
    (ca_config (connect d)) (ca_builtin (connect d)) t (config_entries (connect d))) d |}.
#[export] Instance config_entries_table : TableOf ConfigEntry := {| tbl d := config_entries (connect d);
  set_tbl t d := set_connect (mkConnectTables (intentions (connect d)) (ca_roots (connect d))
    (ca_config (connect d)) (ca_builtin (connect d)) (autopilot_config (connect d)) t) d |}.
#[export] Instance acl_tokens_table : TableOf ACLToken := {| tbl d := acl_tokens (acls d);
  set_tbl t d := set_acls (mkAclTables t (acl_policies (acls d)) (acl_roles (acls d))
    (acl_binding_rules (acls d)) (acl_auth_methods (acls d))) d |}.
#[export] Instance acl_policies_table : TableOf ACLPolicy := {| tbl d := acl_policies (acls d);
  set_tbl t d := set_acls (mkAclTables (acl_tokens (acls d)) t (acl_roles (acls d))
    (acl_binding_rules (acls d)) (acl_auth_methods (acls d))) d |}.
#[export] Instance acl_roles_table : TableOf ACLRole := {| tbl d := acl_roles (acls d);
  set_tbl t d := set_acls (mkAclTables (acl_tokens (acls d)) (acl_policies (acls d)) t
    (acl_binding_rules (acls d)) (acl_auth_methods (acls d))) d |}.
#[export] Instance acl_binding_rules_table : TableOf ACLBindingRule := {| tbl d := acl_binding_rules (acls d);
  set_tbl t d := set_acls (mkAclTables (acl_tokens (acls d)) (acl_policies (acls d)) (acl_roles
    (acls d)) t (acl_auth_methods (acls d))) d |}.
#[export] Instance acl_auth_methods_table : TableOf ACLAuthMethod := {| tbl d := acl_auth_methods (acls d);
  set_tbl t d := set_acls (mkAclTables (acl_tokens (acls d)) (acl_policies (acls d)) (acl_roles
    (acls d)) (acl_binding_rules (acls d)) t) d |}.

(** ** Transactions *)

Record txn := mkTxn {
  tx_db : db;
  tx_write : bool;
  tx_now : Z;
  tx_delay : Delay;
  tx_after : list N
}.
Definition tx_set_db (d : db) (s : txn) : txn :=
  mkTxn d (tx_write s) (tx_now s) (tx_delay s) (tx_after s).
Definition tx_set_delay (d : Delay) (s : txn) : txn :=
  mkTxn (tx_db s) (tx_write s) (tx_now s) d (tx_after s).
Definition tx_push_after (i : N) (s : txn) : txn :=
  mkTxn (tx_db s) (tx_write s) (tx_now s) (tx_delay s) (i :: tx_after s).

Abbreviation Tx A := (M txn A).

Section TxOps.
Context {A : Type} `{TableSchema A} `{TableOf A}.

(** [tx.Insert]. *)
Definition tx_Insert (x : A) : Tx unit := λ s,
  if tx_write s then
    match table_insert (tbl (tx_db s)) x with
    | Ok t => (Ok tt, tx_set_db (set_tbl t (tx_db s)) s)
    | Err e => (Err e, s)
    | Panic w => (Panic w, s)
    end
  else (Err (EMsg "cannot insert in read-only transaction" []), s).

(** [tx.Delete]. *)
Definition tx_Delete (x : A) : Tx unit := λ s,
  if tx_write s then
    match table_delete (tbl (tx_db s)) x with
    | Ok t => (Ok tt, tx_set_db (set_tbl t (tx_db s)) s)
    | Err e => (Err e, s)
    | Panic w => (Panic w, s)
    end
  else (Err (EMsg "cannot delete in read-only transaction" []), s).

(** [tx.First] on the unique primary index, by its key bytes. *)
Definition tx_First (k : string) : Tx (option A) := mget (λ s, tbl (tx_db s) !! k).

(** [tx.Get] on a secondary index, by the bytes [FromArgs] builds. *)
Definition tx_Get (ix : IndexSchema A) (p : string) : Tx (list A) :=
  mget (λ s, table_scan ix p (tbl (tx_db s))).

(** [tx.Get] on "id_prefix", and on "id" with no argument ([p = ""]). *)
Definition tx_GetPrefix (p : string) : Tx (list A) :=
  mget (λ s, table_prefix p (tbl (tx_db s))).

(** [tx.First] on a unique secondary index: the object filed under the key. *)
Definition tx_FirstUnique (ix : IndexSchema A) (key : string) : Tx (option A) :=
  mget (λ s, snd <$> head (filter (λ kx, bool_decide (key ∈ index_keys ix kx.1 kx.2))
                        (map_to_list (tbl (tx_db s))))).

(** [tx.DeletePrefix] on "id_prefix"; the boolean says whether anything
    was deleted. *)
Definition tx_DeletePrefix (p : string) : Tx bool := λ s,
  if tx_write s then
    match table_prefix p (tbl (tx_db s)) with
    | [] => (Ok false, s)
    | _ => (Ok true, tx_set_db (set_tbl (table_delete_prefix p (tbl (tx_db s))) (tx_db s)) s)
    end
  else (Err (EMsg "cannot delete in read-only transaction" []), s).
End TxOps.

(** [tx.First] on a UUID primary index: the argument is parsed first. *)
Definition tx_FirstUUID {A} `{TableSchema A} `{TableOf A} (id : string) : Tx (option A) :=
  let* k := mlift (owrap "index error" (uuid_parse id)) in
  tx_First k.
(** [tx.Get] on a UUID secondary index. *)
Definition tx_GetUUID {A} `{TableSchema A} `{TableOf A} (ix : IndexSchema A) (id : string) : Tx (list A) :=
  let* k := mlift (owrap "index error" (uuid_parse id)) in
  tx_Get ix k.

(** Primary keys of the catalog tables, as [FromArgs] builds them. *)
Definition node_key (node : string) : string := string_args true node.
Definition check_key (node checkID : string) : string := string_args true node +:+ string_args true checkID.
Definition service_key (node serviceID : string) : string := string_args true node +:+ string_args true serviceID.

(** ** Table indexes *)

(** [tx.Insert("index", &IndexEntry{name, idx})]. *)
Definition index_insert (name : string) (idx : N) : Tx unit :=
  mwrap "failed updating index" (tx_Insert (mkIndexEntry name idx)).

(** [maxIndexTxn] ([maxIndexWatchTxn] without the watch set). *)
Definition index_value (d : db) (table : string) : option N :=
  ie_Value <$> index d !! string_args true table.
Definition maxIndex_db (d : db) (tables : list string) : N :=
  fold_left (λ lindex table,
    match index_value d table with
    | Some v => if (lindex <? v)%N then v else lindex
    | None => lindex
    end) tables 0%N.
Definition maxIndexTxn (tables : list string) : Tx N := mget (λ s, maxIndex_db (tx_db s) tables).

(** [indexUpdateMaxTxn]. *)
Definition indexUpdateMaxTxn (idx : N) (table : string) : Tx unit :=
  let* ti := tx_First (string_args true table) in
  match ti with
  | None => mwrap "failed updating index" (tx_Insert (mkIndexEntry table idx))
  | Some cur =>
      if (ie_Value cur <? idx)%N
      then mwrap "failed updating index" (tx_Insert (mkIndexEntry table idx))
      else mreturn tt
  end.

(** [Restore.IndexRestore]. *)
Definition IndexRestore (ie : IndexEntry) : Tx unit := mwrap "index insert failed" (tx_Insert ie).

(** ** The store *)

(** [Store]: the database, the lock delays and, when tombstone collection is
    configured, the collector behind the graveyard. *)
Record Store := mkStore {
  st_db : db;
  st_delay : Delay;
  st_gc : option TombstoneGC
}.

(** [NewStateStore]. *)
Definition NewStateStore (gc : option TombstoneGC) : Store := mkStore empty_db NewDelay gc.

(** [s.db.Txn(write)] at the time [now]. *)
Definition begin_txn (write : bool) (now : Z) (st : Store) : txn :=
  mkTxn (st_db st) write now (st_delay st) [].

(** [tx.Commit]: the tables become the database and the deferred functions
    run, the last one pushed first. *)
Definition commit_txn (tx : txn) (st : Store) : Store :=
  mkStore (tx_db tx) (tx_delay tx)
    (match st_gc st with
     | None => None
     | Some gc => Some (fold_left (λ gc i, Hint_gc (tx_now tx) i gc) (tx_after tx) gc)
     end).

(** [tx.Abort]: the tables are dropped; lock delays already set stay. *)
Definition abort_txn (tx : txn) (st : Store) : Store :=
  mkStore (st_db st) (tx_delay tx) (st_gc st).

(** The shape of every write method of the store: open a write transaction,
    run the inner [...Txn] method, and commit unless it failed or said that
    nothing is to be committed. *)
Definition write_txn {A} (now : Z) (commit_if : A → bool) (m : Tx A) : M Store A := λ st,
  match m (begin_txn true now st) with
  | (Ok a, tx) => (Ok a, if commit_if a then commit_txn tx st else abort_txn tx st)
  | (Err e, tx) => (Err e, abort_txn tx st)
  | (Panic w, tx) => (Panic w, abort_txn tx st)
  end.

(** The shape of every read method. *)
Definition read_txn {A} (m : Tx A) (st : Store) : outcome A := fst (m (begin_txn false 0 st)).
