(* ===== verification/Graveyard.v ===== *)
(** * Tombstones (agent/consul/state/graveyard.go)

    A delete leaves a tombstone with its Raft index, so that the index of a
    listing does not slide back when its newest entry disappears. *)

From S2P Require Import Prelude Memdb ProxyConfig Structs Store.

(** [Graveyard.InsertTxn]; the hint is deferred to the commit. *)
Definition Graveyard_InsertTxn (key : string) (idx : N) : Tx unit :=
  mwrap "failed inserting tombstone" (tx_Insert (mkTombstone key idx)) ;;;
  index_insert "tombstones" idx ;;;
  mmodify (tx_push_after idx).

(** [Graveyard.GetMaxIndexTxn]. *)
Definition Graveyard_GetMaxIndexTxn (prefix : string) : Tx N :=
  let* stones := tx_GetPrefix prefix in
  mreturn (max_loop ts_Index 0 stones).

(** [Graveyard.DumpTxn]. *)
Definition Graveyard_DumpTxn : Tx (list Tombstone) := tx_GetPrefix "".

(** [Graveyard.RestoreTxn]. *)
Definition Graveyard_RestoreTxn (stone : Tombstone) : Tx unit :=
  mwrap "failed inserting tombstone" (tx_Insert stone) ;;;
  mwrap "failed updating index" (indexUpdateMaxTxn (ts_Index stone) "tombstones").

(** [Graveyard.ReapTxn]. *)
Definition Graveyard_ReapTxn (idx : N) : Tx unit :=
  let* stones := tx_GetPrefix "" in
  for stone in filter (λ s, (ts_Index s <= idx)%N) stones do
    mwrap "failed deleting tombstone" (tx_Delete (stone : Tombstone)).
