(* ===== verification/Kvs.v ===== *)
(** * The key/value store (agent/consul/state/kvs.go)

    The inner [...Txn] methods run inside a transaction; the exported ones
    wrap them.  Where Go mutates the entry it was given, the method returns
    the entry as it is afterwards. *)

From S2P Require Import Prelude Memdb ProxyConfig Structs Delay TombstoneGC Store Graveyard.

Definition kv_First (key : string) : Tx (option DirEntry) := tx_First (string_args false key).

(** [kvsSetTxn]. *)
Definition kvsSetTxn (idx : N) (entry : DirEntry) (updateSession : bool) : Tx DirEntry :=
  let* existing := kv_First (de_Key entry) in
  let entry := de_set_indexes (match existing with Some e => de_CreateIndex e | None => idx end) idx entry in
  let entry :=
    if updateSession then entry
    else de_set_session (match existing with Some e => de_Session e | None => "" end) entry in
  if (match existing with Some e => DirEntry_Equal e entry | None => false end)
  then mreturn entry
  else
    mwrap "failed inserting kvs entry" (tx_Insert entry) ;;;
    index_insert "kvs" idx ;;;
    mreturn entry.

(** [kvsGetTxn]. *)
Definition kvsGetTxn (key : string) : Tx (N * option DirEntry) :=
  let* idx := maxIndexTxn ["kvs"; "tombstones"] in
  let* entry := kv_First key in
  mreturn (idx, entry).

(** The index reported for a listing: the highest index among the listed
    entries and the tombstones under the prefix, the table index when the
    prefix is empty or that maximum is 0. *)
Definition list_index (prefix : string) (idx lindex : N) : Tx N :=
  let* lindex :=
    (if decide (prefix = "") then mreturn idx
     else let* gindex := Graveyard_GetMaxIndexTxn prefix in
          mreturn (if (lindex <? gindex)%N then gindex else lindex)) in
  mreturn (if decide (lindex = 0%N) then idx else lindex).

(** [kvsListTxn]. *)
Definition kvsListTxn (prefix : string) : Tx (N * list DirEntry) :=
  let* idx := maxIndexTxn ["kvs"; "tombstones"] in
  let* ents := tx_GetPrefix prefix in
  let* idx := list_index prefix idx (max_loop de_ModifyIndex 0 ents) in
  mreturn (idx, ents).

(** The loop of [KVSListKeys]: [last] is the last truncated key emitted.
    [e.Key[prefixLen:]] panics on a key shorter than the prefix. *)
Fixpoint list_keys (prefixLen : nat) (sep : string) (last : string) (ents : list DirEntry) :
    outcome (list string) :=
  match ents with
  | [] => Ok []
  | e :: ents =>
      if decide (sep = "") then
        obind (list_keys prefixLen sep last ents) (λ ks, Ok (de_Key e :: ks))
      else if (String.length (de_Key e) <? prefixLen)%nat then Panic "slice bounds out of range"
      else
        let after := String.substring prefixLen (String.length (de_Key e) - prefixLen) (de_Key e) in
        match String.index 0 sep after with
        | Some sepIdx =>
            let key := String.substring 0 (prefixLen + sepIdx + String.length sep) (de_Key e) in
            if decide (key = last) then list_keys prefixLen sep last ents
            else obind (list_keys prefixLen sep key ents) (λ ks, Ok (key :: ks))
        | None => obind (list_keys prefixLen sep last ents) (λ ks, Ok (de_Key e :: ks))
        end
  end.

(** [KVSListKeys]. *)
Definition kvsListKeysTxn (prefix sep : string) : Tx (N * list string) :=
  let* idx := maxIndexTxn ["kvs"; "tombstones"] in
  let* ents := tx_GetPrefix prefix in
  let* keys := mlift (list_keys (String.length prefix) sep "" ents) in
  let* idx := list_index prefix idx (max_loop de_ModifyIndex 0 (ents : list DirEntry)) in
  mreturn (idx, keys).

(** [kvsDeleteTxn]. *)
Definition kvsDeleteTxn (idx : N) (key : string) : Tx unit :=
  let* entry := kv_First key in
  match entry with
  | None => mreturn tt
  | Some entry =>
      mwrap "failed adding to graveyard" (Graveyard_InsertTxn key idx) ;;;
      mwrap "failed deleting kvs entry" (tx_Delete entry) ;;;
      index_insert "kvs" idx
  end.

(** [kvsDeleteCASTxn]. *)
Definition kvsDeleteCASTxn (idx cidx : N) (key : string) : Tx bool :=
  let* entry := kv_First key in
  match entry with
  | None => mreturn true
  | Some e =>
      if (de_ModifyIndex e =? cidx)%N
      then kvsDeleteTxn idx key ;;; mreturn true
      else mreturn false
  end.

(** [kvsSetCASTxn]. *)
Definition kvsSetCASTxn (idx : N) (entry : DirEntry) : Tx (bool * DirEntry) :=
  let* existing := kv_First (de_Key entry) in
  let mi := de_ModifyIndex entry in
  match existing with
  | Some e =>
      if (mi =? 0)%N then mreturn (false, entry)
      else if negb (mi =? de_ModifyIndex e)%N then mreturn (false, entry)
      else let* entry := kvsSetTxn idx entry false in mreturn (true, entry)
  | None =>
      if negb (mi =? 0)%N then mreturn (false, entry)
      else let* entry := kvsSetTxn idx entry false in mreturn (true, entry)
  end.

(** [kvsDeleteTreeTxn]. *)
Definition kvsDeleteTreeTxn (idx : N) (prefix : string) : Tx unit :=
  let* deleted := tx_DeletePrefix (A := DirEntry) prefix in
  if deleted then
    (if decide (prefix = "") then mreturn tt
     else mwrap "failed adding to graveyard" (Graveyard_InsertTxn prefix idx)) ;;;
    index_insert "kvs" idx
  else mreturn tt.

(** [kvsLockTxn]. *)
Definition kvsLockTxn (idx : N) (entry : DirEntry) : Tx (bool * DirEntry) :=
  if decide (de_Session entry = "") then mthrow (EMsg "missing session" [])
  else
    let* sess := mwrap "failed session lookup" (tx_FirstUUID (A := Session) (de_Session entry)) in
    match sess with
    | None => mthrow (EMsg "invalid session" [de_Session entry])
    | Some _ =>
        let* existing := kv_First (de_Key entry) in
        let set (create lock : N) :=
          let entry := de_set_indexes create idx (de_set_lock lock entry) in
          let* entry := kvsSetTxn idx entry true in
          mreturn (true, entry) in
        match existing with
        | Some e =>
            if decide (de_Session e = de_Session entry)
            then set (de_CreateIndex e) (de_LockIndex e)
            else if decide (de_Session e ≠ "")
            then mreturn (false, entry)
            else set (de_CreateIndex e) (u64_add (de_LockIndex e) 1)
        | None => set idx 1%N
        end
    end.

(** [kvsUnlockTxn]. *)
Definition kvsUnlockTxn (idx : N) (entry : DirEntry) : Tx (bool * DirEntry) :=
  if decide (de_Session entry = "") then mthrow (EMsg "missing session" [])
  else
    let* existing := kv_First (de_Key entry) in
    match existing with
    | None => mreturn (false, entry)
    | Some e =>
        if decide (de_Session e = de_Session entry) then
          let entry := de_set_indexes (de_CreateIndex e) idx
                         (de_set_lock (de_LockIndex e) (de_set_session "" entry)) in
          let* entry := kvsSetTxn idx entry true in
          mreturn (true, entry)
        else mreturn (false, entry)
    end.

(** [kvsCheckSessionTxn]. *)
Definition kvsCheckSessionTxn (key session : string) : Tx DirEntry :=
  let* entry := kv_First key in
  match entry with
  | None => mthrow (EMsg "failed to check session, key doesn't exist" [key])
  | Some e =>
      if decide (de_Session e = session) then mreturn e
      else mthrow (EMsg "failed session check for key" [key; de_Session e; session])
  end.

(** [kvsCheckIndexTxn]. *)
Definition kvsCheckIndexTxn (key : string) (cidx : N) : Tx DirEntry :=
  let* entry := kv_First key in
  match entry with
  | None => mthrow (EMsg "failed to check index, key doesn't exist" [key])
  | Some e =>
      if (de_ModifyIndex e =? cidx)%N then mreturn e
      else mthrow (EMsg "failed index check for key" [key])
  end.

(** ** The exported methods of [Store] *)

Definition KVSSet (now : Z) (idx : N) (entry : DirEntry) : M Store DirEntry :=
  write_txn now (λ _, true) (kvsSetTxn idx entry false).
Definition KVSGet (key : string) : Store → outcome (N * option DirEntry) := read_txn (kvsGetTxn key).
Definition KVSList (prefix : string) : Store → outcome (N * list DirEntry) := read_txn (kvsListTxn prefix).
Definition KVSListKeys (prefix sep : string) : Store → outcome (N * list string) :=
  read_txn (kvsListKeysTxn prefix sep).
Definition KVSDelete (now : Z) (idx : N) (key : string) : M Store unit :=
  write_txn now (λ _, true) (kvsDeleteTxn idx key).
Definition KVSDeleteCAS (now : Z) (idx cidx : N) (key : string) : M Store bool :=
  write_txn now id (kvsDeleteCASTxn idx cidx key).
Definition KVSSetCAS (now : Z) (idx : N) (entry : DirEntry) : M Store (bool * DirEntry) :=
  write_txn now fst (kvsSetCASTxn idx entry).
Definition KVSDeleteTree (now : Z) (idx : N) (prefix : string) : M Store unit :=
  write_txn now (λ _, true) (kvsDeleteTreeTxn idx prefix).
Definition KVSLock (now : Z) (idx : N) (entry : DirEntry) : M Store (bool * DirEntry) :=
  write_txn now fst (kvsLockTxn idx entry).
Definition KVSUnlock (now : Z) (idx : N) (entry : DirEntry) : M Store (bool * DirEntry) :=
  write_txn now fst (kvsUnlockTxn idx entry).
Definition KVSLockDelay (key : string) (st : Store) : option Z := GetExpiration (st_delay st) key.
Definition ReapTombstones (now : Z) (idx : N) : M Store unit :=
  write_txn now (λ _, true) (Graveyard_ReapTxn idx).

(** ** Snapshot and restore of the KV tables *)

Definition Snapshot_KVs : Tx (list DirEntry) := tx_GetPrefix "".
Definition Snapshot_Tombstones : Tx (list Tombstone) := Graveyard_DumpTxn.

(** [Restore.KVS] and [Restore.Tombstone]. *)
Definition Restore_KVS (entry : DirEntry) : Tx unit :=
  mwrap "failed inserting kvs entry" (tx_Insert entry) ;;;
  mwrap "failed updating index" (indexUpdateMaxTxn (de_ModifyIndex entry) "kvs").
Definition Restore_Tombstone (stone : Tombstone) : Tx unit :=
  mwrap "failed restoring tombstone" (Graveyard_RestoreTxn stone).
