(* ===== verification/Intention.v ===== *)
(** * Intentions (agent/structs/intention.go, agent/consul/state/intention.go)

    An intention allows or denies connections from a source service to a
    destination service; either may be a wildcard.  Its precedence grows with
    the number of exact values, the destination first.  Reads of the table
    return intentions in the order in which they apply. *)

From S2P Require Import Prelude Memdb ProxyConfig Structs ConnectTables Delay TombstoneGC Store.

(** ** The struct's methods *)

(** [Intention.countExact]. *)
Definition countExact (ns n : string) : Z :=
  if decide (ns = IntentionWildcard) then 0
  else if decide (n = IntentionWildcard) then 1
  else 2.

(** [Intention.UpdatePrecedence]. *)
Definition UpdatePrecedence (x : Intention) : Intention :=
  let countSrc := countExact (ixn_SourceNS x) (ixn_SourceName x) in
  let countDst := countExact (ixn_DestinationNS x) (ixn_DestinationName x) in
  let max := if decide (countDst = 2%Z) then Some 9%Z
             else if decide (countDst = 1%Z) then Some 6%Z
             else if decide (countDst = 0%Z) then Some 3%Z
             else None in
  match max with
  | None => ixn_set_precedence 0 x
  | Some max => ixn_set_precedence (max - (2 - countSrc)) x
  end.

(** [strings.Contains(s, "*")]. *)
Definition contains_wildcard (s : string) : bool := (0 <? count_char "*" s)%nat.

(** The messages [Intention.Validate] collects: the limits are
    [metaValueMaxLength = 512], [metaMaxKeyPairs = 64] and
    [metaKeyMaxLength = 128]. *)
Definition when (b : bool) (msg : string) : list string := if b then [msg] else [].
Definition validate_side (side ns name : string) : list string :=
  when (bool_decide (ns ≠ IntentionWildcard) && contains_wildcard ns)
    (side +:+ "NS: wildcard character '*' cannot be used with partial values") ++
  when (bool_decide (name ≠ IntentionWildcard) && contains_wildcard name)
    (side +:+ "Name: wildcard character '*' cannot be used with partial values") ++
  when (bool_decide (name ≠ IntentionWildcard) && bool_decide (ns = IntentionWildcard))
    (side +:+ "Name: exact value cannot follow wildcard namespace").
Definition validate_meta (m : gmap string string) : list string :=
  when (64 <? size m)%nat "Meta exceeds maximum element count 64" ++
  concat ((λ '(k, v),
    when (128 <? String.length k)%nat "Meta key exceeds maximum length 128" ++
    when (512 <? String.length v)%nat "Meta value exceeds maximum length 512") <$> map_to_list m).
Definition Intention_Validate (x : Intention) : list string :=
  when (bool_decide (ixn_SourceNS x = "")) "SourceNS must be set" ++
  when (bool_decide (ixn_SourceName x = "")) "SourceName must be set" ++
  when (bool_decide (ixn_DestinationNS x = "")) "DestinationNS must be set" ++
  when (bool_decide (ixn_DestinationName x = "")) "DestinationName must be set" ++
  validate_side "Source" (ixn_SourceNS x) (ixn_SourceName x) ++
  validate_side "Destination" (ixn_DestinationNS x) (ixn_DestinationName x) ++
  when (512 <? String.length (ixn_Description x))%nat "Description exceeds maximum length 512" ++
  validate_meta (default ∅ (ixn_Meta x)) ++
  when (bool_decide (ixn_Action x ≠ IntentionActionAllow ∧ ixn_Action x ≠ IntentionActionDeny))
    "Action must be set to 'allow' or 'deny'" ++
  when (bool_decide (ixn_SourceType x ≠ IntentionSourceConsul)) "SourceType must be set to 'consul'".

(** [Intention.GetACLPrefix]. *)
Definition Intention_GetACLPrefix (x : Intention) : string * bool :=
  (ixn_DestinationName x, bool_decide (ixn_DestinationName x ≠ "")).

(** [IntentionPrecedenceSorter.Less]. *)
Definition Intention_Less (a b : Intention) : bool :=
  if decide (ixn_Precedence a ≠ ixn_Precedence b) then bool_decide (ixn_Precedence b < ixn_Precedence a)%Z
  else if decide (ixn_SourceNS a ≠ ixn_SourceNS b) then String.ltb (ixn_SourceNS a) (ixn_SourceNS b)
  else if decide (ixn_SourceName a ≠ ixn_SourceName b) then String.ltb (ixn_SourceName a) (ixn_SourceName b)
  else if decide (ixn_DestinationNS a ≠ ixn_DestinationNS b)
  then String.ltb (ixn_DestinationNS a) (ixn_DestinationNS b)
  else String.ltb (ixn_DestinationName a) (ixn_DestinationName b).

(** [sort.Sort(IntentionPrecedenceSorter(ixns))]: [a] may stay before [b]
    when [b] is not less. *)
Definition prec_le (a b : Intention) : Prop := Intention_Less b a = false.
#[export] Instance prec_le_dec : RelDecision prec_le.
Proof. intros a b. unfold prec_le. apply _. Defined.
Definition sort_intentions (l : list Intention) : list Intention := merge_sort prec_le l.

(** ** The state store *)

(** [intentionSetTxn]. *)
Definition ixn_4tuple_args (x : Intention) : string :=
  string_args true (ixn_SourceNS x) +:+ string_args true (ixn_SourceName x) +:+
  string_args true (ixn_DestinationNS x) +:+ string_args true (ixn_DestinationName x).
Definition intentionSetTxn (idx : N) (ixn : Intention) : Tx unit :=
  if decide (ixn_ID ixn = "") then mthrow (EMsg "Missing Intention ID" []) else
  let ixn := UpdatePrecedence ixn in
  let* existing := mwrap "failed intention lookup" (tx_FirstUUID (A := Intention) (ixn_ID ixn)) in
  let ixn := match existing with
             | Some oldIxn => ixn_set_indexes (ixn_CreatedAt oldIxn) (ixn_CreateIndex oldIxn) idx ixn
             | None => ixn_set_indexes (ixn_CreatedAt ixn) idx idx ixn
             end in
  let* duplicate := tx_FirstUnique intentions_source_destination_index (ixn_4tuple_args ixn) in
  (match duplicate with
   | Some dupIxn =>
       if decide (ixn_ID dupIxn ≠ ixn_ID ixn)
       then mthrow (EMsg "duplicate intention found" [ixn_ID dupIxn]) else mreturn tt
   | None => mreturn tt
   end) ;;;
  let ixn := match ixn_Meta ixn with None => ixn_set_meta (Some ∅) ixn | Some _ => ixn end in
  tx_Insert ixn ;;;
  index_insert "connect-intentions" idx.

(** [IntentionSet]. *)
Definition IntentionSet (now : Z) (idx : N) (ixn : Intention) : M Store unit :=
  write_txn now (λ _, true) (intentionSetTxn idx ixn).

(** [intentionDeleteTxn]. *)
Definition intentionDeleteTxn (idx : N) (queryID : string) : Tx unit :=
  let* wrapped := mwrap "failed intention lookup" (tx_FirstUUID (A := Intention) queryID) in
  match wrapped with
  | None => mreturn tt
  | Some x => mwrap "failed intention delete" (tx_Delete x) ;;; index_insert "connect-intentions" idx
  end.

(** [IntentionDelete]. *)
Definition IntentionDelete (now : Z) (idx : N) (id : string) : M Store unit :=
  write_txn now (λ _, true) (mwrap "failed intention delete" (intentionDeleteTxn idx id)).

(** The index the reads answer with: [if idx < 1 { idx = 1 }]. *)
Definition intention_index : Tx N :=
  let* idx := maxIndexTxn ["connect-intentions"] in
  mreturn (if (idx <? 1)%N then 1%N else idx).

(** [IntentionGet]. *)
Definition IntentionGet (id : string) : Store → outcome (N * option Intention) :=
  read_txn (
    let* idx := intention_index in
    let* x := mwrap "failed intention lookup" (tx_FirstUUID id) in
    mreturn (idx, x)).

(** [Intentions]. *)
Definition Intentions : Store → outcome (N * list Intention) :=
  read_txn (
    let* idx := intention_index in
    let* results := tx_GetPrefix "" in
    mreturn (idx, sort_intentions results)).

(** [IntentionMatchEntry] and [IntentionQueryMatch]. *)
Record IntentionMatchEntry := mkMatchEntry { me_Namespace : string; me_Name : string }.
Record IntentionQueryMatch := mkQueryMatch { qm_Type : string; qm_Entries : list IntentionMatchEntry }.

(** [intentionMatchGetParams]. *)
Definition intentionMatchGetParams (entry : IntentionMatchEntry) : list (string * string) :=
  if decide (me_Namespace entry = IntentionWildcard) then [("*", "*")]
  else if decide (me_Name entry = IntentionWildcard) then [("*", "*"); (me_Namespace entry, "*")]
  else [("*", "*"); (me_Namespace entry, "*"); (me_Namespace entry, me_Name entry)].

(** The index named by the type of the match. *)
Definition match_index (type : string) : outcome (IndexSchema Intention) :=
  if decide (type = "source") then Ok intentions_source_index
  else if decide (type = "destination") then Ok intentions_destination_index
  else Err (EMsg "invalid index" [type]).

(** [IntentionMatch]. *)
Definition match_entry (type : string) (entry : IntentionMatchEntry) : Tx (list Intention) :=
  let* ixns := mmap (λ '(ns, n),
    let* ix := mwrap "failed intention lookup" (mlift (match_index type)) in
    tx_Get ix (string_args true ns +:+ string_args true n)) (intentionMatchGetParams entry) in
  mreturn (sort_intentions (concat ixns)).
Definition IntentionMatch (args : IntentionQueryMatch) : Store → outcome (N * list (list Intention)) :=
  read_txn (
    let* idx := intention_index in
    let* results := mmap (match_entry (qm_Type args)) (qm_Entries args) in
    mreturn (idx, results)).

(** [Snapshot.Intentions] and [Restore.Intention]. *)
Definition Snapshot_Intentions : Tx (list Intention) := tx_GetPrefix "".
Definition Restore_Intention (ixn : Intention) : Tx unit :=
  mwrap "failed restoring intention" (tx_Insert ixn) ;;;
  mwrap "failed updating index" (indexUpdateMaxTxn (ixn_ModifyIndex ixn) "connect-intentions").

(** ** Deciding a connection *)

(** [SpiffeIDService] (agent/connect/uri_service.go) and its [Authorize]:
    [Some allow] when the intention applies to the source. *)
Record SpiffeIDService := mkSpiffe { sp_Host : string; sp_Namespace : string; sp_Datacenter : string; sp_Service : string }.
Definition SpiffeIDService_Authorize (id : SpiffeIDService) (ixn : Intention) : option bool :=
  if decide (ixn_SourceNS ixn ≠ IntentionWildcard ∧ ixn_SourceNS ixn ≠ sp_Namespace id) then None
  else if decide (ixn_SourceName ixn ≠ IntentionWildcard ∧ ixn_SourceName ixn ≠ sp_Service id) then None
  else Some (bool_decide (ixn_Action ixn = IntentionActionAllow)).

(** The loop over the matches in [Intention.Check] and [ConnectAuthorize]:
    the first intention that applies decides. *)
Fixpoint authorize_first (uri : SpiffeIDService) (ixns : list Intention) : option bool :=
  match ixns with
  | [] => None
  | ixn :: ixns =>
      match SpiffeIDService_Authorize uri ixn with
      | Some auth => Some auth
      | None => authorize_first uri ixns
      end
  end.
