(* ===== verification/ConnectCA.v ===== *)
(** * The state of the Connect certificate authority (state/connect_ca.go) *)

From S2P Require Import Prelude Memdb ProxyConfig Structs ConnectTables Delay TombstoneGC Store.

(** ** Configuration *)

(** [tx.First] on a table of one row. *)
Definition first_row {A} `{TableOf A} : Tx (option A) := tx_First one_row.

(** [caConfigTxn] and [CAConfig]. *)
Definition caConfigTxn : Tx (N * option CAConfiguration) :=
  let* c := first_row in
  mreturn (match c with Some config => (cac_ModifyIndex config, Some config) | None => (0%N, None) end).
Definition CAConfig : Store → outcome (N * option CAConfiguration) := read_txn caConfigTxn.

(** [caSetConfigTxn]. *)
Definition caSetConfigTxn (idx : N) (config : CAConfiguration) : Tx unit :=
  let* prev := first_row in
  let config := match prev with
    | Some existing =>
        mkCAConfiguration (if decide (cac_ClusterID config = "") then cac_ClusterID existing else cac_ClusterID config)
          (cac_Provider config) (cac_Config config) (cac_CreateIndex existing) idx
    | None => mkCAConfiguration (cac_ClusterID config) (cac_Provider config) (cac_Config config) idx idx
    end in
  mwrap "failed updating CA config" (tx_Insert config).

(** [CASetConfig]. *)
Definition CASetConfig (now : Z) (idx : N) (config : CAConfiguration) : M Store unit :=
  write_txn now (λ _, true) (caSetConfigTxn idx config).

(** [CACheckAndSetConfig]. *)
Definition caCheckAndSetConfigTxn (idx cidx : N) (config : CAConfiguration) : Tx bool :=
  let* existing := first_row (A := CAConfiguration) in
  if match existing with Some e => bool_decide (cac_ModifyIndex e ≠ cidx) | None => bool_decide (cidx ≠ 0%N) end
  then mreturn false
  else caSetConfigTxn idx config ;;; mreturn true.
Definition CACheckAndSetConfig (now : Z) (idx cidx : N) (config : CAConfiguration) : M Store bool :=
  write_txn now id (caCheckAndSetConfigTxn idx cidx config).

(** ** Roots *)

(** [caRootsTxn], [CARoots] and [CARootActive]. *)
Definition caRootsTxn : Tx (N * list CARoot) :=
  let* idx := maxIndexTxn ["connect-ca-roots"] in
  let* results := tx_GetPrefix "" in
  mreturn (idx, results).
Definition CARoots : Store → outcome (N * list CARoot) := read_txn caRootsTxn.
Definition CARootActive (st : Store) : outcome (N * option CARoot) :=
  obind (CARoots st) (λ '(idx, roots), Ok (idx, snd <$> list_find (λ r, car_Active r) roots)).

(** [CARootSetCAS]: at most one write, of a whole set of roots. *)
Definition active_count (rs : list CARoot) : nat := length (filter (λ r, car_Active r) rs).
Definition stamp_root (idx : N) (r : CARoot) : Tx CARoot :=
  if decide (car_ID r = "") then mthrow (EMsg "Missing CA Root ID" []) else
  let* existing := tx_First (A := CARoot) (string_args false (car_ID r)) in
  mreturn (car_set_indexes (match existing with Some e => car_CreateIndex e | None => idx end) idx r).
Definition caRootSetCASTxn (idx cidx : N) (rs : list CARoot) : Tx bool :=
  if decide (active_count rs ≠ 1) then mthrow (EMsg "there must be exactly one active CA" []) else
  let* midx := maxIndexTxn ["connect-ca-roots"] in
  if decide (midx ≠ cidx) then mreturn false else
  let* rs := mmap (stamp_root idx) rs in
  tx_DeletePrefix (A := CARoot) "" ;;;
  (for r in rs do tx_Insert r) ;;;
  index_insert "connect-ca-roots" idx ;;;
  mreturn true.
Definition CARootSetCAS (now : Z) (idx cidx : N) (rs : list CARoot) : M Store bool :=
  write_txn now id (caRootSetCASTxn idx cidx rs).

(** ** The state of the built-in provider *)

(** [CAProviderState]. *)
Definition CAProviderState (id : string) : Store → outcome (N * option CAConsulProviderState) :=
  read_txn (
    let* idx := maxIndexTxn ["connect-ca-builtin"] in
    let* c := tx_First (string_args false id) in
    mreturn (match c with Some state => (idx, Some state) | None => (0%N, None) end)).

(** [CASetProviderState]. *)
Definition caSetProviderStateTxn (idx : N) (state : CAConsulProviderState) : Tx bool :=
  let* existing := tx_First (A := CAConsulProviderState) (string_args false (cap_ID state)) in
  let create := match existing with Some e => cap_CreateIndex e | None => idx end in
  mwrap "failed updating built-in CA state"
    (tx_Insert (mkCAConsulProviderState (cap_ID state) (cap_PrivateKey state) (cap_RootCert state)
                  (cap_IntermediateCert state) create idx)) ;;;
  index_insert "connect-ca-builtin" idx ;;;
  mreturn true.
Definition CASetProviderState (now : Z) (idx : N) (state : CAConsulProviderState) : M Store bool :=
  write_txn now (λ _, true) (caSetProviderStateTxn idx state).

(** [CADeleteProviderState]: the table index keeps its value. *)
Definition caDeleteProviderStateTxn (id : string) : Tx unit :=
  let* idx := maxIndexTxn ["connect-ca-builtin"] in
  let* existing := tx_First (A := CAConsulProviderState) (string_args false id) in
  match existing with
  | None => mreturn tt
  | Some providerState => tx_Delete providerState ;;; index_insert "connect-ca-builtin" idx
  end.
Definition CADeleteProviderState (now : Z) (id : string) : M Store unit :=
  write_txn now (λ _, true) (caDeleteProviderStateTxn id).

(** [CALeafSetIndex]: the deferred [tx.Abort] drops the transaction, which
    nothing commits. *)
Definition CALeafSetIndex (now : Z) (index : N) : M Store unit :=
  write_txn now (λ _, false) (indexUpdateMaxTxn index "connect-ca-leaf-certs").

(** [CARootsAndConfig]. *)
Definition CARootsAndConfig : Store → outcome (N * list CARoot * option CAConfiguration) :=
  read_txn (
    let* (confIdx, config) := caConfigTxn in
    let* (rootsIdx, roots) := caRootsTxn in
    mreturn (if (rootsIdx <? confIdx)%N then confIdx else rootsIdx, roots, config)).

(** [CAIncrementProviderSerialNumber]. *)
Definition caIncrementProviderSerialNumberTxn : Tx N :=
  let* existing := tx_First (A := IndexEntry) (string_args true "connect-ca-builtin-serial") in
  let* last := match existing with
    | Some e => mreturn (ie_Value e)
    | None => maxIndexTxn ["connect-ca-builtin"]
    end in
  let next := u64_add last 1 in
  index_insert "connect-ca-builtin-serial" next ;;;
  mreturn next.
Definition CAIncrementProviderSerialNumber (now : Z) : M Store N :=
  write_txn now (λ _, true) caIncrementProviderSerialNumberTxn.

(** ** Snapshots *)

(** [Snapshot.CAConfig], [Snapshot.CARoots] and [Snapshot.CAProviderState]. *)
Definition Snapshot_CAConfig : Tx (option CAConfiguration) := first_row.
Definition Snapshot_CARoots : Tx (list CARoot) := tx_GetPrefix "".
Definition Snapshot_CAProviderState : Tx (list CAConsulProviderState) := tx_GetPrefix "".
(** [Restore.CAConfig], [Restore.CARoot] and [Restore.CAProviderState]. *)
Definition Restore_CAConfig (config : CAConfiguration) : Tx unit :=
  if decide (cac_Provider config = "") then mreturn tt
  else mwrap "failed restoring CA config" (tx_Insert config).
Definition Restore_CARoot (r : CARoot) : Tx unit :=
  mwrap "failed restoring CA root" (tx_Insert r) ;;;
  mwrap "failed updating index" (indexUpdateMaxTxn (car_ModifyIndex r) "connect-ca-roots").
Definition Restore_CAProviderState (state : CAConsulProviderState) : Tx unit :=
  mwrap "failed restoring built-in CA state" (tx_Insert state) ;;;
  mwrap "failed updating index" (indexUpdateMaxTxn (cap_ModifyIndex state) "connect-ca-builtin").
