(* ===== verification/Autopilot.v ===== *)
(** * The configuration of autopilot in the state store (state/autopilot.go) *)

From S2P Require Import Prelude Memdb ProxyConfig Structs ConnectTables Delay TombstoneGC Store ConnectCA.

(** [AutopilotConfig]. *)
Definition AutopilotConfig_get : Store → outcome (N * option AutopilotConfig) :=
  read_txn (
    let* c := first_row in
    mreturn (match c with Some config => (ap_ModifyIndex config, Some config) | None => (0%N, None) end)).

(** [autopilotSetConfigTxn]. *)
Definition autopilotSetConfigTxn (idx : N) (config : AutopilotConfig) : Tx unit :=
  let* existing := first_row (A := AutopilotConfig) in
  let create := match existing with Some e => ap_CreateIndex e | None => idx end in
  mwrap "failed updating autopilot config"
    (tx_Insert (mkAutopilotConfig (ap_CleanupDeadServers config) (ap_LastContactThreshold config)
                  (ap_MaxTrailingLogs config) (ap_MinQuorum config) (ap_ServerStabilizationTime config) create idx)).

(** [AutopilotSetConfig]. *)
Definition AutopilotSetConfig (now : Z) (idx : N) (config : AutopilotConfig) : M Store unit :=
  write_txn now (λ _, true) (autopilotSetConfigTxn idx config).

(** [AutopilotCASConfig]: unlike the CA's, it never creates the first one. *)
Definition autopilotCASConfigTxn (idx cidx : N) (config : AutopilotConfig) : Tx bool :=
  let* existing := first_row (A := AutopilotConfig) in
  if match existing with Some e => bool_decide (ap_ModifyIndex e ≠ cidx) | None => true end
  then mreturn false
  else autopilotSetConfigTxn idx config ;;; mreturn true.
Definition AutopilotCASConfig (now : Z) (idx cidx : N) (config : AutopilotConfig) : M Store bool :=
  write_txn now id (autopilotCASConfigTxn idx cidx config).

(** [Snapshot.Autopilot] and [Restore.Autopilot]. *)
Definition Snapshot_Autopilot : Tx (option AutopilotConfig) := first_row.
Definition Restore_Autopilot (config : AutopilotConfig) : Tx unit :=
  mwrap "failed restoring autopilot config" (tx_Insert config).
