(* ===== verification/AclState.v ===== *)
(** * The ACL tables (agent/consul/state/acl.go)

    Tokens link to policies and roles, roles to policies, tokens and binding
    rules to auth methods; all links are by identifier and carry the name for
    display.  A write resolves the links of what it stores; deleting a policy
    or a role leaves the links to it, which every read then drops
    ([fixup...Links]).  Deleting an auth method deletes its rules and tokens.

    The unique indexes of go-memdb keep the last object filed under a key.
    Here they are searched in the table, which is the same as long as no two
    objects share the key: policy and role names and identifiers, and token
    secrets, never do; accessors are unique when they are generated. *)

From S2P Require Import Prelude Memdb ProxyConfig Structs ConnectTables AclTables Delay TombstoneGC Store.

(** ** Lookups *)

(** [tx.First("acl-policies", index, value)], and [getPolicyWithTxn]. *)
Definition policy_First (value index : string) : Tx (option ACLPolicy) :=
  if decide (index = "id") then tx_FirstUUID value
  else if decide (index = "name") then tx_FirstUnique policies_name_index (string_args true value)
  else mthrow (EMsg "invalid index" [index]).
Definition getPolicyWithTxn (value index : string) : Tx (option ACLPolicy) :=
  mwrap "failed acl policy lookup" (policy_First value index).

Definition role_First (value index : string) : Tx (option ACLRole) :=
  if decide (index = "id") then tx_FirstUUID value
  else if decide (index = "name") then tx_FirstUnique roles_name_index (string_args true value)
  else mthrow (EMsg "invalid index" [index]).

Definition token_First (value index : string) : Tx (option ACLToken) :=
  if decide (index = "id") then tx_First (string_args false value)
  else if decide (index = "accessor") then
    let* b := mlift (owrap "index error" (uuid_parse value)) in
    tx_FirstUnique tokens_accessor_index b
  else mthrow (EMsg "invalid index" [index]).

(** [getAuthMethodWithTxn] on the index "id", the only one it is used with. *)
Definition getAuthMethodWithTxn (value : string) : Tx (option ACLAuthMethod) :=
  tx_First (string_args true value).

(** ** Links

    The code has a copy per kind of link; [Link] is what they share. *)

Class Link (L : Type) := { link_ID : L → string; link_Name : L → string; mkLink : string → string → L }.
#[export] Instance token_policy_link : Link ACLTokenPolicyLink :=
  {| link_ID := tpl_ID; link_Name := tpl_Name; mkLink := mkTokenPolicyLink |}.
#[export] Instance token_role_link : Link ACLTokenRoleLink :=
  {| link_ID := trl_ID; link_Name := trl_Name; mkLink := mkTokenRoleLink |}.
#[export] Instance role_policy_link : Link ACLRolePolicyLink :=
  {| link_ID := rpl_ID; link_Name := rpl_Name; mkLink := mkRolePolicyLink |}.

Section links.
Context {L : Type} `{Link L}.
(** What the link names: the current name of the object, if it exists. *)
Variable lookup : string → Tx (option string).

(** The loop of [resolve...Links]: the number of valid links, and the links
    with the names filled in. *)
Fixpoint resolve_links (what : string) (allowMissing : bool) (links : list L) : Tx (nat * list L) :=
  match links with
  | [] => mreturn (0, [])
  | link :: links =>
      if decide (link_ID link ≠ "") then
        let* name := lookup (link_ID link) in
        match name with
        | Some name =>
            let* (numValid, links) := resolve_links what allowMissing links in
            mreturn (S numValid, mkLink (link_ID link) name :: links)
        | None =>
            if allowMissing then
              let* (numValid, links) := resolve_links what allowMissing links in
              mreturn (numValid, link :: links)
            else mthrow (EMsg ("No such " +:+ what +:+ " with ID") [link_ID link])
        end
      else mthrow (EMsg (what +:+ " linked by Name in the state store") [])
  end.

(** The loop of [fixup...Links]: [copied] are the links before this one,
    [owned] the links of the clone once there is one. *)
Fixpoint fixup_loop (what : string) (copied : list L) (owned : option (list L)) (links : list L) :
    Tx (option (list L)) :=
  match links with
  | [] => mreturn owned
  | link :: links =>
      if decide (link_ID link = "")
      then mthrow (EMsg ("corrupted " +:+ what +:+ " within the state store - missing link ID") [])
      else
        let* name := lookup (link_ID link) in
        let owned :=
          match name with
          | None => Some (default copied owned)
          | Some name =>
              if decide (name ≠ link_Name link)
              then Some (default copied owned ++ [mkLink (link_ID link) name])
              else match owned with Some clone => Some (clone ++ [link]) | None => None end
          end in
        fixup_loop what (copied ++ [link]) owned links
  end.
Definition fixup_links (what : string) (links : list L) : Tx (list L) :=
  let* owned := fixup_loop what [] None links in
  mreturn (default links owned).
End links.

Definition policy_name (id : string) : Tx (option string) :=
  let* policy := getPolicyWithTxn id "id" in mreturn (acp_Name <$> policy).

(** [fixupRolePolicyLinks] and [getRoleWithTxn]. *)
Definition fixupRolePolicyLinks (original : ACLRole) : Tx ACLRole :=
  let* ps := fixup_links policy_name "role" (acr_Policies original) in
  mreturn (acr_set_policies ps original).
Definition getRoleWithTxn (value index : string) : Tx (option ACLRole) :=
  let* rawRole := mwrap "failed acl role lookup" (role_First value index) in
  match rawRole with
  | Some role => let* role := fixupRolePolicyLinks role in mreturn (Some role)
  | None => mreturn None
  end.
Definition role_name (id : string) : Tx (option string) :=
  let* role := getRoleWithTxn id "id" in mreturn (acr_Name <$> role).

(** [resolveTokenPolicyLinks], [resolveTokenRoleLinks] and
    [resolveRolePolicyLinks]. *)
Definition resolveTokenPolicyLinks (token : ACLToken) (allowMissing : bool) : Tx (nat * ACLToken) :=
  let* (n, ps) := resolve_links policy_name "policy" allowMissing (act_Policies token) in
  mreturn (n, act_set_links ps (act_Roles token) token).
Definition resolveTokenRoleLinks (token : ACLToken) (allowMissing : bool) : Tx (nat * ACLToken) :=
  let* (n, rs) := resolve_links role_name "role" allowMissing (act_Roles token) in
  mreturn (n, act_set_links (act_Policies token) rs token).
Definition resolveRolePolicyLinks (role : ACLRole) (allowMissing : bool) : Tx ACLRole :=
  let* (_, ps) := resolve_links policy_name "policy" allowMissing (acr_Policies role) in
  mreturn (acr_set_policies ps role).

(** [fixupTokenPolicyLinks] and [fixupTokenRoleLinks]. *)
Definition fixupTokenPolicyLinks (original : ACLToken) : Tx ACLToken :=
  let* ps := fixup_links policy_name "token" (act_Policies original) in
  mreturn (act_set_links ps (act_Roles original) original).
Definition fixupTokenRoleLinks (original : ACLToken) : Tx ACLToken :=
  let* rs := fixup_links role_name "token" (act_Roles original) in
  mreturn (act_set_links (act_Policies original) rs original).

(** ** Tokens *)

(** The [cas] guard of [aclTokenSetTxn]: whether to leave the token alone. *)
Definition token_cas_skip (token : ACLToken) (original : option ACLToken) : bool :=
  match original with
  | Some o => bool_decide (act_ModifyIndex token = 0%N) || bool_decide (act_ModifyIndex token ≠ act_ModifyIndex o)
  | None => bool_decide (act_ModifyIndex token ≠ 0%N)
  end.

(** [aclTokenSetTxn]. *)
Definition aclTokenSetTxn (idx : N) (token : ACLToken)
    (cas allowMissingPolicyAndRoleIDs prohibitUnprivileged legacy : bool) : Tx unit :=
  if decide (act_SecretID token = "") then mthrow (EMsg "Missing ACL Token SecretID" []) else
  if decide (legacy = false ∧ act_AccessorID token = "") then mthrow (EMsg "Missing ACL Token AccessorID" []) else
  let* original := mwrap "failed token lookup" (token_First (act_SecretID token) "id") in
  if cas && token_cas_skip token original then mreturn tt else
  let* token := match legacy, original with
    | true, Some o =>
        if UsesNonLegacyFields o
        then mthrow (EMsg "failed inserting acl token: cannot use legacy endpoint to modify a non-legacy token" [])
        else mreturn (act_set_accessor (act_AccessorID o) token)
    | _, _ => mreturn token
    end in
  let* (numValidPolicies, token) := resolveTokenPolicyLinks token allowMissingPolicyAndRoleIDs in
  let* (numValidRoles, token) := resolveTokenRoleLinks token allowMissingPolicyAndRoleIDs in
  (if decide (act_AuthMethod token ≠ "") then
     let* method := getAuthMethodWithTxn (act_AuthMethod token) in
     match method with
     | None => mthrow (EMsg "No such auth method with Name" [act_AuthMethod token])
     | Some _ => mreturn tt
     end
   else mreturn tt) ;;;
  (if existsb (λ svcid, bool_decide (asi_ServiceName svcid = "")) (act_ServiceIdentities token)
   then mthrow (EMsg "Encountered a Token with an empty service identity name in the state store" [])
   else mreturn tt) ;;;
  (if prohibitUnprivileged && bool_decide (numValidRoles = 0) && bool_decide (numValidPolicies = 0) &&
      bool_decide (length (act_ServiceIdentities token) = 0)
   then mthrow (EMsg "Token has no privileges" []) else mreturn tt) ;;;
  let* token := match original with
    | Some o =>
        if decide (act_AccessorID o ≠ "" ∧ act_AccessorID token ≠ act_AccessorID o)
        then mthrow (EMsg "The ACL Token AccessorID field is immutable" [])
        else if decide (act_SecretID token ≠ act_SecretID o)
        then mthrow (EMsg "The ACL Token SecretID field is immutable" [])
        else mreturn (act_set_indexes (act_CreateIndex o) idx token)
    | None => mreturn (act_set_indexes idx idx token)
    end in
  mwrap "failed inserting acl token" (tx_Insert token).

Definition update_acl_index (idx : N) (table : string) : Tx unit :=
  mwrap "failed updating index" (indexUpdateMaxTxn idx table).

(** [ACLTokenSet] and [ACLTokenBatchSet]. *)
Definition ACLTokenSet (now : Z) (idx : N) (token : ACLToken) (legacy : bool) : M Store unit :=
  write_txn now (λ _, true)
    (aclTokenSetTxn idx token false false false legacy ;;; update_acl_index idx "acl-tokens").
Definition aclTokenBatchSetTxn (idx : N) (tokens : list ACLToken)
    (cas allowMissingPolicyAndRoleIDs prohibitUnprivileged : bool) : Tx unit :=
  (for token in tokens do
     aclTokenSetTxn idx token cas allowMissingPolicyAndRoleIDs prohibitUnprivileged false) ;;;
  update_acl_index idx "acl-tokens".
Definition ACLTokenBatchSet (now : Z) (idx : N) (tokens : list ACLToken)
    (cas allowMissingPolicyAndRoleIDs prohibitUnprivileged : bool) : M Store unit :=
  write_txn now (λ _, true) (aclTokenBatchSetTxn idx tokens cas allowMissingPolicyAndRoleIDs prohibitUnprivileged).

(** [ACLBootstrap] and [CanBootstrapACLToken]. *)
Definition aclBootstrapTxn (idx resetIndex : N) (token : ACLToken) (legacy : bool) : Tx unit :=
  let* existing := tx_First (A := IndexEntry) (string_args true "acl-token-bootstrap") in
  (match existing with
   | Some e =>
       if decide (resetIndex = 0%N) then mthrow (EMsg "ACL bootstrap no longer allowed" [])
       else if decide (resetIndex ≠ ie_Value e) then mthrow (EMsg "Invalid ACL bootstrap reset index" [])
       else mreturn tt
   | None => mreturn tt
   end) ;;;
  mwrap "failed inserting bootstrap token" (aclTokenSetTxn idx token false false false legacy) ;;;
  update_acl_index idx "acl-tokens" ;;;
  index_insert "acl-token-bootstrap" idx.
Definition ACLBootstrap (now : Z) (idx resetIndex : N) (token : ACLToken) (legacy : bool) : M Store unit :=
  write_txn now (λ _, true) (aclBootstrapTxn idx resetIndex token legacy).
Definition CanBootstrapACLToken : Store → outcome (bool * N) :=
  read_txn (
    let* out := tx_First (A := IndexEntry) (string_args true "acl-token-bootstrap") in
    mreturn (match out with None => (true, 0%N) | Some e => (false, ie_Value e) end)).

(** [aclTokenGetTxn], [aclTokenGet] and the methods over it. *)
Definition fixup_token (token : ACLToken) : Tx ACLToken :=
  let* token := fixupTokenPolicyLinks token in fixupTokenRoleLinks token.
Definition aclTokenGetTxn (value index : string) : Tx (option ACLToken) :=
  let* rawToken := mwrap "failed acl token lookup" (token_First value index) in
  match rawToken with
  | Some token => let* token := fixup_token token in mreturn (Some token)
  | None => mreturn None
  end.
Definition aclTokenGet (value index : string) : Store → outcome (N * option ACLToken) :=
  read_txn (
    let* token := mwrap "failed acl token lookup" (aclTokenGetTxn value index) in
    let* idx := maxIndexTxn ["acl-tokens"] in
    mreturn (idx, token)).
Definition ACLTokenGetBySecret (secret : string) := aclTokenGet secret "id".
Definition ACLTokenGetByAccessor (accessor : string) := aclTokenGet accessor "accessor".
(** [ACLTokenBatchGet], [ACLPolicyBatchGet] and [ACLRoleBatchGet] drop what
    is not found. *)
Definition ACLTokenBatchGet (accessors : list string) : Store → outcome (N * list ACLToken) :=
  read_txn (
    let* tokens := mmap (λ accessor, mwrap "failed acl token lookup" (aclTokenGetTxn accessor "accessor")) accessors in
    let* idx := maxIndexTxn ["acl-tokens"] in
    mreturn (idx, omap id tokens)).

(** [ACLTokenList]. *)
Definition token_list_iter (local global : bool) (policy role methodName : string) : Tx (bool * list ACLToken) :=
  if decide (policy = "" ∧ role = "" ∧ methodName = "") then
    let* l := if bool_decide (global = local) then tx_GetPrefix ""
              else if global then tx_Get tokens_local_index (String "000" "")
              else tx_Get tokens_local_index (String "001" "") in
    mreturn (false, l)
  else if decide (policy ≠ "" ∧ role = "" ∧ methodName = "") then
    let* l := tx_Get tokens_policies_index (links_args policy) in mreturn (true, l)
  else if decide (policy = "" ∧ role ≠ "" ∧ methodName = "") then
    let* l := tx_Get tokens_roles_index (links_args role) in mreturn (true, l)
  else if decide (policy = "" ∧ role = "" ∧ methodName ≠ "") then
    let* l := tx_Get tokens_authmethod_index (string_args false methodName) in mreturn (true, l)
  else mthrow (EMsg "can only filter by one of policy, role, or methodName at a time" []).
(** The function given to [memdb.NewFilterIterator]: true drops the token. *)
Definition locality_filter (local global : bool) (token : ACLToken) : bool :=
  if global && negb (act_Local token) then false
  else if local && act_Local token then false
  else true.
Definition ACLTokenList (local global : bool) (policy role methodName : string) : Store → outcome (N * list ACLToken) :=
  read_txn (
    let* (needLocalityFilter, tokens) := token_list_iter local global policy role methodName in
    let tokens := if (needLocalityFilter : bool) && bool_decide (global ≠ local)
                  then filter (λ t, locality_filter local global t = false) tokens else tokens in
    let* result := mmap fixup_token tokens in
    let* idx := maxIndexTxn ["acl-tokens"] in
    mreturn (idx, result)).

(** [ACLTokenListUpgradeable]: the loop stops after appending the [max]-th. *)
Fixpoint take_max (i max : Z) (l : list ACLToken) : list ACLToken :=
  match l with
  | [] => []
  | token :: l => token :: (if bool_decide (max ≤ i + 1)%Z then [] else take_max (i + 1) max l)
  end.
Definition ACLTokenListUpgradeable (max : Z) : Store → outcome (list ACLToken) :=
  read_txn (let* l := tx_Get tokens_needs_upgrade_index (String "001" "") in mreturn (take_max 0 max l)).

(** [ACLTokenMinExpirationTime] and [ACLTokenListExpired]. *)
Definition ACLTokenMinExpirationTime (local : bool) : Store → outcome Z :=
  read_txn (
    let* l := tx_Get (tokens_expires_index local) "" in
    match l with
    | [] => mreturn zero_time
    | token :: _ =>
        match act_ExpirationTime token with Some t => mreturn t | None => mpanic "nil ExpirationTime" end
    end).
Fixpoint take_expired (asOf i max : Z) (l : list ACLToken) : list ACLToken :=
  match l with
  | [] => []
  | token :: l =>
      if match act_ExpirationTime token with Some t => bool_decide (asOf ≤ t)%Z | None => false end then []
      else token :: (if bool_decide (max ≤ i + 1)%Z then [] else take_expired asOf (i + 1) max l)
  end.
Definition ACLTokenListExpired (local : bool) (asOf max : Z) : Store → outcome (list ACLToken) :=
  read_txn (let* l := tx_Get (tokens_expires_index local) "" in mreturn (take_expired asOf 0 max l)).

(** [aclTokenDeleteTxn] and the methods over it. *)
Definition aclTokenDeleteTxn (idx : N) (value index : string) : Tx unit :=
  let* token := mwrap "failed acl token lookup" (token_First value index) in
  match token with
  | None => mreturn tt
  | Some token =>
      if decide (act_AccessorID token = ACLTokenAnonymousID)
      then mthrow (EMsg "Deletion of the builtin anonymous token is not permitted" [])
      else mwrap "failed deleting acl token" (tx_Delete token) ;;; update_acl_index idx "acl-tokens"
  end.
Definition aclTokenDelete (now : Z) (idx : N) (value index : string) : M Store unit :=
  write_txn now (λ _, true) (aclTokenDeleteTxn idx value index).
Definition ACLTokenDeleteBySecret (now : Z) (idx : N) (secret : string) := aclTokenDelete now idx secret "id".
Definition ACLTokenDeleteByAccessor (now : Z) (idx : N) (accessor : string) := aclTokenDelete now idx accessor "accessor".
Definition ACLTokenBatchDelete (now : Z) (idx : N) (tokenIDs : list string) : M Store unit :=
  write_txn now (λ _, true) (for tokenID in tokenIDs do aclTokenDeleteTxn idx tokenID "accessor").

(** [aclTokenDeleteAllForAuthMethodTxn]. *)
Definition aclTokenDeleteAllForAuthMethodTxn (idx : N) (methodName : string) : Tx unit :=
  let* tokens := tx_Get tokens_authmethod_index (string_args false methodName) in
  match tokens with
  | [] => mreturn tt
  | _ =>
      (for token in tokens do mwrap "failed deleting acl token" (tx_Delete token)) ;;;
      update_acl_index idx "acl-tokens"
  end.

(** ** Policies *)

(** [aclPolicySetTxn]. *)
Definition aclPolicySetTxn (idx : N) (policy : ACLPolicy) : Tx unit :=
  if decide (acp_ID policy = "") then mthrow (EMsg "Missing ACL Policy ID" []) else
  if decide (acp_Name policy = "") then mthrow (EMsg "Missing ACL Policy Name" []) else
  let* existing := mwrap "failed acl policy lookup" (policy_First (acp_ID policy) "id") in
  (match existing with
   | Some policyMatch =>
       if decide (acp_ID policy = ACLPolicyGlobalManagementID) then
         if decide (acp_Rules policy ≠ acp_Rules policyMatch)
         then mthrow (EMsg "Changing the Rules for the builtin global-management policy is not permitted" [])
         else if decide (acp_Datacenters policy ≠ [])
         then mthrow (EMsg "Changing the Datacenters of the builtin global-management policy is not permitted" [])
         else mreturn tt
       else mreturn tt
   | None => mreturn tt
   end) ;;;
  let* nameMatch := mwrap "failed acl policy lookup" (policy_First (acp_Name policy) "name") in
  (match nameMatch with
   | Some m =>
       if decide (acp_ID policy ≠ acp_ID m) then mthrow (EMsg "A policy with name already exists" [acp_Name policy])
       else mreturn tt
   | None => mreturn tt
   end) ;;;
  let policy := acp_set_indexes (match existing with Some e => acp_CreateIndex e | None => idx end) idx policy in
  mwrap "failed inserting acl policy" (tx_Insert policy).

(** [ACLPolicyBatchSet] and [ACLPolicySet]. *)
Definition aclPolicyBatchSetTxn (idx : N) (policies : list ACLPolicy) : Tx unit :=
  (for policy in policies do aclPolicySetTxn idx policy) ;;; update_acl_index idx "acl-policies".
Definition ACLPolicyBatchSet (now : Z) (idx : N) (policies : list ACLPolicy) : M Store unit :=
  write_txn now (λ _, true) (aclPolicyBatchSetTxn idx policies).
Definition ACLPolicySet (now : Z) (idx : N) (policy : ACLPolicy) : M Store unit :=
  write_txn now (λ _, true) (aclPolicySetTxn idx policy ;;; update_acl_index idx "acl-policies").

(** [aclPolicyGet], [ACLPolicyBatchGet] and [ACLPolicyList]. *)
Definition aclPolicyGet (value index : string) : Store → outcome (N * option ACLPolicy) :=
  read_txn (
    let* policy := getPolicyWithTxn value index in
    let* idx := maxIndexTxn ["acl-policies"] in
    mreturn (idx, policy)).
Definition ACLPolicyGetByID (id : string) := aclPolicyGet id "id".
Definition ACLPolicyGetByName (name : string) := aclPolicyGet name "name".
Definition ACLPolicyBatchGet (ids : list string) : Store → outcome (N * list ACLPolicy) :=
  read_txn (
    let* policies := mmap (λ pid, getPolicyWithTxn pid "id") ids in
    let* idx := maxIndexTxn ["acl-policies"] in
    mreturn (idx, omap id policies)).
Definition ACLPolicyList : Store → outcome (N * list ACLPolicy) :=
  read_txn (
    let* result := tx_GetPrefix "" in
    let* idx := maxIndexTxn ["acl-policies"] in
    mreturn (idx, result)).

(** [aclPolicyDeleteTxn] and the methods over it. *)
Definition aclPolicyDeleteTxn (value index : string) : Tx unit :=
  let* rawPolicy := mwrap "failed acl policy lookup" (policy_First value index) in
  match rawPolicy with
  | None => mreturn tt
  | Some policy =>
      if decide (acp_ID policy = ACLPolicyGlobalManagementID)
      then mthrow (EMsg "Deletion of the builtin global-management policy is not permitted" [])
      else mwrap "failed deleting acl policy" (tx_Delete policy)
  end.
Definition aclPolicyDelete (now : Z) (idx : N) (value index : string) : M Store unit :=
  write_txn now (λ _, true) (aclPolicyDeleteTxn value index ;;; update_acl_index idx "acl-policies").
Definition ACLPolicyDeleteByID (now : Z) (idx : N) (id : string) := aclPolicyDelete now idx id "id".
Definition ACLPolicyDeleteByName (now : Z) (idx : N) (name : string) := aclPolicyDelete now idx name "name".
Definition aclPolicyBatchDeleteTxn (idx : N) (policyIDs : list string) : Tx unit :=
  (for policyID in policyIDs do aclPolicyDeleteTxn policyID "id") ;;; update_acl_index idx "acl-policies".
Definition ACLPolicyBatchDelete (now : Z) (idx : N) (policyIDs : list string) : M Store unit :=
  write_txn now (λ _, true) (aclPolicyBatchDeleteTxn idx policyIDs).

(** ** Roles *)

(** [aclRoleSetTxn]. *)
Definition aclRoleSetTxn (idx : N) (role : ACLRole) (allowMissing : bool) : Tx unit :=
  if decide (acr_ID role = "") then mthrow (EMsg "Missing ACL Role ID" []) else
  if decide (acr_Name role = "") then mthrow (EMsg "Missing ACL Role Name" []) else
  let* existing := mwrap "failed acl role lookup" (role_First (acr_ID role) "id") in
  let* nameMatch := mwrap "failed acl role lookup" (role_First (acr_Name role) "name") in
  (match nameMatch with
   | Some m =>
       if decide (acr_ID role ≠ acr_ID m) then mthrow (EMsg "A role with name already exists" [acr_Name role])
       else mreturn tt
   | None => mreturn tt
   end) ;;;
  let* role := resolveRolePolicyLinks role allowMissing in
  (if existsb (λ svcid, bool_decide (asi_ServiceName svcid = "")) (acr_ServiceIdentities role)
   then mthrow (EMsg "Encountered a Role with an empty service identity name in the state store" [])
   else mreturn tt) ;;;
  let role := acr_set_indexes (match existing with Some e => acr_CreateIndex e | None => idx end) idx role in
  mwrap "failed inserting acl role" (tx_Insert role).

(** [ACLRoleBatchSet] and [ACLRoleSet]. *)
Definition aclRoleBatchSetTxn (idx : N) (roles : list ACLRole) (allowMissingPolicyIDs : bool) : Tx unit :=
  (for role in roles do aclRoleSetTxn idx role allowMissingPolicyIDs) ;;; update_acl_index idx "acl-roles".
Definition ACLRoleBatchSet (now : Z) (idx : N) (roles : list ACLRole) (allowMissingPolicyIDs : bool) : M Store unit :=
  write_txn now (λ _, true) (aclRoleBatchSetTxn idx roles allowMissingPolicyIDs).
Definition ACLRoleSet (now : Z) (idx : N) (role : ACLRole) : M Store unit :=
  write_txn now (λ _, true) (aclRoleSetTxn idx role false ;;; update_acl_index idx "acl-roles").

(** [aclRoleGet], [ACLRoleBatchGet] and [ACLRoleList]. *)
Definition aclRoleGet (value index : string) : Store → outcome (N * option ACLRole) :=
  read_txn (
    let* role := getRoleWithTxn value index in
    let* idx := maxIndexTxn ["acl-roles"] in
    mreturn (idx, role)).
Definition ACLRoleGetByID (id : string) := aclRoleGet id "id".
Definition ACLRoleGetByName (name : string) := aclRoleGet name "name".
Definition ACLRoleBatchGet (ids : list string) : Store → outcome (N * list ACLRole) :=
  read_txn (
    let* roles := mmap (λ rid, getRoleWithTxn rid "id") ids in
    let* idx := maxIndexTxn ["acl-roles"] in
    mreturn (idx, omap id roles)).
Definition ACLRoleList (policy : string) : Store → outcome (N * list ACLRole) :=
  read_txn (
    let* roles := if decide (policy ≠ "") then tx_Get roles_policies_index (links_args policy) else tx_GetPrefix "" in
    let* result := mmap fixupRolePolicyLinks roles in
    let* idx := maxIndexTxn ["acl-roles"] in
    mreturn (idx, result)).

(** [aclRoleDeleteTxn] and the methods over it. *)
Definition aclRoleDeleteTxn (value index : string) : Tx unit :=
  let* rawRole := mwrap "failed acl role lookup" (role_First value index) in
  match rawRole with
  | None => mreturn tt
  | Some role => mwrap "failed deleting acl role" (tx_Delete role)
  end.
Definition aclRoleDelete (now : Z) (idx : N) (value index : string) : M Store unit :=
  write_txn now (λ _, true) (aclRoleDeleteTxn value index ;;; update_acl_index idx "acl-roles").
Definition ACLRoleDeleteByID (now : Z) (idx : N) (id : string) := aclRoleDelete now idx id "id".
Definition ACLRoleDeleteByName (now : Z) (idx : N) (name : string) := aclRoleDelete now idx name "name".
Definition aclRoleBatchDeleteTxn (idx : N) (roleIDs : list string) : Tx unit :=
  (for roleID in roleIDs do aclRoleDeleteTxn roleID "id") ;;; update_acl_index idx "acl-roles".
Definition ACLRoleBatchDelete (now : Z) (idx : N) (roleIDs : list string) : M Store unit :=
  write_txn now (λ _, true) (aclRoleBatchDeleteTxn idx roleIDs).

(** ** Binding rules *)

(** [aclBindingRuleSetTxn]. *)
Definition aclBindingRuleSetTxn (idx : N) (rule : ACLBindingRule) : Tx unit :=
  if decide (abr_ID rule = "") then mthrow (EMsg "Missing ACL Binding Rule ID" [])
  else if decide (abr_AuthMethod rule = "") then mthrow (EMsg "Missing ACL Binding Rule Auth Method" []) else
  let* existing := mwrap "failed acl binding rule lookup" (tx_FirstUUID (A := ACLBindingRule) (abr_ID rule)) in
  let rule := abr_set_indexes (match existing with Some e => abr_CreateIndex e | None => idx end) idx rule in
  let* method := getAuthMethodWithTxn (abr_AuthMethod rule) in
  match method with
  | None => mthrow (EMsg "failed inserting acl binding rule: auth method not found" [])
  | Some _ => mwrap "failed inserting acl binding rule" (tx_Insert rule)
  end.

(** [ACLBindingRuleBatchSet] and [ACLBindingRuleSet]. *)
Definition aclBindingRuleBatchSetTxn (idx : N) (rules : list ACLBindingRule) : Tx unit :=
  (for rule in rules do aclBindingRuleSetTxn idx rule) ;;; update_acl_index idx "acl-binding-rules".
Definition ACLBindingRuleBatchSet (now : Z) (idx : N) (rules : list ACLBindingRule) : M Store unit :=
  write_txn now (λ _, true) (aclBindingRuleBatchSetTxn idx rules).
Definition ACLBindingRuleSet (now : Z) (idx : N) (rule : ACLBindingRule) : M Store unit :=
  write_txn now (λ _, true) (aclBindingRuleSetTxn idx rule ;;; update_acl_index idx "acl-binding-rules").

(** [aclBindingRuleGet] and [ACLBindingRuleList]. *)
Definition ACLBindingRuleGetByID (id : string) : Store → outcome (N * option ACLBindingRule) :=
  read_txn (
    let* rule := mwrap "failed acl binding rule lookup" (tx_FirstUUID id) in
    let* idx := maxIndexTxn ["acl-binding-rules"] in
    mreturn (idx, rule)).
Definition ACLBindingRuleList (methodName : string) : Store → outcome (N * list ACLBindingRule) :=
  read_txn (
    let* result := if decide (methodName ≠ "")
                   then tx_Get binding_rules_authmethod_index (string_args true methodName)
                   else tx_GetPrefix "" in
    let* idx := maxIndexTxn ["acl-binding-rules"] in
    mreturn (idx, result)).

(** [aclBindingRuleDeleteTxn] and the methods over it; a batch ignores the
    errors of its deletions. *)
Definition aclBindingRuleDeleteTxn (id : string) : Tx unit :=
  let* rawRule := mwrap "failed acl binding rule lookup" (tx_FirstUUID (A := ACLBindingRule) id) in
  match rawRule with
  | None => mreturn tt
  | Some rule => mwrap "failed deleting acl binding rule" (tx_Delete rule)
  end.
Definition ACLBindingRuleDeleteByID (now : Z) (idx : N) (id : string) : M Store unit :=
  write_txn now (λ _, true) (aclBindingRuleDeleteTxn id ;;; update_acl_index idx "acl-binding-rules").
Definition aclBindingRuleBatchDeleteTxn (idx : N) (bindingRuleIDs : list string) : Tx unit :=
  (for bindingRuleID in bindingRuleIDs do (mtry (aclBindingRuleDeleteTxn bindingRuleID) ;;; mreturn tt)) ;;;
  update_acl_index idx "acl-binding-rules".
Definition ACLBindingRuleBatchDelete (now : Z) (idx : N) (bindingRuleIDs : list string) : M Store unit :=
  write_txn now (λ _, true) (aclBindingRuleBatchDeleteTxn idx bindingRuleIDs).

(** [aclBindingRuleDeleteAllForAuthMethodTxn]. *)
Definition aclBindingRuleDeleteAllForAuthMethodTxn (idx : N) (methodName : string) : Tx unit :=
  let* rules := tx_Get binding_rules_authmethod_index (string_args true methodName) in
  match rules with
  | [] => mreturn tt
  | _ =>
      (for rule in rules do mwrap "failed deleting acl binding rule" (tx_Delete rule)) ;;;
      update_acl_index idx "acl-binding-rules"
  end.

(** ** Auth methods *)

(** [aclAuthMethodSetTxn]. *)
Definition aclAuthMethodSetTxn (idx : N) (method : ACLAuthMethod) : Tx unit :=
  if decide (aam_Name method = "") then mthrow (EMsg "Missing ACL Auth Method Name" [])
  else if decide (aam_Type method = "") then mthrow (EMsg "Missing ACL Auth Method Type" []) else
  let* existing := getAuthMethodWithTxn (aam_Name method) in
  let method := aam_set_indexes (match existing with Some e => aam_CreateIndex e | None => idx end) idx method in
  mwrap "failed inserting acl auth method" (tx_Insert method).

(** [ACLAuthMethodBatchSet] and [ACLAuthMethodSet]. *)
Definition aclAuthMethodBatchSetTxn (idx : N) (methods : list ACLAuthMethod) : Tx unit :=
  (for method in methods do aclAuthMethodSetTxn idx method) ;;; update_acl_index idx "acl-auth-methods".
Definition ACLAuthMethodBatchSet (now : Z) (idx : N) (methods : list ACLAuthMethod) : M Store unit :=
  write_txn now (λ _, true) (aclAuthMethodBatchSetTxn idx methods).
Definition ACLAuthMethodSet (now : Z) (idx : N) (method : ACLAuthMethod) : M Store unit :=
  write_txn now (λ _, true) (aclAuthMethodSetTxn idx method ;;; update_acl_index idx "acl-auth-methods").

(** [aclAuthMethodGet] and [ACLAuthMethodList]. *)
Definition ACLAuthMethodGetByName (name : string) : Store → outcome (N * option ACLAuthMethod) :=
  read_txn (
    let* method := getAuthMethodWithTxn name in
    let* idx := maxIndexTxn ["acl-auth-methods"] in
    mreturn (idx, method)).
Definition ACLAuthMethodList : Store → outcome (N * list ACLAuthMethod) :=
  read_txn (
    let* result := tx_GetPrefix "" in
    let* idx := maxIndexTxn ["acl-auth-methods"] in
    mreturn (idx, result)).

(** [aclAuthMethodDeleteTxn] and the methods over it; a batch ignores the
    errors of its deletions. *)
Definition aclAuthMethodDeleteTxn (idx : N) (name : string) : Tx unit :=
  let* rawMethod := getAuthMethodWithTxn name in
  match rawMethod with
  | None => mreturn tt
  | Some method =>
      aclBindingRuleDeleteAllForAuthMethodTxn idx (aam_Name method) ;;;
      aclTokenDeleteAllForAuthMethodTxn idx (aam_Name method) ;;;
      mwrap "failed deleting acl auth method" (tx_Delete method)
  end.
Definition ACLAuthMethodDeleteByName (now : Z) (idx : N) (name : string) : M Store unit :=
  write_txn now (λ _, true) (aclAuthMethodDeleteTxn idx name ;;; update_acl_index idx "acl-auth-methods").
Definition aclAuthMethodBatchDeleteTxn (idx : N) (names : list string) : Tx unit :=
  (for name in names do (mtry (aclAuthMethodDeleteTxn idx name) ;;; mreturn tt)) ;;;
  update_acl_index idx "acl-auth-methods".
Definition ACLAuthMethodBatchDelete (now : Z) (idx : N) (names : list string) : M Store unit :=
  write_txn now (λ _, true) (aclAuthMethodBatchDeleteTxn idx names).

(** ** Snapshots *)

(** [Snapshot.ACLTokens] to [Snapshot.ACLAuthMethods]. *)
Definition Snapshot_ACLTokens : Tx (list ACLToken) := tx_GetPrefix "".
Definition Snapshot_ACLPolicies : Tx (list ACLPolicy) := tx_GetPrefix "".
Definition Snapshot_ACLRoles : Tx (list ACLRole) := tx_GetPrefix "".
Definition Snapshot_ACLBindingRules : Tx (list ACLBindingRule) := tx_GetPrefix "".
Definition Snapshot_ACLAuthMethods : Tx (list ACLAuthMethod) := tx_GetPrefix "".

(** [Restore.ACLToken] to [Restore.ACLAuthMethod]. *)
Definition Restore_ACLToken (token : ACLToken) : Tx unit :=
  mwrap "failed restoring acl token" (tx_Insert token) ;;;
  update_acl_index (act_ModifyIndex token) "acl-tokens".
Definition Restore_ACLPolicy (policy : ACLPolicy) : Tx unit :=
  mwrap "failed restoring acl policy" (tx_Insert policy) ;;;
  update_acl_index (acp_ModifyIndex policy) "acl-policies".
Definition Restore_ACLRole (role : ACLRole) : Tx unit :=
  mwrap "failed restoring acl role" (tx_Insert role) ;;;
  update_acl_index (acr_ModifyIndex role) "acl-roles".
Definition Restore_ACLBindingRule (rule : ACLBindingRule) : Tx unit :=
  mwrap "failed restoring acl binding rule" (tx_Insert rule) ;;;
  update_acl_index (abr_ModifyIndex rule) "acl-binding-rules".
Definition Restore_ACLAuthMethod (method : ACLAuthMethod) : Tx unit :=
  mwrap "failed restoring acl auth method" (tx_Insert method) ;;;
  update_acl_index (aam_ModifyIndex method) "acl-auth-methods".
