(* ===== verification/ConfigState.v ===== *)
(** * Config entries in the state store (state/config_entry.go)

    A write of a config entry compiles, with the entry in place but not yet
    stored, the discovery chain of every service it may affect, and fails if
    one of them does.  Kinds and names are looked up without regard to case,
    while links and overrides are compared byte by byte.

    The loops that collect the entries of a chain take any key of a work list:
    the order of the keys is [range_order].  Their fuel is the square of the
    number of services that the entries refer to. *)

From S2P Require Import Prelude Memdb ProxyConfig Structs ConnectTables AclTables ConfigEntries DiscoveryChain Delay TombstoneGC Store.

(** Overrides: the keys of the map are [ConfigEntryKindName]; a nil entry is a
    tombstone. *)
Abbreviation overrides_map := (gmap (string * string) (option ConfigEntry)).

Section config.
Context `{CompilerEnv}.

(** ** Reads *)

Definition config_key (kind name : string) : string := string_args true kind +:+ string_args true name.

(** [configEntryTxn] and [ConfigEntry]. *)
Definition configEntryTxn (kind name : string) : Tx (N * option ConfigEntry) :=
  let* idx := maxIndexTxn ["config-entries"] in
  let* existing := tx_First (config_key kind name) in
  mreturn (idx, existing).
Definition ConfigEntry_get (kind name : string) : Store → outcome (N * option ConfigEntry) :=
  read_txn (configEntryTxn kind name).

(** [configEntriesByKindTxn], [ConfigEntriesByKind] and [ConfigEntries]. *)
Definition configEntriesByKindTxn (kind : string) : Tx (N * list ConfigEntry) :=
  let* idx := maxIndexTxn ["config-entries"] in
  let* results := (if decide (kind ≠ "") then tx_Get config_kind_index (string_args true kind)
                   else tx_GetPrefix "") in
  mreturn (idx, results).
Definition ConfigEntriesByKind (kind : string) : Store → outcome (N * list ConfigEntry) :=
  read_txn (configEntriesByKindTxn kind).
Definition ConfigEntries : Store → outcome (N * list ConfigEntry) := ConfigEntriesByKind "".

(** [configEntryWithOverridesTxn]. *)
Definition configEntryWithOverridesTxn (kind name : string) (overrides : overrides_map) :
    Tx (N * option ConfigEntry) :=
  match overrides !! (kind, name) with
  | Some entry => mreturn (0%N, entry)
  | None => configEntryTxn kind name
  end.

(** The type assertions on an entry. *)
Definition go_type (c : ConfigEntry) : string :=
  match c with
  | CEService _ => "*structs.ServiceConfigEntry"
  | CEProxy _ => "*structs.ProxyConfigEntry"
  | CERouter _ => "*structs.ServiceRouterConfigEntry"
  | CESplitter _ => "*structs.ServiceSplitterConfigEntry"
  | CEResolver _ => "*structs.ServiceResolverConfigEntry"
  end.
Definition as_proxy (c : ConfigEntry) := match c with CEProxy e => Some e | _ => None end.
Definition as_service (c : ConfigEntry) := match c with CEService e => Some e | _ => None end.
Definition as_router (c : ConfigEntry) := match c with CERouter e => Some e | _ => None end.
Definition as_splitter (c : ConfigEntry) := match c with CESplitter e => Some e | _ => None end.
Definition as_resolver (c : ConfigEntry) := match c with CEResolver e => Some e | _ => None end.

(** [getProxyConfigEntryTxn], [getServiceConfigEntryTxn],
    [getRouterConfigEntryTxn], [getSplitterConfigEntryTxn] and
    [getResolverConfigEntryTxn]. *)
Definition get_entry {A} (kind : string) (cast : ConfigEntry → option A) (name : string)
    (overrides : overrides_map) : Tx (N * option A) :=
  let* (idx, entry) := configEntryWithOverridesTxn kind name overrides in
  match entry with
  | None => mreturn (idx, None)
  | Some entry =>
      match cast entry with
      | Some e => mreturn (idx, Some e)
      | None => mthrow (EMsg "invalid service config type %T" [go_type entry])
      end
  end.
Definition getProxyConfigEntryTxn := get_entry ProxyDefaults as_proxy.
Definition getServiceConfigEntryTxn := get_entry ServiceDefaults as_service.
Definition getRouterConfigEntryTxn := get_entry ServiceRouter as_router.
Definition getSplitterConfigEntryTxn := get_entry ServiceSplitter as_splitter.
Definition getResolverConfigEntryTxn := get_entry ServiceResolver as_resolver.

(** ** The entries of a chain *)

(** [anyKey]: the first key of a range. *)
Definition anyKey (n : nat) (m : gset string) : option string := head (range_order n (elements m)).

(** The three loops of [readDiscoveryChainConfigEntriesTxn]: each fetches the
    entry of a name once, keeps nil for those that have none, and goes on with
    the services the entry refers to. *)
Fixpoint drain {A} (fuel : nat) (fetch : string → Tx (N * option A)) (related : A → list string)
    (todo : gset string) (fetched : gmap string (option A)) : Tx (gmap string (option A)) :=
  match fuel with
  | O => mpanic out_of_fuel
  | S fuel =>
      match anyKey fuel todo with
      | None => mreturn fetched
      | Some name =>
          let todo := todo ∖ {[name]} in
          if decide (is_Some (fetched !! name)) then drain fuel fetch related todo fetched else
          let* (_, entry) := fetch name in
          let next := match entry with Some e => list_to_set (related e) | None => ∅ end in
          drain fuel fetch related (next ∪ todo) (<[name := entry]> fetched)
      end
  end.

(** Every service the loops can meet. *)
Definition related_names (c : ConfigEntry) : list string := default [] (ListRelatedServices c).
Definition chain_names (d : db) (serviceName : string) (overrides : overrides_map) : list string :=
  serviceName :: ((map_to_list (config_entries (connect d))).*2 ≫= related_names) ++
  (omap id (map_to_list overrides).*2 ≫= related_names).
Definition drain_fuel (names : list string) : nat := S (length names) * S (length names).

(** [readDiscoveryChainConfigEntriesTxn].  Every name the first loop fetches
    is put on the work list of the second, and every name fetched at all on
    that of the third. *)
Definition readDiscoveryChainConfigEntriesTxn (serviceName : string) (overrides : overrides_map) :
    Tx (N * DiscoveryChainConfigEntries) :=
  let* (idx, proxy) := getProxyConfigEntryTxn ProxyConfigGlobal overrides in
  let* (_, router) := getRouterConfigEntryTxn serviceName overrides in
  let todoSplitters : gset string :=
    match router with
    | Some router => list_to_set (Router_ListRelatedServices router)
    | None => {[serviceName]}
    end in
  let* names := mget (λ s, chain_names (tx_db s) serviceName overrides) in
  let fuel := drain_fuel names in
  let* splitters := drain fuel (λ name, getSplitterConfigEntryTxn name overrides)
                      Splitter_ListRelatedServices todoSplitters ∅ in
  let* resolvers := drain fuel (λ name, getResolverConfigEntryTxn name overrides)
                      Resolver_ListRelatedServices (dom splitters) ∅ in
  let* services := drain fuel (λ name, getServiceConfigEntryTxn name overrides)
                     (λ _, []) ({[serviceName]} ∪ dom splitters ∪ dom resolvers) ∅ in
  mreturn (idx, mkEntries (match router with Some router => {[serviceName := router]} | None => ∅ end)
    (omap id splitters) (omap id resolvers) (omap id services) proxy).

(** [ReadDiscoveryChainConfigEntries]. *)
Definition ReadDiscoveryChainConfigEntries (serviceName : string) :
    Store → outcome (N * DiscoveryChainConfigEntries) :=
  read_txn (readDiscoveryChainConfigEntriesTxn serviceName ∅).

(** ** Validation *)

(** [testCompileDiscoveryChain]. *)
Definition test_request (chainName : string) (entries : DiscoveryChainConfigEntries) : CompileRequest :=
  mkCompileRequest chainName "default" "dc1" "b6fc9da3-03d4-4b5a-9134-c045e9b20152.consul" "dc1"
    (mkMeshGateway "") "" 0 (Some entries).
Definition testCompileDiscoveryChain (chainName : string) (overrides : overrides_map) : Tx unit :=
  let* (_, speculativeEntries) := readDiscoveryChainConfigEntriesTxn chainName overrides in
  mlift (Compile (test_request chainName speculativeEntries)) ;;; mreturn tt.

(** [validateProposedConfigEntryInServiceGraph]. *)
Definition serviceGraphKinds : list string := [ServiceRouter; ServiceSplitter; ServiceResolver].
Definition check_chains (name : string) (validateAllChains : bool) : Tx (list string) :=
  if validateAllChains then
    let* entries := mmap (λ kind, let* (_, entries) := configEntriesByKindTxn kind in mreturn entries)
                      serviceGraphKinds in
    mreturn (GetName <$> concat entries)
  else
    let* entries := tx_Get config_link_index (name +:+ nul) in
    mreturn (name :: (GetName <$> entries)).
Definition validateProposedConfigEntryInServiceGraph (kind name : string) (next : option ConfigEntry)
    (validateAllChains : bool) : Tx unit :=
  let* checkChains := check_chains name validateAllChains in
  let overrides := {[(kind, name) := next]} in
  for chainName in range_order 0 (remove_dups checkChains) do testCompileDiscoveryChain chainName overrides.

(** [validateProposedConfigEntryInGraph]. *)
Definition validateProposedConfigEntryInGraph (kind name : string) (next : option ConfigEntry) : Tx unit :=
  if decide (kind = ProxyDefaults) then
    if decide (name ≠ ProxyConfigGlobal) then mreturn tt
    else validateProposedConfigEntryInServiceGraph kind name next true
  else if decide (kind ∈ [ServiceDefaults; ServiceRouter; ServiceSplitter; ServiceResolver]) then
    validateProposedConfigEntryInServiceGraph kind name next false
  else mthrow (EMsg "unhandled kind %q during validation of %q" [kind; name]).

(** ** Writes *)

(** [ensureConfigEntryTxn]: the indexes are set through the pointer to the
    entry, before it is validated. *)
Definition stamp_entry (idx : N) (existing : option ConfigEntry) (conf : ConfigEntry) : ConfigEntry :=
  SetRaftIndex (mkRaftIndex (match existing with Some e => CreateIndex (GetRaftIndex e) | None => idx end) idx) conf.
Definition ensureConfigEntryTxn (idx : N) (conf : ConfigEntry) : Tx unit :=
  let* existing := tx_First (A := ConfigEntry) (config_key (GetKind conf) (GetName conf)) in
  let conf := stamp_entry idx existing conf in
  validateProposedConfigEntryInGraph (GetKind conf) (GetName conf) (Some conf) ;;;
  mwrap "failed inserting config entry" (tx_Insert conf) ;;;
  mwrap "failed updating index" (indexUpdateMaxTxn idx "config-entries").

(** [EnsureConfigEntry]. *)
Definition EnsureConfigEntry (now : Z) (idx : N) (conf : ConfigEntry) : M Store unit :=
  write_txn now (λ _, true) (ensureConfigEntryTxn idx conf).

(** [EnsureConfigEntryCAS]: at 0, only when there is no such entry. *)
Definition ensureConfigEntryCASTxn (idx cidx : N) (conf : ConfigEntry) : Tx bool :=
  let* existing := tx_First (A := ConfigEntry) (config_key (GetKind conf) (GetName conf)) in
  if match existing with
     | None => bool_decide (cidx ≠ 0%N)
     | Some e => bool_decide (cidx ≠ ModifyIndex (GetRaftIndex e)) || bool_decide (cidx = 0%N)
     end
  then mreturn false
  else ensureConfigEntryTxn idx conf ;;; mreturn true.
Definition EnsureConfigEntryCAS (now : Z) (idx cidx : N) (conf : ConfigEntry) : M Store bool :=
  write_txn now id (ensureConfigEntryCASTxn idx cidx conf).

(** [DeleteConfigEntry]; [false] when there is nothing to commit. *)
Definition deleteConfigEntryTxn (idx : N) (kind name : string) : Tx bool :=
  let* existing := tx_First (A := ConfigEntry) (config_key kind name) in
  match existing with
  | None => mreturn false
  | Some existing =>
      validateProposedConfigEntryInGraph kind name None ;;;
      mwrap "failed removing check" (tx_Delete existing) ;;;
      index_insert "config-entries" idx ;;;
      mreturn true
  end.
Definition DeleteConfigEntry (now : Z) (idx : N) (kind name : string) : M Store bool :=
  write_txn now id (deleteConfigEntryTxn idx kind name).
End config.

(** [Snapshot.ConfigEntries] and [Restore.ConfigEntry]. *)
Definition Snapshot_ConfigEntries : Tx (list ConfigEntry) := tx_GetPrefix "".
Definition Restore_ConfigEntry (c : ConfigEntry) : Tx unit :=
  mwrap "failed restoring config entry object" (tx_Insert c) ;;;
  mwrap "failed updating index" (indexUpdateMaxTxn (ModifyIndex (GetRaftIndex c)) "config-entries").
