(* ===== verification/PreparedQuery.v ===== *)
(** * Prepared queries (agent/consul/state/prepared_query.go)

    The part that sessions depend on: creating and deleting a query.
    [compile] is [prepared_query.Compile], which parses the template's strings
    with the third-party HIL library. *)

From S2P Require Import Prelude Memdb ProxyConfig Structs Delay TombstoneGC Store.

(** [isUUID]: the regexp [(?i)^[\da-f]{8}-[\da-f]{4}-...-[\da-f]{12}$]. *)
Definition is_hex (c : ascii) : bool := match hex_digit c with Some _ => true | None => false end.
Definition uuid_group (start len : nat) (s : string) : bool :=
  let g := String.substring start len s in
  (String.length g =? len)%nat && all_chars is_hex g.
Definition isUUID (str : string) : bool :=
  (String.length str =? 36)%nat &&
  uuid_group 0 8 str && bool_decide (String.get 8 str = Some "-"%char) &&
  uuid_group 9 4 str && bool_decide (String.get 13 str = Some "-"%char) &&
  uuid_group 14 4 str && bool_decide (String.get 18 str = Some "-"%char) &&
  uuid_group 19 4 str && bool_decide (String.get 23 str = Some "-"%char) &&
  uuid_group 24 12 str.

(** [prepared_query.IsTemplate]. *)
Definition IsTemplate (q : PreparedQuery) : bool := bool_decide (pq_Template_Type q ≠ "").

Definition pq_set_indexes (create modify : N) (q : PreparedQuery) : PreparedQuery :=
  mkPreparedQuery (pq_ID q) (pq_Name q) (pq_Session q) (pq_Token q) (pq_Template_Type q) (pq_rest q) create modify.

(** The alias test shared by the name and the template lookup. *)
Definition aliases (existing other : option PreparedQuery) : bool :=
  match other with
  | None => false
  | Some o => match existing with None => true | Some e => bool_decide (pq_ID e ≠ pq_ID o) end
  end.

Section Set_.
Context (compile : PreparedQuery → outcome unit).

(** [preparedQuerySetTxn]. *)
Definition preparedQuerySetTxn (idx : N) (query : PreparedQuery) : Tx unit :=
  if decide (pq_ID query = "") then mthrow ErrMissingQueryID
  else
    let* existing := mwrap "failed prepared query lookup" (tx_FirstUUID (pq_ID query)) in
    let query := pq_set_indexes (match existing with Some e => pq_CreateIndex e | None => idx end) idx query in
    (if decide (pq_Name query ≠ "") then
       let* other := tx_FirstUnique queries_name_index (string_args true (pq_Name query)) in
       if aliases existing other
       then mthrow (EMsg "name aliases an existing query name" [pq_Name query]) else mreturn tt
     else if IsTemplate query then
       let* other := tx_FirstUnique queries_template_index (nul +:+ to_lower (pq_Name query)) in
       if aliases existing other
       then mthrow (EMsg "a query template with an empty name already exists" []) else mreturn tt
     else mreturn tt) ;;;
    (if isUUID (pq_Name query) then
       let* wrapped := mwrap "failed prepared query lookup" (tx_FirstUUID (A := PreparedQuery) (pq_Name query)) in
       match wrapped with
       | Some _ => mthrow (EMsg "name aliases an existing query ID" [pq_Name query])
       | None => mreturn tt
       end
     else mreturn tt) ;;;
    (if decide (pq_Session query ≠ "") then
       let* sess := mwrap "failed session lookup" (tx_FirstUUID (A := Session) (pq_Session query)) in
       match sess with
       | None => mthrow (EMsg "invalid session" [pq_Session query])
       | Some _ => mreturn tt
       end
     else mreturn tt) ;;;
    (if IsTemplate query then mlift (owrap "failed compiling template" (compile query)) else mreturn tt) ;;;
    mwrap "failed inserting prepared query" (tx_Insert query) ;;;
    index_insert "prepared-queries" idx.

(** [PreparedQuerySet]. *)
Definition PreparedQuerySet (now : Z) (idx : N) (query : PreparedQuery) : M Store unit :=
  write_txn now (λ _, true) (preparedQuerySetTxn idx query).

(** [Snapshot.PreparedQueries] and [Restore.PreparedQuery]. *)
Definition Snapshot_PreparedQueries : Tx (list PreparedQuery) := tx_GetPrefix "".
Definition Restore_PreparedQuery (query : PreparedQuery) : Tx unit :=
  (if IsTemplate query then mlift (owrap "failed compiling template" (compile query)) else mreturn tt) ;;;
  mwrap "failed restoring prepared query" (tx_Insert query) ;;;
  mwrap "failed updating index" (indexUpdateMaxTxn (pq_ModifyIndex query) "prepared-queries").
End Set_.

(** [preparedQueryDeleteTxn]. *)
Definition preparedQueryDeleteTxn (idx : N) (queryID : string) : Tx unit :=
  let* wrapped := mwrap "failed prepared query lookup" (tx_FirstUUID (A := PreparedQuery) queryID) in
  match wrapped with
  | None => mreturn tt
  | Some q =>
      mwrap "failed prepared query delete" (tx_Delete q) ;;;
      index_insert "prepared-queries" idx
  end.

(** [PreparedQueryDelete]. *)
Definition PreparedQueryDelete (now : Z) (idx : N) (queryID : string) : M Store unit :=
  write_txn now (λ _, true) (mwrap "failed prepared query delete" (preparedQueryDeleteTxn idx queryID)).

(** [PreparedQueryGet]. *)
Definition PreparedQueryGet (queryID : string) : Store → outcome (N * option PreparedQuery) :=
  read_txn (
    let* idx := maxIndexTxn ["prepared-queries"] in
    let* q := mwrap "failed prepared query lookup" (tx_FirstUUID queryID) in
    mreturn (idx, q)).
