(* ===== verification/Session.v ===== *)
(** * Sessions (agent/consul/state/session.go) *)

From S2P Require Import Prelude Memdb ProxyConfig Structs Delay TombstoneGC Store Graveyard Kvs PreparedQuery.

Definition sess_prepare (behavior : string) (idx : N) (s : Session) : Session :=
  mkSession (sess_ID s) (sess_Name s) (sess_Node s) (sess_Checks s) (sess_LockDelay s)
    behavior (sess_TTL s) idx idx.

(** The behavior switch of [sessionCreateTxn]. *)
Definition session_behavior (b : string) : outcome string :=
  if decide (b = "") then Ok SessionKeysRelease
  else if decide (b = SessionKeysRelease) then Ok b
  else if decide (b = SessionKeysDelete) then Ok b
  else Err (EMsg "Invalid session behavior" [b]).

(** The check mappings of a session. *)
Definition insert_mappings (sess : Session) : Tx unit :=
  for checkID in sess_Checks sess do
    mwrap "failed inserting session check mapping"
      (tx_Insert (mkSessionCheck (sess_Node sess) checkID (sess_ID sess))).

(** [sessionCreateTxn]. *)
Definition sessionCreateTxn (idx : N) (sess : Session) : Tx unit :=
  if decide (sess_ID sess = "") then mthrow ErrMissingSessionID
  else
    let* behavior := mlift (session_behavior (sess_Behavior sess)) in
    let sess := sess_prepare behavior idx sess in
    let* node := tx_First (A := Node) (node_key (sess_Node sess)) in
    match node with
    | None => mthrow ErrMissingNode
    | Some _ =>
        (for checkID in sess_Checks sess do
           let* check := tx_First (A := HealthCheck) (check_key (sess_Node sess) checkID) in
           match check with
           | None => mthrow (EMsg "Missing check registration" [checkID])
           | Some check =>
               if decide (hc_Status check = HealthCritical)
               then mthrow (EMsg "Check is in state" [checkID; hc_Status check])
               else mreturn tt
           end) ;;;
        mwrap "failed inserting session" (tx_Insert sess) ;;;
        insert_mappings sess ;;;
        index_insert "sessions" idx
    end.

(** The two loops of [deleteSessionTxn] over the keys held by the session. *)
Definition lock_delay (d : Z) : Z := if (MaxLockDelay <? d)%Z then MaxLockDelay else d.

Definition set_lock_delay (delay : Z) (key : string) : Tx unit :=
  if (0 <? delay)%Z
  then mmodify (λ s, tx_set_delay (SetExpiration (tx_delay s) key (tx_now s) delay) s)
  else mreturn tt.

Definition release_key (idx : N) (delay : Z) (e : DirEntry) : Tx unit :=
  mwrap "failed kvs update" (kvsSetTxn idx (de_set_session "" (DirEntry_Clone e)) true) ;;;
  set_lock_delay delay (de_Key e).

Definition delete_key (idx : N) (delay : Z) (e : DirEntry) : Tx unit :=
  mwrap "failed kvs delete" (kvsDeleteTxn idx (de_Key e)) ;;;
  set_lock_delay delay (de_Key e).

Definition invalidate_locks (idx : N) (behavior : string) (delay : Z) (kvs : list DirEntry) : Tx unit :=
  if decide (behavior = SessionKeysRelease) then mfor kvs (release_key idx delay)
  else if decide (behavior = SessionKeysDelete) then mfor kvs (delete_key idx delay)
  else mthrow (EMsg "unknown session behavior" [behavior]).

(** [deleteSessionTxn]. *)
Definition deleteSessionTxn (idx : N) (sessionID : string) : Tx unit :=
  let* sess := mwrap "failed session lookup" (tx_FirstUUID (A := Session) sessionID) in
  match sess with
  | None => mreturn tt
  | Some session =>
      mwrap "failed deleting session" (tx_Delete session) ;;;
      index_insert "sessions" idx ;;;
      let delay := lock_delay (sess_LockDelay session) in
      let* kvs := mwrap "failed kvs lookup" (tx_GetUUID kvs_session_index sessionID) in
      invalidate_locks idx (sess_Behavior session) delay kvs ;;;
      let* mappings := mwrap "failed session checks lookup"
                         (tx_GetUUID session_checks_session_index sessionID) in
      (for m in mappings do mwrap "failed deleting session check" (tx_Delete (m : sessionCheck))) ;;;
      let* queries := mwrap "failed prepared query lookup" (tx_GetUUID queries_session_index sessionID) in
      for q in queries do
        mwrap "failed prepared query delete" (preparedQueryDeleteTxn idx (pq_ID q))
  end.

(** ** Exported methods *)

Definition SessionCreate (now : Z) (idx : N) (sess : Session) : M Store unit :=
  write_txn now (λ _, true) (sessionCreateTxn idx sess).
Definition SessionDestroy (now : Z) (idx : N) (sessionID : string) : M Store unit :=
  write_txn now (λ _, true) (deleteSessionTxn idx sessionID).

(** [SessionGet], [SessionList], [NodeSessions]. *)
Definition SessionGet (sessionID : string) : Store → outcome (N * option Session) :=
  read_txn (
    let* idx := maxIndexTxn ["sessions"] in
    let* s := mwrap "failed session lookup" (tx_FirstUUID sessionID) in
    mreturn (idx, s)).
Definition SessionList : Store → outcome (N * list Session) :=
  read_txn (
    let* idx := maxIndexTxn ["sessions"] in
    let* l := tx_GetPrefix "" in
    mreturn (idx, l)).
Definition NodeSessions (nodeID : string) : Store → outcome (N * list Session) :=
  read_txn (
    let* idx := maxIndexTxn ["sessions"] in
    let* l := tx_Get sessions_node_index (string_args true nodeID) in
    mreturn (idx, l)).

(** [Snapshot.Sessions] and [Restore.Session]. *)
Definition Snapshot_Sessions : Tx (list Session) := tx_GetPrefix "".
Definition Restore_Session (sess : Session) : Tx unit :=
  mwrap "failed inserting session" (tx_Insert sess) ;;;
  insert_mappings sess ;;;
  mwrap "failed updating index" (indexUpdateMaxTxn (sess_ModifyIndex sess) "sessions").
