(* ===== verification/Catalog.v ===== *)
(** * The catalog: nodes, services and health checks
    (agent/consul/state/catalog.go) *)

From S2P Require Import Prelude Memdb ProxyConfig Structs Delay TombstoneGC Store Graveyard Kvs PreparedQuery Session.

(** ** Index names *)

Definition serviceIndexName (name : string) : string := "service." +:+ name.
Definition serviceKindIndexName (kind : string) : string :=
  if decide (kind = ServiceKindTypical) then "service_kind.typical" else "service_kind." +:+ kind.
Definition serviceLastExtinctionIndexName : string := "service_last_extinction".

(** Both indexes of a service instance. *)
Definition bump_service (idx : N) (name kind : string) : Tx unit :=
  index_insert (serviceIndexName name) idx ;;;
  index_insert (serviceKindIndexName kind) idx.

(** ** Lookups *)

(** go-uuid's [ParseUUID] accepts the canonical form only. *)
Definition ParseUUID (s : string) : outcome string :=
  if isUUID s then match hex_decode (remove_char "-" s) with
                   | Some b => Ok b
                   | None => Err (EMsg "encoding/hex: invalid byte" [])
                   end
  else Err (EMsg "uuid string is wrong length or improperly formatted" []).

(** [getNodeTxn]. *)
Definition getNodeTxn (nodeName : string) : Tx (option Node) := tx_First (node_key nodeName).

(** [tx.First("nodes", "uuid", bytes)]: the unique index files one node. *)
Definition first_node_uuid (b : string) : Tx (option Node) :=
  mget (λ s, snd <$> head (filter (λ kx, bool_decide (b ∈ index_keys nodes_uuid_index kx.1 kx.2))
                      (map_to_list (nodes (tx_db s))))).

(** [getNodeIDTxn]. *)
Definition getNodeIDTxn (id : string) : Tx (option Node) :=
  let* b := mlift (owrap "node lookup by ID failed, wrong UUID" (ParseUUID id)) in
  first_node_uuid b.

(** [getNodeServiceTxn]. *)
Definition getNodeServiceTxn (nodeName serviceID : string) : Tx (option NodeService) :=
  let* service := tx_First (service_key nodeName serviceID) in
  mreturn (ServiceNode_ToNodeService <$> service).

(** [getNodeCheckTxn]. *)
Definition getNodeCheckTxn (nodeName checkID : string) : Tx (N * option HealthCheck) :=
  let* idx := maxIndexTxn ["checks"] in
  let* check := tx_First (check_key nodeName checkID) in
  mreturn (idx, check).

(** [updateAllServiceIndexesOfNode]. *)
Definition updateAllServiceIndexesOfNode (idx : N) (nodeID : string) : Tx unit :=
  let* services := tx_Get services_node_index (string_args true nodeID) in
  for service in services do
    (let svc := ServiceNode_ToNodeService service in
     bump_service idx (ns_Service svc) (ns_Kind svc)).

(** ** Checks *)

(** Destroy the sessions tied to a check (the shared tail of
    [ensureCheckTxn] and [deleteCheckTxn]). *)
Definition delete_check_sessions (idx : N) (node checkID : string) : Tx unit :=
  let* mappings := tx_Get session_checks_node_check_index (check_key node checkID) in
  for m in mappings do mwrap "failed deleting session" (deleteSessionTxn idx (sc_Session m)).

(** [ensureCheckTxn]. *)
Definition ensureCheckTxn (idx : N) (hc : HealthCheck) : Tx unit :=
  let* existing := tx_First (check_key (hc_Node hc) (hc_CheckID hc)) in
  let hc := match existing with
            | Some e => hc_set_indexes (hc_CreateIndex e) (hc_ModifyIndex e) hc
            | None => hc_set_indexes idx idx hc
            end in
  let hc := if decide (hc_Status hc = "") then hc_set_status HealthCritical hc else hc in
  let* node := tx_First (A := Node) (node_key (hc_Node hc)) in
  match node with
  | None => mthrow ErrMissingNode
  | Some _ =>
      let same hc := match existing with Some e => HealthCheck_IsSame e hc | None => false end in
      let* (hc, modified) :=
        (if decide (hc_ServiceID hc ≠ "") then
           let* service := tx_First (A := ServiceNode) (service_key (hc_Node hc) (hc_ServiceID hc)) in
           match service with
           | None => mthrow ErrMissingService
           | Some svc =>
               let hc := hc_set_service (sn_ServiceName svc) (sn_ServiceTags svc) hc in
               if same hc then mreturn (hc, false)
               else bump_service idx (sn_ServiceName svc) (sn_ServiceKind svc) ;;; mreturn (hc, true)
           end
         else if same hc then mreturn (hc, false)
         else updateAllServiceIndexesOfNode idx (hc_Node hc) ;;; mreturn (hc, true)) in
      (if decide (hc_Status hc = HealthCritical)
       then delete_check_sessions idx (hc_Node hc) (hc_CheckID hc) else mreturn tt) ;;;
      let hc := if (modified : bool) then hc_set_indexes (hc_CreateIndex hc) idx hc else hc in
      mwrap "failed inserting check" (tx_Insert hc) ;;;
      index_insert "checks" idx
  end.

(** [ensureCheckCASTxn]. *)
Definition ensureCheckCASTxn (idx : N) (hc : HealthCheck) : Tx bool :=
  let* (_, existing) := getNodeCheckTxn (hc_Node hc) (hc_CheckID hc) in
  let mi := hc_ModifyIndex hc in
  if (mi =? 0)%N && bool_decide (is_Some existing) then mreturn false
  else if negb (mi =? 0)%N && bool_decide (existing = None) then mreturn false
  else if (match existing with
           | Some e => negb (mi =? 0)%N && negb (mi =? hc_ModifyIndex e)%N
           | None => false end) then mreturn false
  else ensureCheckTxn idx hc ;;; mreturn true.

(** [deleteCheckTxn]; the type assertion on the service of the check panics
    when that service is not registered. *)
Definition deleteCheckTxn (idx : N) (node checkID : string) : Tx unit :=
  let* hc := tx_First (check_key node checkID) in
  match hc with
  | None => mreturn tt
  | Some existing =>
      (if decide (hc_ServiceID existing ≠ "") then
         index_insert (serviceIndexName (hc_ServiceName existing)) idx ;;;
         let* svcRaw := tx_First (A := ServiceNode) (service_key (hc_Node existing) (hc_ServiceID existing)) in
         match svcRaw with
         | None => mpanic "interface conversion: interface {} is nil, not *structs.ServiceNode"
         | Some svc => index_insert (serviceKindIndexName (sn_ServiceKind svc)) idx
         end
       else
         mwrap "Failed to update services linked to deleted healthcheck"
           (updateAllServiceIndexesOfNode idx (hc_Node existing)) ;;;
         index_insert "services" idx) ;;;
      mwrap "failed removing check" (tx_Delete existing) ;;;
      index_insert "checks" idx ;;;
      delete_check_sessions idx node checkID
  end.

(** [deleteCheckCASTxn]. *)
Definition deleteCheckCASTxn (idx cidx : N) (node checkID : string) : Tx bool :=
  let* (_, hc) := getNodeCheckTxn node checkID in
  match hc with
  | None => mreturn false
  | Some hc =>
      if negb (hc_ModifyIndex hc =? cidx)%N then mreturn false
      else deleteCheckTxn idx node checkID ;;; mreturn true
  end.

(** ** Services *)

(** [ensureServiceTxn]. *)
Definition ensureServiceTxn (idx : N) (node : string) (svc : NodeService) : Tx unit :=
  let* existing := tx_First (service_key node (ns_ID svc)) in
  mlift (owrap "Invalid Service Meta" (ValidateMetadata (ns_Meta svc) false)) ;;;
  let entry := NodeService_ToServiceNode svc node in
  let* n := tx_First (A := Node) (node_key node) in
  match n with
  | None => mthrow ErrMissingNode
  | Some _ =>
      let insert (entry : ServiceNode) :=
        mwrap "failed inserting service" (tx_Insert entry) ;;;
        index_insert "services" idx ;;;
        bump_service idx (ns_Service svc) (ns_Kind svc) in
      match existing with
      | Some serviceNode =>
          let entry := sn_set_indexes (sn_CreateIndex serviceNode) (sn_ModifyIndex serviceNode) entry in
          if ServiceNode_IsSameService entry serviceNode then mreturn tt
          else insert (sn_set_indexes (sn_CreateIndex serviceNode) idx entry)
      | None => insert (sn_set_indexes idx idx entry)
      end
  end.

(** [ensureServiceCASTxn]. *)
Definition ensureServiceCASTxn (idx : N) (node : string) (svc : NodeService) : Tx bool :=
  let* existing := tx_First (A := ServiceNode) (service_key node (ns_ID svc)) in
  let mi := ns_ModifyIndex svc in
  if (mi =? 0)%N && bool_decide (is_Some existing) then mreturn false
  else if negb (mi =? 0)%N && bool_decide (existing = None) then mreturn false
  else if (match existing with
           | Some e => negb (mi =? 0)%N && negb (mi =? sn_ModifyIndex e)%N
           | None => false end) then mreturn false
  else ensureServiceTxn idx node svc ;;; mreturn true.

(** The bookkeeping after a service instance is gone: bump the service's
    index when instances remain, otherwise drop it and record the extinction. *)
Definition service_removed (idx : N) (name : string) : Tx unit :=
  let* remaining := tx_Get services_service_index (string_args true name) in
  match remaining with
  | _ :: _ => index_insert (serviceIndexName name) idx
  | [] =>
      let* serviceIndex := tx_First (A := IndexEntry) (string_args true (serviceIndexName name)) in
      (match serviceIndex with
       | Some ie => mwrap "[FAILED] deleting serviceIndex" (tx_Delete ie)
       | None => mreturn tt
       end) ;;;
      index_insert serviceLastExtinctionIndexName idx
  end.

(** [deleteServiceTxn]. *)
Definition deleteServiceTxn (idx : N) (nodeName serviceID : string) : Tx unit :=
  let* service := tx_First (service_key nodeName serviceID) in
  match service with
  | None => mreturn tt
  | Some svc =>
      let* checks := tx_Get checks_node_service_index (service_key nodeName serviceID) in
      (for check in checks do deleteCheckTxn idx nodeName (hc_CheckID check)) ;;;
      index_insert "checks" idx ;;;
      mwrap "failed deleting service" (tx_Delete svc) ;;;
      index_insert "services" idx ;;;
      index_insert (serviceKindIndexName (sn_ServiceKind svc)) idx ;;;
      service_removed idx (sn_ServiceName svc)
  end.

(** [deleteServiceCASTxn]. *)
Definition deleteServiceCASTxn (idx cidx : N) (nodeName serviceID : string) : Tx bool :=
  let* service := getNodeServiceTxn nodeName serviceID in
  match service with
  | None => mreturn false
  | Some service =>
      if negb (ns_ModifyIndex service =? cidx)%N then mreturn false
      else deleteServiceTxn idx nodeName serviceID ;;; mreturn true
  end.

(** ** Nodes *)

(** [deleteNodeTxn].  The loop over the coordinates of the node deletes while
    it iterates over the lookup; here it runs over what the lookup found. *)
Definition deleteNodeTxn (idx : N) (nodeName : string) : Tx unit :=
  let* node := tx_First (node_key nodeName) in
  match node with
  | None => mreturn tt
  | Some node =>
      let* services := tx_Get services_node_index (string_args true nodeName) in
      (for svc in services do bump_service idx (sn_ServiceName svc) (sn_ServiceKind svc)) ;;;
      (for svc in services do deleteServiceTxn idx nodeName (sn_ServiceID svc)) ;;;
      let* checks := tx_Get checks_node_index (string_args true nodeName) in
      (for check in checks do deleteCheckTxn idx nodeName (hc_CheckID check)) ;;;
      let* coords := tx_Get coordinates_node_index (string_args true nodeName) in
      (for coord in coords do
         (mwrap "failed deleting coordinate" (tx_Delete (coord : Coordinate)) ;;;
          index_insert "coordinates" idx)) ;;;
      mwrap "failed deleting node" (tx_Delete (node : Node)) ;;;
      index_insert "nodes" idx ;;;
      let* sessions := tx_Get sessions_node_index (string_args true nodeName) in
      for sess in sessions do mwrap "failed session delete" (deleteSessionTxn idx (sess_ID sess))
  end.

(** [deleteNodeCASTxn]. *)
Definition deleteNodeCASTxn (idx cidx : N) (nodeName : string) : Tx bool :=
  let* node := getNodeTxn nodeName in
  match node with
  | None => mreturn false
  | Some node =>
      if negb (node_ModifyIndex node =? cidx)%N then mreturn false
      else deleteNodeTxn idx nodeName ;;; mreturn true
  end.

(** [ensureNoNodeWithSimilarNameTxn]; [strings.EqualFold] on ASCII. *)
Definition ensureNoNodeWithSimilarNameTxn (node : Node) (allowClashWithoutID : bool) : Tx unit :=
  let* enodes := tx_GetPrefix "" in
  for enode in enodes do
    (if decide (to_lower (node_Node node) = to_lower (node_Node enode) ∧ node_ID node ≠ node_ID enode) then
       let* enodeCheck := tx_First (A := HealthCheck) (check_key (node_Node enode) SerfCheckID) in
       let nodeHealthy := match enodeCheck with
                          | Some c => bool_decide (hc_Status c ≠ HealthCritical)
                          | None => false
                          end in
       if negb (bool_decide (node_ID enode = "") && allowClashWithoutID) && nodeHealthy
       then mthrow (EMsg "Node name is reserved by node" [node_Node node; node_ID enode])
       else mreturn tt
     else mreturn tt).

(** [ensureNodeTxn]. *)
Definition ensureNodeTxn (idx : N) (node : Node) : Tx unit :=
  let* n :=
    (if decide (node_ID node ≠ "") then
       let* existing := mwrap "node lookup failed" (getNodeIDTxn (node_ID node)) in
       match existing with
       | Some n =>
           (if decide (node_Node n ≠ node_Node node) then
              mwrap "Error while renaming Node ID" (ensureNoNodeWithSimilarNameTxn node false) ;;;
              let* deleted := mtry (deleteNodeTxn idx (node_Node n)) in
              match deleted with
              | Ok _ => mreturn tt
              | _ => mthrow (EMsg "Error while renaming Node ID" [node_ID node; node_Address node; node_Node n; node_Node node])
              end
            else mreturn tt) ;;;
           mreturn (Some n)
       | None =>
           mwrap "Error while renaming Node ID" (ensureNoNodeWithSimilarNameTxn node true) ;;;
           mreturn None
       end
     else mreturn None) in
  let* n := (match n with
             | Some n => mreturn (Some n)
             | None => tx_First (node_key (node_Node node))
             end) in
  let insert (node : Node) :=
    mwrap "failed inserting node" (tx_Insert node) ;;;
    index_insert "nodes" idx ;;;
    mwrap "failed updating index" (updateAllServiceIndexesOfNode idx (node_Node node)) in
  match n with
  | Some n =>
      let node := node_set_indexes (node_CreateIndex n) (node_ModifyIndex n) node in
      if Node_IsSame node n then mreturn tt
      else insert (node_set_indexes (node_CreateIndex n) idx node)
  | None => insert (node_set_indexes idx idx node)
  end.

(** [ensureNodeCASTxn]. *)
Definition ensureNodeCASTxn (idx : N) (node : Node) : Tx bool :=
  let* existing := getNodeTxn (node_Node node) in
  let mi := node_ModifyIndex node in
  if (mi =? 0)%N && bool_decide (is_Some existing) then mreturn false
  else if negb (mi =? 0)%N && bool_decide (existing = None) then mreturn false
  else if (match existing with
           | Some e => negb (mi =? 0)%N && negb (mi =? node_ModifyIndex e)%N
           | None => false end) then mreturn false
  else ensureNodeTxn idx node ;;; mreturn true.

(** ** Registrations *)

(** [ensureCheckIfNodeMatches]. *)
Definition ensureCheckIfNodeMatches (idx : N) (node : string) (check : HealthCheck) : Tx unit :=
  if decide (hc_Node check = node)
  then mwrap "failed inserting check" (ensureCheckTxn idx check)
  else mthrow (EMsg "check node does not match node" [hc_Node check; node]).

(** [ensureRegistrationTxn]. *)
Definition ensureRegistrationTxn (idx : N) (req : RegisterRequest) : Tx unit :=
  let node := mkNode (rr_ID req) (rr_Node req) (rr_Address req) (rr_Datacenter req)
                (rr_TaggedAddresses req) (rr_NodeMeta req) 0 0 in
  let* existing := tx_First (node_key (node_Node node)) in
  (if RegisterRequest_ChangesNode req existing
   then mwrap "failed inserting node" (ensureNodeTxn idx node) else mreturn tt) ;;;
  (match rr_Service req with
   | None => mreturn tt
   | Some svc =>
       let* existing := tx_First (service_key (rr_Node req) (ns_ID svc)) in
       if (match existing with
           | None => true
           | Some e => negb (NodeService_IsSame (ServiceNode_ToNodeService e) svc)
           end)
       then mwrap "failed inserting service" (ensureServiceTxn idx (rr_Node req) svc)
       else mreturn tt
   end) ;;;
  (match rr_Check req with
   | None => mreturn tt
   | Some check => ensureCheckIfNodeMatches idx (rr_Node req) check
   end) ;;;
  for check in rr_Checks req do ensureCheckIfNodeMatches idx (rr_Node req) check.

(** ** Snapshot and restore *)

(** [Snapshot.Nodes], [Snapshot.Services] and [Snapshot.Checks]. *)
Definition Snapshot_Nodes : Tx (list Node) := tx_GetPrefix "".
Definition Snapshot_Services (node : string) : Tx (list ServiceNode) :=
  tx_Get services_node_index (string_args true node).
Definition Snapshot_Checks (node : string) : Tx (list HealthCheck) :=
  tx_Get checks_node_index (string_args true node).
(** [Restore.Registration]. *)
Definition Restore_Registration (idx : N) (req : RegisterRequest) : Tx unit := ensureRegistrationTxn idx req.

(** ** Exported write methods *)

Definition EnsureRegistration (now : Z) (idx : N) (req : RegisterRequest) : M Store unit :=
  write_txn now (λ _, true) (ensureRegistrationTxn idx req).
Definition EnsureNode (now : Z) (idx : N) (node : Node) : M Store unit :=
  write_txn now (λ _, true) (ensureNodeTxn idx node).
Definition EnsureService (now : Z) (idx : N) (node : string) (svc : NodeService) : M Store unit :=
  write_txn now (λ _, true) (ensureServiceTxn idx node svc).
Definition EnsureCheck (now : Z) (idx : N) (hc : HealthCheck) : M Store unit :=
  write_txn now (λ _, true) (ensureCheckTxn idx hc).
Definition DeleteNode (now : Z) (idx : N) (nodeName : string) : M Store unit :=
  write_txn now (λ _, true) (deleteNodeTxn idx nodeName).
Definition DeleteService (now : Z) (idx : N) (nodeName serviceID : string) : M Store unit :=
  write_txn now (λ _, true) (deleteServiceTxn idx nodeName serviceID).
Definition DeleteCheck (now : Z) (idx : N) (node checkID : string) : M Store unit :=
  write_txn now (λ _, true) (deleteCheckTxn idx node checkID).
