(* ===== verification/Coordinate.v ===== *)
(** * Network coordinates (agent/consul/state/coordinate.go) *)

From S2P Require Import Prelude Memdb ProxyConfig Structs Delay TombstoneGC Store.

(** [CoordinateBatchUpdate]: invalid coordinates and those of unknown nodes
    are dropped silently. *)
Definition coordinateBatchTxn (idx : N) (updates : list Coordinate) : Tx unit :=
  (for update in updates do
     (if negb (co_IsValid update) then mreturn tt
      else
        let* node := tx_First (A := Node) (node_key (co_Node update)) in
        match node with
        | None => mreturn tt
        | Some _ => mwrap "failed inserting coordinate" (tx_Insert update)
        end)) ;;;
  index_insert "coordinates" idx.
Definition CoordinateBatchUpdate (now : Z) (idx : N) (updates : list Coordinate) : M Store unit :=
  write_txn now (λ _, true) (coordinateBatchTxn idx updates).

(** [Snapshot.Coordinates] and [Restore.Coordinates]. *)
Definition Snapshot_Coordinates : Tx (list Coordinate) := tx_GetPrefix "".
Definition Restore_Coordinates (idx : N) (updates : list Coordinate) : Tx unit :=
  (for update in updates do
     (if negb (co_IsValid update) then mreturn tt
      else mwrap "failed restoring coordinate" (tx_Insert update))) ;;;
  mwrap "failed updating index" (indexUpdateMaxTxn idx "coordinates").

(** [Coordinates]. *)
Definition Coordinates : Store → outcome (N * list Coordinate) :=
  read_txn (
    let* idx := maxIndexTxn ["coordinates"] in
    let* l := tx_GetPrefix "" in
    mreturn (idx, l)).
