(* ===== verification/Txn.v ===== *)
(** * Multi-operation transactions (agent/consul/state/txn.go) *)

From S2P Require Import Prelude Memdb ProxyConfig Structs ConnectTables Delay TombstoneGC Store Graveyard Kvs PreparedQuery Session Catalog.
From S2P Require Import Intention.

(** [TxnKVOp], [TxnIntentionOp] (with a pointer to the intention), [TxnNodeOp], [TxnServiceOp], [TxnCheckOp]; the verbs are the
    strings of api/txn.go. *)
Record TxnKVOp := mkTxnKVOp { tk_Verb : string; tk_DirEnt : DirEntry }.
Record TxnIntentionOp := mkTxnIntentionOp { ti_Op : string; ti_Intention : option Intention }.
Record TxnNodeOp := mkTxnNodeOp { tn_Verb : string; tn_Node : Node }.
Record TxnServiceOp := mkTxnServiceOp { tsv_Verb : string; tsv_Node : string; tsv_Service : NodeService }.
Record TxnCheckOp := mkTxnCheckOp { tc_Verb : string; tc_Check : HealthCheck }.

(** [TxnOp]: "only one of the types should be filled out per entry". *)
Record TxnOp := mkTxnOp {
  op_KV : option TxnKVOp;
  op_Intention : option TxnIntentionOp;
  op_Node : option TxnNodeOp;
  op_Service : option TxnServiceOp;
  op_Check : option TxnCheckOp
}.

Inductive TxnResult :=
| ResKV (e : DirEntry)
| ResNode (n : Node)
| ResService (s : NodeService)
| ResCheck (c : HealthCheck).

(** [if !ok && err == nil { err = ... }]. *)
Definition stale {A} (msg key : string) (m : Tx (bool * A)) : Tx A :=
  let* (ok, a) := m in
  if (ok : bool) then mreturn a else mthrow (EMsg msg [key]).
Definition stale_unit (msg key : string) (m : Tx bool) : Tx unit :=
  let* ok := m in
  if (ok : bool) then mreturn tt else mthrow (EMsg msg [key]).

(** [txnKVS]: a read returns the entry with its value, a write a clone with
    the value blanked out. *)
Definition blank_value (e : DirEntry) : TxnResult := ResKV (de_set_value "" (DirEntry_Clone e)).
Definition txnKVS (idx : N) (op : TxnKVOp) : Tx (list TxnResult) :=
  let verb := tk_Verb op in
  let d := tk_DirEnt op in
  let key := de_Key d in
  if decide (verb = "set") then
    let* entry := kvsSetTxn idx d false in mreturn [blank_value entry]
  else if decide (verb = "delete") then
    kvsDeleteTxn idx key ;;; mreturn []
  else if decide (verb = "delete-cas") then
    stale_unit "failed to delete key, index is stale" key (kvsDeleteCASTxn idx (de_ModifyIndex d) key) ;;;
    mreturn []
  else if decide (verb = "delete-tree") then
    kvsDeleteTreeTxn idx key ;;; mreturn []
  else if decide (verb = "cas") then
    let* entry := stale "failed to set key, index is stale" key (kvsSetCASTxn idx d) in
    mreturn [blank_value entry]
  else if decide (verb = "lock") then
    let* entry := stale "failed to lock key, lock is already held" key (kvsLockTxn idx d) in
    mreturn [blank_value entry]
  else if decide (verb = "unlock") then
    let* entry := stale "failed to unlock key, lock isn't held, or is held by another session" key
                    (kvsUnlockTxn idx d) in
    mreturn [blank_value entry]
  else if decide (verb = "get") then
    let* (_, entry) := kvsGetTxn key in
    match entry with
    | Some e => mreturn [ResKV e]
    | None => mthrow (EMsg "key doesn't exist" [key])
    end
  else if decide (verb = "get-tree") then
    let* (_, entries) := kvsListTxn key in mreturn (ResKV <$> entries)
  else if decide (verb = "check-session") then
    let* entry := kvsCheckSessionTxn key (de_Session d) in mreturn [blank_value entry]
  else if decide (verb = "check-index") then
    let* entry := kvsCheckIndexTxn key (de_ModifyIndex d) in mreturn [blank_value entry]
  else if decide (verb = "check-not-exists") then
    let* (_, entry) := kvsGetTxn key in
    match entry with
    | Some _ => mthrow (EMsg "key exists" [key])
    | None => mreturn []
    end
  else mthrow (EMsg "unknown KV verb" [verb]).

(** A pointer that the code dereferences. *)
Definition deref {S A} (p : option A) : M S A :=
  match p with Some a => mreturn a | None => mpanic "nil pointer dereference" end.

(** [txnIntention]. *)
Definition txnIntention (idx : N) (op : TxnIntentionOp) : Tx unit :=
  if decide (ti_Op op = "create" ∨ ti_Op op = "update") then
    let* ixn := deref (ti_Intention op) in intentionSetTxn idx ixn
  else if decide (ti_Op op = "delete") then
    let* ixn := deref (ti_Intention op) in intentionDeleteTxn idx (ixn_ID ixn)
  else mthrow (EMsg "unknown Intention op" [ti_Op op]).

(** What becomes of [ok, err = casTxn(...); if !ok && err == nil { err = ...;
    break }; entry, err = get()]: an error of the CAS itself is overwritten by
    the read that follows. *)
Definition cas_then_get {A} (msg key : string) (cas : Tx bool) (get : Tx A) : Tx A :=
  let* r := mtry cas in
  match r with
  | Ok false => mthrow (EMsg msg [key])
  | _ => get
  end.

Definition to_results {A} (f : A → TxnResult) (entry : option A) : list TxnResult :=
  match entry with Some e => [f e] | None => [] end.

(** [txnNode]. *)
Definition txnNode (idx : N) (op : TxnNodeOp) : Tx (list TxnResult) :=
  let verb := tn_Verb op in
  let n := tn_Node op in
  let name := node_Node n in
  let getNode : Tx (option Node) :=
    if decide (node_ID n ≠ "") then getNodeIDTxn (node_ID n) else getNodeTxn name in
  if decide (verb = "get") then
    let* entry := getNode in
    match entry with
    | Some e => mreturn [ResNode e]
    | None => mthrow (EMsg "node doesn't exist" [name])
    end
  else if decide (verb = "set") then
    ensureNodeTxn idx n ;;; let* entry := getNode in mreturn (to_results ResNode entry)
  else if decide (verb = "cas") then
    let* entry := cas_then_get "failed to set node, index is stale" name (ensureNodeCASTxn idx n) getNode in
    mreturn (to_results ResNode entry)
  else if decide (verb = "delete") then
    deleteNodeTxn idx name ;;; mreturn []
  else if decide (verb = "delete-cas") then
    stale_unit "failed to delete node, index is stale" name
      (deleteNodeCASTxn idx (node_ModifyIndex n) name) ;;; mreturn []
  else mthrow (EMsg "unknown Node verb" [verb]).

(** [txnService]; on "set" the error of [ensureServiceTxn] is overwritten by
    the read that follows. *)
Definition txnService (idx : N) (op : TxnServiceOp) : Tx (list TxnResult) :=
  let verb := tsv_Verb op in
  let node := tsv_Node op in
  let svc := tsv_Service op in
  let id := ns_ID svc in
  if decide (verb = "get") then
    let* entry := getNodeServiceTxn node id in
    match entry with
    | Some e => mreturn [ResService e]
    | None => mthrow (EMsg "service on node doesn't exist" [id; node])
    end
  else if decide (verb = "set") then
    mtry (ensureServiceTxn idx node svc) ;;;
    let* entry := getNodeServiceTxn node id in mreturn (to_results ResService entry)
  else if decide (verb = "cas") then
    let* entry := cas_then_get "failed to set service on node, index is stale" id
                    (ensureServiceCASTxn idx node svc) (getNodeServiceTxn node id) in
    mreturn (to_results ResService entry)
  else if decide (verb = "delete") then
    deleteServiceTxn idx node id ;;; mreturn []
  else if decide (verb = "delete-cas") then
    stale_unit "failed to delete service on node, index is stale" id
      (deleteServiceCASTxn idx (ns_ModifyIndex svc) node id) ;;; mreturn []
  else mthrow (EMsg "unknown Service verb" [verb]).

(** [txnCheck]. *)
Definition txnCheck (idx : N) (op : TxnCheckOp) : Tx (list TxnResult) :=
  let verb := tc_Verb op in
  let c := tc_Check op in
  let get := let* (_, entry) := getNodeCheckTxn (hc_Node c) (hc_CheckID c) in mreturn entry in
  if decide (verb = "get") then
    let* entry := get in
    match entry with
    | Some e => mreturn [ResCheck e]
    | None => mthrow (EMsg "check on node doesn't exist" [hc_CheckID c; hc_Node c])
    end
  else if decide (verb = "set") then
    ensureCheckTxn idx c ;;; let* entry := get in mreturn (to_results ResCheck entry)
  else if decide (verb = "cas") then
    let* entry := cas_then_get "failed to set check on node, index is stale" (hc_CheckID c)
                    (ensureCheckCASTxn idx c) get in
    mreturn (to_results ResCheck entry)
  else if decide (verb = "delete") then
    deleteCheckTxn idx (hc_Node c) (hc_CheckID c) ;;; mreturn []
  else if decide (verb = "delete-cas") then
    stale_unit "failed to delete check on node, index is stale" (hc_CheckID c)
      (deleteCheckCASTxn idx (hc_ModifyIndex c) (hc_Node c) (hc_CheckID c)) ;;; mreturn []
  else mthrow (EMsg "unknown Check verb" [verb]).

(** One iteration of [txnDispatch]. *)
Definition txnOp (idx : N) (op : TxnOp) : Tx (list TxnResult) :=
  match op_KV op, op_Intention op, op_Node op, op_Service op, op_Check op with
  | Some o, _, _, _, _ => txnKVS idx o
  | None, Some o, _, _, _ => txnIntention idx o ;;; mreturn []
  | None, None, Some o, _, _ => txnNode idx o
  | None, None, None, Some o, _ => txnService idx o
  | None, None, None, None, Some o => txnCheck idx o
  | None, None, None, None, None => mthrow (EMsg "no operation specified" [])
  end.

(** [txnDispatch]: every operation runs, whatever failed before it. *)
Definition TxnErrors : Type := list (nat * error).
Fixpoint txn_loop (idx : N) (i : nat) (ops : list TxnOp) : Tx (list TxnResult * TxnErrors) :=
  match ops with
  | [] => mreturn ([], [])
  | op :: ops =>
      let* r := mtry (txnOp idx op) in
      let* (results, errors) := txn_loop idx (S i) ops in
      mreturn (match r with
               | Ok ret => (ret ++ results, errors)
               | Err e => (results, (i, e) :: errors)
               | Panic _ => (results, errors)
               end)
  end.
Definition txnDispatch (idx : N) (ops : list TxnOp) : Tx (list TxnResult * TxnErrors) :=
  let* (results, errors) := txn_loop idx 0 ops in
  mreturn (match errors with [] => (results, []) | _ => ([], errors) end).

(** [TxnRW] and [TxnRO]. *)
Definition no_errors (r : list TxnResult * TxnErrors) : bool := bool_decide (length r.2 = 0).
Definition TxnRW (now : Z) (idx : N) (ops : list TxnOp) : M Store (list TxnResult * TxnErrors) :=
  write_txn now no_errors (txnDispatch idx ops).
Definition TxnRO (ops : list TxnOp) : Store → outcome (list TxnResult * TxnErrors) :=
  read_txn (txnDispatch 0 ops).
