(* ===== verification/Fsm.v ===== *)
(** * The replicated state machine (agent/consul/fsm/commands_oss.go)

    One committed Raft log entry is a command; decoding the bytes is left out.
    A replica's state is the store; [fsm_apply] is what every replica does
    with the entry of index [idx], at its own local time [now].  What it takes
    from outside the repository is in [externals]. *)

From S2P Require Import Prelude Memdb ProxyConfig Structs ConnectTables AclTables ConfigEntries Delay TombstoneGC Store Graveyard Kvs PreparedQuery Session Catalog Coordinate.
From S2P Require Import Intention ConnectCA Autopilot AclState ConfigState Txn.

(** The request structs behind the message types. *)
Record KVSRequest := mkKVSRequest { kr_Op : string; kr_DirEnt : DirEntry }.
Record SessionRequest := mkSessionRequest { sr_Op : string; sr_Session : Session }.
Record TombstoneRequest := mkTombstoneRequest { tr_Op : string; tr_ReapIndex : N }.
Record PreparedQueryRequest := mkPreparedQueryRequest { pr_Op : string; pr_Query : PreparedQuery }.
(** Pointers of a request are options. *)
Record IntentionRequest := mkIntentionRequest { ir_Op : string; ir_Intention : option Intention }.
Record CARequest := mkCARequest {
  ca_Op : string;
  ca_Index : N;
  ca_Roots : list CARoot;
  ca_Config : option CAConfiguration;
  ca_ProviderState : option CAConsulProviderState
}.
Record AutopilotSetConfigRequest := mkAutopilotSetConfigRequest { asr_Config : AutopilotConfig; asr_CAS : bool }.
Record ACLRequest := mkACLRequest { ar_Op : string; ar_ACL : ACL }.
Record ACLTokenBatchSetRequest := mkTokenBatchSet {
  tbs_Tokens : list ACLToken;
  tbs_CAS : bool;
  tbs_AllowMissingLinks : bool;
  tbs_ProhibitUnprivileged : bool
}.
Record ACLTokenBootstrapRequest := mkTokenBootstrap { tbr_Token : ACLToken; tbr_ResetIndex : N }.
Record ACLRoleBatchSetRequest := mkRoleBatchSet { rbs_Roles : list ACLRole; rbs_AllowMissingLinks : bool }.
Record ConfigEntryRequest := mkConfigEntryRequest { cer_Op : string; cer_Entry : ConfigEntry }.

Inductive command :=
| RegisterRequestType (req : RegisterRequest)
| DeregisterRequestType (req : DeregisterRequest)
| KVSRequestType (req : KVSRequest)
| SessionRequestType (req : SessionRequest)
| TombstoneRequestType (req : TombstoneRequest)
| CoordinateBatchUpdateType (updates : list Coordinate)
| PreparedQueryRequestType (req : PreparedQueryRequest)
| TxnRequestType (ops : list TxnOp)
| AutopilotRequestType (req : AutopilotSetConfigRequest)
| IntentionRequestType (req : IntentionRequest)
| ConnectCARequestType (req : CARequest)
| ConnectCALeafRequestType (op : string)
| ACLRequestType (req : ACLRequest)
| ACLTokenSetRequestType (req : ACLTokenBatchSetRequest)
| ACLTokenDeleteRequestType (tokenIDs : list string)
| ACLBootstrapRequestType (req : ACLTokenBootstrapRequest)
| ACLPolicySetRequestType (policies : list ACLPolicy)
| ACLPolicyDeleteRequestType (policyIDs : list string)
| ACLRoleSetRequestType (req : ACLRoleBatchSetRequest)
| ACLRoleDeleteRequestType (roleIDs : list string)
| ACLBindingRuleSetRequestType (rules : list ACLBindingRule)
| ACLBindingRuleDeleteRequestType (ruleIDs : list string)
| ACLAuthMethodSetRequestType (methods : list ACLAuthMethod)
| ACLAuthMethodDeleteRequestType (names : list string)
| ConfigEntryRequestType (req : ConfigEntryRequest).

(** The [interface{}] an apply function returns: nil, a bool, a string, a
    number, a legacy token or the transaction response; an error is the [Err] of the monad. *)
Inductive response :=
| RNil
| RBool (b : bool)
| RString (s : string)
| RUint (n : N)
| RACL (a : ACL)
| RTxn (results : list TxnResult) (errors : TxnErrors).

Definition rnil {A} (m : M Store A) : M Store response := m ;;; mreturn RNil.
Definition rbool (m : M Store bool) : M Store response := let* b := m in mreturn (RBool b).
Definition rbool_fst {A} (m : M Store (bool * A)) : M Store response := let* r := m in mreturn (RBool r.1).
(** A read of the committed state. *)
Definition mread {A} (f : Store → outcome A) : M Store A := λ st, (f st, st).

(** The compiler of query templates, and what compiling discovery chains takes
    from outside. *)
Record externals := mkExternals {
  ext_template :> PreparedQuery → outcome unit;
  ext_config : CompilerEnv
}.

(** For examples: templates are accepted. *)
Definition sample_externals : externals := mkExternals (λ _, Ok tt) (sample_env id).

Section Apply.
Context (ext : externals).
Context (now : Z) (idx : N).

Definition applyRegister (req : RegisterRequest) : M Store response :=
  rnil (EnsureRegistration now idx req).

Definition applyDeregister (req : DeregisterRequest) : M Store response :=
  if decide (dr_ServiceID req ≠ "") then rnil (DeleteService now idx (dr_Node req) (dr_ServiceID req))
  else if decide (dr_CheckID req ≠ "") then rnil (DeleteCheck now idx (dr_Node req) (dr_CheckID req))
  else rnil (DeleteNode now idx (dr_Node req)).

Definition applyKVSOperation (req : KVSRequest) : M Store response :=
  let d := kr_DirEnt req in
  let op := kr_Op req in
  if decide (op = "set") then rnil (KVSSet now idx d)
  else if decide (op = "delete") then rnil (KVSDelete now idx (de_Key d))
  else if decide (op = "delete-cas") then rbool (KVSDeleteCAS now idx (de_ModifyIndex d) (de_Key d))
  else if decide (op = "delete-tree") then rnil (KVSDeleteTree now idx (de_Key d))
  else if decide (op = "cas") then rbool_fst (KVSSetCAS now idx d)
  else if decide (op = "lock") then rbool_fst (KVSLock now idx d)
  else if decide (op = "unlock") then rbool_fst (KVSUnlock now idx d)
  else mthrow (EMsg "Invalid KVS operation" [op]).

Definition applySessionOperation (req : SessionRequest) : M Store response :=
  if decide (sr_Op req = "create") then
    SessionCreate now idx (sr_Session req) ;;; mreturn (RString (sess_ID (sr_Session req)))
  else if decide (sr_Op req = "destroy") then rnil (SessionDestroy now idx (sess_ID (sr_Session req)))
  else mthrow (EMsg "Invalid Session operation" [sr_Op req]).

Definition applyTombstoneOperation (req : TombstoneRequest) : M Store response :=
  if decide (tr_Op req = "reap") then rnil (ReapTombstones now (tr_ReapIndex req))
  else mthrow (EMsg "Invalid Tombstone operation" [tr_Op req]).

Definition applyCoordinateBatchUpdate (updates : list Coordinate) : M Store response :=
  rnil (CoordinateBatchUpdate now idx updates).

Definition applyPreparedQueryOperation (req : PreparedQueryRequest) : M Store response :=
  if decide (pr_Op req = "create" ∨ pr_Op req = "update")
  then rnil (PreparedQuerySet ext now idx (pr_Query req))
  else if decide (pr_Op req = "delete") then rnil (PreparedQueryDelete now idx (pq_ID (pr_Query req)))
  else mthrow (EMsg "Invalid PreparedQuery operation" [pr_Op req]).

Definition applyTxn (ops : list TxnOp) : M Store response :=
  let* r := TxnRW now idx ops in mreturn (RTxn r.1 r.2).

Definition applyAutopilotUpdate (req : AutopilotSetConfigRequest) : M Store response :=
  if asr_CAS req
  then rbool (AutopilotCASConfig now idx (ap_ModifyIndex (asr_Config req)) (asr_Config req))
  else rnil (AutopilotSetConfig now idx (asr_Config req)).

Definition applyIntentionOperation (req : IntentionRequest) : M Store response :=
  if decide (ir_Op req = "create" ∨ ir_Op req = "update") then
    let* ixn := deref (ir_Intention req) in rnil (IntentionSet now idx ixn)
  else if decide (ir_Op req = "delete") then
    let* ixn := deref (ir_Intention req) in rnil (IntentionDelete now idx (ixn_ID ixn))
  else mthrow (EMsg "Invalid Intention operation" [ir_Op req]).

(** "set-roots-config" runs two transactions, the second at [index+1]. *)
Definition applyConnectCAOperation (req : CARequest) : M Store response :=
  let op := ca_Op req in
  if decide (op = "set-config") then
    let* config := deref (ca_Config req) in
    if decide (cac_ModifyIndex config ≠ 0%N)
    then rbool (CACheckAndSetConfig now idx (cac_ModifyIndex config) config)
    else rnil (CASetConfig now idx config)
  else if decide (op = "set-roots") then rbool (CARootSetCAS now idx (ca_Index req) (ca_Roots req))
  else if decide (op = "set-provider-state") then
    let* state := deref (ca_ProviderState req) in rbool (CASetProviderState now idx state)
  else if decide (op = "delete-provider-state") then
    let* state := deref (ca_ProviderState req) in
    CADeleteProviderState now (cap_ID state) ;;; mreturn (RBool true)
  else if decide (op = "set-roots-config") then
    let* act := CARootSetCAS now idx (ca_Index req) (ca_Roots req) in
    if (act : bool) then
      let* config := deref (ca_Config req) in
      rbool (CACheckAndSetConfig now (u64_add idx 1) (cac_ModifyIndex config) config)
    else mreturn (RBool act)
  else if decide (op = "increment-provider-serial") then
    let* sn := CAIncrementProviderSerialNumber now in mreturn (RUint sn)
  else mthrow (EMsg "Invalid CA operation" [op]).

Definition applyConnectCALeafOperation (op : string) : M Store response :=
  if decide (op = "increment-index") then CALeafSetIndex now idx ;;; mreturn (RUint idx)
  else mthrow (EMsg "Invalid CA operation" [op]).

(** The operations on tokens of the first ACL system. *)
Definition applyACLOperation (req : ACLRequest) : M Store response :=
  let a := ar_ACL req in
  if decide (ar_Op req = "bootstrap-init") then
    let* (enabled, _) := mread CanBootstrapACLToken in mreturn (RBool enabled)
  else if decide (ar_Op req = "bootstrap-now") then
    ACLBootstrap now idx 0 (ACL_Convert a) true ;;;
    let* (_, token) := mread (ACLTokenGetBySecret (acl_ID a)) in
    let* token := deref token in
    let* acl := mlift (ACLToken_Convert token) in
    mreturn (RACL acl)
  else if decide (ar_Op req = "force-set" ∨ ar_Op req = "set") then
    ACLTokenSet now idx (ACL_Convert a) true ;;; mreturn (RString (acl_ID a))
  else if decide (ar_Op req = "delete") then rnil (ACLTokenDeleteBySecret now idx (acl_ID a))
  else mthrow (EMsg "Invalid ACL operation" [ar_Op req]).

Definition applyACLTokenSetOperation (req : ACLTokenBatchSetRequest) : M Store response :=
  rnil (ACLTokenBatchSet now idx (tbs_Tokens req) (tbs_CAS req) (tbs_AllowMissingLinks req)
          (tbs_ProhibitUnprivileged req)).
Definition applyACLTokenDeleteOperation (tokenIDs : list string) : M Store response :=
  rnil (ACLTokenBatchDelete now idx tokenIDs).
Definition applyACLTokenBootstrap (req : ACLTokenBootstrapRequest) : M Store response :=
  rnil (ACLBootstrap now idx (tbr_ResetIndex req) (tbr_Token req) false).
Definition applyACLPolicySetOperation (policies : list ACLPolicy) : M Store response :=
  rnil (ACLPolicyBatchSet now idx policies).
Definition applyACLPolicyDeleteOperation (policyIDs : list string) : M Store response :=
  rnil (ACLPolicyBatchDelete now idx policyIDs).
Definition applyACLRoleSetOperation (req : ACLRoleBatchSetRequest) : M Store response :=
  rnil (ACLRoleBatchSet now idx (rbs_Roles req) (rbs_AllowMissingLinks req)).
Definition applyACLRoleDeleteOperation (roleIDs : list string) : M Store response :=
  rnil (ACLRoleBatchDelete now idx roleIDs).
Definition applyACLBindingRuleSetOperation (rules : list ACLBindingRule) : M Store response :=
  rnil (ACLBindingRuleBatchSet now idx rules).
Definition applyACLBindingRuleDeleteOperation (ruleIDs : list string) : M Store response :=
  rnil (ACLBindingRuleBatchDelete now idx ruleIDs).
Definition applyACLAuthMethodSetOperation (methods : list ACLAuthMethod) : M Store response :=
  rnil (ACLAuthMethodBatchSet now idx methods).
Definition applyACLAuthMethodDeleteOperation (names : list string) : M Store response :=
  rnil (ACLAuthMethodBatchDelete now idx names).

(** "upsert-cas" compares with the index the entry carries. *)
Definition applyConfigEntryOperation (req : ConfigEntryRequest) : M Store response :=
  let e := cer_Entry req in
  if decide (cer_Op req = "upsert-cas")
  then rbool (@EnsureConfigEntryCAS (ext_config ext) now idx (ModifyIndex (GetRaftIndex e)) e)
  else if decide (cer_Op req = "upsert") then
    @EnsureConfigEntry (ext_config ext) now idx e ;;; mreturn (RBool true)
  else if decide (cer_Op req = "delete") then
    rnil (@DeleteConfigEntry (ext_config ext) now idx (GetKind e) (GetName e))
  else mthrow (EMsg "invalid config entry operation type: %v" [cer_Op req]).

(** The dispatch table of [FSM.Apply] *)
Definition fsm_apply (c : command) : M Store response :=
  match c with
  | RegisterRequestType req => applyRegister req
  | DeregisterRequestType req => applyDeregister req
  | KVSRequestType req => applyKVSOperation req
  | SessionRequestType req => applySessionOperation req
  | TombstoneRequestType req => applyTombstoneOperation req
  | CoordinateBatchUpdateType updates => applyCoordinateBatchUpdate updates
  | PreparedQueryRequestType req => applyPreparedQueryOperation req
  | TxnRequestType ops => applyTxn ops
  | AutopilotRequestType req => applyAutopilotUpdate req
  | IntentionRequestType req => applyIntentionOperation req
  | ConnectCARequestType req => applyConnectCAOperation req
  | ConnectCALeafRequestType op => applyConnectCALeafOperation op
  | ACLRequestType req => applyACLOperation req
  | ACLTokenSetRequestType req => applyACLTokenSetOperation req
  | ACLTokenDeleteRequestType tokenIDs => applyACLTokenDeleteOperation tokenIDs
  | ACLBootstrapRequestType req => applyACLTokenBootstrap req
  | ACLPolicySetRequestType policies => applyACLPolicySetOperation policies
  | ACLPolicyDeleteRequestType policyIDs => applyACLPolicyDeleteOperation policyIDs
  | ACLRoleSetRequestType req => applyACLRoleSetOperation req
  | ACLRoleDeleteRequestType roleIDs => applyACLRoleDeleteOperation roleIDs
  | ACLBindingRuleSetRequestType rules => applyACLBindingRuleSetOperation rules
  | ACLBindingRuleDeleteRequestType ruleIDs => applyACLBindingRuleDeleteOperation ruleIDs
  | ACLAuthMethodSetRequestType methods => applyACLAuthMethodSetOperation methods
  | ACLAuthMethodDeleteRequestType names => applyACLAuthMethodDeleteOperation names
  | ConfigEntryRequestType req => applyConfigEntryOperation req
  end.
End Apply.

(** The entries of a log, each with its index and the local time at which the
    replica applies it, in order; a panic ends the process. *)
Fixpoint fsm_run (ext : externals) (log : list (Z * N * command)) (st : Store) :
    list (outcome response) * Store :=
  match log with
  | [] => ([], st)
  | (now, idx, c) :: log =>
      match fsm_apply ext now idx c st with
      | (Panic w, st) => ([Panic w], st)
      | (r, st) => let '(rs, st) := fsm_run ext log st in (r :: rs, st)
      end
  end.

(** Opening the apply functions. *)
Ltac unfold_apply :=
  unfold applyRegister, applyDeregister, applyKVSOperation, applySessionOperation, applyTombstoneOperation,
    applyCoordinateBatchUpdate, applyPreparedQueryOperation, applyTxn, applyAutopilotUpdate,
    applyIntentionOperation, applyConnectCAOperation, applyConnectCALeafOperation, applyACLOperation,
    applyACLTokenSetOperation, applyACLTokenDeleteOperation, applyACLTokenBootstrap, applyACLPolicySetOperation,
    applyACLPolicyDeleteOperation, applyACLRoleSetOperation, applyACLRoleDeleteOperation,
    applyACLBindingRuleSetOperation, applyACLBindingRuleDeleteOperation, applyACLAuthMethodSetOperation,
    applyACLAuthMethodDeleteOperation, applyConfigEntryOperation, rnil, rbool, rbool_fst.
