(* ===== verification/Snapshot.v ===== *)
(** * Snapshots of the state machine (agent/consul/fsm/snapshot_oss.go,
      fsm/snapshot.go, fsm/fsm.go)

    A snapshot is a header and a list of typed records, read from one
    transaction of the store; a restore replays them, in one transaction, into
    a fresh store that replaces the old one when every record was accepted.
    The MessagePack encoding of a record is the record itself.  The state of
    chunked Raft entries is left out. *)

From S2P Require Import Prelude Memdb ProxyConfig Structs ConnectTables AclTables ConfigEntries Delay TombstoneGC Store Graveyard Kvs PreparedQuery Session Catalog Coordinate.
From S2P Require Import Intention ConnectCA Autopilot AclState ConfigState.

(** A message type and its payload.  The legacy ACL records are only read. *)
Inductive snapshot_record :=
| RecRegister (req : RegisterRequest)
| RecCoordinates (updates : list Coordinate)
| RecSession (sess : Session)
| RecACLToken (token : ACLToken)
| RecACLPolicy (policy : ACLPolicy)
| RecACLRole (role : ACLRole)
| RecACLBindingRule (rule : ACLBindingRule)
| RecACLAuthMethod (method : ACLAuthMethod)
| RecKVS (entry : DirEntry)
| RecTombstone (fake : DirEntry)
| RecPreparedQuery (query : PreparedQuery)
| RecAutopilot (config : AutopilotConfig)
| RecIntention (ixn : Intention)
| RecCARoot (r : CARoot)
| RecCAProviderState (s : CAConsulProviderState)
| RecCAConfig (config : CAConfiguration)
| RecConfigEntry (c : ConfigEntry)
| RecIndex (ie : IndexEntry)
| RecACL (acl : ACL)
| RecACLBootstrap (ModifyIndex : N)
| RecUnrecognized (msg : N).

(** [snapshotHeader] and the stream that follows it. *)
Record snapshot := mkSnapshot { LastIndex : N; snap_records : list snapshot_record }.

(** ** Persisting *)

(** [persistNodes]: the node alone, then each of its services, then each of
    its checks, then the coordinates. *)
Definition node_request (n : Node) (svc : option NodeService) (check : option HealthCheck) : RegisterRequest :=
  mkRegisterRequest (node_Datacenter n) (node_ID n) (node_Node n) (node_Address n) (node_TaggedAddresses n)
    (node_Meta n) svc check [] false.
Definition persist_node (n : Node) : Tx (list snapshot_record) :=
  let* services := Snapshot_Services (node_Node n) in
  let* checks := Snapshot_Checks (node_Node n) in
  mreturn (RecRegister (node_request n None None) ::
    ((λ s, RecRegister (node_request n (Some (ServiceNode_ToNodeService s)) None)) <$> services) ++
    ((λ c, RecRegister (node_request n None (Some c))) <$> checks)).
Definition persistNodes : Tx (list snapshot_record) :=
  let* nodes := Snapshot_Nodes in
  let* recs := mmap persist_node nodes in
  let* coords := Snapshot_Coordinates in
  mreturn (concat recs ++ ((λ c, RecCoordinates [c]) <$> coords)).

(** The persisters of a single table. *)
Definition persist_list {A} (rec : A → snapshot_record) (m : Tx (list A)) : Tx (list snapshot_record) :=
  let* l := m in mreturn (rec <$> l).
Definition persist_option {A} (rec : A → snapshot_record) (m : Tx (option A)) : Tx (list snapshot_record) :=
  let* config := m in mreturn (match config with None => [] | Some c => [rec c] end).

Definition persistSessions : Tx (list snapshot_record) := persist_list RecSession Snapshot_Sessions.

(** [persistACLs].  The loop over the auth methods advances with
    [rules.Next()], the iterator the loop before it has run to its end, so it
    stops after the first method. *)
Definition persist_methods (methods : list ACLAuthMethod) : list snapshot_record :=
  match methods with
  | [] => []
  | method :: _ => [RecACLAuthMethod method]
  end.
Definition persistACLs : Tx (list snapshot_record) :=
  let* tokens := Snapshot_ACLTokens in
  let* policies := Snapshot_ACLPolicies in
  let* roles := Snapshot_ACLRoles in
  let* rules := Snapshot_ACLBindingRules in
  let* methods := Snapshot_ACLAuthMethods in
  mreturn ((RecACLToken <$> tokens) ++ (RecACLPolicy <$> policies) ++ (RecACLRole <$> roles) ++
           (RecACLBindingRule <$> rules) ++ persist_methods methods).

Definition persistKVs : Tx (list snapshot_record) := persist_list RecKVS Snapshot_KVs.
(** A tombstone is written as a KV entry. *)
Definition fake_entry (s : Tombstone) : DirEntry := mkDirEntry 0 (ts_Key s) 0 "" "" 0 (ts_Index s).
Definition persistTombstones : Tx (list snapshot_record) :=
  persist_list (λ s, RecTombstone (fake_entry s)) Snapshot_Tombstones.
Definition persistPreparedQueries : Tx (list snapshot_record) :=
  persist_list RecPreparedQuery Snapshot_PreparedQueries.
Definition persistAutopilot : Tx (list snapshot_record) := persist_option RecAutopilot Snapshot_Autopilot.
Definition persistIntentions : Tx (list snapshot_record) := persist_list RecIntention Snapshot_Intentions.
Definition persistConnectCA : Tx (list snapshot_record) := persist_list RecCARoot Snapshot_CARoots.
Definition persistConnectCAProviderState : Tx (list snapshot_record) :=
  persist_list RecCAProviderState Snapshot_CAProviderState.
Definition persistConnectCAConfig : Tx (list snapshot_record) := persist_option RecCAConfig Snapshot_CAConfig.
Definition persistConfigEntries : Tx (list snapshot_record) := persist_list RecConfigEntry Snapshot_ConfigEntries.
Definition persistIndex : Tx (list snapshot_record) := persist_list RecIndex (tx_GetPrefix (A := IndexEntry) "").

(** [persistOSS], in its order. *)
Definition persistOSS : Tx (list snapshot_record) :=
  let* recs := mmap id [persistNodes; persistSessions; persistACLs; persistKVs; persistTombstones;
                        persistPreparedQueries; persistAutopilot; persistIntentions; persistConnectCA;
                        persistConnectCAProviderState; persistConnectCAConfig; persistConfigEntries; persistIndex] in
  mreturn (concat recs).

(** [Store.Snapshot]: the index of the snapshot is the largest over all
    tables, those of the schema. *)
Definition schema_tables : list string :=
  [table_name (A := DirEntry); table_name (A := Tombstone); table_name (A := IndexEntry);
   table_name (A := Session); table_name (A := sessionCheck); table_name (A := Node);
   table_name (A := ServiceNode); table_name (A := HealthCheck); table_name (A := Coordinate);
   table_name (A := PreparedQuery); table_name (A := Intention); table_name (A := CARoot);
   table_name (A := CAConfiguration); table_name (A := CAConsulProviderState);
   table_name (A := AutopilotConfig); table_name (A := ACLToken); table_name (A := ACLPolicy);
   table_name (A := ACLRole); table_name (A := ACLBindingRule); table_name (A := ACLAuthMethod);
   table_name (A := ConfigEntry)].
(** [FSM.Snapshot] and [snapshot.Persist]. *)
Definition Persist : Store → outcome snapshot :=
  read_txn (
    let* idx := maxIndexTxn schema_tables in
    let* recs := persistOSS in
    mreturn (mkSnapshot idx recs)).

(** ** Restoring *)

Section restore.
Context (compile : PreparedQuery → outcome unit).

(** The restorers, by message type. *)
Definition restore_record (lastIndex : N) (r : snapshot_record) : Tx unit :=
  match r with
  | RecRegister req => Restore_Registration lastIndex req
  | RecCoordinates updates => Restore_Coordinates lastIndex updates
  | RecSession sess => Restore_Session sess
  | RecACLToken token => Restore_ACLToken token
  | RecACLPolicy policy => Restore_ACLPolicy policy
  | RecACLRole role => Restore_ACLRole role
  | RecACLBindingRule rule => Restore_ACLBindingRule rule
  | RecACLAuthMethod method => Restore_ACLAuthMethod method
  | RecKVS entry => Restore_KVS entry
  | RecTombstone fake => Restore_Tombstone (mkTombstone (de_Key fake) (de_ModifyIndex fake))
  | RecPreparedQuery query => Restore_PreparedQuery compile query
  | RecAutopilot config => Restore_Autopilot config
  | RecIntention ixn => Restore_Intention ixn
  | RecCARoot r => Restore_CARoot r
  | RecCAProviderState s => Restore_CAProviderState s
  | RecCAConfig config => Restore_CAConfig config
  | RecConfigEntry c => Restore_ConfigEntry c
  | RecIndex ie => IndexRestore ie
  | RecACL acl => Restore_ACLToken (ACL_Convert acl)
  | RecACLBootstrap modifyIndex => IndexRestore (mkIndexEntry "acl-token-bootstrap" modifyIndex)
  | RecUnrecognized msg => mthrow (EMsg "Unrecognized msg type" [])
  end.

(** [FSM.Restore]: the new store replaces the old one only when all went
    well. *)
Definition FSM_Restore (now : Z) (old : snapshot) (c : Store) : outcome unit * Store :=
  match write_txn now (λ _, true) (for r in snap_records old do restore_record (LastIndex old) r)
          (NewStateStore (st_gc c)) with
  | (Ok _, stateNew) => (Ok tt, stateNew)
  | (Err e, _) => (Err e, c)
  | (Panic w, _) => (Panic w, c)
  end.
End restore.
