(* ===== verification/Logic.v ===== *)
(** * Reasoning about the transaction monad

    [wp m Q E s]: run from [s], [m] does not panic, ends in [Q] on success and
    in [E] on an error.  [framed R m]: every run of [m], however it ends,
    relates its states by [R].  [db_det m]: what [m] does to the tables, and
    what it returns, is a function of the tables alone. *)

From S2P Require Import Prelude Memdb ProxyConfig Structs Delay TombstoneGC Store.

Definition wp {S A} (m : M S A) (Q : A → S → Prop) (E : S → Prop) (s : S) : Prop :=
  match m s with
  | (Ok a, s') => Q a s'
  | (Err _, s') => E s'
  | (Panic _, _) => False
  end.

Definition framed {S A} (R : S → S → Prop) (m : M S A) : Prop := ∀ s, R s (m s).2.

(** Two transaction states that agree on everything the replicas share. *)
Definition same_tables (s1 s2 : txn) : Prop := tx_db s1 = tx_db s2 ∧ tx_write s1 = tx_write s2.
Definition db_det {A} (m : Tx A) : Prop := ∀ s1 s2,
  same_tables s1 s2 → (m s1).1 = (m s2).1 ∧ same_tables (m s1).2 (m s2).2.

(** Running a bind whose first half is known. *)
Lemma run_bind_ok {S A B} (m : M S A) (k : A → M S B) s a s' :
  m s = (Ok a, s') → mbind' m k s = k a s'.
Proof. intros H. unfold mbind'. by rewrite H. Qed.
Lemma run_bind_err {S A B} (m : M S A) (k : A → M S B) s e s' :
  m s = (Err e, s') → mbind' m k s = (Err e, s').
Proof. intros H. unfold mbind'. by rewrite H. Qed.
Lemma run_wrap_ok {S A} fmt (m : M S A) s a s' : m s = (Ok a, s') → mwrap fmt m s = (Ok a, s').
Proof. intros H. unfold mwrap. by rewrite H. Qed.
Lemma run_wrap_err {S A} fmt (m : M S A) s e s' : m s = (Err e, s') → mwrap fmt m s = (Err (EWrap fmt [] e), s').
Proof. intros H. unfold mwrap. by rewrite H. Qed.

(** Successful runs, taken apart. *)
Lemma bind_ok_inv {S A B} (m : M S A) (k : A → M S B) s b s' :
  mbind' m k s = (Ok b, s') → ∃ a s1, m s = (Ok a, s1) ∧ k a s1 = (Ok b, s').
Proof. unfold mbind'. destruct (m s) as [[a| |] s1]; intros H; simplify_eq. eauto. Qed.
Lemma wrap_ok_inv {S A} fmt (m : M S A) s a s' : mwrap fmt m s = (Ok a, s') → m s = (Ok a, s').
Proof. unfold mwrap. destruct (m s) as [[]]; intros H; by simplify_eq. Qed.

Lemma lift_ok_inv {S A} (o : outcome A) (s : S) a s' : mlift o s = (Ok a, s') → o = Ok a ∧ s' = s.
Proof. unfold mlift. by intros [= -> ->]. Qed.
Lemma ret_ok_inv {S A} (x : A) (s : S) a s' : mreturn x s = (Ok a, s') → x = a ∧ s' = s.
Proof. unfold mreturn. by intros [= -> ->]. Qed.

(** A loop of reads. *)
Lemma mmap_reads {S A B} (f : A → M S B) (g : A → B) l s :
  (∀ x, x ∈ l → f x s = (Ok (g x), s)) → mmap f l s = (Ok (g <$> l), s).
Proof.
  induction l as [|x l IH]; intros Hf; [done|]. simpl.
  rewrite (run_bind_ok _ _ _ _ _ (Hf x ltac:(by left))).
  rewrite (run_bind_ok _ _ _ _ _ (IH (λ y Hy, Hf y ltac:(by right)))). done.
Qed.

(** Takes a hypothesis on a successful run apart, as far as its structure
    shows. *)
Ltac ok_inv H :=
  lazymatch type of H with
  | mbind' _ _ _ = (Ok _, _) =>
      let a := fresh "a" in let s := fresh "s" in let H1 := fresh "Hrun" in
      apply bind_ok_inv in H as (a&s&H1&H); ok_inv H1; ok_inv H
  | mwrap _ _ _ = (Ok _, _) => apply wrap_ok_inv in H; ok_inv H
  | mreturn _ _ = (Ok _, _) => apply ret_ok_inv in H as [? ?]; subst
  | mlift _ _ = (Ok _, _) => apply lift_ok_inv in H as [? ?]; subst
  | mget _ _ = (Ok _, _) => unfold mget in H; injection H as ? ?; subst
  | mthrow _ _ = (Ok _, _) => discriminate H
  | mpanic _ _ = (Ok _, _) => discriminate H
  | (match ?x with _ => _ end) _ = (Ok _, _) =>
      let E := fresh "E" in destruct x eqn:E; ok_inv H
  | _ => idtac
  end.

Section wp.
Context {S : Type}.
Implicit Types (s : S) (E : S → Prop).

Lemma wp_ret {A} (a : A) Q E s : Q a s → wp (mreturn a) Q E s.
Proof. done. Qed.
Lemma wp_throw {A} e (Q : A → S → Prop) E s : E s → wp (mthrow e) Q E s.
Proof. done. Qed.
Lemma wp_get {A} (f : S → A) Q E s : Q (f s) s → wp (mget f) Q E s.
Proof. done. Qed.
Lemma wp_modify (f : S → S) Q E s : Q tt (f s) → wp (mmodify f) Q E s.
Proof. done. Qed.
Lemma wp_lift {A} (o : outcome A) (Q : A → S → Prop) E s :
  match o with Ok a => Q a s | Err _ => E s | Panic _ => False end → wp (mlift o) Q E s.
Proof. by destruct o. Qed.

Lemma wp_bind {A B} (m : M S A) (k : A → M S B) Q E s :
  wp m (λ a s', wp (k a) Q E s') E s → wp (mbind' m k) Q E s.
Proof. unfold wp, mbind'. destruct (m s) as [[] s']; done. Qed.

Lemma wp_wrap {A} fmt (m : M S A) Q E s : wp m Q E s → wp (mwrap fmt m) Q E s.
Proof. unfold wp, mwrap. by destruct (m s) as [[] s']. Qed.

Lemma wp_try {A} (m : M S A) (Q : outcome A → S → Prop) E s :
  wp m (λ a, Q (Ok a)) (λ s', ∀ e, Q (Err e) s') s → wp (mtry m) Q E s.
Proof. unfold wp, mtry. destruct (m s) as [[] s']; naive_solver. Qed.

Lemma wp_mono {A} (m : M S A) (Q Q' : A → S → Prop) E E' s :
  wp m Q E s → (∀ a s', Q a s' → Q' a s') → (∀ s', E s' → E' s') → wp m Q' E' s.
Proof. unfold wp. destruct (m s) as [[] s']; naive_solver. Qed.

(** The loop rule: the invariant may mention the elements still to come. *)
Lemma wp_for_list {A} (I : list A → S → Prop) (body : A → M S unit) E l s :
  (∀ x l s, I (x :: l) s → wp (body x) (λ _, I l) E s) →
  I l s → wp (mfor l body) (λ _, I []) E s.
Proof.
  intros Hbody. revert s. induction l as [|x l IH]; intros s HI; simpl; [by apply wp_ret|].
  apply wp_bind. eapply wp_mono; [by apply Hbody| |done]. auto.
Qed.

Lemma wp_for {A} (I : S → Prop) (body : A → M S unit) E l s :
  (∀ x s, x ∈ l → I s → wp (body x) (λ _, I) E s) →
  I s → wp (mfor l body) (λ _, I) E s.
Proof.
  revert s. induction l as [|x l IH]; intros s Hbody HI; simpl; [by apply wp_ret|].
  apply wp_bind. eapply wp_mono; [apply Hbody; [left|done]| |done].
  intros ? s' HI'. apply IH; [|done]. intros y s'' Hy. apply Hbody. by right.
Qed.

Lemma wp_conj {A} (m : M S A) Q1 Q2 E1 E2 s :
  wp m Q1 E1 s → wp m Q2 E2 s →
  wp m (λ a s', Q1 a s' ∧ Q2 a s') (λ s', E1 s' ∧ E2 s') s.
Proof. unfold wp. destruct (m s) as [[] s']; naive_solver. Qed.

Lemma wp_ok {A} (m : M S A) Q E s a s' : wp m Q E s → m s = (Ok a, s') → Q a s'.
Proof. unfold wp. intros H Hm. by rewrite Hm in H. Qed.
End wp.

Section framed.
Context {S : Type} (R : S → S → Prop) `{!Reflexive R, !Transitive R}.

Lemma framed_ret {A} (a : A) : framed R (mreturn a).
Proof. intros s. simpl. done. Qed.
Lemma framed_throw {A} e : framed R (mthrow (A := A) e).
Proof. intros s. simpl. done. Qed.
Lemma framed_panic {A} w : framed R (mpanic (A := A) w).
Proof. intros s. simpl. done. Qed.
Lemma framed_get {A} (f : S → A) : framed R (mget f).
Proof. intros s. simpl. done. Qed.
Lemma framed_lift {A} (o : outcome A) : framed R (mlift o).
Proof. intros s. simpl. done. Qed.
Lemma framed_bind {A B} (m : M S A) (k : A → M S B) :
  framed R m → (∀ a, framed R (k a)) → framed R (mbind' m k).
Proof.
  intros Hm Hk s. unfold mbind'. specialize (Hm s).
  destruct (m s) as [[a| |] s']; simpl in *; [|done..].
  etrans; [done|]. apply Hk.
Qed.
Lemma framed_bind_lift {A B} (o : outcome A) (k : A → M S B) :
  (∀ a, o = Ok a → framed R (k a)) → framed R (mbind' (mlift o) k).
Proof. intros Hk s. unfold mbind', mlift. destruct o as [a| |]; simpl; [by apply Hk|done..]. Qed.
Lemma framed_wrap {A} fmt (m : M S A) : framed R m → framed R (mwrap fmt m).
Proof. intros Hm s. unfold mwrap. specialize (Hm s). by destruct (m s) as [[] s']. Qed.
Lemma framed_try {A} (m : M S A) : framed R m → framed R (mtry m).
Proof. intros Hm s. unfold mtry. specialize (Hm s). by destruct (m s) as [[] s']. Qed.
Lemma framed_mmap {A B} (f : A → M S B) l : (∀ x, framed R (f x)) → framed R (mmap f l).
Proof.
  intros Hb. induction l; simpl; [apply framed_ret|]. repeat (apply framed_bind; [done|intros ?]). apply framed_ret.
Qed.
Lemma framed_for {A} (body : A → M S unit) l :
  (∀ x, framed R (body x)) → framed R (mfor l body).
Proof.
  intros Hb. induction l; simpl; [apply framed_ret|]. by apply framed_bind.
Qed.
End framed.

(** A first half that only reads: what it returned can be used afterwards. *)
Lemma framed_bind_read {S A B} (R : S → S → Prop) `{!Reflexive R} (m : M S A) (k : A → M S B) s :
  framed eq m → (∀ a, (m s).1 = Ok a → R s (k a s).2) → R s (mbind' m k s).2.
Proof.
  intros Hm Hk. specialize (Hm s). unfold mbind'.
  destruct (m s) as [[a| |] s']; simpl in *; subst; [by apply Hk|done..].
Qed.
Lemma read_wrap {S A} fmt (m : M S A) : framed eq m → framed eq (mwrap fmt m).
Proof. apply framed_wrap. Qed.
Lemma read_First {A} `{TableOf A} k : framed eq (tx_First (A := A) k).
Proof. by intros s. Qed.
Lemma read_FirstUUID {A} `{TableSchema A} `{TableOf A} id : framed eq (tx_FirstUUID (A := A) id).
Proof. intros s. unfold tx_FirstUUID, mbind', mlift. by destruct (owrap _ _). Qed.
Lemma read_FirstUnique {A} `{TableOf A} ix k : framed eq (tx_FirstUnique (A := A) ix k).
Proof. by intros s. Qed.
#[export] Hint Resolve read_First read_FirstUUID read_FirstUnique read_wrap : frame.

Lemma wp_framed {S A} (R : S → S → Prop) (m : M S A) (Q : A → S → Prop) E s :
  framed R m → wp m Q E s → wp m (λ a s', Q a s' ∧ R s s') (λ s', E s' ∧ R s s') s.
Proof. intros HR. specialize (HR s). unfold wp. by destruct (m s) as [[] s']. Qed.

Section db_det.
Lemma same_tables_refl s : same_tables s s.
Proof. done. Qed.

Lemma det_ret {A} (a : A) : db_det (mreturn a).
Proof. by intros s1 s2 H. Qed.
Lemma det_throw {A} e : db_det (mthrow (A := A) e).
Proof. by intros s1 s2 H. Qed.
Lemma det_panic {A} w : db_det (mpanic (A := A) w).
Proof. by intros s1 s2 H. Qed.
Lemma det_lift {A} (o : outcome A) : db_det (mlift o).
Proof. by intros s1 s2 H. Qed.
Lemma det_get {A} (f : db → A) : db_det (mget (λ s, f (tx_db s))).
Proof. intros s1 s2 [H1 H2]. simpl. by rewrite H1. Qed.
Lemma det_bind {A B} (m : Tx A) (k : A → Tx B) :
  db_det m → (∀ a, db_det (k a)) → db_det (mbind' m k).
Proof.
  intros Hm Hk s1 s2 Hs. unfold mbind'. destruct (Hm s1 s2 Hs) as [H1 H2].
  destruct (m s1) as [[a| |] s1'], (m s2) as [[b| |] s2']; simplify_eq/=; auto.
  by apply Hk.
Qed.
Lemma det_wrap {A} fmt (m : Tx A) : db_det m → db_det (mwrap fmt m).
Proof.
  intros Hm s1 s2 Hs. unfold mwrap. destruct (Hm s1 s2 Hs) as [H1 H2].
  destruct (m s1) as [[a| |] s1'], (m s2) as [[b| |] s2']; simplify_eq/=; auto.
Qed.
Lemma det_try {A} (m : Tx A) : db_det m → db_det (mtry m).
Proof.
  intros Hm s1 s2 Hs. unfold mtry. destruct (Hm s1 s2 Hs) as [H1 H2].
  destruct (m s1) as [[a| |] s1'], (m s2) as [[b| |] s2']; simplify_eq/=; auto.
Qed.
Lemma det_for {A} (body : A → Tx unit) l : (∀ x, db_det (body x)) → db_det (mfor l body).
Proof. intros Hb. induction l; simpl; [apply det_ret|]. by apply det_bind. Qed.

Lemma det_mmap {A B} (f : A → Tx B) l : (∀ x, db_det (f x)) → db_det (mmap f l).
Proof.
  intros Hb. induction l; simpl; [apply det_ret|]. repeat (apply det_bind; [done|intros ?]). apply det_ret.
Qed.
Lemma det_modify_delay (f : txn → Delay) : db_det (mmodify (λ s, tx_set_delay (f s) s)).
Proof. by intros s1 s2 [H1 H2]. Qed.
Lemma det_push_after i : db_det (mmodify (tx_push_after i)).
Proof. by intros s1 s2 [H1 H2]. Qed.

Context {A : Type} `{TableSchema A} `{TableOf A}.
Lemma det_Insert (x : A) : db_det (tx_Insert x).
Proof.
  intros [] [] [H1 H2]; simpl in *; subst. unfold tx_Insert, same_tables; simpl.
  case_match; [|done]. by destruct (table_insert _ _).
Qed.
Lemma det_Delete (x : A) : db_det (tx_Delete x).
Proof.
  intros [] [] [H1 H2]; simpl in *; subst. unfold tx_Delete, same_tables; simpl.
  case_match; [|done]. by destruct (table_delete _ _).
Qed.
Lemma det_First k : db_det (tx_First (A := A) k).
Proof. apply (det_get (λ d, tbl d !! k)). Qed.
Lemma det_Get ix p : db_det (tx_Get (A := A) ix p).
Proof. apply (det_get (λ d, table_scan ix p (tbl d))). Qed.
Lemma det_GetPrefix p : db_det (tx_GetPrefix (A := A) p).
Proof. apply (det_get (λ d, table_prefix p (tbl d))). Qed.
Lemma det_DeletePrefix p : db_det (tx_DeletePrefix (A := A) p).
Proof.
  intros [] [] [H1 H2]; simpl in *; subst. unfold tx_DeletePrefix, same_tables; simpl.
  case_match; [|done]. by destruct (table_prefix _ _).
Qed.
End db_det.

#[export] Hint Resolve det_ret det_throw det_panic det_lift det_wrap det_try det_for
  det_modify_delay det_push_after det_Insert det_Delete det_First det_Get det_GetPrefix
  det_DeletePrefix : det.

(** Syntax-directed decomposition of the goals [db_det m]. *)
Ltac det_step :=
  first
    [ solve [eauto with det nocore]
    | apply det_bind; [|intros ?]
    | apply det_wrap
    | apply det_try
    | apply det_for; intros ?
    | apply det_mmap; intros ?
    | progress cbn beta iota zeta
    | match goal with
      | |- db_det (match ?x with _ => _ end) => destruct x
      end ].
Ltac det_tac := intros; repeat det_step.

Lemma det_index_insert name idx : db_det (index_insert name idx).
Proof. unfold index_insert. det_tac. Qed.
#[export] Hint Resolve det_index_insert : det.

Lemma det_maxIndexTxn ts : db_det (maxIndexTxn ts).
Proof. apply (det_get (λ d, maxIndex_db d ts)). Qed.
Lemma det_FirstUUID {A} `{TableSchema A} `{TableOf A} id : db_det (tx_FirstUUID (A := A) id).
Proof. unfold tx_FirstUUID. det_tac. Qed.
Lemma det_GetUUID {A} `{TableSchema A} `{TableOf A} ix id : db_det (tx_GetUUID (A := A) ix id).
Proof. unfold tx_GetUUID. det_tac. Qed.
#[export] Hint Resolve det_maxIndexTxn det_FirstUUID det_GetUUID : det.
Lemma det_FirstUnique {A} `{TableOf A} ix k : db_det (tx_FirstUnique (A := A) ix k).
Proof. apply (det_get (λ d, snd <$> head (filter (λ kx, bool_decide (k ∈ index_keys ix kx.1 kx.2)) (map_to_list (tbl d))))). Qed.
#[export] Hint Resolve det_FirstUnique : det.
