(* ===== verification/DiscoveryGraph.v ===== *)
(** * A program logic for the compiler of discovery chains

    [wp B m Q c]: run from [c], [m] returns a value and a state in [Q], or an
    error, or panics in a way that [B] admits.  The loops have rules with
    invariants over the part of the list already done.  With it, the search for
    cycles in the graph of a chain. *)

From S2P Require Import Prelude Memdb ProxyConfig ConfigEntries DiscoveryChain.

Section wp.
Context (B : string → Prop).

Definition wp {A} (m : CM A) (Q : A → compiler → Prop) (c : compiler) : Prop :=
  match m c with (Ok a, c') => Q a c' | (Err _, _) => True | (Panic w, _) => B w end.

Lemma wpc_mono {A} (m : CM A) (Q Q' : A → compiler → Prop) c :
  wp m Q c → (∀ a c', Q a c' → Q' a c') → wp m Q' c.
Proof. unfold wp. destruct (m c) as [[]?]; auto. Qed.
Lemma wpc_bind {A A'} (m : CM A) (k : A → CM A') Q c :
  wp m (λ a c', wp (k a) Q c') c → wp (mbind' m k) Q c.
Proof. unfold wp, mbind'. by destruct (m c) as [[]?]. Qed.
Lemma wp_bind_inv {A A'} (m : CM A) (k : A → CM A') Q c :
  wp (mbind' m k) Q c → wp m (λ a c', wp (k a) Q c') c.
Proof. unfold wp, mbind'. by destruct (m c) as [[]?]. Qed.
Lemma wpc_ret {A} (a : A) (Q : A → compiler → Prop) c : Q a c → wp (mreturn a) Q c.
Proof. done. Qed.
Lemma wpc_throw {A} e (Q : A → compiler → Prop) c : wp (mthrow e) Q c.
Proof. done. Qed.
Lemma wp_panic {A} w (Q : A → compiler → Prop) c : B w → wp (mpanic w) Q c.
Proof. done. Qed.
Lemma wpc_get {A} f (Q : A → compiler → Prop) c : Q (f c) c → wp (mget f) Q c.
Proof. done. Qed.
Lemma wpc_modify f (Q : unit → compiler → Prop) c : Q tt (f c) → wp (mmodify f) Q c.
Proof. done. Qed.
Lemma wp_lift_ok {A} (a : A) (Q : A → compiler → Prop) c : Q a c → wp (mlift (Ok a)) Q c.
Proof. done. Qed.
Lemma wp_pointed {A} (o : option A) x (Q : A → compiler → Prop) c : o = Some x → Q x c → wp (pointed o) Q c.
Proof. by intros ->. Qed.

Lemma wpc_for {A} (I : list A → compiler → Prop) (body : A → CM unit) l :
  (∀ pre x suf c, l = pre ++ x :: suf → I pre c → wp (body x) (λ _, I (pre ++ [x])) c) →
  ∀ c, I [] c → wp (mfor l body) (λ _, I l) c.
Proof.
  intros Hbody.
  enough (∀ suf pre c, l = pre ++ suf → I pre c → wp (mfor suf body) (λ _, I l) c) as H by (intros; by apply (H l [])).
  induction suf as [|x suf IH]; intros pre c Hl HI; simpl.
  - apply wpc_ret. by rewrite Hl, app_nil_r.
  - apply wpc_bind. eapply wpc_mono; [by apply (Hbody pre x suf)|]. intros [] c' HI'. simpl.
    apply (IH (pre ++ [x])); [|done]. by rewrite <-app_assoc.
Qed.
Lemma wp_map {A A'} (I : list A → list A' → compiler → Prop) (f : A → CM A') l :
  (∀ pre ys x suf c, l = pre ++ x :: suf → I pre ys c → wp (f x) (λ y, I (pre ++ [x]) (ys ++ [y])) c) →
  ∀ c, I [] [] c → wp (mmap f l) (λ ys, I l ys) c.
Proof.
  intros Hf.
  enough (∀ suf pre ys c, l = pre ++ suf → I pre ys c → wp (mmap f suf) (λ ys', I l (ys ++ ys')) c) as H
    by (intros; by apply (H l [] [])).
  induction suf as [|x suf IH]; intros pre ys c Hl HI; simpl.
  - apply wpc_ret. by rewrite Hl, !app_nil_r.
  - apply wpc_bind. eapply wpc_mono; [by apply (Hf pre ys x suf)|]. intros y c' HI'. apply wpc_bind.
    eapply wpc_mono; [apply (IH (pre ++ [x]) (ys ++ [y])); [by rewrite <-app_assoc|done]|].
    intros ys' c'' HI''. apply wpc_ret. cbv beta in HI'' |- *. by rewrite <-app_assoc in HI''.
Qed.
Lemma wp_fold {A A'} (I : list A → A' → compiler → Prop) (f : A' → A → CM A') l :
  (∀ pre b x suf c, l = pre ++ x :: suf → I pre b c → wp (f b x) (λ b, I (pre ++ [x]) b) c) →
  ∀ b c, I [] b c → wp (mfold f b l) (λ b, I l b) c.
Proof.
  intros Hf.
  enough (∀ suf pre b c, l = pre ++ suf → I pre b c → wp (mfold f b suf) (λ b, I l b) c) as H
    by (intros; by apply (H l [])).
  induction suf as [|x suf IH]; intros pre b c Hl HI; simpl.
  - apply wpc_ret. by rewrite Hl, app_nil_r.
  - apply wpc_bind. eapply wpc_mono; [by apply (Hf pre b x suf)|]. intros b' c' HI'.
    apply (IH (pre ++ [x])); [|done]. by rewrite <-app_assoc.
Qed.
End wp.

(** Stepping through the straight-line code. *)
Ltac wp_step :=
  match goal with
  | |- wp _ (mbind' _ _) _ _ => apply wpc_bind
  | |- wp _ (mreturn _) _ _ => apply wpc_ret
  | |- wp _ (mthrow _) _ _ => exact I
  | |- wp _ (mget _) _ _ => apply wpc_get
  | |- wp _ (mmodify _) _ _ => apply wpc_modify
  | |- wp _ (mlift (Ok _)) _ _ => apply wp_lift_ok
  | |- wp _ (pointed (Some _)) _ _ => refine (wp_pointed _ _ _ _ _ eq_refl _)
  | |- wp _ (if ?b then _ else _) _ _ => destruct b eqn:?
  | |- wp _ (match ?b with _ => _ end) _ _ => destruct b eqn:?
  end; cbv beta.

(** * Searching the graph of a discovery chain

    Paths of a graph of nodes; the loops of the compiler that walk it:
    [detectCircularReferences] finishes within its fuel and finds a cycle
    exactly when there is one, and [removeUnusedNodes] keeps what can be
    reached. *)

Abbreviation graph := (gmap string DiscoveryGraphNode).

Definition edge (g : graph) (a b : string) : Prop := ∃ n, g !! a = Some n ∧ b ∈ next_nodes n.
(** Every edge leads to a node. *)
Definition closed (g : graph) : Prop := ∀ a b, edge g a b → is_Some (g !! b).
(** Every node is under its own key. *)
Definition keyed (g : graph) : Prop := map_Forall (λ k n, k = MapKey n) g.
(** [trail g a l]: [l] continues a path at [a]. *)
Fixpoint trail (g : graph) (a : string) (l : list string) : Prop :=
  match l with [] => True | b :: l => edge g a b ∧ trail g b l end.
(** No path from [a] comes back to one of its nodes. *)
Definition acyclic_from (g : graph) (a : string) : Prop := ∀ l, trail g a l → NoDup (a :: l).

Lemma MapKey_not_popvisit n : MapKey n ≠ "_popvisit".
Proof. unfold MapKey. by destruct (gn_Type n). Qed.
Lemma MapKey_not_empty n : MapKey n ≠ "".
Proof. unfold MapKey. by destruct (gn_Type n). Qed.
Lemma keyed_popvisit g : keyed g → g !! "_popvisit" = None.
Proof.
  intros Hk. apply eq_None_not_Some. intros [n Hn]. apply Hk in Hn. by eapply MapKey_not_popvisit.
Qed.
Lemma keyed_unnamed g : keyed g → g !! "" = None.
Proof.
  intros Hk. apply eq_None_not_Some. intros [n Hn]. apply Hk in Hn. by eapply MapKey_not_empty.
Qed.

Lemma trail_app g a l1 b l2 : trail g a (l1 ++ b :: l2) ↔ trail g a (l1 ++ [b]) ∧ trail g b l2.
Proof. revert a. induction l1 as [|x l1 IH]; intros a; simpl; [tauto|]. rewrite IH. tauto. Qed.
Lemma trail_dom g a l : closed g → trail g a l → Forall (λ b, is_Some (g !! b)) l.
Proof.
  intros Hc. revert a. induction l as [|b l IH]; intros a; simpl; [done|]. intros [He Ht].
  constructor; [by eapply Hc|eauto].
Qed.

(** ** Loops driven by steps *)

Section iter.
Context {S R : Type} (step : S → S + R).

Fixpoint iter (n : nat) (s : S) : S + R :=
  match n with
  | O => inl s
  | Datatypes.S n => match step s with inl s => iter n s | r => r end
  end.
Lemma iter_add n m s : iter (n + m) s = match iter n s with inl s => iter m s | r => r end.
Proof. revert s. induction n as [|n IH]; intros s; simpl; [done|]. by destruct (step s). Qed.
Lemma iter_done n m s r : iter n s = inr r → n ≤ m → iter m s = inr r.
Proof. intros H ?. replace m with (n + (m - n)) by lia. by rewrite iter_add, H. Qed.
Lemma drive_iter k s : drive k step s = iter (2 ^ k) s.
Proof.
  revert s. induction k as [|k IH]; intros s; simpl; [by destruct (step s)|].
  rewrite Nat.add_0_r, iter_add, IH. by destruct (iter _ s).
Qed.
End iter.

Lemma pow2_ge n : n ≤ 2 ^ n.
Proof. induction n as [|n IH]; simpl; [lia|]. pose proof (Nat.pow_nonzero 2 n). lia. Qed.

Lemma elem_of_rev {A} (x : A) l : x ∈ rev l ↔ x ∈ l.
Proof. by rewrite !list_elem_of_In, <-in_rev. Qed.

(** ** Circular references *)

Section detect.
Context (g : graph) (Hclosed : closed g) (Hpop : g !! "_popvisit" = None).
Context (d : nat) (Hdegree : ∀ a n, g !! a = Some n → length (next_nodes n) ≤ d).

Definition circular (items : list string) : outcome unit :=
  Err (graph_error "detected circular reference: [%s]" [join " -> " items]).

(** Paths from [a] that neither meet [V] nor come back. *)
Definition clean (V : gset string) (l : list string) : Prop := NoDup l ∧ Forall (λ b, b ∉ V) l.
Definition clear (V : gset string) (a : string) : Prop := ∀ l, trail g a l → clean V (a :: l).

Lemma clean_cons V a l : clean V (a :: l) ↔ a ∉ V ∧ clean ({[a]} ∪ V) l.
Proof.
  unfold clean. rewrite list.NoDup_cons, list.Forall_cons, !list.Forall_forall.
  split; [|set_solver]. intros [[Ha Hn] [HaV Hl]]. repeat split; [done..|].
  intros x Hx. pose proof (Hl x Hx). assert (x ≠ a) by (by intros ->). set_solver.
Qed.
Lemma clear_step V a : clear V a ↔ a ∉ V ∧ ∀ b, edge g a b → clear ({[a]} ∪ V) b.
Proof.
  split.
  - intros H. split; [by apply (clean_cons V a []), (H [])|].
    intros b Hb l Hl. by apply (clean_cons V a (b :: l)), H.
  - intros [Ha H] [|b l] Hl; apply clean_cons; (split; [done|]).
    + split; constructor.
    + destruct Hl as [Hb Hl]. by apply H.
Qed.

(** What the search makes of the node [k] on top of its stack. *)
Definition visited_ok (bound : nat) (V : gset string) (k : string) (todo chain : list string) : Prop :=
  (clear V k ∧ ∃ n, n ≤ bound ∧
     iter (detect_step g) n (mkSearch (k :: todo) V chain) = inl (mkSearch todo V chain)) ∨
  (∃ p n, trail g k p ∧ ¬ clean V (k :: p) ∧ n ≤ bound ∧
     iter (detect_step g) n (mkSearch (k :: todo) V chain) = inr (circular (rev chain ++ k :: p))).

Lemma visit_children bound V chain todo l :
  (∀ k todo, k ∈ l → visited_ok bound V k todo chain) →
  ((∀ k, k ∈ l → clear V k) ∧ ∃ n, n ≤ length l * bound ∧
     iter (detect_step g) n (mkSearch (l ++ todo) V chain) = inl (mkSearch todo V chain)) ∨
  (∃ k p n, k ∈ l ∧ trail g k p ∧ ¬ clean V (k :: p) ∧ n ≤ length l * bound ∧
     iter (detect_step g) n (mkSearch (l ++ todo) V chain) = inr (circular (rev chain ++ k :: p))).
Proof.
  induction l as [|k l IH]; intros H.
  - left. split; [by intros ? ?%not_elem_of_nil|]. exists 0. split; [simpl; lia|done].
  - destruct (H k (l ++ todo) ltac:(left)) as [[Hk (n&Hn&Hi)]|(p&n&Hp&Hc&Hn&Hi)].
    + destruct IH as [[Hl (n'&Hn'&Hi')]|(k'&p&n'&Hk'&Hp&Hc&Hn'&Hi')].
      * intros k' t ?. apply H. by right.
      * left. split; [by intros k' [->|?]%elem_of_cons; auto|].
        exists (n + n'). split; [simpl; lia|]. simpl app. by rewrite iter_add, Hi.
      * right. exists k', p, (n + n'). repeat split; [by right|done|done|simpl; lia|].
        simpl app. by rewrite iter_add, Hi.
    + right. exists k, p, n. repeat split; [left|done|done|simpl; lia|done].
Qed.

Lemma push_all l todo : fold_left (λ todo n, Push n todo) l todo = rev l ++ todo.
Proof. revert todo. induction l as [|x l IH]; intros todo; simpl; [done|]. by rewrite IH, <-app_assoc. Qed.

(** By induction on the number of nodes not yet on the path. *)
Lemma visit m V k todo chain :
  is_Some (g !! k) → size (dom g ∖ V) ≤ m → visited_ok ((d + 2) ^ m) V k todo chain.
Proof.
  assert (∀ n, 1 ≤ (d + 2) ^ n) as Hpos by (intros n; pose proof (Nat.pow_nonzero (d + 2) n); lia).
  revert V k todo chain. induction m as [|m IH]; intros V k todo chain [node Hk] Hm.
  all: assert (k ≠ "_popvisit") as Hnp by (intros ->; congruence).
  all: destruct (decide (k ∈ V)) as [HV|HV].
  1, 3: right; exists [], 1; split_and!; [done|by rewrite clean_cons; tauto|apply Hpos|];
    simpl; unfold detect_step; simpl; rewrite decide_False, decide_True by done; done.
  - apply elem_of_dom_2 in Hk as Hd. assert (dom g ∖ V ≢ ∅) as Hne by set_solver.
    apply size_non_empty_iff in Hne. lia.
  - set (V' := {[k]} ∪ V).
    assert (size (dom g ∖ V') ≤ m) as Hm'.
    { apply elem_of_dom_2 in Hk as Hd.
      assert (dom g ∖ V ≡ {[k]} ∪ dom g ∖ V') as Heq.
      { unfold V'. intros x. destruct (decide (x = k)); set_solver. }
      apply leibniz_equiv in Heq. rewrite Heq, size_union, size_singleton in Hm by set_solver. lia. }
    assert (detect_step g (mkSearch (k :: todo) V chain) =
      inl (mkSearch (rev (next_nodes node) ++ "_popvisit" :: todo) V' (k :: chain))) as Hstep.
    { unfold detect_step. simpl. rewrite !decide_False, Hk by done. by rewrite push_all. }
    pose proof (Hdegree k node Hk) as Hdeg.
    destruct (visit_children ((d + 2) ^ m) V' (k :: chain) ("_popvisit" :: todo) (rev (next_nodes node)))
      as [[Hl (n&Hn&Hi)]|(b&p&n&Hb&Hp&Hc&Hn&Hi)].
    { intros b t Hb. apply IH; [|done]. apply (Hclosed k). exists node. split; [done|].
      by apply elem_of_rev. }
    + left. split.
      { apply clear_step. split; [done|]. intros b (n'&Hn'&Hb). simplify_eq. by apply Hl, elem_of_rev. }
      exists (S (n + 1)). split.
      { rewrite length_rev in Hn. simpl. pose proof (Nat.pow_nonzero (d + 2) m). nia. }
      change (S (n + 1)) with (1 + (n + 1)).
      rewrite iter_add. simpl. rewrite Hstep, iter_add, Hi. simpl. unfold detect_step. simpl.
      do 3 f_equal. unfold V'. apply leibniz_equiv. set_solver.
    + right. exists (b :: p), (S n). repeat split.
      * exists node. split; [done|]. by apply elem_of_rev.
      * done.
      * rewrite clean_cons. tauto.
      * rewrite length_rev in Hn. simpl. pose proof (Nat.pow_nonzero (d + 2) m). nia.
      * simpl. rewrite Hstep, Hi. simpl. by rewrite <-app_assoc.
Qed.
End detect.

Lemma max_degree_spec g a n : g !! a = Some n → length (next_nodes n) ≤ max_degree g.
Proof.
  intros Hn. assert (max_degree g ≤ max_degree g) as H by done. unfold max_degree in H at 1.
  rewrite list_max_le, list.Forall_forall in H. apply H, list_elem_of_fmap. exists (a, n).
  split; [done|]. by apply elem_of_map_to_list.
Qed.
Lemma search_steps g : S ((max_degree g + 2) ^ size g) ≤ 2 ^ search_fuel g.
Proof.
  unfold search_fuel. set (d := max_degree g). set (n := size g).
  assert ((d + 2) ^ n ≤ 2 ^ ((d + 2) * n)) as H.
  { rewrite Nat.pow_mul_r. apply Nat.pow_le_mono_l, pow2_ge. }
  assert (2 ^ S ((d + 2) * n) ≤ 2 ^ ((n + 2) * (d + 3))) by (apply Nat.pow_le_mono_r; nia).
  simpl in *. pose proof (Nat.pow_nonzero 2 ((d + 2) * n)). lia.
Qed.

(** The search ends, and returns an error exactly when a path from the start
    comes back to one of its nodes; the error names such a path. *)
Theorem detectCircularReferences_spec g start :
  closed g → keyed g → is_Some (g !! start) →
  (detectCircularReferences g start = Ok tt ∧ acyclic_from g start) ∨
  (∃ p, trail g start p ∧ ¬ NoDup (start :: p) ∧ detectCircularReferences g start = circular (start :: p)).
Proof.
  intros Hc Hk Hs. unfold detectCircularReferences, Push. rewrite drive_iter.
  pose proof (search_steps g) as Hfuel.
  destruct (visit g Hc (keyed_popvisit g Hk) (max_degree g) (max_degree_spec g) (size g) ∅ start [] [] Hs)
    as [[Hclear (n&Hn&Hi)]|(p&n&Hp&Hclean&Hn&Hi)].
  { rewrite difference_empty_L. by rewrite size_dom. }
  - left. split; [|intros l Hl; by apply Hclear].
    rewrite (iter_done _ (n + 1) _ _ (Ok tt)); [done| |lia].
    by rewrite iter_add, Hi.
  - right. exists p. split; [done|]. split.
    { intros Hd. apply Hclean. split; [done|]. apply list.Forall_true. set_solver. }
    rewrite (iter_done _ n _ _ (circular (start :: p))); [done|done|lia].
Qed.
