(* ===== verification/DiscoveryLoops.v ===== *)
(** * The loops after the assembly of a discovery chain

    [flattenAdjacentSplitterNodes] ends on a graph without cycles, whatever
    order the runtime ranges in, and leaves no splitter in front of a splitter;
    [removeUnusedNodes] ends and keeps exactly the nodes that can be
    reached. *)

From S2P Require Import Prelude Memdb ProxyConfig ConfigEntries DiscoveryChain DiscoveryGraph.

(** The fields that these loops leave alone. *)
Definition framed (c c' : compiler) : Prop :=
  c_startNode c' = c_startNode c ∧ c_loadedTargets c' = c_loadedTargets c ∧
  c_retainedTargets c' = c_retainedTargets c ∧
  c_usesAdvancedRoutingFeatures c' = c_usesAdvancedRoutingFeatures c ∧
  c_protocol c' = c_protocol c ∧ c_customizedBy c' = c_customizedBy c.
#[export] Instance framed_preorder : PreOrder framed.
Proof. split; [by repeat split|]. unfold framed. intros ???; naive_solver congruence. Qed.

Definition at_type (g : graph) (k : string) (t : NodeType) : Prop := ∃ n, g !! k = Some n ∧ gn_Type n = t.

(** Adding a node. *)
Lemma at_type_insert (g : graph) k n a t :
  g !! k = None → at_type (<[k := n]> g) a t ↔ (a = k ∧ gn_Type n = t) ∨ at_type g a t.
Proof.
  intros Hk. unfold at_type. destruct (decide (a = k)) as [->|].
  - rewrite lookup_insert_eq, Hk. naive_solver.
  - rewrite lookup_insert_ne by done. naive_solver.
Qed.
Lemma edge_insert (g : graph) k n a b :
  g !! k = None → edge (<[k := n]> g) a b ↔ (a = k ∧ b ∈ next_nodes n) ∨ edge g a b.
Proof.
  intros Hk. unfold edge. destruct (decide (a = k)) as [->|].
  - rewrite lookup_insert_eq, Hk. naive_solver.
  - rewrite lookup_insert_ne by done. naive_solver.
Qed.

Lemma size_union_le (X Y : gset string) : size (X ∪ Y) ≤ size X + size Y.
Proof. rewrite size_union_alt. assert (size (Y ∖ X) ≤ size Y) by (apply subseteq_size; set_solver). lia. Qed.
Lemma size_list_to_set_le (l : list string) : size (list_to_set l : gset string) ≤ length l.
Proof.
  induction l as [|x l IH]; simpl list_to_set; [by rewrite (size_empty (C := gset string))|].
  pose proof (size_union_le {[x]} (list_to_set l)) as Hu. rewrite size_singleton in Hu. simpl. lia.
Qed.

Section loops.
Context `{CompilerEnvLaws}.
Context (B : string → Prop).

Lemma range_keys_wp l (Q : list string → compiler → Prop) c :
  (∀ l', l' ≡ₚ l → Q l' (c_tick c)) → wp B (range_keys l) Q c.
Proof. intros HQ. apply HQ, range_order_perm. Qed.

(** ** Unused nodes *)

Section reach.
Context (g : graph) (start : string) (Hclosed : closed g) (Hkeyed : keyed g).
Context (c0 : compiler) (Hg : c_nodes c0 = g).

Record reached (visited todo : gset string) (c : compiler) : Prop := {
  reached_frame : framed c0 c;
  reached_nodes : c_nodes c = g;
  reached_dom : visited ∪ todo ⊆ dom g;
  reached_start : start ∈ visited ∪ todo;
  reached_next : ∀ a b, a ∈ visited → edge g a b → b ∈ visited ∪ todo;
  reached_rtc : ∀ a, a ∈ visited ∪ todo → rtc (edge g) start a
}.

Lemma reach_loop_wp fuel visited todo c :
  reached visited todo c →
  (size g - size visited) * (max_degree g + 1) + size todo < fuel →
  wp B (reach_loop fuel visited todo) (λ v c', reached v ∅ c') c.
Proof.
  revert visited todo c. induction fuel as [|fuel IH]; intros visited todo c HI Hfuel; [by apply Nat.nlt_0_r in Hfuel|]. simpl.
  wp_step. apply range_keys_wp. intros keys Hkeys.
  assert (reached visited todo (c_tick c)) as HI' by by destruct HI.
  destruct keys as [|next keys].
  { apply Permutation_nil in Hkeys. apply elements_empty_inv, leibniz_equiv in Hkeys as ->. by apply wpc_ret. }
  assert (next ∈ todo) as Hnext by (rewrite <-elem_of_elements, <-Hkeys; left).
  destruct HI' as [Hf Hn Hd Hs Hx Hr].
  assert (is_Some (g !! next)) as [node Hnode] by (apply elem_of_dom; set_solver).
  rewrite decide_False by (intros ->; by rewrite keyed_unnamed in Hnode).
  assert (todo = {[next]} ∪ todo ∖ {[next]}) as Htodo.
  { apply leibniz_equiv. intros x. destruct (decide (x = next)); set_solver. }
  assert (size todo = S (size (todo ∖ {[next]}))) as Hsize.
  { rewrite Htodo at 1. rewrite size_union, size_singleton by set_solver. done. }
  clear Htodo. assert (∀ a, a ∈ visited ∪ todo → a = next ∨ a ∈ visited ∪ todo ∖ {[next]}) as Hsplit.
  { intros a. destruct (decide (a = next)); [by left|]. clear Hx Hr IH. set_solver. }
  destruct (decide (next ∈ visited)) as [Hv|Hv].
  - assert (visited ∪ todo ∖ {[next]} = visited ∪ todo) as Heq.
    { apply leibniz_equiv. intros a. split; [clear Hx Hr IH Hsplit; set_solver|].
      intros [->|?]%Hsplit; [clear Hx Hr IH; set_solver|done]. }
    apply IH; [by constructor; rewrite ?Heq|]. lia.
  - wp_step. wp_step. rewrite Hn, Hnode. clear keys Hkeys. apply IH.
    + assert (∀ a, a ∈ {[next]} ∪ visited ∪ (list_to_set (next_nodes node) ∪ todo ∖ {[next]}) ↔
        a ∈ visited ∪ todo ∨ edge g next a) as Hin.
      { intros a. assert (edge g next a ↔ a ∈ next_nodes node) as ->.
        { split; [intros (?&?&?); by simplify_eq|by exists node]. }
        rewrite <-(elem_of_list_to_set (C := gset string)).
        destruct (decide (a = next)) as [->|]; clear Hx Hr IH Hsplit Hd Hs; set_solver. }
      constructor; [done|done| | | |].
      * intros a [Ha|Ha]%Hin; [by apply Hd|]. by eapply elem_of_dom, Hclosed.
      * apply Hin. by left.
      * intros a b [->%elem_of_singleton|Ha]%elem_of_union Hb; apply Hin; [by right|left; by eapply Hx].
      * intros a [Ha|Ha]%Hin; [by apply Hr|]. apply rtc_r with next; [|done]. apply Hr.
        by apply elem_of_union_r.
    + assert (size visited < size g).
      { rewrite <-(size_dom (D := gset string) g). apply subset_size.
        split; [by intros a Ha; apply Hd, elem_of_union_l|]. intros Hsub. apply Hv, Hsub, elem_of_dom. by rewrite Hnode. }
      rewrite size_union, size_singleton by (clear -Hv; set_solver).
      assert (size (list_to_set (next_nodes node) ∪ todo ∖ {[next]} : gset string) ≤
              max_degree g + size (todo ∖ {[next]})).
      { pose proof (max_degree_spec g next node Hnode).
        pose proof (size_list_to_set_le (next_nodes node)).
        pose proof (size_union_le (list_to_set (next_nodes node)) (todo ∖ {[next]})). lia. }
      nia.
Qed.
End reach.

(** ** Flattening *)

(** A node of [g] may get other splits; the rest of it stays. *)
Definition reshaped (g g' : graph) : Prop :=
  ∀ k, match g !! k, g' !! k with
       | Some n, Some n' => n' = set_splits (gn_Splits n') n
       | None, None => True
       | _, _ => False
       end.
#[export] Instance reshaped_preorder : PreOrder reshaped.
Proof.
  split.
  - intros g k. by destruct (g !! k) as [[]|].
  - intros g1 g2 g3 H12 H23 k. specialize (H12 k). specialize (H23 k).
    destruct (g1 !! k), (g2 !! k), (g3 !! k); try done. rewrite H12 in H23. by rewrite H23.
Qed.
Lemma reshaped_type g g' k t : reshaped g g' → at_type g' k t ↔ at_type g k t.
Proof.
  intros Hr. specialize (Hr k). unfold at_type.
  split; intros (n&Hn&Ht); rewrite Hn in Hr; case_match; try done; eexists; (split; [done|]).
  - by rewrite Hr in Ht.
  - by rewrite Hr.
Qed.
Lemma reshaped_alter g k l : reshaped g (alter (set_splits l) k g).
Proof.
  intros k'. destruct (decide (k = k')) as [->|].
  - rewrite lookup_alter_eq. by destruct (g !! k') as [[]|].
  - rewrite lookup_alter_ne by done. by destruct (g !! k') as [[]|].
Qed.

Lemma reshaped_keyed g g' : reshaped g g' → keyed g → keyed g'.
Proof.
  intros Hr Hk k n Hn. specialize (Hr k). rewrite Hn in Hr. destruct (g !! k) as [n0|] eqn:Hg; [|done].
  rewrite Hr. by pose proof (Hk k n0 Hg).
Qed.
Lemma reshaped_size g g' : reshaped g g' → size g' = size g.
Proof.
  intros Hr. rewrite <-!(size_dom (D := gset string)). f_equal. apply leibniz_equiv. intros k.
  rewrite !elem_of_dom. specialize (Hr k). destruct (g !! k), (g' !! k); naive_solver.
Qed.

(** No edge leads to a router. *)
Definition forward (g : graph) : Prop := ∀ a b, edge g a b → ¬ at_type g b NodeRouter.
(** Edges between splitters. *)
Definition sedge (g : graph) (a b : string) : Prop :=
  at_type g a NodeSplitter ∧ edge g a b ∧ at_type g b NodeSplitter.

Lemma at_type_splitter g k n : g !! k = Some n → at_type g k NodeSplitter ↔ IsSplitter n = true.
Proof.
  intros Hn. unfold IsSplitter. rewrite bool_decide_eq_true.
  split; [intros (?&?&?); by simplify_eq|by exists n].
Qed.
Lemma splitter_next n : IsSplitter n = true → next_nodes n = ds_NextNode <$> gn_Splits n.
Proof. unfold IsSplitter, next_nodes. rewrite bool_decide_eq_true. by intros ->. Qed.

(** What replaces the splits of a splitter. *)
Lemma flatten_splits_spec g splits :
  (∀ b, b ∈ ds_NextNode <$> splits → is_Some (g !! b)) →
  ∃ changed fixed, flatten_splits g splits = Ok (changed, fixed) ∧
    (changed = false → fixed = splits ∧ ∀ b, b ∈ ds_NextNode <$> splits → ¬ at_type g b NodeSplitter) ∧
    (changed = true → ∃ b, b ∈ ds_NextNode <$> splits ∧ at_type g b NodeSplitter) ∧
    (∀ b, b ∈ ds_NextNode <$> fixed →
       (b ∈ ds_NextNode <$> splits ∧ ¬ at_type g b NodeSplitter) ∨
       ∃ c, c ∈ ds_NextNode <$> splits ∧ at_type g c NodeSplitter ∧ edge g c b).
Proof.
  induction splits as [|s splits IH]; intros Hc.
  { exists false, []. split_and!; [done|split; [done|by intros ? ?%not_elem_of_nil]|done|by intros ? ?%not_elem_of_nil]. }
  destruct (Hc (ds_NextNode s)) as [n Hn]; [left|].
  destruct IH as (changed&fixed&Hf&Hfalse&Htrue&Hnext); [intros b Hb; apply Hc; by right|].
  simpl. unfold flatten_split. rewrite Hn. pose proof (at_type_splitter g _ n Hn) as Hty.
  destruct (IsSplitter n) eqn:Hs; simpl; rewrite Hf; simpl; eexists _, _; (split; [done|]).
  - split_and!; [done|intros _; exists (ds_NextNode s); split; [left|by apply Hty]|].
    intros b. rewrite fmap_app, elem_of_app. intros [Hb|Hb].
    + right. exists (ds_NextNode s). split_and!; [left|by apply Hty|]. exists n. split; [done|].
      rewrite splitter_next by done. by rewrite <-list_fmap_compose in Hb.
    + destruct (Hnext b Hb) as [[??]|(c&?&?)]; [left; split; [by right|done]|right; exists c; split; [by right|done]].
  - split_and!.
    + intros ->. destruct Hfalse as [-> Hno]; [done|]. split; [done|].
      intros b [->|Hb]%elem_of_cons; [by rewrite Hty|by apply Hno].
    + intros ->. destruct Htrue as (b&?&?); [done|]. exists b. split; [by right|done].
    + intros b [->|Hb]%elem_of_cons; [left; split; [left|by rewrite Hty]|].
      destruct (Hnext b Hb) as [[??]|(c&?&?)]; [left; split; [by right|done]|right; exists c; split; [by right|done]].
Qed.

(** Edges after the splits of one splitter were replaced. *)
Lemma edge_alter g k n l a b :
  g !! k = Some n → IsSplitter n = true →
  edge (alter (set_splits l) k g) a b ↔ (a = k ∧ b ∈ ds_NextNode <$> l) ∨ (a ≠ k ∧ edge g a b).
Proof.
  intros Hn Hs. unfold edge. destruct (decide (a = k)) as [->|Hne].
  - rewrite lookup_alter_eq, Hn. simpl. split.
    + intros (?&[=<-]&Hb). left. split; [done|]. by rewrite splitter_next in Hb.
    + intros [[_ Hb]|[??]]; [|done]. eexists. split; [done|]. by rewrite splitter_next.
  - rewrite lookup_alter_ne by done. naive_solver.
Qed.

Section pass.
Context (c0 : compiler) (r : string → nat) (h : nat).

(** The invariant of the loop over the nodes: [r] decreases along the edges
    between splitters, by two once the first of them is flat. *)
Record flattening (pre : list string) (changed : bool) (c : compiler) : Prop := {
  fl_frame : framed c0 c;
  fl_shape : reshaped (c_nodes c0) (c_nodes c);
  fl_closed : closed (c_nodes c);
  fl_forward : forward (c_nodes c);
  fl_rank : ∀ a b, sedge (c_nodes c) a b → r a ≤ h ∧ r b < r a ∧ (a ∈ pre → r b + 2 ≤ r a);
  fl_same : changed = false → c_nodes c = c_nodes c0 ∧ ∀ a b, a ∈ pre → ¬ sedge (c_nodes c0) a b;
  fl_some : changed = true → 1 ≤ h
}.

Lemma flattening_skip pre x changed c :
  flattening pre changed c → (∀ b, ¬ sedge (c_nodes c) x b) → flattening (pre ++ [x]) changed c.
Proof.
  intros [] Hx. constructor; [done..| | |done].
  - intros a b Hab. destruct (fl_rank0 a b Hab) as (?&?&Hp). split_and!; [done..|].
    intros [Ha|Ha%list_elem_of_singleton]%elem_of_app; [auto|]. subst. by apply Hx in Hab.
  - intros Hf. destruct (fl_same0 Hf) as [He Hs]. split; [done|].
    intros a b [Ha|Ha%list_elem_of_singleton]%elem_of_app; [auto|]. subst. rewrite <-He. apply Hx.
Qed.

Lemma flatten_node_wp pre x changed c :
  x ∉ pre → is_Some (c_nodes c !! x) → flattening pre changed c →
  wp B (flatten_node changed x) (λ b c', flattening (pre ++ [x]) b c') c.
Proof.
  intros Hx [n Hn] HI. unfold flatten_node. wp_step. unfold get_node. wp_step. wp_step. rewrite Hn. wp_step.
  pose proof (at_type_splitter _ x n Hn) as Hty.
  destruct (IsSplitter n) eqn:Hs; simpl; [|apply wpc_ret, flattening_skip; [done|intros b (Ha&_); by apply Hty in Ha]].
  wp_step. wp_step.
  destruct (flatten_splits_spec (c_nodes c) (gn_Splits n)) as (ch&fixed&->&Hfalse&Htrue&Hnext).
  { intros b Hb. apply (fl_closed _ _ _ HI x). exists n. split; [done|]. by rewrite splitter_next. }
  wp_step. wp_step. simpl. destruct ch.
  2: { destruct Hfalse as [_ Hno]; [done|]. apply wpc_ret, flattening_skip; [done|].
       intros b (_&(n'&?&Hb)&Ht). simplify_eq. rewrite splitter_next in Hb by done. by apply (Hno b). }
  destruct Htrue as (b0&Hb0&Ht0); [done|].
  assert (∀ b, b ∈ ds_NextNode <$> gn_Splits n → edge (c_nodes c) x b) as Hedge.
  { intros b Hb. exists n. split; [done|]. by rewrite splitter_next. }
  destruct HI as [Hframe Hshape Hcl Hfw Hrank Hsame Hsome].
  wp_step. unfold modify_node. wp_step. wp_step.
  set (g' := alter (set_splits fixed) x (c_nodes c)).
  assert (reshaped (c_nodes c) g') as Hre by apply reshaped_alter.
  assert (∀ b, b ∈ ds_NextNode <$> fixed → edge (c_nodes c) x b ∧ ¬ at_type (c_nodes c) b NodeSplitter ∨
            ∃ d, sedge (c_nodes c) x d ∧ edge (c_nodes c) d b) as Hfixed.
  { intros b Hb. destruct (Hnext b Hb) as [[? ?]|(d&?&?&?)]; [left; auto|]. right. exists d.
    split; [|done]. repeat split; [by apply Hty|auto|done]. }
  constructor; simpl; fold g'.
  - done.
  - by etrans.
  - intros a b [[-> Hb]|[_ Hb]]%(edge_alter _ x n); [| |done..].
    all: assert (is_Some (c_nodes c !! b)) as Hin
      by (first [by apply (Hcl a)|destruct (Hfixed b Hb) as [[??]|(d&?&?)]; [by apply (Hcl x)|by apply (Hcl d)]]).
    all: unfold g'; by apply lookup_alter_is_Some.
  - intros a b [[-> Hb]|[_ Hb]]%(edge_alter _ x n); [| |done..]; rewrite (reshaped_type _ _ _ _ Hre).
    + destruct (Hfixed b Hb) as [[??]|(d&?&?)]; [by apply (Hfw x)|by apply (Hfw d)].
    + by apply (Hfw a).
  - intros a b (Ha&Hab&Hb). apply (reshaped_type _ _ _ _ Hre) in Ha, Hb.
    apply (edge_alter _ x n) in Hab; [|done..]. destruct Hab as [[-> Hab]|[Hne Hab]].
    + destruct (Hfixed b Hab) as [[??]|(d&Hxd&Hdb)]; [done|].
      destruct (Hrank x d Hxd) as (?&?&_). destruct (Hrank d b) as (_&?&_); [by destruct Hxd as (_&_&?)|].
      split_and!; [done|lia|lia].
    + destruct (Hrank a b) as (?&?&Hp); [done|]. split_and!; [done..|].
      intros [?|?%list_elem_of_singleton]%elem_of_app; [auto|done].
  - done.
  - intros _. destruct (Hrank x b0) as (?&?&_); [repeat split; [by apply Hty|auto|done]|lia].
Qed.
End pass.

Lemma keys_elem (g : graph) a : a ∈ (map_to_list g).*1 ↔ is_Some (g !! a).
Proof.
  rewrite list_elem_of_fmap. split.
  - intros ([k n]&->&Hk%elem_of_map_to_list). by exists n.
  - intros [n Hn]. exists (a, n). split; [done|]. by apply elem_of_map_to_list.
Qed.

Lemma flatten_rounds_wp fuel h r c :
  closed (c_nodes c) → forward (c_nodes c) →
  (∀ a b, sedge (c_nodes c) a b → r a ≤ h ∧ r b < r a) → h < fuel →
  wp B (flatten_rounds fuel) (λ _ c', framed c c' ∧ reshaped (c_nodes c) (c_nodes c') ∧
    closed (c_nodes c') ∧ forward (c_nodes c') ∧ ∀ a b, ¬ sedge (c_nodes c') a b) c.
Proof.
  revert h r c. induction fuel as [|fuel IH]; intros h r c Hcl Hfw Hrank Hfuel; [lia|]. simpl.
  do 3 wp_step. apply range_keys_wp. intros keys Hkeys. wp_step.
  assert (∀ a, is_Some (c_nodes c !! a) → a ∈ keys) as Hin by (intros a; by rewrite Hkeys, keys_elem).
  assert (NoDup keys) as Hnd by (rewrite Hkeys; apply NoDup_fst_map_to_list).
  assert (∀ a, a ∈ keys → is_Some (c_nodes c !! a)) as Hout by (intros a; by rewrite Hkeys, keys_elem).
  eapply wpc_mono; [apply (wp_fold B (flattening (c_tick c) r h))|].
  - intros pre b x suf c' -> HI. apply flatten_node_wp; [| |done].
    + apply list.NoDup_app in Hnd as (_&Hnd&_). intros Hx. by apply (Hnd x Hx); left.
    + assert (is_Some (c_nodes c !! x)) as Hx by (apply Hout; set_solver).
      pose proof (fl_shape _ _ _ _ _ _ HI x) as Hs. simpl in Hs. destruct Hx as [n Hn].
      rewrite Hn in Hs. by destruct (c_nodes c' !! x).
  - constructor; [done|done|done|done|by intros a b Hab; destruct (Hrank a b Hab); split_and!; [..|by intros ?%not_elem_of_nil]
      |by split; [|intros ?? ?%not_elem_of_nil]|done].
  - intros changed c' [Hframe Hshape Hcl' Hfw' Hrank' Hsame Hsome]. simpl in *.
    assert (framed c c') as Hcc by by etrans. destruct changed.
    + eapply wpc_mono; [apply (IH (h - 1) (λ a, r a - 1)); [done|done| |specialize (Hsome eq_refl); lia]|].
      * intros a b Hab. destruct (Hrank' a b Hab) as (?&?&Hp). destruct Hp; [|lia|lia].
        apply Hin. destruct Hab as ((n&Hn&_)&_). pose proof (Hshape a) as Hs. rewrite Hn in Hs.
        by destruct (c_nodes c !! a).
      * intros [] c'' (?&?&?&?&?). split_and!; [by etrans|by etrans|done..].
    + apply wpc_ret. destruct Hsame as [-> Hs]; [done|]. split_and!; [done|done|done|done|].
      intros a b Hab. apply (Hs a b); [|done]. apply Hin. destruct Hab as ((n&?&_)&_). by exists n.
Qed.
End loops.

(** ** Ranks of a graph without cycles *)

Section rank.
Context (g : graph).

(** The length of a longest path, up to [m]. *)
Fixpoint height (m : nat) (a : string) : nat :=
  match m with
  | O => O
  | S m => list_max ((λ b, S (height m b)) <$> default [] (next_nodes <$> g !! a))
  end.

Lemma height_le m a : height m a ≤ m.
Proof.
  revert a. induction m as [|m IH]; intros a; simpl; [done|]. apply list_max_le, list.Forall_fmap, list.Forall_true.
  intros b. simpl. specialize (IH b). lia.
Qed.
Lemma edge_elem a b : b ∈ default [] (next_nodes <$> g !! a) ↔ edge g a b.
Proof.
  unfold edge. destruct (g !! a) as [n|]; simpl; [naive_solver|]. split; [by intros ?%not_elem_of_nil|naive_solver].
Qed.
Lemma height_edge m a b : edge g a b → height m b < height (S m) a.
Proof.
  intros Hab%edge_elem. simpl.
  assert (list_max ((λ b, S (height m b)) <$> default [] (next_nodes <$> g !! a)) ≤ height (S m) a) as H by done.
  rewrite list_max_le, list.Forall_forall in H. apply H. apply list_elem_of_fmap. by exists b.
Qed.
(** A height that the paths stay below does not change. *)
Lemma height_stable m m' a : (∀ l, trail g a l → length l ≤ m) → m ≤ m' → height m' a = height m a.
Proof.
  revert m' a. induction m as [|m IH]; intros m' a Hl Hm.
  - assert (∀ b, ¬ edge g a b) as Hno by (intros b Hb; specialize (Hl [b]); simpl in Hl; naive_solver lia).
    destruct m'; [done|]. simpl. assert (default [] (next_nodes <$> g !! a) = []) as ->; [|done].
    destruct (default [] _) as [|b l] eqn:He; [done|]. exfalso. apply (Hno b), edge_elem. rewrite He. left.
  - destruct m' as [|m']; [lia|]. simpl. f_equal. apply list_fmap_ext. intros i b Hi. f_equal.
    apply IH; [|lia]. intros l Ht. apply list_elem_of_lookup_2, edge_elem in Hi.
    specialize (Hl (b :: l) ltac:(done)). simpl in Hl. lia.
Qed.

Lemma acyclic_rtc a b : rtc (edge g) a b → acyclic_from g a → acyclic_from g b.
Proof.
  induction 1 as [|a b c Hab _ IH]; [done|]. intros Ha. apply IH. intros l Hl.
  by apply (list.NoDup_cons_1_2 a), (Ha (b :: l)).
Qed.
Lemma acyclic_length a l :
  closed g → is_Some (g !! a) → acyclic_from g a → trail g a l → length l < size g.
Proof.
  intros Hc Ha Hac Hl. pose proof (Hac l Hl) as Hnd.
  rewrite <-(size_dom (D := gset string) g).
  assert (size (list_to_set (a :: l) : gset string) = length (a :: l)) as Hs by by apply size_list_to_set.
  simpl length in Hs. enough (size (list_to_set (a :: l) : gset string) ≤ size (dom g)) by lia.
  apply subseteq_size. intros b Hb%elem_of_list_to_set. apply elem_of_dom.
  apply elem_of_cons in Hb as [->|Hb]; [done|].
  pose proof (trail_dom g a l Hc Hl) as Hd. rewrite list.Forall_forall in Hd. auto.
Qed.

(** The rank of a node decreases along every edge. *)
Lemma acyclic_rank start :
  closed g → acyclic_from g start → (∀ a, is_Some (g !! a) → rtc (edge g) start a) →
  ∃ r, ∀ a b, edge g a b → r a ≤ size g ∧ r b < r a.
Proof.
  intros Hc Hac Hreach. exists (height (size g)). intros a b Hab. split; [apply height_le|].
  assert (is_Some (g !! a)) as Ha by (destruct Hab as (n&?&_); by exists n).
  pose proof (acyclic_rtc _ _ (Hreach a Ha) Hac) as Haa.
  destruct (size g) as [|m] eqn:Hm.
  { pose proof (acyclic_length a [] Hc Ha Haa I) as Hl. simpl in Hl. lia. }
  rewrite <-(height_stable (S m) (S (S m)) a) by (try lia; intros l Hl; pose proof (acyclic_length a l Hc Ha Haa Hl); lia).
  by apply height_edge.
Qed.
End rank.
