(* ===== verification/DiscoveryNodes.v ===== *)
(** * Targets, resolvers and nodes of a discovery chain

    The invariant of the compiler while it assembles a chain, and the
    operations that leave the graph alone: loading targets, following
    redirects and default subsets (which ends, because the targets are
    combinations of finitely many names), and filling in a resolver node; then
    the operations that record nodes. *)

From S2P Require Import Prelude Memdb ProxyConfig ConfigEntries DiscoveryChain DiscoveryGraph DiscoveryLoops.

Lemma MapKey_inj n n' : MapKey n = MapKey n' → gn_Type n = gn_Type n' ∧ gn_Name n = gn_Name n'.
Proof. unfold MapKey. destruct (gn_Type n), (gn_Type n'); simpl; intros [=]; done. Qed.

Definition coords (t : DiscoveryTarget) : string * string * string * string :=
  (tg_Service t, tg_ServiceSubset t, tg_Namespace t, tg_Datacenter t).

Section targets.
Context `{CompilerEnv} (req : CompileRequest) (entries : DiscoveryChainConfigEntries).
Context (B : string → Prop).

(** A name that was left empty, or one of a list. *)
Definition chosen (s : string) (l : list string) : Prop := s = "" ∨ s ∈ l.
Record target_ok (t : DiscoveryTarget) : Prop := {
  target_named : tg_Service t ≠ "";
  target_service : tg_Service t ∈ all_services req entries;
  target_subset : tg_ServiceSubset t ∈ all_subsets entries;
  target_namespace : tg_Namespace t ∈ all_namespaces req entries;
  target_datacenter : tg_Datacenter t ∈ all_datacenters req entries;
  target_id : tg_ID t = target_ID (tg_Service t) (tg_ServiceSubset t) (tg_Namespace t) (tg_Datacenter t)
}.
Definition resolver_ok (r : ServiceResolverConfigEntry) : Prop :=
  (∃ k, Resolvers entries !! k = Some r) ∨ (∃ s, r = newDefaultServiceResolver s).

(** A resolver node points at retained targets. *)
Definition node_resolved (retained : gset string) (n : DiscoveryGraphNode) : Prop :=
  gn_Type n = NodeResolver → ∃ r, gn_Resolver n = Some r ∧ gn_Name n = res_Target r ∧ res_Target r ∈ retained ∧
    ∀ ids, res_Failover r = Some ids → Forall (λ id, id ∈ retained) ids.

(** The invariant of the assembly: the caches and the graph agree. *)
Record assembling (c : compiler) : Prop := {
  as_resolvers : ∀ s r, c_resolvers c !! s = Some r → resolver_ok r;
  as_targets : ∀ id t, c_loadedTargets c !! id = Some t → tg_ID t = id ∧ target_ok t;
  as_retained : ∀ id, id ∈ c_retainedTargets c → is_Some (c_loadedTargets c !! id);
  as_splitters : ∀ name key, c_splitterNodes c !! name = Some key → at_type (c_nodes c) key NodeSplitter;
  as_resolves : ∀ id key, c_resolveNodes c !! id = Some key → at_type (c_nodes c) key NodeResolver;
  as_keyed : keyed (c_nodes c);
  as_closed : closed (c_nodes c);
  as_routers : ∀ k, ¬ at_type (c_nodes c) k NodeRouter;
  as_splitter_cached : ∀ k n, c_nodes c !! k = Some n → gn_Type n = NodeSplitter →
    is_Some (c_splitterNodes c !! gn_Name n);
  as_resolver_cached : ∀ k n, c_nodes c !! k = Some n → gn_Type n = NodeResolver →
    is_Some (c_resolveNodes c !! gn_Name n);
  as_resolved : ∀ k n, c_nodes c !! k = Some n → node_resolved (c_retainedTargets c) n
}.

(** What only grows. *)
Record extends (c c' : compiler) : Prop := {
  ex_targets : ∀ id t, c_loadedTargets c !! id = Some t →
    ∃ t', c_loadedTargets c' !! id = Some t' ∧ coords t' = coords t;
  ex_retained : c_retainedTargets c ⊆ c_retainedTargets c';
  ex_splitters : dom (c_splitterNodes c) ⊆ dom (c_splitterNodes c');
  ex_types : ∀ k t, at_type (c_nodes c) k t → at_type (c_nodes c') k t;
  ex_edges : ∀ a b, edge (c_nodes c) a b → edge (c_nodes c') a b;
  ex_uses : c_usesAdvancedRoutingFeatures c = true → c_usesAdvancedRoutingFeatures c' = true;
  ex_start : c_startNode c' = c_startNode c
}.
#[export] Instance extends_preorder : PreOrder extends.
Proof.
  split.
  - intros c. constructor; try done. intros id t Ht. by exists t.
  - intros c1 c2 c3 [] []. constructor; [|by etrans|by etrans|auto|auto|auto|congruence].
    intros id t Ht. destruct (ex_targets0 id t Ht) as (t'&Ht'&?). destruct (ex_targets1 id t' Ht') as (t''&?&?).
    exists t''. split; [done|congruence].
Qed.
Lemma extends_loaded c c' id : extends c c' → is_Some (c_loadedTargets c !! id) → is_Some (c_loadedTargets c' !! id).
Proof. intros [] [t Ht]. destruct (ex_targets0 id t Ht) as (t'&?&?). by exists t'. Qed.

(** The graph and the caches stay. *)
Record calm (c c' : compiler) : Prop := {
  calm_inv : assembling c';
  calm_ext : extends c c';
  calm_nodes : c_nodes c' = c_nodes c;
  calm_splitters : c_splitterNodes c' = c_splitterNodes c;
  calm_resolves : c_resolveNodes c' = c_resolveNodes c;
  calm_uses : c_usesAdvancedRoutingFeatures c' = c_usesAdvancedRoutingFeatures c
}.
Lemma calm_refl c : assembling c → calm c c.
Proof. by constructor. Qed.
Lemma calm_trans c1 c2 c3 : calm c1 c2 → calm c2 c3 → calm c1 c3.
Proof. intros [] []. constructor; [done|by etrans|congruence..]. Qed.

(** A change of the resolvers, the targets, the protocol or the markers. *)
Lemma calm_intro c c' :
  assembling c →
  c_nodes c' = c_nodes c → c_splitterNodes c' = c_splitterNodes c → c_resolveNodes c' = c_resolveNodes c →
  c_usesAdvancedRoutingFeatures c' = c_usesAdvancedRoutingFeatures c → c_startNode c' = c_startNode c →
  (∀ s r, c_resolvers c' !! s = Some r → resolver_ok r) →
  (∀ id t, c_loadedTargets c' !! id = Some t → tg_ID t = id ∧ target_ok t) →
  (∀ id t, c_loadedTargets c !! id = Some t → ∃ t', c_loadedTargets c' !! id = Some t' ∧ coords t' = coords t) →
  c_retainedTargets c ⊆ c_retainedTargets c' →
  (∀ id, id ∈ c_retainedTargets c' → is_Some (c_loadedTargets c' !! id)) →
  calm c c'.
Proof.
  intros [] Hn Hs Hr Hu Hst Hres Ht Ht' Hre Hre'. constructor; [|constructor|done..].
  - constructor; rewrite ?Hn, ?Hs, ?Hr; try done.
    intros k n Hk Hty. destruct (as_resolved0 k n Hk Hty) as (r&?&?&?&Hf). exists r.
    split_and!; [done|done|by apply Hre|]. intros ids Hids. eapply list.Forall_impl; [by apply Hf|]. auto.
  - done.
  - done.
  - by rewrite Hs.
  - by rewrite Hn.
  - by rewrite Hn.
  - by rewrite Hu.
  - done.
Qed.
(** A change of the other fields only. *)
Lemma calm_same c c' :
  assembling c →
  c_nodes c' = c_nodes c → c_splitterNodes c' = c_splitterNodes c → c_resolveNodes c' = c_resolveNodes c →
  c_usesAdvancedRoutingFeatures c' = c_usesAdvancedRoutingFeatures c → c_startNode c' = c_startNode c →
  c_resolvers c' = c_resolvers c → c_loadedTargets c' = c_loadedTargets c →
  c_retainedTargets c' = c_retainedTargets c → calm c c'.
Proof.
  intros Hc Hn Hs Hr Hu Hst Hres Ht Hre. apply calm_intro; rewrite ?Hres, ?Ht, ?Hre; try done; [apply Hc|apply Hc| |apply Hc].
  intros id t ?. by exists t.
Qed.

(** ** Targets *)

Lemma get_target_wp id (Q : DiscoveryTarget → compiler → Prop) c :
  is_Some (c_loadedTargets c !! id) → (∀ t, c_loadedTargets c !! id = Some t → Q t c) → wp B (get_target id) Q c.
Proof. intros [t Ht] HQ. unfold get_target. do 2 wp_step. rewrite Ht. wp_step. auto. Qed.
Lemma get_node_wp k (Q : DiscoveryGraphNode → compiler → Prop) c :
  is_Some (c_nodes c !! k) → (∀ n, c_nodes c !! k = Some n → Q n c) → wp B (get_node k) Q c.
Proof. intros [t Ht] HQ. unfold get_node. do 2 wp_step. rewrite Ht. wp_step. auto. Qed.

Lemma recordServiceProtocol_wp s c :
  assembling c → wp B (recordServiceProtocol req entries s) (λ _ c', calm c c') c.
Proof.
  intros Hc. assert (∀ p, wp B (recordProtocol req s p) (λ _ c', calm c c') c) as Hp.
  { intros p. unfold recordProtocol. do 2 wp_step. case_decide; [by apply wpc_modify, calm_same|].
    case_decide; [done|]. by apply calm_refl. }
  unfold recordServiceProtocol. repeat case_match; apply Hp.
Qed.
Lemma get_resolver_wp s c :
  assembling c → wp B (get_resolver s) (λ r c', calm c c' ∧ resolver_ok r) c.
Proof.
  intros Hc. unfold get_resolver. do 3 wp_step.
  - split; [by apply calm_refl|by eapply as_resolvers].
  - do 3 wp_step. assert (resolver_ok (newDefaultServiceResolver s)) by (right; by exists s). split; [|done].
    apply calm_intro; simpl; try done; [|apply Hc|intros id t ?; by exists t|apply Hc].
    intros s' r [[<- <-]|[_ ?]]%lookup_insert_Some; [done|by eapply as_resolvers].
Qed.

Lemma newTarget_wp service subset namespace datacenter c :
  assembling c → service ≠ "" → service ∈ all_services req entries → subset ∈ all_subsets entries →
  chosen namespace (all_namespaces req entries) → chosen datacenter (all_datacenters req entries) →
  wp B (newTarget req service subset namespace datacenter)
    (λ id c', calm c c' ∧ is_Some (c_loadedTargets c' !! id)) c.
Proof.
  intros Hc Hne Hs Hsub Hns Hdc. unfold newTarget. rewrite decide_False by done.
  set (t := set_sni _ _ _ _).
  assert (target_ok t) as Ht.
  { unfold t. constructor; simpl; try done.
    - unfold defaultIfEmpty. case_decide; [by destruct Hns|]. left.
    - unfold defaultIfEmpty. case_decide; [by destruct Hdc|]. left. }
  clearbody t. do 3 wp_step.
  - wp_step. split; [by apply calm_refl|]. destruct (as_targets _ Hc _ _ Heqo) as [-> _]. by rewrite Heqo.
  - do 3 wp_step. split; [|simpl; by rewrite lookup_insert_eq].
    apply calm_intro; simpl; try done; [apply Hc| | |].
    + intros id t' [[<- <-]|[_ ?]]%lookup_insert_Some; [done|by apply (as_targets _ Hc)].
    + intros id t' Hid. exists t'. split; [|done]. rewrite lookup_insert_ne; [done|]. intros Heq. rewrite Heq in *. congruence.
    + intros id Hid%(as_retained _ Hc). rewrite lookup_insert_is_Some'. auto.
Qed.

Lemma rewriteTarget_wp id service subset namespace datacenter c :
  assembling c → is_Some (c_loadedTargets c !! id) →
  chosen service (all_services req entries) → chosen subset (all_subsets entries) →
  chosen namespace (all_namespaces req entries) → chosen datacenter (all_datacenters req entries) →
  wp B (rewriteTarget req id service subset namespace datacenter)
    (λ id' c', calm c c' ∧ is_Some (c_loadedTargets c' !! id')) c.
Proof.
  intros Hc Hid Hs Hsub Hns Hdc. unfold rewriteTarget. wp_step. apply get_target_wp; [done|]. intros t Ht.
  destruct (as_targets _ Hc _ _ Ht) as [_ []].
  assert ("" ∈ all_subsets entries) as H0 by left.
  apply newTarget_wp; [done|..].
  - case_bool_decide; naive_solver.
  - case_bool_decide; [|done]. destruct Hs; naive_solver.
  - case_decide; [by destruct Hsub|]. by case_bool_decide.
  - right. case_decide; [by destruct Hns|done].
  - right. case_decide; [by destruct Hdc|done].
Qed.

(** A mutation of a target that keeps what it stands for. *)
Lemma modify_target_wp id f c :
  assembling c → (∀ t, coords (f t) = coords t ∧ tg_ID (f t) = tg_ID t) →
  wp B (modify_target id f) (λ _ c', calm c c') c.
Proof.
  intros Hc Hf. apply wpc_modify, calm_intro; simpl; try done; [apply Hc| | |].
  - intros id' t Hid. rewrite lookup_alter in Hid. case_decide; [subst id'|by apply Hc].
    apply fmap_Some in Hid as (t0&Ht0&->). destruct (Hf t0) as [Hco Hi].
    destruct (as_targets _ Hc _ _ Ht0) as [? []]. unfold coords in Hco.
    injection Hco as Hco1 Hco2 Hco3 Hco4. split; [congruence|].
    constructor; rewrite ?Hco1, ?Hco2, ?Hco3, ?Hco4, ?Hi; done.
  - intros id' t Ht. rewrite lookup_alter. case_decide; [subst|by exists t].
    rewrite Ht. simpl. eexists. split; [done|]. apply Hf.
  - intros id' Hid. by apply lookup_alter_is_Some, (as_retained _ Hc).
Qed.

(** ** The names of the config entries *)

Lemma redirect_names r rd :
  resolver_ok r → rsv_Redirect r = Some rd →
  rd_Service rd ∈ all_services req entries ∧ rd_ServiceSubset rd ∈ all_subsets entries ∧
  rd_Namespace rd ∈ all_namespaces req entries ∧ rd_Datacenter rd ∈ all_datacenters req entries.
Proof.
  intros [[k Hk]|[s ->]] Hrd; [|done].
  assert (rd ∈ all_redirects entries) as Hin.
  { apply list_elem_of_omap. exists r. split; [|done]. apply list_elem_of_fmap. exists (k, r).
    split; [done|]. by apply elem_of_map_to_list. }
  unfold all_services, all_subsets, all_namespaces, all_datacenters.
  split_and!; rewrite elem_of_cons, !elem_of_app; right.
  - right; right; left. apply list_elem_of_fmap. by exists rd.
  - right; right; left. apply list_elem_of_fmap. by exists rd.
  - right; right; left. apply list_elem_of_fmap. by exists rd.
  - left. apply list_elem_of_fmap. by exists rd.
Qed.
Lemma default_subset_name r : resolver_ok r → rsv_DefaultSubset r ∈ all_subsets entries.
Proof.
  intros [[k Hk]|[s ->]]; [|left]. unfold all_subsets. rewrite elem_of_cons, !elem_of_app.
  do 5 right. apply list_elem_of_fmap. exists r. split; [done|]. apply list_elem_of_fmap. exists (k, r).
  split; [done|]. by apply elem_of_map_to_list.
Qed.
Lemma failover_names r s f :
  resolver_ok r → failover_section r s = Some f →
  fo_Service f ∈ all_services req entries ∧ fo_ServiceSubset f ∈ all_subsets entries ∧
  fo_Namespace f ∈ all_namespaces req entries ∧
  Forall (λ d, d ∈ all_datacenters req entries) (fo_Datacenters f).
Proof.
  intros Hr Hf.
  assert (∃ k, rsv_Failover r !! k = Some f) as [k' Hk'].
  { unfold failover_section in Hf. destruct (rsv_Failover r !! s) eqn:?; simplify_eq; eauto. }
  destruct Hr as [[k Hk]|[? ->]]; [|simpl in Hk'; by rewrite lookup_empty in Hk'].
  assert (f ∈ all_failovers entries) as Hin.
  { apply list_elem_of_bind. exists r. split; apply list_elem_of_fmap.
    - exists (k', f). split; [done|]. by apply elem_of_map_to_list.
    - exists (k, r). split; [done|]. by apply elem_of_map_to_list. }
  unfold all_services, all_subsets, all_namespaces, all_datacenters.
  split_and!; [..|apply list.Forall_forall; intros d Hd]; rewrite elem_of_cons, !elem_of_app; right.
  - right; right; right. apply list_elem_of_fmap. by exists f.
  - right; right; right; left. apply list_elem_of_fmap. by exists f.
  - right; right; right. apply list_elem_of_fmap. by exists f.
  - right. apply list_elem_of_bind. by exists f.
Qed.

(** The identifiers that targets can have. *)
Definition all_ids : list string :=
  s ← all_services req entries; u ← all_subsets entries; n ← all_namespaces req entries;
  d ← all_datacenters req entries; [target_ID s u n d].
Lemma length_bind_const {A A'} (f : A → list A') l n : (∀ x, length (f x) = n) → length (l ≫= f) = length l * n.
Proof. intros Hf. induction l as [|x l IH]; csimpl; [done|]. by rewrite length_app, Hf, IH. Qed.
Lemma length_all_ids : S (length all_ids) = resolve_fuel req entries.
Proof.
  unfold all_ids, resolve_fuel. f_equal.
  rewrite <-!Nat.mul_assoc. repeat (apply length_bind_const; intros ?).
  rewrite <-(Nat.mul_1_r (length (all_datacenters _ _))). by apply length_bind_const.
Qed.
Lemma target_ok_id t : target_ok t → tg_ID t ∈ all_ids.
Proof.
  intros [_ Hs Hu Hn Hd ->]. unfold all_ids. apply list_elem_of_bind. exists (tg_Service t). split; [|done].
  apply list_elem_of_bind. exists (tg_ServiceSubset t). split; [|done].
  apply list_elem_of_bind. exists (tg_Namespace t). split; [|done].
  apply list_elem_of_bind. exists (tg_Datacenter t). split; [|done]. left.
Qed.

(** ** Following redirects and default subsets *)

(** What [resolve] returns. *)
Definition resolved (r : string + string * ServiceResolverConfigEntry) (c : compiler) : Prop :=
  match r with
  | inl key => at_type (c_nodes c) key NodeResolver
  | inr (target, resolver) =>
      is_Some (c_loadedTargets c !! target) ∧ resolver_ok resolver ∧ c_resolveNodes c !! target = None
  end.

(** Every turn but the last adds a new identifier to the history. *)
Lemma resolve_wp fuel order target c :
  assembling c → is_Some (c_loadedTargets c !! target) →
  NoDup order → order ⊆ all_ids → length all_ids < length order + fuel →
  wp B (resolve req entries fuel order target) (λ r c', calm c c' ∧ resolved r c') c.
Proof.
  revert order target c. induction fuel as [|fuel IH]; intros order target c Hc Ht Hnd Hsub Hfuel.
  { exfalso. pose proof (submseteq_length _ _ (list.NoDup_submseteq _ _ Hnd Hsub)). lia. }
  simpl. do 2 wp_step. destruct (c_resolveNodes c !! target) as [key|] eqn:Hcache.
  { apply wpc_ret. split; [by apply calm_refl|]. by apply (as_resolves _ Hc) in Hcache. }
  wp_step. apply get_target_wp; [done|]. intros t Htt.
  wp_step. eapply wpc_mono; [by apply recordServiceProtocol_wp|]. intros [] c1 Hc1.
  wp_step. eapply wpc_mono; [apply get_resolver_wp, Hc1|]. intros resolver c2 [Hc2 Hres].
  pose proof (calm_trans _ _ _ Hc1 Hc2) as Hc02. pose proof (calm_inv _ _ Hc02) as Hi2.
  case_decide as Hmem; [done|].
  assert (is_Some (c_loadedTargets c2 !! target)) as Ht2 by (eapply extends_loaded; [apply Hc02|done]).
  assert (NoDup (order ++ [target]) ∧ order ++ [target] ⊆ all_ids) as [Hnd' Hsub'].
  { split; [apply list.NoDup_app; split_and!; [done|by intros x ? ->%list_elem_of_singleton|apply NoDup_singleton]|].
    intros x [?| ->%list_elem_of_singleton]%elem_of_app; [by apply Hsub|].
    destruct (as_targets _ Hc _ _ Htt) as [<- ?]. by apply target_ok_id. }
  assert (∀ target' c3, calm c2 c3 → is_Some (c_loadedTargets c3 !! target') →
    wp B (resolve req entries fuel (order ++ [target]) target') (λ r c', calm c c' ∧ resolved r c') c3) as Hagain.
  { intros target' c3 Hc3 Ht3. eapply wpc_mono; [apply IH; [apply Hc3|done|done|done|]|].
    - rewrite length_app. change (length [target]) with 1. lia.
    - intros r c' [Hc' ?]. split; [|done]. by eapply calm_trans, calm_trans. }
  wp_step. eapply (wpc_mono _ _ (λ id c', calm c2 c' ∧ is_Some (c_loadedTargets c' !! id))).
  { destruct (rsv_Redirect resolver) as [rd|] eqn:Hrd; [|by apply wpc_ret; split; [apply calm_refl|]].
    destruct (redirect_names _ _ Hres Hrd) as (?&?&?&?).
    apply rewriteTarget_wp; [done|done|by right..]. }
  intros redirected c3 [Hc3 Ht3]. case_decide; [by apply Hagain|]. case_decide.
  - wp_step. eapply wpc_mono; [apply rewriteTarget_wp|].
    + apply Hc3.
    + eapply extends_loaded; [apply Hc3|done].
    + by left.
    + right. by apply default_subset_name.
    + by left.
    + by left.
    + intros target' c4 [Hc4 ?]. apply Hagain; [by eapply calm_trans|done].
  - apply wpc_ret. pose proof (calm_trans _ _ _ Hc02 Hc3) as Hc03. split; [done|].
    split_and!; [eapply extends_loaded; [apply Hc3|done]|done|]. by rewrite (calm_resolves _ _ Hc03).
Qed.

Lemma resolve_start_wp target c :
  assembling c → is_Some (c_loadedTargets c !! target) →
  wp B (resolve req entries (resolve_fuel req entries) [] target) (λ r c', calm c c' ∧ resolved r c') c.
Proof.
  intros Hc Ht. apply resolve_wp; [done|done|constructor|by intros ? ?%not_elem_of_nil|].
  rewrite <-length_all_ids. simpl. lia.
Qed.
End targets.

(** * Nodes of a discovery chain

    Resolver nodes with their failovers, and splitters with what is behind
    them: both keep the invariant of the assembly, and every node they add can
    be reached from the node they return. *)

Section nodes.
Context `{CompilerEnv} (req : CompileRequest) (entries : DiscoveryChainConfigEntries).
Context (B : string → Prop).
Abbreviation assembling := (assembling req entries).
Abbreviation calm := (calm req entries).

(** ** Resolver nodes *)

Lemma customized_wp f c : assembling c → wp B (customized f) (λ _ c', calm c c') c.
Proof. intros Hc. by apply wpc_modify, calm_same. Qed.
Lemma resolver_timeout_wp r c : assembling c → wp B (resolver_timeout req r) (λ _ c', calm c c') c.
Proof.
  intros Hc. unfold resolver_timeout. case_decide; [|by apply calm_refl]. wp_step.
  eapply wpc_mono; [by apply customized_wp|done].
Qed.
Lemma check_external_wp id r c :
  assembling c → is_Some (c_loadedTargets c !! id) → wp B (check_external id r) (λ _ c', calm c c') c.
Proof.
  intros Hc Hid. unfold check_external. wp_step. apply get_target_wp; [done|]. intros t _.
  repeat case_match; try done; by apply calm_refl.
Qed.
Lemma set_gateway_wp id m c : assembling c → wp B (modify_target id (set_gateway m)) (λ _ c', calm c c') c.
Proof. intros Hc. by apply modify_target_wp. Qed.

(** Continuing after an operation that leaves the graph alone. *)
Lemma calm_then {A A'} c0 c (m : CM A) (k : A → CM A') (Q : A' → compiler → Prop) :
  calm c0 c → wp B m (λ _ c', calm c c') c → (∀ a c', calm c0 c' → wp B (k a) Q c') →
  wp B (mbind' m k) Q c.
Proof.
  intros Hc0 Hm Hk. apply wpc_bind. eapply wpc_mono; [done|]. intros a c' Hc'. apply Hk. by eapply calm_trans.
Qed.
Lemma target_gateway_wp id c :
  assembling c → is_Some (c_loadedTargets c !! id) → wp B (target_gateway req entries id) (λ _ c', calm c c') c.
Proof.
  intros Hc Hid. assert (∀ c', calm c c' → is_Some (c_loadedTargets c' !! id)) as Hld.
  { intros c' Hc'. eapply extends_loaded; [apply Hc'|done]. }
  unfold target_gateway. wp_step. apply get_target_wp; [done|]. intros t _.
  case_decide; [by apply set_gateway_wp|]. destruct (tg_External t); [by apply set_gateway_wp|].
  eapply (calm_then c); [by apply calm_refl|case_match; [by apply set_gateway_wp|by apply calm_refl]|].
  intros [] c1 K1. wp_step. apply get_target_wp; [by apply Hld|]. intros t1 _.
  eapply (calm_then c); [done|repeat case_match; solve [apply set_gateway_wp, K1|apply calm_refl, K1]|].
  intros [] c2 K2. wp_step. apply get_target_wp; [by apply Hld|]. intros t2 _. case_decide; [|by apply wpc_ret].
  eapply (calm_then c); [done|apply set_gateway_wp, K2|]. intros [] c3 K3.
  eapply wpc_mono; [apply customized_wp, K3|]. intros [] c4. by apply calm_trans.
Qed.

(** A resolver node before its failover. *)
Definition plain_resolver (target : string) (n : DiscoveryGraphNode) : Prop :=
  gn_Type n = NodeResolver ∧ gn_Name n = target ∧
  ∃ r, gn_Resolver n = Some r ∧ res_Target r = target ∧ res_Failover r = None.

Lemma build_resolver_node_wp target resolver c :
  assembling c → is_Some (c_loadedTargets c !! target) →
  wp B (build_resolver_node req entries target resolver)
    (λ n c', calm c c' ∧ target ∈ c_retainedTargets c' ∧ plain_resolver target n) c.
Proof.
  intros Hc Hid. assert (∀ c', calm c c' → is_Some (c_loadedTargets c' !! target)) as Hld.
  { intros c' Hc'. eapply extends_loaded; [apply Hc'|done]. }
  unfold build_resolver_node. wp_step. apply get_target_wp; [done|]. intros t _.
  destruct (negb _); [done|].
  eapply (calm_then c); [by apply calm_refl|by apply resolver_timeout_wp|]. intros timeout c1 K1.
  eapply (calm_then c); [done|apply modify_target_wp; [apply K1|done]|]. intros [] c2 K2.
  eapply (calm_then c); [done|repeat case_match; solve [apply modify_target_wp; [apply K2|done]|apply calm_refl, K2]|].
  intros [] c3 K3.
  eapply (calm_then c); [done|apply check_external_wp; [apply K3|by apply Hld]|]. intros [] c4 K4.
  eapply (calm_then c); [done|apply target_gateway_wp; [apply K4|by apply Hld]|]. intros [] c5 K5.
  pose proof (calm_inv _ _ _ _ K5) as K5i.
  wp_step. apply wpc_modify. apply wpc_ret. split_and!.
  - apply (calm_trans _ _ _ c5); [done|]. apply calm_intro; simpl; try done; try apply K5i.
    + intros id t' ?. by exists t'.
    + apply union_subseteq_r.
    + intros id [->%elem_of_singleton|?]%elem_of_union; [by apply Hld|by apply (as_retained _ _ _ K5i)].
  - simpl. set_solver.
  - split_and!; [done|done|by eexists].
Qed.

(** ** Changing the graph *)

Lemma fresh_splitter c n :
  assembling c → gn_Type n = NodeSplitter → c_splitterNodes c !! gn_Name n = None → c_nodes c !! MapKey n = None.
Proof.
  intros Hc Ht Hn. apply eq_None_not_Some. intros [n' Hn'].
  destruct (MapKey_inj n n') as [Hty Hna]; [by apply (as_keyed _ _ _ Hc)|].
  destruct (as_splitter_cached _ _ _ Hc _ _ Hn') as [? Hx]; congruence.
Qed.
Lemma fresh_resolver c n :
  assembling c → gn_Type n = NodeResolver → c_resolveNodes c !! gn_Name n = None → c_nodes c !! MapKey n = None.
Proof.
  intros Hc Ht Hn. apply eq_None_not_Some. intros [n' Hn'].
  destruct (MapKey_inj n n') as [Hty Hna]; [by apply (as_keyed _ _ _ Hc)|].
  destruct (as_resolver_cached _ _ _ Hc _ _ Hn') as [? Hx]; congruence.
Qed.

(** Recording a node: what the new state is. *)
Definition recorded (n : DiscoveryGraphNode) (c c' : compiler) : Prop :=
  assembling c' ∧ extends c c' ∧ c_nodes c' = <[MapKey n := n]> (c_nodes c) ∧
  c_loadedTargets c' = c_loadedTargets c ∧ c_retainedTargets c' = c_retainedTargets c ∧
  c_usesAdvancedRoutingFeatures c' = c_usesAdvancedRoutingFeatures c ∧
  dom (c_splitterNodes c) ⊆ dom (c_splitterNodes c').

Lemma record_node c n sp rs :
  assembling c → c_nodes c !! MapKey n = None → next_nodes n = [] → gn_Type n ≠ NodeRouter →
  node_resolved (c_retainedTargets c) n →
  (∀ name key, sp !! name = Some key →
     c_splitterNodes c !! name = Some key ∨ key = MapKey n ∧ gn_Type n = NodeSplitter) →
  (∀ name key, rs !! name = Some key →
     c_resolveNodes c !! name = Some key ∨ key = MapKey n ∧ gn_Type n = NodeResolver) →
  c_splitterNodes c ⊆ sp → c_resolveNodes c ⊆ rs →
  (gn_Type n = NodeSplitter → is_Some (sp !! gn_Name n)) →
  (gn_Type n = NodeResolver → is_Some (rs !! gn_Name n)) →
  recorded n c (c_set_nodes (<[MapKey n := n]> (c_nodes c)) (c_set_caches sp rs c)).
Proof.
  intros Hc Hf Hnext Hnr Hres Hsp Hrs Hsps Hrss Hspn Hrsn.
  assert (∀ k t, at_type (c_nodes c) k t → at_type (<[MapKey n := n]> (c_nodes c)) k t) as Hty
    by (intros k t ?; apply at_type_insert; auto).
  unfold recorded. simpl. split_and!; try done; [| |by apply subseteq_dom].
  - constructor; simpl; try apply Hc.
    + intros name key [?|[-> ?]]%Hsp; [by eapply Hty, as_splitters|apply at_type_insert; auto].
    + intros name key [?|[-> ?]]%Hrs; [by eapply Hty, as_resolves|apply at_type_insert; auto].
    + apply map_Forall_insert_2; [done|apply Hc].
    + intros a b [[_ Hb]|Hab]%edge_insert; [by rewrite Hnext in Hb; apply not_elem_of_nil in Hb| |done].
      rewrite lookup_insert_is_Some'. right. by eapply (as_closed _ _ _ Hc).
    + intros k [[_ ?]|?]%at_type_insert; [done|by eapply (as_routers _ _ _ Hc)|done].
    + intros k n' [[<- <-]|[_ Hk]]%lookup_insert_Some Ht; [auto|].
      destruct (as_splitter_cached _ _ _ Hc k n' Hk Ht) as [x Hx]. exists x. by eapply lookup_weaken.
    + intros k n' [[<- <-]|[_ Hk]]%lookup_insert_Some Ht; [auto|].
      destruct (as_resolver_cached _ _ _ Hc k n' Hk Ht) as [x Hx]. exists x. by eapply lookup_weaken.
    + intros k n' [[<- <-]|[_ Hk]]%lookup_insert_Some; [done|by eapply as_resolved].
  - constructor; simpl; try done.
    + intros id t ?. by exists t.
    + by apply subseteq_dom.
    + intros a b ?. apply edge_insert; auto.
Qed.
Lemma record_splitter_wp n c :
  assembling c → gn_Type n = NodeSplitter → gn_Splits n = [] → c_splitterNodes c !! gn_Name n = None →
  wp B (recordNode n) (λ _ c', recorded n c c' ∧ gn_Name n ∈ dom (c_splitterNodes c')) c.
Proof.
  intros Hc Ht Hn Hf. pose proof (fresh_splitter c n Hc Ht Hf) as Hfresh.
  unfold recordNode. rewrite Ht. do 3 wp_step. split; [|simpl; set_solver].
  apply (record_node c n (<[gn_Name n:=MapKey n]> (c_splitterNodes c)) (c_resolveNodes c)); try done.
  - unfold next_nodes. by rewrite Ht, Hn.
  - by rewrite Ht.
  - intros Ht'. congruence.
  - intros name key [[_ <-]|[_ ?]]%lookup_insert_Some; auto.
  - auto.
  - by apply insert_subseteq.
  - intros _. by rewrite lookup_insert_eq.
  - congruence.
Qed.
Lemma record_resolver_wp target n c :
  assembling c → plain_resolver target n → target ∈ c_retainedTargets c → c_resolveNodes c !! target = None →
  wp B (recordNode n) (λ _ c', recorded n c c') c.
Proof.
  intros Hc (Ht&Hna&r&Hr&Htg&Hfo) Hret Hf.
  assert (c_nodes c !! MapKey n = None) as Hfresh by (apply fresh_resolver; [done|done|by rewrite Hna]).
  unfold recordNode. rewrite Ht, Hr. do 5 wp_step.
  apply (record_node c n (c_splitterNodes c) (<[res_Target r:=MapKey n]> (c_resolveNodes c))); try done.
  - unfold next_nodes. by rewrite Ht.
  - by rewrite Ht.
  - intros _. exists r. split_and!; [done|congruence|congruence|]. intros ids. by rewrite Hfo.
  - auto.
  - intros name key [[_ <-]|[_ ?]]%lookup_insert_Some; auto.
  - apply insert_subseteq. by rewrite Htg.
  - congruence.
  - intros _. by rewrite Hna, Htg, lookup_insert_eq.
Qed.

(** A mutation of a recorded node that only adds edges. *)
Lemma modify_node_wp k f n c :
  assembling c → c_nodes c !! k = Some n → gn_Type (f n) = gn_Type n → gn_Name (f n) = gn_Name n →
  (∀ b, b ∈ next_nodes n → b ∈ next_nodes (f n)) →
  (∀ b, b ∈ next_nodes (f n) → b ∈ next_nodes n ∨ is_Some (c_nodes c !! b)) →
  node_resolved (c_retainedTargets c) (f n) →
  wp B (modify_node k f) (λ _ c', assembling c' ∧ extends c c' ∧ c' = c_set_nodes (<[k := f n]> (c_nodes c)) c) c.
Proof.
  intros Hc Hk Hty Hna Hold Hnew Hres. apply wpc_modify.
  assert (alter f k (c_nodes c) = <[k := f n]> (c_nodes c)) as ->.
  { apply map_eq. intros k'. rewrite lookup_alter, lookup_insert. by case_decide; subst; rewrite ?Hk. }
  assert (∀ a t, at_type (<[k := f n]> (c_nodes c)) a t ↔ at_type (c_nodes c) a t) as Htypes.
  { intros a t. unfold at_type. destruct (decide (a = k)) as [->|];
      [rewrite lookup_insert_eq, Hk|rewrite lookup_insert_ne by done]; naive_solver congruence. }
  assert (∀ a, is_Some (c_nodes c !! a) → is_Some (<[k := f n]> (c_nodes c) !! a)) as Hdom.
  { intros a ?. rewrite lookup_insert_is_Some'. auto. }
  split_and!; [| |done].
  - constructor; simpl; try apply Hc; try (intros; apply Htypes; by eapply Hc).
    + apply map_Forall_insert_2; [|apply Hc]. unfold MapKey. rewrite Hty, Hna. by apply (as_keyed _ _ _ Hc).
    + intros a b (n'&Hn'&Hb). apply Hdom. rewrite lookup_insert in Hn'. case_decide; simplify_eq.
      * destruct (Hnew b Hb); [|done]. eapply (as_closed _ _ _ Hc). by exists n.
      * eapply (as_closed _ _ _ Hc). by exists n'.
    + intros a Ha%Htypes. by eapply (as_routers _ _ _ Hc).
    + intros a n' Hn' Ht. rewrite lookup_insert in Hn'. case_decide; simplify_eq; [|by eapply (as_splitter_cached _ _ _ Hc)].
      rewrite Hna. eapply (as_splitter_cached _ _ _ Hc); [done|congruence].
    + intros a n' Hn' Ht. rewrite lookup_insert in Hn'. case_decide; simplify_eq; [|by eapply (as_resolver_cached _ _ _ Hc)].
      rewrite Hna. eapply (as_resolver_cached _ _ _ Hc); [done|congruence].
    + intros a n' Hn'. rewrite lookup_insert in Hn'. case_decide; simplify_eq; [done|by eapply (as_resolved _ _ _ Hc)].
  - constructor; simpl; try done.
    + intros id t ?. by exists t.
    + intros a t. by apply Htypes.
    + intros a b (n'&Hn'&Hb). unfold edge. destruct (decide (a = k)) as [->|].
      * rewrite lookup_insert_eq. simplify_eq. eauto.
      * rewrite lookup_insert_ne by done. eauto.
Qed.

(** ** Failovers *)

Lemma getResolverNode_failover_wp target c :
  assembling c → is_Some (c_loadedTargets c !! target) →
  wp B (getResolverNode_failover req entries target)
    (λ n c', calm c c' ∧ ∃ r, gn_Resolver n = Some r ∧ res_Target r ∈ c_retainedTargets c') c.
Proof.
  intros Hc Ht. unfold getResolverNode_failover. wp_step.
  eapply wpc_mono; [by apply resolve_start_wp|]. intros [key|[t resolver]] c1 [K1 Hr]; simpl in Hr.
  - destruct Hr as (n&Hn&Hty). apply get_node_wp; [by exists n|]. intros n' Hn'. simplify_eq. split; [done|].
    destruct (as_resolved _ _ _ (calm_inv _ _ _ _ K1) _ _ Hn Hty) as (r&?&_&?&_). by exists r.
  - destruct Hr as (Hld&_&_). eapply wpc_mono; [by apply build_resolver_node_wp; [apply K1|]|].
    intros n c2 (K2&Hret&_&_&r&?&<-&_). split; [by eapply calm_trans|]. by exists r.
Qed.
Lemma failover_node_target_wp target c :
  assembling c → is_Some (c_loadedTargets c !! target) →
  wp B (failover_node_target req entries target) (λ id c', calm c c' ∧ id ∈ c_retainedTargets c') c.
Proof.
  intros Hc Ht. unfold failover_node_target. wp_step.
  eapply wpc_mono; [by apply getResolverNode_failover_wp|]. intros n c' [Hc' (r&Hr&?)].
  rewrite Hr. by do 2 wp_step.
Qed.

Lemma failover_target_wp target f dc c :
  assembling c → is_Some (c_loadedTargets c !! target) →
  fo_Service f ∈ all_services req entries → fo_ServiceSubset f ∈ all_subsets entries →
  fo_Namespace f ∈ all_namespaces req entries → chosen dc (all_datacenters req entries) →
  wp B (failover_target req target f dc)
    (λ ids c', calm c c' ∧ Forall (λ id, is_Some (c_loadedTargets c' !! id)) ids) c.
Proof.
  intros Hc Ht Hs Hu Hn Hd. unfold failover_target. wp_step.
  eapply wpc_mono; [apply rewriteTarget_wp; [done|done|by right..|done]|].
  intros id c' [Hc' Hid]. apply wpc_ret. split; [done|]. case_decide; by repeat constructor.
Qed.
Lemma Forall_loaded c c' ids :
  extends c c' → Forall (λ id, is_Some (c_loadedTargets c !! id)) ids →
  Forall (λ id, is_Some (c_loadedTargets c' !! id)) ids.
Proof. intros Hx Hf. eapply list.Forall_impl; [done|]. intros id. by apply extends_loaded. Qed.
Lemma failover_targets_wp target f c :
  assembling c → is_Some (c_loadedTargets c !! target) →
  fo_Service f ∈ all_services req entries → fo_ServiceSubset f ∈ all_subsets entries →
  fo_Namespace f ∈ all_namespaces req entries → Forall (λ d, d ∈ all_datacenters req entries) (fo_Datacenters f) →
  wp B (failover_targets req target f)
    (λ ids c', calm c c' ∧ Forall (λ id, is_Some (c_loadedTargets c' !! id)) ids) c.
Proof.
  intros Hc Ht Hs Hu Hn Hd. unfold failover_targets.
  destruct (fo_Datacenters f) as [|d ds]; [by apply failover_target_wp; [..|left]|]. wp_step.
  eapply wpc_mono.
  { apply (wp_map B (λ _ idss c', calm c c' ∧ Forall (λ id, is_Some (c_loadedTargets c' !! id)) (concat idss))).
    - intros pre idss dc suf c1 Heq [K1 Hl]. eapply wpc_mono; [apply failover_target_wp; try done|].
      + apply K1.
      + eapply extends_loaded; [apply K1|done].
      + right. rewrite list.Forall_forall in Hd. apply Hd. rewrite Heq. set_solver.
      + intros ids c2 [K2 Hids]. split; [by eapply calm_trans|]. rewrite concat_app. simpl. rewrite app_nil_r.
        apply list.Forall_app_2; [eapply Forall_loaded; [apply K2|done]|done].
    - split; [by apply calm_refl|constructor]. }
  intros idss c' [??]. by apply wpc_ret.
Qed.

(** ** What a call adds to the graph *)

Record grows (c c' : compiler) (k : string) : Prop := {
  gr_inv : assembling c';
  gr_ext : extends c c';
  gr_root : is_Some (c_nodes c' !! k);
  gr_reach : ∀ a, is_Some (c_nodes c' !! a) → is_Some (c_nodes c !! a) ∨ rtc (edge (c_nodes c')) k a;
  gr_uses : ∀ a, at_type (c_nodes c') a NodeSplitter →
    at_type (c_nodes c) a NodeSplitter ∨
    (c_usesAdvancedRoutingFeatures c' = true ∧ disableAdvancedRoutingFeatures req = false)
}.
Lemma calm_grows c c1 c' k : calm c c1 → grows c1 c' k → grows c c' k.
Proof.
  intros K1 []. pose proof (calm_nodes _ _ _ _ K1) as Hn. constructor; try done.
  - etrans; [apply K1|done].
  - by rewrite <-Hn.
  - by rewrite <-Hn.
Qed.
Lemma grows_calm c c1 c' k : grows c c1 k → calm c1 c' → grows c c' k.
Proof.
  intros [] K1. constructor; rewrite ?(calm_nodes _ _ _ _ K1), ?(calm_uses _ _ _ _ K1); try done.
  - apply K1.
  - etrans; [done|apply K1].
Qed.

Lemma getResolverNode_wp target c :
  assembling c → is_Some (c_loadedTargets c !! target) →
  wp B (getResolverNode req entries target) (λ n c', grows c c' (MapKey n)) c.
Proof.
  intros Hc Ht. unfold getResolverNode. wp_step.
  eapply wpc_mono; [by apply resolve_start_wp|]. intros [key|[t resolver]] c1 [K1 Hr]; simpl in Hr.
  { destruct Hr as (n&Hn&Hty). apply get_node_wp; [by exists n|]. intros n' Hn'. simplify_eq.
    pose proof (as_keyed _ _ _ (calm_inv _ _ _ _ K1) _ _ Hn) as Hkey. simpl in Hkey. rewrite <-Hkey.
    apply (calm_grows _ c1); [done|]. constructor; [apply K1|done|by rewrite Hn|by left|by left]. }
  destruct Hr as (Hld&Hres&Hcache). wp_step.
  eapply wpc_mono; [by apply build_resolver_node_wp; [apply K1|]|]. intros n c2 (K2&Hret&Hplain).
  pose proof (calm_trans _ _ _ _ _ K1 K2) as K02. wp_step.
  eapply wpc_mono; [apply (record_resolver_wp t); [apply K2|done|done|by rewrite (calm_resolves _ _ _ _ K2)]|].
  intros [] c3 (Hc3&Hx3&Hn3&Hl3&Hr3&Hu3&_).
  assert (grows c c3 (MapKey n)) as Hg3.
  { apply (calm_grows _ c2); [done|]. constructor; rewrite ?Hn3, ?Hu3; try done.
    - by rewrite lookup_insert_eq.
    - intros a Ha. destruct (decide (a = MapKey n)) as [->|]; [by right|]. left. by rewrite lookup_insert_ne in Ha.
    - intros a (n'&Hn'&Hty). left. apply lookup_insert_Some in Hn' as [[_ <-]|[_ ?]]; [|by exists n'].
      destruct Hplain; congruence. }
  assert (is_Some (c_loadedTargets c3 !! t)) as Hld3 by (rewrite Hl3; eapply extends_loaded; [apply K2|done]).
  wp_step. apply get_target_wp; [done|]. intros tg _.
  destruct (failover_section resolver (tg_ServiceSubset tg)) as [f|] eqn:Hf; [|by apply wpc_ret].
  destruct (failover_names req _ _ _ _ Hres Hf) as (?&?&?&?). wp_step.
  eapply wpc_mono; [by apply failover_targets_wp|]. intros ts c4 [K4 Hts].
  destruct ts as [|t1 ts]; [by apply wpc_ret, (grows_calm _ c3)|].
  set (ts' := t1 :: ts) in *. wp_step. eapply wpc_mono.
  { apply (wp_map B (λ _ ids c', calm c3 c' ∧ Forall (λ id, is_Some (c_loadedTargets c' !! id)) ts' ∧
      Forall (λ id, id ∈ c_retainedTargets c') ids)); [|by split_and!].
    intros pre ids x suf c5 Heq (K5&Hl5&Hi5). eapply wpc_mono; [apply failover_node_target_wp; [apply K5|]|].
    - rewrite list.Forall_forall in Hl5. apply Hl5. rewrite Heq. set_solver.
    - intros id c6 [K6 Hid]. split_and!; [by eapply calm_trans|eapply Forall_loaded; [apply K6|done]|].
      apply list.Forall_app_2; [|by repeat constructor]. eapply list.Forall_impl; [done|].
      intros id' Hid'. by apply (ex_retained _ _ (calm_ext _ _ _ _ K6)). }
  intros ids c5 (K5&_&Hids). wp_step.
  assert (c_nodes c5 !! MapKey n = Some n) as Hn5 by by rewrite (calm_nodes _ _ _ _ K5), Hn3, lookup_insert_eq.
  destruct Hplain as (Hty&Hna&r&Hr&Htg&_).
  assert (∀ b, b ∈ next_nodes (set_failover ids n) ↔ b ∈ next_nodes n) as Hnext by (intros b; by unfold next_nodes; simpl).
  eapply wpc_mono; [apply (modify_node_wp _ _ n); [apply K5|done|done|done|..]|].
  - by intros b ?%Hnext.
  - intros b ?%Hnext. by left.
  - intros _. simpl. rewrite Hr. simpl. eexists. split_and!; [done|simpl; congruence| |].
    + simpl. rewrite Htg. apply (ex_retained _ _ (calm_ext _ _ _ _ K5)). by rewrite Hr3.
    + simpl. by intros ids' [= <-].
  - intros [] c6 (Hc6&Hx6&Heq). apply get_node_wp; [subst; simpl; by rewrite lookup_insert_eq|].
    intros n' Hn'. rewrite Heq in Hn'. simpl in Hn'. rewrite lookup_insert_eq in Hn'. simplify_eq.
    change (MapKey (set_failover ids n)) with (MapKey n).
    pose proof (grows_calm _ _ _ _ Hg3 K5) as Hg5.
    constructor; [done|by etrans; [apply Hg5|]|by simpl; rewrite lookup_insert_eq|..].
    + intros a Ha. simpl in Ha.
      assert (is_Some (c_nodes c5 !! a)) as Ha5.
      { destruct (decide (a = MapKey n)) as [->|]; [by rewrite Hn5|by rewrite lookup_insert_ne in Ha]. }
      destruct (gr_reach _ _ _ Hg5 a Ha5) as [?|Hreach]; [by left|].
      right. eapply rtc_subrel; [|done]. intros x y. by apply Hx6.
    + intros a Ha. apply (gr_uses _ _ _ Hg5). destruct Ha as (n'&Hn'&Ht'). simpl in Hn'.
      rewrite lookup_insert in Hn'. case_decide; simplify_eq; [|by exists n']. by exists n.
Qed.
End nodes.
