(* ===== verification/DiscoveryAssemble.v ===== *)
(** * Assembling a discovery chain

    [getSplitterNode] recurses once per splitter at most, [assembleChain]
    returns a graph in which every edge leads to a node and every node can be
    reached from the start. *)

From S2P Require Import Prelude Memdb ProxyConfig ConfigEntries DiscoveryChain DiscoveryGraph DiscoveryLoops DiscoveryNodes.

Section assemble.
Context `{CompilerEnv} (req : CompileRequest) (entries : DiscoveryChainConfigEntries).
Context (B : string → Prop).
Abbreviation assembling := (assembling req entries).
Abbreviation calm := (calm req entries).
Abbreviation grows := (grows req entries).

(** ** Splitters *)

Lemma split_names name spr sp :
  Splitters entries !! name = Some spr → sp ∈ spr_Splits spr →
  spl_Service sp ∈ all_services req entries ∧ spl_ServiceSubset sp ∈ all_subsets entries ∧
  spl_Namespace sp ∈ all_namespaces req entries.
Proof.
  intros Hspr Hsp. assert (sp ∈ all_splits entries) as Hin.
  { apply list_elem_of_bind. exists spr. split; [done|]. apply list_elem_of_fmap. exists (name, spr).
    split; [done|]. by apply elem_of_map_to_list. }
  unfold all_services, all_subsets, all_namespaces.
  split_and!; rewrite elem_of_cons, !elem_of_app; right; right; left; apply list_elem_of_fmap; by exists sp.
Qed.

(** A state in which everything new since [c0] hangs below [k]. *)
Record below (c0 c1 c : compiler) (k : string) : Prop := {
  bl_inv : assembling c;
  bl_ext : extends c1 c;
  bl_root : at_type (c_nodes c) k NodeSplitter;
  bl_reach : ∀ a, is_Some (c_nodes c !! a) → is_Some (c_nodes c0 !! a) ∨ rtc (edge (c_nodes c)) k a
}.
Lemma below_calm c0 c1 c c' k : below c0 c1 c k → calm c c' → below c0 c1 c' k.
Proof.
  intros [] K. constructor; rewrite ?(calm_nodes _ _ _ _ K); try done; [apply K|]. etrans; [done|apply K].
Qed.
Lemma rtc_extends c c' a b : extends c c' → rtc (edge (c_nodes c)) a b → rtc (edge (c_nodes c')) a b.
Proof. intros Hx. apply rtc_subrel. intros x y. by apply Hx. Qed.

Lemma append_split_wp c0 c1 c c2 k k' w :
  below c0 c1 c k → grows c c2 k' →
  wp B (append_split k (mkDSplit w k')) (λ _ c3, below c0 c1 c3 k) c2.
Proof.
  intros [Hi Hx Hr Hreach] Hg.
  destruct (ex_types _ _ (gr_ext _ _ _ _ _ Hg) _ _ Hr) as (n&Hn&Hty).
  assert (∀ b, b ∈ next_nodes (set_splits (gn_Splits n ++ [mkDSplit w k']) n) ↔ b ∈ next_nodes n ∨ b = k') as Hnext.
  { intros b. unfold next_nodes. simpl. rewrite Hty, fmap_app, elem_of_app. simpl. by rewrite list_elem_of_singleton. }
  eapply wpc_mono; [apply (modify_node_wp req entries B _ _ n); [apply Hg|done|done|done|..]|].
  - intros b ?. apply Hnext. by left.
  - intros b [?| ->]%Hnext; [by left|right; apply Hg].
  - intros Ht. simpl in Ht. congruence.
  - intros [] c3 (Hi3&Hx3&Heq). assert (extends c c3) as Hxc by (etrans; [apply Hg|done]).
    constructor; [done|by etrans|by eapply ex_types|].
    intros a Ha. assert (is_Some (c_nodes c2 !! a)) as Ha2.
    { rewrite Heq in Ha. simpl in Ha. destruct (decide (a = k)) as [->|]; [by exists n|].
      by rewrite lookup_insert_ne in Ha. }
    assert (edge (c_nodes c3) k k') as Hedge.
    { rewrite Heq. simpl. eexists. rewrite lookup_insert_eq. split; [done|]. apply Hnext. by right. }
    destruct (gr_reach _ _ _ _ _ Hg a Ha2) as [Hac|Hk'].
    + destruct (Hreach a Hac) as [?|Hka]; [by left|right]. by apply (rtc_extends c).
    + right. eapply rtc_l; [done|]. by apply (rtc_extends c2).
Qed.

Lemma getSplitterNode_wp fuel name c :
  assembling c → name ≠ "" → name ∈ all_services req entries →
  size (dom (Splitters entries) ∖ dom (c_splitterNodes c)) < fuel →
  wp B (getSplitterNode req entries fuel name)
    (λ r c', match r with Some n => grows c c' (MapKey n) | None => calm c c' end) c.
Proof.
  revert name c. induction fuel as [|fuel IH]; intros name c Hc Hne Hin Hfuel; [lia|]. simpl.
  do 2 wp_step. destruct (c_splitterNodes c !! name) as [key|] eqn:Hcache.
  { destruct (as_splitters _ _ _ Hc _ _ Hcache) as (n&Hn&Hty). wp_step. apply get_node_wp; [by exists n|].
    intros n' Hn'. simplify_eq. wp_step. pose proof (as_keyed _ _ _ Hc _ _ Hn) as Hkey. simpl in Hkey. rewrite <-Hkey.
    constructor; [done|done|by rewrite Hn|by left|by left]. }
  unfold GetSplitter. destruct (Splitters entries !! name) as [spr|] eqn:Hspr; [|by apply wpc_ret, calm_refl].
  destruct (disableAdvancedRoutingFeatures req) eqn:Hdis; [wp_step; eapply wpc_mono; [by apply customized_wp|done]|].
  set (n0 := mkGraphNode NodeSplitter name [] [] None). set (K := MapKey n0).
  wp_step. eapply wpc_mono; [by apply record_splitter_wp|]. intros [] c1 ((Hi1&Hx1&Hn1&_&_&_&Hsp1)&Hdom).
  assert (is_Some (c_nodes c1 !! K)) as HK by by rewrite Hn1, lookup_insert_eq.
  assert (∀ c', extends c1 c' → size (dom (Splitters entries) ∖ dom (c_splitterNodes c')) < fuel) as Hmeasure.
  { intros c' [_ _ Hs _ _ _ _]. eapply Nat.lt_le_trans; [|by apply Nat.lt_succ_r, Hfuel].
    apply subset_size. split; [set_solver|]. intros Hsub.
    assert (name ∈ dom (Splitters entries) ∖ dom (c_splitterNodes c)) as Hname.
    { apply elem_of_difference. split; [apply elem_of_dom; by rewrite Hspr|by apply not_elem_of_dom]. }
    apply Hsub, elem_of_difference in Hname as [_ Hname]. apply Hname, Hs, Hdom. }
  wp_step. eapply wpc_mono.
  { apply (wpc_for B (λ _ c', below c c1 c' K)).
    - intros pre sp suf c2 Heq Hb.
      destruct (split_names _ _ sp Hspr) as (Hs1&Hs2&Hs3); [rewrite Heq; set_solver|].
      set (svc := defaultIfEmpty (spl_Service sp) name).
      assert (svc ≠ "" ∧ svc ∈ all_services req entries) as [Hsvc Hsvcin].
      { unfold svc, defaultIfEmpty. by case_decide. }
      wp_step. eapply (wpc_mono _ _ (λ r c', match r with Some n => grows c2 c' (MapKey n) | None => calm c2 c' end)).
      { case_decide; [|apply wpc_ret, calm_refl, Hb]. apply IH; [apply Hb|done|done|apply Hmeasure, Hb]. }
      intros [n|] c3 H3; [by eapply append_split_wp|].
      wp_step. eapply wpc_mono; [apply newTarget_wp; [apply H3|done|done|done|by right|by left]|].
      intros id c4 [K4 Hid]. wp_step. eapply wpc_mono; [apply getResolverNode_wp; [apply K4|done]|].
      intros n c5 Hg. eapply append_split_wp; [|exact Hg].
      eapply below_calm; [|exact K4]. by eapply below_calm; [|exact H3].
    - constructor; [done|done| |].
      + exists n0. by rewrite Hn1, lookup_insert_eq.
      + intros a Ha. destruct (decide (a = K)) as [->|]; [by right|left].
        by rewrite Hn1, lookup_insert_ne in Ha. }
  intros [] c2 [Hi2 Hx2 (n&Hn&Hty) Hreach]. do 3 wp_step. apply get_node_wp; [by exists n|].
  intros n' Hn'. simpl in Hn'. simplify_eq. wp_step.
  pose proof (as_keyed _ _ _ Hi2 _ _ Hn) as Hkey. simpl in Hkey. rewrite <-Hkey.
  constructor; simpl; [by destruct Hi2| |by exists n|done|by right].
  etrans; [done|]. destruct Hx2. by constructor.
Qed.

Lemma getSplitterOrResolverNode_wp target c :
  assembling c → is_Some (c_loadedTargets c !! target) →
  wp B (getSplitterOrResolverNode req entries target) (λ n c', grows c c' (MapKey n)) c.
Proof.
  intros Hc Ht. unfold getSplitterOrResolverNode. wp_step. apply get_target_wp; [done|]. intros t Htt.
  destruct (as_targets _ _ _ Hc _ _ Htt) as [_ []].
  wp_step. eapply wpc_mono; [apply getSplitterNode_wp; [done..|]|].
  { unfold splitter_fuel. apply Nat.lt_succ_r. rewrite <-(size_dom (D := gset string)). apply subseteq_size. set_solver. }
  intros [n|] c' Hn; [by apply wpc_ret|].
  eapply wpc_mono; [apply getResolverNode_wp; [apply Hn|eapply extends_loaded; [apply Hn|done]]|].
  intros n c'' Hg. by eapply calm_grows.
Qed.

(** ** Routes *)

Lemma route_names name rtr r d :
  Routers entries !! name = Some rtr → r ∈ rtr_Routes rtr → route_Destination r = Some d →
  dst_Service d ∈ all_services req entries ∧ dst_ServiceSubset d ∈ all_subsets entries ∧
  dst_Namespace d ∈ all_namespaces req entries.
Proof.
  intros Hrtr Hr Hd. assert (d ∈ all_routes entries) as Hin.
  { apply list_elem_of_bind. exists rtr. split; [apply list_elem_of_omap; by exists r|].
    apply list_elem_of_fmap. exists (name, rtr). split; [done|]. by apply elem_of_map_to_list. }
  unfold all_services, all_subsets, all_namespaces.
  split_and!; rewrite elem_of_cons, !elem_of_app; right; left; apply list_elem_of_fmap; by exists d.
Qed.

Context (Hname : rq_ServiceName req ≠ "").

Lemma compile_route_wp name rtr r c :
  assembling c → Routers entries !! name = Some rtr → r ∈ rtr_Routes rtr →
  (route_Destination r = None → B nil_dereference) →
  wp B (compile_route req entries r) (λ dr c', grows c c' (dr_NextNode dr)) c.
Proof.
  intros Hc Hrtr Hr Hnil. unfold compile_route.
  destruct (route_Destination r) as [d|] eqn:Hd; [|by apply wpc_bind, wp_panic, Hnil].
  destruct (route_names _ _ _ _ Hrtr Hr Hd) as (?&?&?). do 3 wp_step.
  eapply wpc_mono; [apply newTarget_wp; [done|..|by right|by left]|].
  - unfold defaultIfEmpty. by case_decide.
  - unfold defaultIfEmpty. case_decide; [done|]. left.
  - done.
  - intros id c1 [K1 Hid]. wp_step. eapply wpc_mono.
    + instantiate (1 := λ n c', grows c1 c' (MapKey n)).
      case_decide; [apply getSplitterOrResolverNode_wp|apply getResolverNode_wp]; try done; apply K1.
    + intros n c2 Hg. apply wpc_ret. by eapply calm_grows.
Qed.
Lemma default_next_wp c :
  assembling c → wp B (default_next req entries) (λ n c', grows c c' (MapKey n)) c.
Proof.
  intros Hc. unfold default_next. wp_step.
  eapply wpc_mono; [apply newTarget_wp; [done|done|left|left|by left|by left]|].
  intros id c1 [K1 Hid]. eapply wpc_mono; [by apply getSplitterOrResolverNode_wp; [apply K1|]|].
  intros n c2 Hg. by eapply calm_grows.
Qed.

(** ** The whole chain *)

Record assembled (c : compiler) : Prop := {
  ad_start : is_Some (c_nodes c !! c_startNode c);
  ad_keyed : keyed (c_nodes c);
  ad_closed : closed (c_nodes c);
  ad_forward : forward (c_nodes c);
  ad_reach : ∀ a, is_Some (c_nodes c !! a) → rtc (edge (c_nodes c)) (c_startNode c) a;
  ad_resolved : ∀ k n, c_nodes c !! k = Some n → node_resolved (c_retainedTargets c) n;
  ad_targets : ∀ id t, c_loadedTargets c !! id = Some t → tg_ID t = id ∧ target_ok req entries t;
  ad_retained : ∀ id, id ∈ c_retainedTargets c → is_Some (c_loadedTargets c !! id);
  ad_uses : ∀ k n, c_nodes c !! k = Some n → gn_Type n ≠ NodeResolver →
    c_usesAdvancedRoutingFeatures c = true ∧ disableAdvancedRoutingFeatures req = false
}.

Lemma assembling_forward c : assembling c → forward (c_nodes c).
Proof. intros Hc a b _ Hb. by eapply as_routers. Qed.

(** Without a router the chain starts at the first node. *)
Lemma assembled_next c0 c k :
  c_nodes c0 = ∅ → grows c0 c k → assembled (c_set_startNode k c).
Proof.
  intros H0 Hg. pose proof (gr_inv _ _ _ _ _ Hg) as Hc. constructor; simpl; try apply Hc.
  - apply Hg.
  - by apply assembling_forward.
  - intros a Ha. destruct (gr_reach _ _ _ _ _ Hg a Ha) as [Hx|]; [|done]. by rewrite H0, lookup_empty in Hx.
  - intros a n Hn Ht. destruct (gn_Type n) eqn:Hty; [|..|done].
    + exfalso. apply (as_routers _ _ _ Hc a). by exists n.
    + destruct (gr_uses _ _ _ _ _ Hg a) as [(?&Hx&_)|]; [by exists n| |done]. by rewrite H0, lookup_empty in Hx.
Qed.

(** With a router, the chain starts at the router. *)
Lemma assembled_router c node :
  assembling c → gn_Type node = NodeRouter →
  c_usesAdvancedRoutingFeatures c = true → disableAdvancedRoutingFeatures req = false →
  (∀ b, b ∈ next_nodes node → is_Some (c_nodes c !! b)) →
  (∀ a, is_Some (c_nodes c !! a) → ∃ b, b ∈ next_nodes node ∧ rtc (edge (c_nodes c)) b a) →
  assembled (c_set_nodes (<[MapKey node := node]> (c_nodes c)) (c_set_startNode (MapKey node) c)).
Proof.
  intros Hc Hty Hu Hdis Hnext Hreach.
  assert (c_nodes c !! MapKey node = None) as Hf.
  { apply eq_None_not_Some. intros [n Hn].
    destruct (MapKey_inj node n) as [Ht _]; [by apply (as_keyed _ _ _ Hc)|].
    apply (as_routers _ _ _ Hc (MapKey node)). exists n. split; [done|congruence]. }
  constructor; simpl; try apply Hc.
  - by rewrite lookup_insert_eq.
  - apply map_Forall_insert_2; [done|apply Hc].
  - intros a b [[_ Hb]|Hab]%edge_insert; [| |done]; rewrite lookup_insert_is_Some'; right.
    + by apply Hnext.
    + by eapply (as_closed _ _ _ Hc).
  - assert (∀ b, is_Some (c_nodes c !! b) → ¬ at_type (<[MapKey node := node]> (c_nodes c)) b NodeRouter) as Hno.
    { intros b Hb [[-> _]|Hr]%at_type_insert; [by destruct Hb; congruence|by eapply (as_routers _ _ _ Hc)|done]. }
    intros a b [[_ Hb]|Hab]%edge_insert; [| |done]; apply Hno; [by apply Hnext|by eapply (as_closed _ _ _ Hc)].
  - intros a Ha. destruct (decide (a = MapKey node)) as [->|]; [done|]. rewrite lookup_insert_ne in Ha by done.
    destruct (Hreach a Ha) as (b&Hb&Hba). apply rtc_l with b; [apply edge_insert; auto|].
    eapply rtc_subrel; [|done]. intros x y ?. apply edge_insert; auto.
  - intros k n [[_ <-]|[_ Hk]]%lookup_insert_Some; [intros ?; congruence|by eapply (as_resolved _ _ _ Hc)].
  - done.
Qed.

Lemma assembling_new c :
  c_nodes c = ∅ → c_loadedTargets c = ∅ → c_retainedTargets c = ∅ → c_splitterNodes c = ∅ → c_resolveNodes c = ∅ →
  (∀ s r, c_resolvers c !! s = Some r → resolver_ok entries r) → assembling c.
Proof.
  intros Hn Hl Hr Hs Hrs Hres. constructor; rewrite ?Hn, ?Hl, ?Hr, ?Hs, ?Hrs; try done.
  - intros a b (n&Hx&_). by rewrite lookup_empty in Hx.
  - intros k (n&Hx&_). by rewrite lookup_empty in Hx.
Qed.
Lemma assembling_uses c : assembling c → assembling (c_set_usesAdvanced true c).
Proof. by intros []. Qed.

(** A route without a destination is dereferenced. *)
Definition routed : Prop :=
  ∀ rtr, GetRouter entries (rq_ServiceName req) = Some rtr →
    Forall (λ r, is_Some (route_Destination r)) (rtr_Routes rtr).

Lemma compile_routes_wp name rtr c0 :
  assembling c0 → c_nodes c0 = ∅ → Routers entries !! name = Some rtr →
  (Forall (λ r, is_Some (route_Destination r)) (rtr_Routes rtr) ∨ B nil_dereference) →
  wp B (mmap (compile_route req entries) (rtr_Routes rtr))
    (λ drs c', assembling c' ∧ extends c0 c' ∧
       (∀ dr, dr ∈ drs → is_Some (c_nodes c' !! dr_NextNode dr)) ∧
       ∀ a, is_Some (c_nodes c' !! a) → ∃ dr, dr ∈ drs ∧ rtc (edge (c_nodes c')) (dr_NextNode dr) a) c0.
Proof.
  intros Hc0 H0 Hrtr Hnil.
  apply (wp_map B (λ _ drs c', assembling c' ∧ extends c0 c' ∧
     (∀ dr, dr ∈ drs → is_Some (c_nodes c' !! dr_NextNode dr)) ∧
     ∀ a, is_Some (c_nodes c' !! a) → ∃ dr, dr ∈ drs ∧ rtc (edge (c_nodes c')) (dr_NextNode dr) a)).
  - intros pre drs r suf c Heq (Hi&Hx&Hd&Hreach).
    assert (r ∈ rtr_Routes rtr) as Hr by (rewrite Heq; set_solver).
    eapply wpc_mono; [apply (compile_route_wp _ _ _ _ Hi Hrtr Hr)|].
    { intros Hnone. destruct Hnil as [Hall|]; [|done]. rewrite list.Forall_forall in Hall.
      apply Hall in Hr. rewrite Hnone in Hr. by destruct Hr. }
    intros dr c' Hg. pose proof (gr_ext _ _ _ _ _ Hg) as Hx'. split_and!; [apply Hg|by etrans|..].
    + intros dr' [Hdr| ->%list_elem_of_singleton]%elem_of_app; [|apply Hg].
      destruct (Hd dr' Hdr) as [n Hn]. destruct (ex_types _ _ Hx' (dr_NextNode dr') (gn_Type n)) as (n'&?&_); [by exists n|by exists n'].
    + intros a Ha. destruct (gr_reach _ _ _ _ _ Hg a Ha) as [Hc|Hk].
      * destruct (Hreach a Hc) as (dr'&?&?). exists dr'. split; [set_solver|by apply (rtc_extends c)].
      * exists dr. split; [set_solver|done].
  - split_and!; [done|done|by intros ? ?%not_elem_of_nil|]. intros a Ha. by rewrite H0, lookup_empty in Ha; destruct Ha.
Qed.

Theorem assembleChain_wp :
  routed ∨ B nil_dereference →
  wp B (assembleChain req entries) (λ _ c', assembled c') (new_compiler entries).
Proof.
  intros Hrouted. unfold assembleChain. do 2 wp_step.
  rewrite decide_False by (intros [?|?]; simpl in *; done).
  wp_step. apply (wpc_mono _ _ (λ _ c', assembling c' ∧ c_nodes c' = ∅)).
  { case_decide as Hd.
    - apply wpc_modify. split; [|done]. apply assembling_new; simpl; try done.
      intros s r [[_ <-]|[_ Hx]]%lookup_insert_Some; [right; by eexists|by rewrite lookup_empty in Hx].
    - apply wpc_ret. split; [|done]. apply assembling_new; simpl; try done.
      intros s r Hr. left. by exists s. }
  intros [] c1 [Hc1 H1]. wp_step.
  apply (wpc_mono _ _ (λ o c', calm c1 c' ∧ match o with
    | Some rtr => GetRouter entries (rq_ServiceName req) = Some rtr ∧ disableAdvancedRoutingFeatures req = false
    | None => True
    end)).
  { unfold get_router. destruct (GetRouter _ _); [|by split; [apply calm_refl|]].
    destruct (disableAdvancedRoutingFeatures req) eqn:?; [|by split; [apply calm_refl|]].
    wp_step. eapply wpc_mono; [by apply customized_wp|]. by intros [] c' ?. }
  intros [rtr|] c2 [K2 Hrtr].
  2: { wp_step. eapply wpc_mono; [apply default_next_wp, K2|]. intros n c3 Hg. apply wpc_modify.
       eapply assembled_next; [|exact Hg]. by rewrite (calm_nodes _ _ _ _ K2). }
  destruct Hrtr as [Hrtr Hdis]. wp_step. apply wpc_modify. wp_step.
  eapply wpc_mono; [apply recordServiceProtocol_wp, assembling_uses, K2|]. intros [] c3 K3. wp_step.
  eapply wpc_mono.
  { apply (compile_routes_wp (rq_ServiceName req) _ _ (calm_inv _ _ _ _ K3)); [|done|].
    - rewrite (calm_nodes _ _ _ _ K3). simpl. by rewrite (calm_nodes _ _ _ _ K2).
    - destruct Hrouted as [Hr|]; [left; by apply Hr|by right]. }
  intros drs c4 (Hi4&Hx4&Hd4&Hreach4). wp_step.
  eapply wpc_mono; [by apply default_next_wp|]. intros n c5 Hg. wp_step. apply wpc_modify.
  set (node := mkGraphNode NodeRouter _ _ _ _). unfold recordNode. simpl gn_Type. cbv iota.
  wp_step. wp_step. apply wpc_modify.
  change (assembled (c_set_nodes (<[MapKey node := node]> (c_nodes c5)) (c_set_startNode (MapKey node) c5))).
  pose proof (gr_ext _ _ _ _ _ Hg) as Hx5.
  assert (∀ b, b ∈ next_nodes node ↔ (∃ dr, dr ∈ drs ∧ b = dr_NextNode dr) ∨ b = MapKey n) as Hnext.
  { intros b. unfold next_nodes. simpl. rewrite fmap_app, elem_of_app, list_elem_of_fmap. simpl.
    rewrite list_elem_of_singleton. naive_solver. }
  apply assembled_router; [apply Hg|done| |done|..].
  - apply (ex_uses _ _ Hx5), (ex_uses _ _ Hx4). by rewrite (calm_uses _ _ _ _ K3).
  - intros b [(dr&Hdr&->)| ->]%Hnext; [|apply Hg]. destruct (Hd4 dr Hdr) as [n' Hn'].
    destruct (ex_types _ _ Hx5 (dr_NextNode dr) (gn_Type n')) as (n''&?&_); [by exists n'|by exists n''].
  - intros a Ha. destruct (gr_reach _ _ _ _ _ Hg a Ha) as [Ha4|?].
    + destruct (Hreach4 a Ha4) as (dr&?&?). exists (dr_NextNode dr). split; [apply Hnext; left; by exists dr|].
      by apply (rtc_extends c4).
    + exists (MapKey n). split; [apply Hnext; by right|done].
Qed.
End assemble.
