(* ===== verification/DiscoveryFacts.v ===== *)
(** * What compiling a discovery chain returns

    The loops after the assembly run on an assembled chain; a compiled chain
    is well formed; and what the compilation returns does not depend on the
    order of the maps. *)

From S2P Require Import Prelude Memdb ProxyConfig ConfigEntries DiscoveryChain DiscoveryGraph DiscoveryLoops DiscoveryNodes DiscoveryAssemble.

(** A chain that a proxy can walk: it starts at a node, every edge leads from
    a router to a splitter or resolver or from a splitter to a resolver, no
    node is left over, and resolvers and failovers name targets. *)
Record chain_wf (ch : CompiledDiscoveryChain) : Prop := {
  wf_start : is_Some (chain_Nodes ch !! chain_StartNode ch);
  wf_keyed : ∀ k n, chain_Nodes ch !! k = Some n → k = MapKey n;
  wf_edges : ∀ a n b, chain_Nodes ch !! a = Some n → b ∈ next_nodes n →
    ∃ n', chain_Nodes ch !! b = Some n' ∧
      (gn_Type n = NodeRouter ∧ gn_Type n' ≠ NodeRouter ∨ gn_Type n = NodeSplitter ∧ gn_Type n' = NodeResolver);
  wf_reach : ∀ a, is_Some (chain_Nodes ch !! a) → rtc (edge (chain_Nodes ch)) (chain_StartNode ch) a;
  wf_resolvers : ∀ k n, chain_Nodes ch !! k = Some n → gn_Type n = NodeResolver →
    ∃ r, gn_Resolver n = Some r ∧ gn_Name n = res_Target r ∧
      Forall (λ id, is_Some (chain_Targets ch !! id)) (res_Target r :: default [] (res_Failover r));
  wf_targets : ∀ id t, chain_Targets ch !! id = Some t → tg_ID t = id ∧ tg_Service t ≠ "";
  wf_protocol : ∀ k n, chain_Nodes ch !! k = Some n → gn_Type n ≠ NodeResolver →
    enableAdvancedRoutingForProtocol (chain_Protocol ch) = true
}.

Section facts.
Context `{CompilerEnvLaws} (req : CompileRequest) (entries : DiscoveryChainConfigEntries).
Context (B : string → Prop).
Abbreviation assembled := (assembled req entries).

Lemma reshaped_resolved g g' ret :
  reshaped g g' → (∀ k n, g !! k = Some n → node_resolved ret n) → ∀ k n, g' !! k = Some n → node_resolved ret n.
Proof.
  intros Hr Hg k n Hn. specialize (Hr k). rewrite Hn in Hr. destruct (g !! k) as [n0|] eqn:Hn0; [|done].
  rewrite Hr. exact (Hg k n0 Hn0).
Qed.
Lemma reshaped_some g g' k : reshaped g g' → is_Some (g' !! k) ↔ is_Some (g !! k).
Proof. intros Hr. specialize (Hr k). destruct (g !! k), (g' !! k); naive_solver. Qed.

(** A chain after its splitters were flattened and its unused nodes removed. *)
Record trimmed (c : compiler) : Prop := {
  td_start : is_Some (c_nodes c !! c_startNode c);
  td_keyed : keyed (c_nodes c);
  td_closed : closed (c_nodes c);
  td_forward : forward (c_nodes c);
  td_flat : ∀ a b, ¬ sedge (c_nodes c) a b;
  td_reach : ∀ a, is_Some (c_nodes c !! a) → rtc (edge (c_nodes c)) (c_startNode c) a;
  td_resolved : ∀ k n, c_nodes c !! k = Some n → node_resolved (c_retainedTargets c) n;
  td_targets : ∀ id t, c_loadedTargets c !! id = Some t → tg_ID t = id ∧ target_ok req entries t;
  td_retained : ∀ id, id ∈ c_retainedTargets c → is_Some (c_loadedTargets c !! id);
  td_uses : ∀ k n, c_nodes c !! k = Some n → gn_Type n ≠ NodeResolver →
    c_usesAdvancedRoutingFeatures c = true ∧ disableAdvancedRoutingFeatures req = false
}.

(** The nodes that were visited, as a graph of their own. *)
Lemma edge_filter (g : graph) (v : gset string) a b :
  edge (filter (λ kn, kn.1 ∈ v) g) a b ↔ a ∈ v ∧ edge g a b.
Proof.
  unfold edge. split.
  - intros (n&Hn&Hb). apply map_lookup_filter_Some in Hn as [Hn ?]. split; [done|by exists n].
  - intros [Ha (n&Hn&Hb)]. exists n. split; [|done]. by apply map_lookup_filter_Some.
Qed.
Lemma rtc_filter (g : graph) (v : gset string) start a :
  (∀ x y, x ∈ v → edge g x y → y ∈ v) → start ∈ v → rtc (edge g) start a →
  rtc (edge (filter (λ kn, kn.1 ∈ v) g)) start a.
Proof.
  intros Hv Hs Hr. revert Hs. induction Hr as [|x y z Hxy _ IH]; intros Hx; [done|].
  apply rtc_l with y; [by apply edge_filter|]. apply IH. by apply (Hv x).
Qed.

Lemma remove_unused_wp c :
  is_Some (c_nodes c !! c_startNode c) → closed (c_nodes c) → keyed (c_nodes c) →
  wp B removeUnusedNodes (λ _ c', framed c c' ∧ ∃ v : gset string,
    c_startNode c ∈ v ∧ (∀ a b, a ∈ v → edge (c_nodes c) a b → b ∈ v) ∧
    (∀ a, a ∈ v → rtc (edge (c_nodes c)) (c_startNode c) a) ∧
    c_nodes c' = filter (λ kn, kn.1 ∈ v) (c_nodes c)) c.
Proof.
  intros Hs Hc Hk. unfold removeUnusedNodes. do 5 wp_step. eapply wpc_mono.
  { apply (reach_loop_wp B (c_nodes c) (c_startNode c) Hc Hk c eq_refl).
    - constructor; [done|done|..].
      + intros x. rewrite union_empty_l_L, elem_of_singleton. intros ->. by apply elem_of_dom.
      + set_solver.
      + set_solver.
      + intros a. rewrite union_empty_l_L, elem_of_singleton. by intros ->.
    - unfold reach_fuel. rewrite size_empty, size_singleton. lia. }
  intros v c' [Hf Hn Hd Hst Hx Hr]. rewrite union_empty_r_L in *.
  assert (∃ v : gset string, c_startNode c ∈ v ∧ (∀ a b, a ∈ v → edge (c_nodes c) a b → b ∈ v) ∧
    (∀ a, a ∈ v → rtc (edge (c_nodes c)) (c_startNode c) a) ∧
    filter (λ kn, kn.1 ∈ v) (c_nodes c) = filter (λ kn, kn.1 ∈ v) (c_nodes c)) as Hex by by exists v.
  case_decide as Hsize.
  - apply wpc_ret. split; [done|]. exists v. split_and!; [done|done|done|]. rewrite Hn. symmetry.
    apply map_filter_id. intros k n Hkn. simpl.
    assert (v = dom (c_nodes c)) as -> by (apply set_subseteq_size_eq; [done|rewrite size_dom; lia]).
    by eapply elem_of_dom_2.
  - apply wpc_modify. split; [done|]. exists v. simpl. by rewrite Hn.
Qed.

Lemma flatten_and_trim c :
  assembled c → acyclic_from (c_nodes c) (c_startNode c) →
  wp B (flattenAdjacentSplitterNodes ;;; removeUnusedNodes) (λ _ c', framed c c' ∧ trimmed c') c.
Proof.
  intros [Hs Hk Hc Hfw Hreach Hres Htg Hret Hu] Hac.
  destruct (acyclic_rank _ _ Hc Hac Hreach) as [r Hr].
  unfold flattenAdjacentSplitterNodes. do 3 wp_step. eapply wpc_mono.
  { apply (flatten_rounds_wp B _ (size (c_nodes c)) r); [done|done| |lia].
    intros a b (_&Hab&_). by apply Hr. }
  intros [] c1 (Hf1&Hsh&Hc1&Hfw1&Hflat). pose proof Hf1 as (Hst&Hld&Hrt&Hus&_).
  eapply wpc_mono.
  { apply remove_unused_wp; [|done|by eapply reshaped_keyed].
    apply (reshaped_some _ _ _ Hsh). by rewrite Hst. }
  intros [] c2 (Hf2&v&Hv&Hvc&Hvr&Hn2). pose proof Hf2 as (Hst2&Hld2&Hrt2&Hus2&_).
  split; [by etrans|].
  assert (∀ k t, at_type (c_nodes c2) k t → at_type (c_nodes c1) k t) as Hty.
  { intros k t (n&Hn&?). rewrite Hn2 in Hn. apply map_lookup_filter_Some in Hn as [??]. by exists n. }
  constructor; rewrite ?Hst2, ?Hst, ?Hld2, ?Hld, ?Hrt2, ?Hrt, ?Hus2, ?Hus; try done; rewrite ?Hn2.
  - rewrite Hst in Hv. apply (reshaped_some _ _ _ Hsh) in Hs as [n Hn]. exists n. by apply map_lookup_filter_Some.
  - intros k n Hn. apply map_lookup_filter_Some in Hn as [Hn _]. by eapply reshaped_keyed.
  - intros a b [Ha Hab]%edge_filter. destruct (Hc1 _ _ Hab) as [n Hn]. exists n. apply map_lookup_filter_Some.
    split; [done|]. by eapply Hvc.
  - intros a b [Ha Hab]%edge_filter Hb. rewrite <-Hn2 in Hb. by apply (Hfw1 _ _ Hab), Hty.
  - intros a b (Ha&Hab&Hb). rewrite <-Hn2 in Ha, Hb. apply edge_filter in Hab as [_ Hab].
    apply (Hflat a b). repeat split; [by apply Hty|done|by apply Hty].
  - intros a [n Hn]. apply map_lookup_filter_Some in Hn as [Hn Ha]. rewrite Hst in *.
    apply rtc_filter; [done|done|]. by apply Hvr.
  - intros k n Hn. apply map_lookup_filter_Some in Hn as [Hn _]. by eapply reshaped_resolved.
  - intros k n Hn Ht. apply map_lookup_filter_Some in Hn as [Hn _].
    pose proof (Hsh k) as Hk'. rewrite Hn in Hk'. destruct (c_nodes c !! k) as [n0|] eqn:Hn0; [|done].
    apply (Hu k n0 Hn0). by rewrite Hk' in Ht.
Qed.

(** ** The end of the compilation *)

Lemma trimmed_wf c hash proto :
  trimmed c →
  (c_usesAdvancedRoutingFeatures c = true → disableAdvancedRoutingFeatures req = false →
   enableAdvancedRoutingForProtocol proto = true) →
  chain_wf (mkChain (rq_ServiceName req) (rq_EvaluateInNamespace req) (rq_EvaluateInDatacenter req)
              hash proto (c_startNode c) (c_nodes c) (c_loadedTargets c)).
Proof.
  intros [Hs Hk Hc Hfw Hflat Hreach Hres Htg Hret Hu] Hproto. constructor; simpl; try done.
  - intros a n b Hn Hb. assert (edge (c_nodes c) a b) as Hab by by exists n.
    destruct (Hc _ _ Hab) as [n' Hn']. exists n'. split; [done|].
    assert (gn_Type n' ≠ NodeRouter) as Hnr by (intros ?; apply (Hfw _ _ Hab); by exists n').
    destruct (gn_Type n) eqn:Hty; [by left|right|unfold next_nodes in Hb; rewrite Hty in Hb; by apply not_elem_of_nil in Hb].
    split; [done|]. destruct (gn_Type n') eqn:Hty'; [done| |done].
    exfalso. apply (Hflat a b). repeat split; [by exists n|done|by exists n'].
  - intros k n Hn Ht. destruct (Hres k n Hn Ht) as (r&Hr&Hna&Hin&Hfo). exists r. split_and!; [done|done|].
    constructor; [by apply Hret|]. destruct (res_Failover r) as [ids|]; [|constructor].
    eapply list.Forall_impl; [by apply Hfo|]. intros id. apply Hret.
  - intros id t Ht. destruct (Htg id t Ht) as [? []]. done.
  - intros k n Hn Ht. destruct (Hu k n Hn Ht). auto.
Qed.

(** Dropping the targets that no node kept. *)
Lemma trimmed_targets c :
  trimmed c →
  trimmed (c_set_targets (filter (λ kt, kt.1 ∈ c_retainedTargets c) (c_loadedTargets c)) (c_retainedTargets c) c).
Proof.
  intros []. constructor; simpl; try done.
  - intros id t Ht. apply map_lookup_filter_Some in Ht as [? _]. auto.
  - intros id Hid. destruct (td_retained0 id Hid) as [t Ht]. exists t. by apply map_lookup_filter_Some.
Qed.

Lemma hash_wp m (Q : string → compiler → Prop) c :
  (∀ v, hash_customization (if cm_MeshGateway m then mg_Mode (rq_OverrideMeshGateway req) else "")
          (if cm_Protocol m then rq_OverrideProtocol req else "")
          (if cm_ConnectTimeout m then rq_OverrideConnectTimeout req else 0%Z) = inr v →
        String.length (hex_digits 16 v "") < 8 → B slice_out_of_range) →
  (∀ s, Q s c) → wp B (mlift (customizationHash req m)) Q c.
Proof.
  intros Hb HQ. unfold wp, mlift, customizationHash. destruct (Markers_IsZero m); [by apply HQ|].
  destruct (hash_customization _ _ _) as [e|v] eqn:Hv; [done|]. unfold hash_prefix.
  destruct (String.length _ <? 8) eqn:Hlen; [|by apply HQ]. apply (Hb v eq_refl). by apply Nat.ltb_lt.
Qed.

(** A hash with fewer than eight digits cannot be sliced. *)
Definition short_hash : Prop := ∃ mode proto timeout v,
  hash_customization mode proto timeout = inr v ∧ String.length (hex_digits 16 v "") < 8.

Theorem compile_wp :
  rq_ServiceName req ≠ "" → routed req entries ∨ B nil_dereference → (short_hash → B slice_out_of_range) →
  wp B (compile req entries) (λ ch _, chain_wf ch) (new_compiler entries).
Proof.
  intros Hname Hrouted Hhash. unfold compile. wp_step.
  eapply wpc_mono; [by apply assembleChain_wp|]. intros [] c1 Hc1. do 4 wp_step. unfold id.
  set (c := c_set_caches ∅ ∅ c1).
  assert (assembled c) as Hc by (destruct Hc1; by constructor).
  rewrite decide_False.
  2: { intros He. destruct (ad_start _ _ _ Hc) as [n Hn]. rewrite He, keyed_unnamed in Hn; [done|apply Hc]. }
  wp_step. destruct (detectCircularReferences_spec (c_nodes c) (c_startNode c)) as [[-> Hac]|(p&_&_&->)];
    [apply Hc|apply Hc|apply Hc| |done].
  wp_step. apply wpc_bind. pose proof (flatten_and_trim c Hc Hac) as Hft. apply wp_bind_inv in Hft.
  eapply wpc_mono; [exact Hft|]. intros [] c2 Hc2. apply wpc_bind. eapply wpc_mono; [exact Hc2|].
  intros [] c3 [_ Ht3%trimmed_targets]. clear c c1 Hc Hc1 Hac Hft c2 Hc2. do 4 wp_step. unfold id.
  set (c := c_set_targets _ _ c3) in *. clearbody c. clear c3.
  destruct (negb _ && _) eqn:Hadv; [done|].
  wp_step. apply (wpc_mono _ _ (λ _ c', trimmed c' ∧
    (c_usesAdvancedRoutingFeatures c' = true → disableAdvancedRoutingFeatures req = false →
     enableAdvancedRoutingForProtocol (c_protocol c') = true))).
  { assert (c_usesAdvancedRoutingFeatures c = true → enableAdvancedRoutingForProtocol (c_protocol c) = true) as He.
    { intros Hu. rewrite Hu in Hadv. by destruct (enableAdvancedRoutingForProtocol _). }
    case_decide as Ho; [|by apply wpc_ret; auto]. wp_step. apply wpc_modify. apply wpc_modify.
    split; [destruct Ht3; by constructor|]. intros _ [Hd|Hd]%andb_false_iff; [|by apply negb_false_iff].
    apply bool_decide_eq_false in Hd. tauto. }
  intros [] c' [Ht' He']. do 3 wp_step. unfold id. apply hash_wp.
  - intros v Hv Hlen. apply Hhash. by repeat eexists.
  - intros s. apply wpc_ret. by apply trimmed_wf.
Qed.
End facts.

(** * The order of maps does not decide whether a chain compiles

    Servers range over maps in orders of their own.  Assembling a chain does
    not look at that order, and the loops that do, flattening and pruning,
    cannot fail on an assembled chain: so the same entries compile, or are
    refused with the same error, on every server. *)

(** The same environment with another order. *)
Definition with_order (E : CompilerEnv) (order : nat → list string → list string) : CompilerEnv := {|
  int_overflow := @int_overflow E;
  range_order := order;
  decode_protocol := @decode_protocol E;
  hash_customization := @hash_customization E
|}.
Definition fair (order : nat → list string → list string) : Prop := ∀ n l, order n l ≡ₚ l.
Definition verdict {A} (o : outcome A) : outcome unit := obind o (λ _, Ok tt).

Section loops.
Context `{CompilerEnvLaws}.

Lemma flatten_splits_no_err nodes splits e : flatten_splits nodes splits ≠ Err e.
Proof.
  induction splits as [|s splits IH]; simpl; [done|]. unfold flatten_split.
  destruct (nodes !! _) as [n|]; [|done]. destruct (IsSplitter n); simpl;
    destruct (flatten_splits nodes splits) as [[]| |]; simpl in *; congruence.
Qed.
Lemma flatten_node_no_err b key c e : (flatten_node b key c).1 ≠ Err e.
Proof.
  unfold flatten_node, get_node, mbind', mget, pointed, mlift, modify_node, mmodify.
  destruct (c_nodes c !! key) as [n|]; simpl; [|done]. destruct (IsSplitter n); simpl; [|done].
  pose proof (flatten_splits_no_err (c_nodes c) (gn_Splits n) e).
  destruct (flatten_splits _ _) as [[[] ?]| |]; simpl in *; congruence.
Qed.
Lemma fold_no_err {A B} (f : A → B → CM A) l :
  (∀ a x c e, (f a x c).1 ≠ Err e) → ∀ a c e, (mfold f a l c).1 ≠ Err e.
Proof.
  intros Hf. induction l as [|x l IH]; intros a c e; simpl; [done|]. unfold mbind'.
  pose proof (Hf a x c e). destruct (f a x c) as [[]?]; simpl in *; [apply IH|congruence|done].
Qed.
Lemma flatten_rounds_no_err fuel c e : (flatten_rounds fuel c).1 ≠ Err e.
Proof.
  revert c. induction fuel as [|fuel IH]; intros c; simpl; [done|].
  unfold range_keys, mbind', mget, mmodify, mreturn. simpl.
  match goal with |- context [mfold flatten_node false ?l ?c] =>
    pose proof (fold_no_err flatten_node l flatten_node_no_err false c e);
    destruct (mfold flatten_node false l c) as [[[]| |]?]; simpl in *
  end; [apply IH|done|congruence|done].
Qed.
Lemma reach_loop_no_err g fuel visited todo c e :
  closed g → todo ⊆ dom g → c_nodes c = g → (reach_loop fuel visited todo c).1 ≠ Err e.
Proof.
  intros Hc. revert visited todo c. induction fuel as [|fuel IH]; intros visited todo c Ht Hg; simpl; [done|].
  unfold range_keys, mbind', mget, mmodify, mreturn. simpl.
  pose proof (range_order_perm (c_ranges c) (elements todo)) as Hp.
  destruct (range_order _ _) as [|next keys]; [done|].
  assert (next ∈ todo) as Hin by (rewrite <-elem_of_elements, <-Hp; left).
  case_decide; [done|]. case_decide; [apply IH; [set_solver|done]|]. simpl.
  apply Ht, elem_of_dom in Hin as [n Hn]. rewrite <-Hg in Hn. rewrite Hn. apply IH; [|done].
  intros x [Hx%elem_of_list_to_set|Hx]%elem_of_union; [|set_solver].
  apply elem_of_dom, (Hc next). rewrite <-Hg. by exists n.
Qed.

(** The run of the two loops on an assembled chain. *)
Lemma loops_succeed req entries c :
  assembled req entries c → acyclic_from (c_nodes c) (c_startNode c) →
  ∃ c', (flattenAdjacentSplitterNodes ;;; removeUnusedNodes) c = (Ok tt, c') ∧ framed c c'.
Proof.
  intros Hc Hac. pose proof Hc as [Hs Hk Hcl Hfw Hreach _ _ _ _].
  destruct (acyclic_rank _ _ Hcl Hac Hreach) as [r Hr].
  pose proof (flatten_and_trim req entries (λ _, False) c Hc Hac) as Hft.
  assert (wp (λ _, False) flattenAdjacentSplitterNodes (λ _ c', framed c c' ∧ reshaped (c_nodes c) (c_nodes c') ∧
    closed (c_nodes c') ∧ forward (c_nodes c') ∧ ∀ a b, ¬ sedge (c_nodes c') a b) c) as Hfl.
  { unfold flattenAdjacentSplitterNodes. do 2 wp_step.
    apply (flatten_rounds_wp (λ _, False) _ (size (c_nodes c)) r); [done|done| |lia].
    intros a b (_&Hab&_). by apply Hr. }
  assert (∀ e, (flattenAdjacentSplitterNodes c).1 ≠ Err e) as Hne by (intros e; apply flatten_rounds_no_err).
  unfold wp, mbind' in Hft, Hfl |- *.
  destruct (flattenAdjacentSplitterNodes c) as [[[]|e|w] c1]; [|by destruct (Hne e)|done].
  destruct Hfl as (Hf&Hsh&Hcl1&_).
  assert (∀ e, (removeUnusedNodes c1).1 ≠ Err e) as Hne'.
  { intros e. unfold removeUnusedNodes, mbind', mget.
    assert (({[c_startNode c1]} : gset string) ⊆ dom (c_nodes c1)) as Hd.
    { intros x ->%elem_of_singleton. apply elem_of_dom. destruct Hf as [-> _], Hs as [n Hn].
      specialize (Hsh (c_startNode c)). rewrite Hn in Hsh. by destruct (c_nodes c1 !! _). }
    pose proof (reach_loop_no_err (c_nodes c1) (reach_fuel (c_nodes c1)) ∅ _ c1 e Hcl1 Hd eq_refl) as Hn.
    destruct (reach_loop _ _ _ c1) as [[]?]; simpl in *; [by case_decide|congruence|done]. }
  destruct (removeUnusedNodes c1) as [[[]|e|w] c2]; [|by destruct (Hne' e)|done].
  exists c2. split; [done|]. apply Hft.
Qed.
End loops.

Section order.
Context (E : CompilerEnv) (req : CompileRequest) (o1 o2 : nat → list string → list string).
Context (H1 : fair o1) (H2 : fair o2).
#[local] Instance laws1 : @CompilerEnvLaws (with_order E o1) := H1.
#[local] Instance laws2 : @CompilerEnvLaws (with_order E o2) := H2.

Lemma assembleChain_order entries :
  @assembleChain (with_order E o1) req entries = @assembleChain (with_order E o2) req entries.
Proof. reflexivity. Qed.

(** Two runs of the loops leave what the end of the compilation looks at. *)
Lemma loops_agree entries c :
  assembled req entries c → acyclic_from (c_nodes c) (c_startNode c) → ∃ c1 c2,
    (@flattenAdjacentSplitterNodes (with_order E o1) ;;; @removeUnusedNodes (with_order E o1)) c = (Ok tt, c1) ∧
    (@flattenAdjacentSplitterNodes (with_order E o2) ;;; @removeUnusedNodes (with_order E o2)) c = (Ok tt, c2) ∧
    c_usesAdvancedRoutingFeatures c1 = c_usesAdvancedRoutingFeatures c2 ∧
    c_protocol c1 = c_protocol c2 ∧ c_customizedBy c1 = c_customizedBy c2.
Proof using H1 H2.
  intros Hc Hac.
  destruct (@loops_succeed (with_order E o1) _ req entries c Hc Hac) as (c1&Hr1&_&_&_&Hu1&Hp1&Hb1).
  destruct (@loops_succeed (with_order E o2) _ req entries c Hc Hac) as (c2&Hr2&_&_&_&Hu2&Hp2&Hb2).
  exists c1, c2. split_and!; [done|done|congruence..].
Qed.
Lemma bind_assoc {S A} (m1 m2 : M S unit) (k : M S A) (s : S) : (m1 ;;; m2 ;;; k) s = ((m1 ;;; m2) ;;; k) s.
Proof. unfold mbind'. by destruct (m1 s) as [[]?]. Qed.

Lemma bind_run {S A B} (m : M S A) (k : A → M S B) s a s' : m s = (Ok a, s') → mbind' m k s = k a s'.
Proof. unfold mbind'. by intros ->. Qed.
Lemma bind_modify {S A} (f : S → S) (k : M S A) s : (mmodify f ;;; k) s = k (f s).
Proof. done. Qed.
Lemma bind_get {S A B} (f : S → A) (k : A → M S B) s : (let* x := mget f in k x) s = k (f s) s.
Proof. done. Qed.

Lemma compile_order entries c0 :
  (∀ c, @assembleChain (with_order E o2) req entries c0 = (Ok tt, c) → assembled req entries c) →
  verdict (@compile (with_order E o1) req entries c0).1 = verdict (@compile (with_order E o2) req entries c0).1.
Proof using H1 H2.
  intros Has. unfold compile. rewrite (assembleChain_order entries).
  destruct (@assembleChain (with_order E o2) req entries c0) as [[[]|e|w] c1] eqn:Hrun;
    [|unfold mbind'; by rewrite Hrun..].
  specialize (Has c1 eq_refl). rewrite !(bind_run _ _ _ _ _ Hrun), !bind_modify, !bind_get. unfold id.
  set (c := c_set_caches ∅ ∅ c1).
  assert (assembled req entries c) as Hc by (destruct Has; by constructor).
  case_decide; [done|].
  destruct (detectCircularReferences_spec (c_nodes c) (c_startNode c)) as [[-> Hac]|(p&_&_&->)];
    [apply Hc|apply Hc|apply Hc| |done].
  destruct (loops_agree entries c Hc Hac) as (c2&c2'&Hr1&Hr2&Hu&Hp&Hb).
  rewrite !(bind_run (mlift (Ok tt)) _ c tt c eq_refl).
  rewrite (bind_assoc (@flattenAdjacentSplitterNodes (with_order E o1))),
    (bind_assoc (@flattenAdjacentSplitterNodes (with_order E o2))).
  rewrite !(bind_run _ _ _ _ _ Hr1), !(bind_run _ _ _ _ _ Hr2), !bind_modify, !bind_get. simpl.
  rewrite Hu, Hp. destruct (negb _ && _); [done|].
  case_decide; rewrite ?bind_modify; unfold customized, mbind', mmodify, mget, mlift, mreturn; simpl; rewrite Hb;
    unfold customizationHash; simpl; repeat case_match; done.
Qed.

(** Whether and why a request is refused. *)
Theorem Compile_order :
  verdict (@Compile (with_order E o1) req) = verdict (@Compile (with_order E o2) req).
Proof using H1 H2.
  unfold Compile. repeat case_decide; try done. destruct (rq_Entries req) as [entries|]; [|done].
  apply compile_order. intros c Hrun.
  assert (wp (λ _, True) (@assembleChain (with_order E o2) req entries) (λ _, assembled req entries) (new_compiler entries)) as Hwp.
  { apply assembleChain_wp; [done|by right]. }
  unfold wp in Hwp. by rewrite Hrun in Hwp.
Qed.
End order.
