(* ===== verification/DiscoveryMarkers.v ===== *)
(** * Chains compiled without overrides

    The compiler marks a chain as customized only where an override of the
    request applies.  Without overrides nothing is marked, the customization
    hash is not computed, and the compiler cannot panic on it: on entries
    whose routes have destinations, it does not panic at all. *)

From S2P Require Import Prelude Memdb ProxyConfig ConfigEntries DiscoveryChain DiscoveryGraph DiscoveryAssemble DiscoveryFacts Logic.

Definition marks_kept (c c' : compiler) : Prop := c_customizedBy c' = c_customizedBy c.
#[export] Instance marks_kept_refl : Reflexive marks_kept.
Proof. done. Qed.
#[export] Instance marks_kept_trans : Transitive marks_kept.
Proof. intros c1 c2 c3. unfold marks_kept. congruence. Qed.

Abbreviation unmarked := (Logic.framed marks_kept).
Lemma unmarked_modify f : (∀ c, marks_kept c (f c)) → unmarked (mmodify f).
Proof. intros Hf c. apply Hf. Qed.
Lemma unmarked_fold {A B} (f : B → A → CM B) l : (∀ b x, unmarked (f b x)) → ∀ b, unmarked (mfold f b l).
Proof.
  intros Hf. induction l as [|x l IH]; intros b; simpl; [by apply framed_ret; apply _|].
  apply framed_bind; [apply _|apply Hf|apply IH].
Qed.

Create HintDb unmarked.
Ltac unmarked_step :=
  first
    [ solve [auto with unmarked nocore]
    | apply framed_ret; apply _
    | apply framed_throw; apply _
    | apply framed_panic; apply _
    | apply framed_get; apply _
    | apply framed_lift; apply _
    | apply unmarked_modify; intros ?; reflexivity
    | apply framed_bind; [apply _| |intros ?]
    | apply framed_for; [apply _|apply _|intros ?]
    | apply framed_mmap; [apply _|apply _|intros ?]
    | apply unmarked_fold; intros ??
    | progress cbn beta iota zeta
    | match goal with |- Logic.framed _ (match ?x with _ => _ end) => destruct x end ].
Ltac unmarked_tac := repeat unmarked_step.

Section unmarked.
Context `{CompilerEnv} (req : CompileRequest) (entries : DiscoveryChainConfigEntries).
(** No overrides. *)
Record plain : Prop := {
  pl_gateway : mg_Mode (rq_OverrideMeshGateway req) = MeshGatewayModeDefault;
  pl_protocol : rq_OverrideProtocol req = "";
  pl_timeout : (rq_OverrideConnectTimeout req ≤ 0)%Z
}.
Hypothesis Hplain : plain.

Lemma plain_enabled : disableAdvancedRoutingFeatures req = false.
Proof using Hplain. unfold disableAdvancedRoutingFeatures. by rewrite (pl_protocol Hplain). Qed.
Lemma unmarked_recordNode n : unmarked (recordNode n).
Proof using Type. unfold recordNode, pointed. unmarked_tac. Qed.
Lemma unmarked_recordServiceProtocol name : unmarked (recordServiceProtocol req entries name).
Proof using Type. unfold recordServiceProtocol, recordProtocol. unmarked_tac. Qed.
Lemma unmarked_get_target id : unmarked (get_target id).
Proof using Type. unfold get_target, pointed. unmarked_tac. Qed.
Lemma unmarked_get_node key : unmarked (get_node key).
Proof using Type. unfold get_node, pointed. unmarked_tac. Qed.
Lemma unmarked_modify_target id f : unmarked (modify_target id f).
Proof using Type. unfold modify_target. unmarked_tac. Qed.
Lemma unmarked_modify_node id f : unmarked (modify_node id f).
Proof using Type. unfold modify_node. unmarked_tac. Qed.
Lemma unmarked_newTarget service subset namespace dc : unmarked (newTarget req service subset namespace dc).
Proof using Type. unfold newTarget. unmarked_tac. Qed.
#[local] Hint Resolve unmarked_recordNode unmarked_recordServiceProtocol unmarked_get_target unmarked_get_node
  unmarked_modify_target unmarked_modify_node unmarked_newTarget : unmarked.
Lemma unmarked_rewriteTarget id service subset namespace dc :
  unmarked (rewriteTarget req id service subset namespace dc).
Proof using Type. unfold rewriteTarget. unmarked_tac. Qed.
#[local] Hint Resolve unmarked_rewriteTarget : unmarked.
Lemma unmarked_resolve fuel : ∀ order target, unmarked (resolve req entries fuel order target).
Proof using Type. induction fuel as [|fuel IH]; intros order target; simpl; unfold get_resolver; unmarked_tac. Qed.
Lemma unmarked_resolver_timeout r : unmarked (resolver_timeout req r).
Proof using Hplain.
  unfold resolver_timeout. pose proof (pl_timeout Hplain). rewrite (decide_False (P := _ ∧ _)) by lia. unmarked_tac.
Qed.
Lemma unmarked_target_gateway target : unmarked (target_gateway req entries target).
Proof using Hplain.
  unfold target_gateway. rewrite (pl_gateway Hplain). unmarked_tac.
Qed.
#[local] Hint Resolve unmarked_resolve unmarked_resolver_timeout unmarked_target_gateway : unmarked.
Lemma unmarked_build_resolver_node target r : unmarked (build_resolver_node req entries target r).
Proof using Hplain. unfold build_resolver_node, check_external. unmarked_tac. Qed.
#[local] Hint Resolve unmarked_build_resolver_node : unmarked.
Lemma unmarked_getResolverNode target : unmarked (getResolverNode req entries target).
Proof using Hplain.
  unfold getResolverNode, failover_targets, failover_target, failover_node_target, getResolverNode_failover, pointed.
  unmarked_tac.
Qed.
#[local] Hint Resolve unmarked_getResolverNode : unmarked.
Lemma unmarked_getSplitterNode fuel : ∀ name, unmarked (getSplitterNode req entries fuel name).
Proof using Hplain.
  induction fuel as [|fuel IH]; intros name; simpl; [unmarked_tac|]. rewrite plain_enabled.
  unfold append_split. unmarked_tac.
Qed.
#[local] Hint Resolve unmarked_getSplitterNode : unmarked.
Lemma unmarked_assembleChain : unmarked (assembleChain req entries).
Proof using Hplain.
  unfold assembleChain, get_router, default_next, compile_route, getSplitterOrResolverNode, pointed.
  rewrite plain_enabled. unmarked_tac.
Qed.
Lemma unmarked_flatten : unmarked flattenAdjacentSplitterNodes.
Proof using Type.
  unfold flattenAdjacentSplitterNodes.
  assert (∀ fuel, unmarked (flatten_rounds fuel)) as Hr.
  { induction fuel as [|fuel IH]; simpl; unfold flatten_node, range_keys; unmarked_tac. }
  unmarked_tac.
Qed.
Lemma unmarked_removeUnusedNodes : unmarked removeUnusedNodes.
Proof using Type.
  unfold removeUnusedNodes.
  assert (∀ fuel v t, unmarked (reach_loop fuel v t)) as Hr.
  { induction fuel as [|fuel IH]; intros v t; simpl; unfold range_keys; unmarked_tac. }
  unmarked_tac.
Qed.
End unmarked.

(** ** No hash *)

(** The same environment, whose hash always fails. *)
Definition hashless (E : CompilerEnv) : CompilerEnv := {|
  int_overflow := @int_overflow E;
  range_order := @range_order E;
  decode_protocol := @decode_protocol E;
  hash_customization _ _ _ := inl (EMsg "" [])
|}.
Lemma bind_unmarked {A B} (m : CM A) (k1 k2 : A → CM B) c :
  unmarked m → Markers_IsZero (c_customizedBy c) = true →
  (∀ a c', Markers_IsZero (c_customizedBy c') = true → k1 a c' = k2 a c') → mbind' m k1 c = mbind' m k2 c.
Proof.
  intros Hm Hc Hk. unfold mbind'. specialize (Hm c). unfold marks_kept in Hm.
  destruct (m c) as [[a| |] c']; simpl in Hm; [|done..]. apply Hk. by rewrite Hm.
Qed.

Section hashless.
Context (E : CompilerEnv) `{!CompilerEnvLaws} (req : CompileRequest) (entries : DiscoveryChainConfigEntries).
Hypothesis Hplain : plain req.
#[local] Instance hashless_laws : @CompilerEnvLaws (hashless E) := @range_order_perm E _.

Ltac same_run := apply bind_unmarked; [|done|intros ???].
Lemma compile_hashless :
  @compile E req entries (new_compiler entries) = @compile (hashless E) req entries (new_compiler entries).
Proof using Hplain.
  unfold compile. change (@assembleChain (hashless E)) with (@assembleChain E).
  change (@flattenAdjacentSplitterNodes (hashless E)) with (@flattenAdjacentSplitterNodes E).
  change (@removeUnusedNodes (hashless E)) with (@removeUnusedNodes E).
  same_run; [by apply unmarked_assembleChain|]. same_run; [unmarked_tac|]. same_run; [unmarked_tac|].
  case_decide; [done|]. same_run; [unmarked_tac|]. same_run; [by apply unmarked_flatten|].
  same_run; [by apply unmarked_removeUnusedNodes|]. same_run; [unmarked_tac|].
  rewrite !bind_get. unfold id. destruct (negb _ && _); [done|].
  rewrite (pl_protocol _ Hplain), !decide_False by tauto. same_run; [unmarked_tac|].
  rewrite !bind_get. unfold id, customizationHash. by match goal with Hz : Markers_IsZero _ = true |- _ => rewrite Hz end.
Qed.

(** Entries whose routes have destinations compile or are refused. *)
Theorem plain_no_panic w :
  rq_Entries req = Some entries → routed req entries → Compile req ≠ Panic w.
Proof using All.
  intros He Hr. unfold Compile. repeat case_decide; try done. rewrite He, compile_hashless.
  assert (DiscoveryGraph.wp (λ _, False) (@compile (hashless E) req entries) (λ ch _, chain_wf ch) (new_compiler entries)) as Hwp.
  { apply compile_wp; [done|by left|]. by intros (mode&proto&timeout&v&Hv&_). }
  unfold DiscoveryGraph.wp in Hwp. by destruct (@compile (hashless E) req entries _) as [[]?].
Qed.
End hashless.
