(* ===== verification/DiscoveryProps.v ===== *)
(** * Properties of compiled discovery chains

    [Compile] returns for every request, and what it returns can be walked;
    then five behaviours that the callers may not expect. *)

From S2P Require Import Prelude Memdb ProxyConfig ConfigEntries ConfigValidate DiscoveryChain DiscoveryGraph.
From S2P Require Import DiscoveryLoops DiscoveryNodes DiscoveryAssemble DiscoveryFacts.

Section props.
Context `{CompilerEnvLaws}.

#[local] Instance routed_dec req entries : Decision (routed req entries).
Proof.
  destruct (GetRouter entries (rq_ServiceName req)) as [rtr|] eqn:Hr.
  - destruct (decide (Forall (λ r, is_Some (route_Destination r)) (rtr_Routes rtr))) as [Hd|Hd].
    + left. intros rtr' Hr'. congruence.
    + right. intros Hx. by apply Hd, Hx.
  - left. intros rtr' Hr'. congruence.
Defined.

(** Where a compilation may stop without an answer. *)
Definition blame (req : CompileRequest) (w : string) : Prop :=
  (w = nil_dereference ∧ ∃ entries, rq_Entries req = Some entries ∧ ¬ routed req entries) ∨
  (w = slice_out_of_range ∧ short_hash).

Lemma Compile_wp req :
  match Compile req with Ok ch => chain_wf ch | Err _ => True | Panic w => blame req w end.
Proof.
  unfold Compile. repeat case_decide; try done. destruct (rq_Entries req) as [entries|] eqn:He; [|done].
  assert (wp (blame req) (compile req entries) (λ ch _, chain_wf ch) (new_compiler entries)) as Hwp.
  { apply compile_wp; [done| |by right].
    destruct (decide (routed req entries)); [by left|right]. left. split; [done|by exists entries]. }
  unfold wp in Hwp. by destruct (compile req entries (new_compiler entries)) as [[]?].
Qed.

(** C39. Compiling a discovery chain ends: whatever the config entries, the
    order in which the runtime ranges over maps, and the overrides of the
    request, following redirects, recursing into splitters, searching for
    cycles, flattening and pruning all stop within their fuel, so that the
    compiler returns a chain or an error.  The only panics are those of a
    router with a route that has no destination, and of a customization hash
    with fewer than eight digits. *)
Theorem Compile_returns req :
  Compile req ≠ Panic out_of_fuel ∧
  ((∀ entries, rq_Entries req = Some entries → routed req entries) → ¬ short_hash → ∀ w, Compile req ≠ Panic w).
Proof.
  pose proof (Compile_wp req) as Hwp. split.
  - intros He. rewrite He in Hwp. by destruct Hwp as [[? _]|[? _]].
  - intros Hr Hh w He. rewrite He in Hwp. destruct Hwp as [[_ (entries&?&?)]|[_ ?]]; naive_solver.
Qed.

(** C40. A compiled chain can be walked: it starts at one of its nodes; every
    edge leads from a router to a splitter or resolver, or from a splitter to
    a resolver, so that a walk ends after two steps; every node can be reached
    from the start; resolvers and their failovers name targets of the chain;
    and there are routers or splitters only under a protocol that permits
    them. *)
Theorem Compile_wf req ch :
  Compile req = Ok ch → chain_wf ch.
Proof. intros He. pose proof (Compile_wp req) as Hwp. by rewrite He in Hwp. Qed.
End props.

(** ** Sample entries *)

Module ChainSample.
(** Maps are ranged over in the order of their keys, or in the reverse. *)
Definition env : (list string → list string) → CompilerEnv := sample_env.
Definition service (protocol name : string) : string * ServiceConfigEntry :=
  (name, mkServiceConfig ServiceDefaults name protocol (mkMeshGateway "") no_expose "" no_raft).
(** A weight in hundredths of a percent. *)
Definition weight (z : Z) : f32 := f32_div (f32_of_Z z) (f32_of_Z 100).
Definition splitter (name : string) (l : list (Z * string)) : string * ServiceSplitterConfigEntry :=
  (name, mkSplitter ServiceSplitter name ((λ '(w, s), mkSplit (weight w) s "" "") <$> l) no_raft).
Definition route (dest : option string) : ServiceRoute :=
  mkRoute (Some (mkRouteMatch (Some (mkHTTPMatch "" "/admin" "" [] [] []))))
    ((λ s, mkDestination s "" "" "" 0 0 false []) <$> dest).
Definition router (name : string) (dests : list (option string)) : string * ServiceRouterConfigEntry :=
  (name, mkRouter ServiceRouter name (route <$> dests) no_raft).
Definition resolver (name default_subset : string) (subsets : list string)
    (redirect : option ServiceResolverRedirect) (failover : list (string * ServiceResolverFailover)) :
    string * ServiceResolverConfigEntry :=
  (name, mkResolver ServiceResolver name default_subset (list_to_map ((λ s, (s, no_subset)) <$> subsets)) redirect
           (list_to_map failover) 0 no_raft).
Definition request (name : string) (entries : DiscoveryChainConfigEntries) : CompileRequest :=
  mkCompileRequest name "default" "dc1" "trust.consul" "dc1" (mkMeshGateway "") "" 0 (Some entries).
(** "web" is routed to "admin", which is redirected to another datacenter and
    fails over, and split between "web" and "next", which is split again. *)
Definition entries : DiscoveryChainConfigEntries := mkEntries
  (list_to_map [router "web" [Some "admin"]])
  (list_to_map [splitter "web" [(9000, ""); (1000, "next")]; splitter "next" [(5000, ""); (5000, "beta")]]%Z)
  (list_to_map [resolver "admin" "v1" ["v1"; "v2"] None [("v1", mkFailover "" "v2" "" ["dc2"])];
                resolver "beta" "" [] (Some (mkRedirect "" "" "" "dc3")) []])
  (list_to_map (service "http" <$> ["web"; "next"; "admin"; "beta"])) None.
Definition chain : outcome CompiledDiscoveryChain := @Compile (env id) (request "web" entries).
(** The weights of the first node, in hundredths of a percent, and where they lead. *)
Definition start_weights (r : outcome CompiledDiscoveryChain) : list (Z * string) :=
  match r with
  | Ok ch => match chain_Nodes ch !! chain_StartNode ch with
             | Some n => (λ s, (@scaleWeight (env id) (ds_Weight s), ds_NextNode s)) <$> gn_Splits n
             | None => []
             end
  | _ => []
  end.
End ChainSample.

Lemma Compile_returns_witness :
  @Compile (ChainSample.env id) (ChainSample.request "web" ChainSample.entries) ≠ Panic out_of_fuel ∧
  ∀ w, @Compile (ChainSample.env id) (ChainSample.request "web" ChainSample.entries) ≠ Panic w.
Proof.
  destruct (@Compile_returns (ChainSample.env id) (λ n l, Permutation_refl l)
              (ChainSample.request "web" ChainSample.entries)) as [H1 H2].
  split; [exact H1|]. apply H2.
  - intros entries [= <-] rtr [= <-]. repeat constructor; by eexists.
  - intros (mode&proto&timeout&v&[= <-]&Hv). vm_compute in Hv. lia.
Defined.
Lemma Compile_wf_witness :
  ∃ ch, ChainSample.chain = Ok ch ∧ chain_wf ch ∧ size (chain_Nodes ch) = 6.
Proof.
  assert (match ChainSample.chain with Ok ch => size (chain_Nodes ch) | _ => 0 end = 6) as Hs
    by (vm_compute; reflexivity).
  destruct ChainSample.chain as [ch|e|w] eqn:He; [|discriminate Hs..].
  exists ch. split; [done|]. split; [|done].
  exact (@Compile_wf (ChainSample.env id) (λ n l, Permutation_refl l) _ ch He).
Defined.

(** ** Five surprises *)

(** A router whose route has a match and no destination is valid, and the code
    that serves it handles the absence (agent/xds/routes.go), but compiling
    its chain follows a nil pointer. *)
Lemma route_without_destination_panics :
  let '(name, rtr) := ChainSample.router "web" [None] in
  let entries := mkEntries {[name := rtr]} ∅ ∅ (list_to_map [ChainSample.service "http" name]) None in
  ServiceRouterConfigEntry_Validate rtr = Ok tt ∧
  @Compile (ChainSample.env id) (ChainSample.request name entries) = Panic nil_dereference.
Proof. split; vm_compute; reflexivity. Qed.

(** Three splitters in a row: the weights of the flattened chain depend on the
    order in which the runtime ranges over the nodes, because each of the two
    products is rounded; in one order they add up to 100.01%. *)
Definition nested_splitters : DiscoveryChainConfigEntries := mkEntries ∅
  (list_to_map [ChainSample.splitter "a" [(1000, "b"); (9000, "x")];
                ChainSample.splitter "b" [(5, "c"); (9995, "x")];
                ChainSample.splitter "c" [(8000, "y"); (2000, "x")]]%Z) ∅
  (list_to_map (ChainSample.service "http" <$> ["a"; "b"; "c"; "x"; "y"])) None.
Definition nested_weights (order : list string → list string) : list Z :=
  fst <$> ChainSample.start_weights (@Compile (ChainSample.env order) (ChainSample.request "a" nested_splitters)).
Lemma flattened_weights_depend_on_order :
  ((λ kv, @ServiceSplitterConfigEntry_Validate (ChainSample.env id) kv.2) <$> map_to_list (Splitters nested_splitters))
    = [Ok tt; Ok tt; Ok tt] ∧
  nested_weights id = [1; 0; 1000; 9000]%Z ∧ nested_weights (rev (A:=string)) = [0; 0; 1000; 9000]%Z.
Proof. split_and!; vm_compute; reflexivity. Qed.

(** The identifier of a target does not say where the subset ends: a route to
    the service "v1.web" is sent to the subset "v1" of "web". *)
Lemma dotted_service_is_another_subset :
  let dest svc subset := mkRoute None (Some (mkDestination svc subset "" "" 0 0 false [])) in
  let rtr := mkRouter ServiceRouter "web" [dest "web" "v1"; dest "v1.web" ""] no_raft in
  let entries := mkEntries {["web" := rtr]} ∅ (list_to_map [ChainSample.resolver "web" "" ["v1"] None []])
                   (list_to_map (ChainSample.service "http" <$> ["web"; "v1.web"])) None in
  match @Compile (ChainSample.env id) (ChainSample.request "web" entries) with
  | Ok ch => (λ kt, (kt.1, tg_Service kt.2, tg_ServiceSubset kt.2)) <$> map_to_list (chain_Targets ch) =
             [("web.default.dc1", "web", ""); ("v1.web.default.dc1", "web", "v1")]
  | _ => False
  end.
Proof. vm_compute. reflexivity. Qed.

(** A redirect to another datacenter does not replace the rest of the
    resolver: its default subset still applies. *)
Lemma redirect_keeps_default_subset :
  let entries := mkEntries ∅ ∅
    (list_to_map [ChainSample.resolver "web" "v1" ["v1"] (Some (mkRedirect "" "" "" "dc2")) []]) ∅ None in
  match @Compile (ChainSample.env id) (ChainSample.request "web" entries) with
  | Ok ch => (map_to_list (chain_Targets ch)).*1 = ["v1.web.default.dc2"]
  | _ => False
  end.
Proof. vm_compute. reflexivity. Qed.

(** Weights that come within a hundredth of a percent of the whole are neither
    corrected by normalization nor accepted by validation. *)
Lemma splits_within_epsilon_rejected :
  let third subset := mkSplit (ChainSample.weight 3333) "" subset "" in
  let e := mkSplitter ServiceSplitter "web" [third "v1"; third "v2"; third "v3"] no_raft in
  @ServiceSplitterConfigEntry_Normalize (ChainSample.env id) e = e ∧
  is_ok (@ServiceSplitterConfigEntry_Validate (ChainSample.env id) e) = false.
Proof. split; vm_compute; reflexivity. Qed.
