(* ===== verification/MemdbFacts.v ===== *)
(** * Lemmas on byte strings, accumulation loops and memdb tables *)

From S2P Require Import Prelude Memdb.

(** ** Accumulation loops *)

Section max_loop.
Context {A : Type} (f : A → N).
Lemma max_loop_cons acc x l : max_loop f acc (x :: l) = max_loop f (N.max acc (f x)) l.
Proof.
  unfold max_loop. simpl. f_equal. destruct (N.ltb_spec acc (f x)); lia.
Qed.
Lemma max_loop_acc acc l : (acc ≤ max_loop f acc l)%N.
Proof.
  revert acc. induction l as [|x l IH]; intros acc; [unfold max_loop; simpl; lia|].
  rewrite max_loop_cons. etrans; [|apply IH]. lia.
Qed.
Lemma max_loop_elem acc l x : x ∈ l → (f x ≤ max_loop f acc l)%N.
Proof.
  revert acc. induction l as [|y l IH]; intros acc; [by intros ?%elem_of_nil|].
  rewrite max_loop_cons. intros [->|Hx]%elem_of_cons; [|by apply IH].
  etrans; [|apply max_loop_acc]. lia.
Qed.
Lemma max_loop_le acc l b :
  (acc ≤ b)%N → (∀ x, x ∈ l → (f x ≤ b)%N) → (max_loop f acc l ≤ b)%N.
Proof.
  revert acc. induction l as [|y l IH]; intros acc Hacc Hl; [done|].
  rewrite max_loop_cons. apply IH.
  - pose proof (Hl y ltac:(left)). lia.
  - intros x Hx. apply Hl. by right.
Qed.
Lemma max_loop_attained acc l :
  max_loop f acc l = acc ∨ ∃ x, x ∈ l ∧ max_loop f acc l = f x.
Proof.
  revert acc. induction l as [|y l IH]; intros acc; [by left|].
  rewrite max_loop_cons. destruct (IH (N.max acc (f y))) as [->|(x&Hx&->)].
  - destruct (N.max_spec acc (f y)) as [[_ ->]|[_ ->]]; [right|by left].
    exists y. by split; [left|].
  - right. exists x. by split; [right|].
Qed.
Lemma max_loop_mono acc acc' l l' :
  (acc ≤ acc')%N → (∀ x, x ∈ l → (f x ≤ max_loop f acc' l')%N) →
  (max_loop f acc l ≤ max_loop f acc' l')%N.
Proof. intros H Hl. apply max_loop_le; [|done]. etrans; [done|]. apply max_loop_acc. Qed.
End max_loop.

(** ** Strings *)

Lemma str_app_assoc a b c : (a +:+ b) +:+ c = a +:+ (b +:+ c).
Proof. induction a as [|x a IH]; [done|]. change (String x ((a +:+ b) +:+ c) = String x (a +:+ (b +:+ c))). by rewrite IH. Qed.
Lemma str_app_cons x a b : String x a +:+ b = String x (a +:+ b).
Proof. done. Qed.
Lemma str_app_nil_l a : "" +:+ a = a.
Proof. done. Qed.
Lemma str_app_nil_r a : a +:+ "" = a.
Proof. induction a as [|x a IH]; [done|]. by rewrite str_app_cons, IH. Qed.
Lemma str_length_app a b : String.length (a +:+ b) = String.length a + String.length b.
Proof. induction a as [|x a IH]; [done|]. rewrite str_app_cons. simpl. by rewrite IH. Qed.

Lemma prefix_cons c p d s : String.prefix (String c p) (String d s) = bool_decide (c = d) && String.prefix p s.
Proof.
  change (String.prefix (String c p) (String d s)) with (if ascii_dec c d then String.prefix p s else false).
  destruct (ascii_dec c d); [rewrite bool_decide_true by done|rewrite bool_decide_false by done]; done.
Qed.
Lemma prefix_spec p s : String.prefix p s = true ↔ ∃ r, s = p +:+ r.
Proof.
  revert s. induction p as [|c p IH]; intros [|d s].
  - split; [by exists ""|done].
  - split; [by exists (String d s)|done].
  - split; [discriminate|]. intros [r Hr]. by rewrite str_app_cons in Hr.
  - rewrite prefix_cons, andb_true_iff, bool_decide_eq_true, IH.
    setoid_rewrite str_app_cons. split.
    + intros [-> [r ->]]. by exists r.
    + intros [r [= -> ->]]. eauto.
Qed.
Lemma prefix_refl s : String.prefix s s = true.
Proof. apply prefix_spec. exists "". by rewrite str_app_nil_r. Qed.
Lemma prefix_empty s : String.prefix "" s = true.
Proof. by destruct s. Qed.
Lemma prefix_app p r : String.prefix p (p +:+ r) = true.
Proof. apply prefix_spec. by exists r. Qed.
Lemma prefix_trans a b c : String.prefix a b = true → String.prefix b c = true → String.prefix a c = true.
Proof.
  rewrite !prefix_spec. intros [r ->] [q ->]. exists (r +:+ q). by rewrite str_app_assoc.
Qed.
Lemma prefix_length p s : String.prefix p s = true → String.length p ≤ String.length s.
Proof. rewrite prefix_spec. intros [r ->]. rewrite str_length_app. lia. Qed.

Lemma nul_free_app a b : nul_free (a +:+ b) = nul_free a && nul_free b.
Proof. induction a as [|x a IH]; [done|]. rewrite str_app_cons. simpl. by rewrite IH, andb_assoc. Qed.

Lemma lower_ascii_nul c : Ascii.eqb (lower_ascii c) "000" = Ascii.eqb c "000".
Proof. destruct c as [[] [] [] [] [] [] [] []]; reflexivity. Qed.
Lemma nul_free_lower s : nul_free (to_lower s) = nul_free s.
Proof. induction s as [|c s IH]; simpl; [done|]. by rewrite lower_ascii_nul, IH. Qed.

(** A terminated string without NUL inside is determined by any byte string
    it begins. *)
Lemma terminated_inj a b r q :
  nul_free a → nul_free b → a +:+ nul +:+ r = b +:+ nul +:+ q → a = b ∧ r = q.
Proof.
  unfold nul. revert b. induction a as [|x a IH]; intros [|y b] Ha Hb; simpl in Ha, Hb;
    rewrite ?str_app_cons, ?str_app_nil_l; intros Heq; simplify_eq; try done.
  - apply andb_prop_elim in Ha as [_ Ha]. apply andb_prop_elim in Hb as [_ Hb].
    destruct (IH b) as [-> ->]; done.
Qed.
Lemma str_nul_inj a b : a +:+ nul = b +:+ nul → a = b.
Proof.
  unfold nul. revert b. induction a as [|x a IH]; intros [|y b];
    rewrite ?str_app_cons, ?str_app_nil_l; intros Heq; simplify_eq; try done.
  - destruct b; rewrite ?str_app_nil_l, ?str_app_cons in *; done.
  - destruct a; rewrite ?str_app_nil_l, ?str_app_cons in *; done.
  - f_equal. by apply IH.
Qed.

(** A prefix without NUL of a terminated string is a prefix of the string. *)
Lemma prefix_terminated p s : nul_free p →
  String.prefix p (s +:+ nul) = String.prefix p s.
Proof.
  intros Hp. apply eq_bool_prop_intro. rewrite !Is_true_true, !prefix_spec.
  split; [|intros [r ->]; exists (r +:+ nul); by rewrite str_app_assoc].
  revert s Hp. induction p as [|c p IH]; intros s Hp [r Hr]; [by exists s|].
  simpl in Hp. apply andb_prop_elim in Hp as [Hc Hp]. rewrite str_app_cons in Hr.
  destruct s as [|d s].
  - unfold nul in Hr. rewrite str_app_nil_l in Hr. simplify_eq. done.
  - rewrite str_app_cons in Hr. simplify_eq.
    destruct (IH s Hp) as [q ->]; [by exists r|]. exists q. done.
Qed.

Lemma uuid_parse_no_panic s w : uuid_parse s ≠ Panic w.
Proof. unfold uuid_parse. repeat case_match; done. Qed.

(** ** Sorting *)

Lemma sort_keys_Permutation {A} (l : list (string * A)) : sort_keys l ≡ₚ l.
Proof. apply merge_sort_Permutation. Qed.
Lemma sort_keys_sorted {A} (l : list (string * A)) : StronglySorted key_le (sort_keys l).
Proof. apply StronglySorted_merge_sort; apply _. Qed.
Lemma elem_of_sort_keys {A} (l : list (string * A)) x : x ∈ sort_keys l ↔ x ∈ l.
Proof. by rewrite sort_keys_Permutation. Qed.

(** ** Tables *)

Section tables.
Context {A : Type}.
Implicit Types (t : gmap string A).

Lemma elem_of_table_prefix p t x :
  x ∈ table_prefix p t ↔ ∃ k, t !! k = Some x ∧ String.prefix p k = true.
Proof.
  unfold table_prefix. rewrite list_elem_of_fmap. split.
  - intros ([k y]&->&Hk). rewrite elem_of_sort_keys, list_elem_of_filter in Hk.
    destruct Hk as [Hp Hk%elem_of_map_to_list]. exists k. split; [done|].
    by apply Is_true_true.
  - intros (k&Hk&Hp). exists (k, x). split; [done|].
    rewrite elem_of_sort_keys, list_elem_of_filter. split; [by apply Is_true_true|].
    by apply elem_of_map_to_list.
Qed.
Lemma table_prefix_nil p t :
  table_prefix p t = [] ↔ ∀ k x, t !! k = Some x → String.prefix p k = false.
Proof.
  split.
  - intros Hnil k x Hk. destruct (String.prefix p k) eqn:Hp; [|done].
    assert (x ∈ table_prefix p t) as Hx by (apply elem_of_table_prefix; eauto).
    rewrite Hnil in Hx. by apply elem_of_nil in Hx.
  - intros H. destruct (table_prefix p t) as [|x l] eqn:Hl; [done|].
    assert (x ∈ table_prefix p t) as Hx by (rewrite Hl; left).
    apply elem_of_table_prefix in Hx as (k&Hk&Hp). rewrite (H k x Hk) in Hp. done.
Qed.

Lemma elem_of_table_scan ix p t x :
  x ∈ table_scan ix p t ↔
  ∃ k b, t !! k = Some x ∧ b ∈ index_keys ix k x ∧ String.prefix p b = true.
Proof.
  unfold table_scan. rewrite list_elem_of_fmap. split.
  - intros ([b y]&->&Hb). rewrite elem_of_sort_keys in Hb.
    apply list_elem_of_bind in Hb as ([k z]&Hb&Hk%elem_of_map_to_list).
    apply list_elem_of_bind in Hb as (b'&Hb&Hb').
    rewrite elem_of_remove_dups in Hb'.
    destruct (String.prefix p b') eqn:Hp; [|by apply elem_of_nil in Hb].
    apply list_elem_of_singleton in Hb. simplify_eq/=. eauto.
  - intros (k&b&Hk&Hb&Hp). exists (b, x). split; [done|]. rewrite elem_of_sort_keys.
    apply list_elem_of_bind. exists (k, x). split; [|by apply elem_of_map_to_list].
    apply list_elem_of_bind. exists b. split; [|by apply elem_of_remove_dups]. rewrite Hp. by left.
Qed.

Lemma lookup_delete_prefix p t k :
  table_delete_prefix p t !! k = if String.prefix p k then None else t !! k.
Proof.
  unfold table_delete_prefix. destruct (String.prefix p k) eqn:Hp.
  - apply map_lookup_filter_None. right. intros x Hx. simpl. rewrite Hp. simpl. tauto.
  - destruct (t !! k) eqn:Hk.
    + apply map_lookup_filter_Some. split; [done|]. simpl. rewrite Hp. simpl. tauto.
    + apply map_lookup_filter_None. by left.
Qed.

Lemma delete_prefix_subseteq p t : table_delete_prefix p t ⊆ t.
Proof.
  apply map_subseteq_spec. intros k x. rewrite lookup_delete_prefix. by destruct (String.prefix p k).
Qed.

Context `{TableSchema A}.

(** Every object is filed under its primary key. *)
Definition keyed t : Prop := map_Forall (λ k x, primary_key x = Some k) t.
(** The object passes all the indexers. *)
Definition indexable (x : A) : Prop := is_Some (primary_key x) ∧ check_indexes table_indexes x = Ok tt.

Lemma table_insert_ok t x k :
  primary_key x = Some k → check_indexes table_indexes x = Ok tt →
  table_insert t x = Ok (<[k := x]> t).
Proof.
  unfold primary_key, table_insert. intros Hk Hc.
  destruct (table_id x) as [| |[|k' ?]]; simplify_eq. by rewrite Hc.
Qed.
Lemma check_indexes_no_panic ixs (x : A) w : check_indexes ixs x ≠ Panic w.
Proof. induction ixs as [|ix ixs IH]; simpl; [done|]. repeat case_match; done. Qed.
Lemma table_insert_inv t x o :
  table_insert t x = o →
  match o with
  | Ok t' => ∃ k, primary_key x = Some k ∧ check_indexes table_indexes x = Ok tt ∧ t' = <[k := x]> t
  | Err _ => True
  | Panic _ => False
  end.
Proof.
  intros <-. unfold table_insert, primary_key.
  destruct (table_id x) as [| |[|k ?]]; [done..|].
  destruct (check_indexes table_indexes x) as [[]| |w] eqn:Hc; simpl; [eauto|done|].
  by eapply check_indexes_no_panic.
Qed.
Lemma table_insert_cases t x :
  (∃ k, primary_key x = Some k ∧ check_indexes table_indexes x = Ok tt ∧
        table_insert t x = Ok (<[k := x]> t)) ∨
  (¬ indexable x ∧ ∃ e, table_insert t x = Err e).
Proof.
  pose proof (table_insert_inv t x _ eq_refl) as Hi. unfold indexable.
  destruct (table_insert t x) as [t'|e|w] eqn:Ht; [left|right|done].
  - destruct Hi as (k&Hk&Hc&->). eauto.
  - split; [|eauto]. intros [[k Hk] Hc]. by rewrite (table_insert_ok t x k Hk Hc) in Ht.
Qed.
Lemma table_delete_ok t x k :
  primary_key x = Some k → is_Some (t !! k) → table_delete t x = Ok (delete k t).
Proof.
  unfold primary_key, table_delete. intros Hk [y Hy].
  destruct (table_id x) as [| |[|k' ?]]; simplify_eq. by rewrite Hy.
Qed.
Lemma table_delete_inv t x o :
  table_delete t x = o →
  match o with
  | Ok t' => ∃ k, primary_key x = Some k ∧ is_Some (t !! k) ∧ t' = delete k t
  | Err _ => True
  | Panic _ => False
  end.
Proof.
  intros <-. unfold table_delete, primary_key.
  destruct (table_id x) as [| |[|k ?]]; [done..|]. destruct (t !! k) eqn:?; eauto.
Qed.

Lemma keyed_insert t x k : primary_key x = Some k → keyed t → keyed (<[k := x]> t).
Proof. intros Hx Ht. by apply map_Forall_insert_2. Qed.
Lemma keyed_delete t k : keyed t → keyed (delete k t).
Proof. intros Ht. by apply map_Forall_delete. Qed.
Lemma keyed_empty : keyed ∅.
Proof. apply map_Forall_empty. Qed.
Lemma keyed_delete_prefix p t : keyed t → keyed (table_delete_prefix p t).
Proof.
  intros Ht k x Hk. rewrite lookup_delete_prefix in Hk.
  destruct (String.prefix p k); [done|]. by apply Ht.
Qed.

(** *** Scans of an index that files an object at most once *)

(** Is the object [x] of key [k] filed in [ix] under a key with prefix [p]? *)
Definition filed (ix : IndexSchema A) (p k : string) (x : A) : bool :=
  existsb (String.prefix p) (index_keys ix k x).
Definition single_valued (ix : IndexSchema A) : Prop := ∀ k x, length (index_keys ix k x) ≤ 1.

Lemma filed_spec ix p k x :
  filed ix p k x = true ↔ ∃ b, b ∈ index_keys ix k x ∧ String.prefix p b = true.
Proof.
  unfold filed. rewrite existsb_exists. split; intros (b&Hb&Hp); exists b;
    (split; [|done]); by apply list_elem_of_In.
Qed.
Lemma elem_of_table_scan_filed ix p t x :
  x ∈ table_scan ix p t ↔ ∃ k, t !! k = Some x ∧ filed ix p k x = true.
Proof.
  rewrite elem_of_table_scan. setoid_rewrite filed_spec. split; [intros (k&b&?&?&?)|intros (k&?&b&?&?)]; eauto.
Qed.

Lemma NoDup_keyed_values t : keyed t → NoDup (map_to_list t).*2.
Proof.
  intros Ht. apply NoDup_fmap_2_strong; [|apply NoDup_map_to_list].
  intros [k x] [k' x'] Hk%elem_of_map_to_list Hk'%elem_of_map_to_list. simpl. intros ->.
  apply Ht in Hk, Hk'. by simplify_eq.
Qed.
Lemma index_entries_sublist ix p (l : list (string * A)) : single_valued ix →
  sublist (('(k, x) ← l; b ← remove_dups (index_keys ix k x); if String.prefix p b then [(b, x)] else []).*2) l.*2.
Proof.
  intros Hs. induction l as [|[k x] l IH]; [done|].
  rewrite bind_cons, fmap_app. simpl. specialize (Hs k x).
  destruct (index_keys ix k x) as [|b [|b' bs]]; simpl in *; [by constructor| |lia].
  destruct (String.prefix p b); simpl; by constructor.
Qed.
Lemma NoDup_table_scan ix p t : single_valued ix → keyed t → NoDup (table_scan ix p t).
Proof.
  intros Hs Ht. unfold table_scan. rewrite sort_keys_Permutation.
  eapply sublist_NoDup; [by apply NoDup_keyed_values|]. by apply index_entries_sublist.
Qed.
End tables.

#[export] Hint Resolve keyed_insert keyed_delete keyed_empty keyed_delete_prefix : memdb.

Lemma NoDup_table_prefix {A} `{TableSchema A} p (t : gmap string A) : keyed t → NoDup (table_prefix p t).
Proof.
  intros Hk. unfold table_prefix. rewrite sort_keys_Permutation.
  apply NoDup_fmap_2_strong; [|eapply sublist_NoDup; [apply NoDup_map_to_list|apply sublist_filter]].
  intros [k x] [k' x'] [_ H1%elem_of_map_to_list]%list_elem_of_filter [_ H2%elem_of_map_to_list]%list_elem_of_filter.
  simpl. intros ->. apply Hk in H1, H2. by simplify_eq.
Qed.
