(* ===== verification/Radix.v ===== *)
(** * Radix trees: the interface of github.com/armon/go-radix

    The package is third-party (src/vendor); what the access-control code
    relies on is its documentation: a tree is a dictionary from byte strings,
    [WalkPath] visits the entries above a key from the root down, [WalkPrefix]
    those under a prefix.  The walks are given as the lists of what they visit,
    and a callback that returns true stops them ([walk]).  A finite map is an
    instance. *)

From S2P Require Import Prelude Memdb MemdbFacts.

Class RadixOps (T : Type → Type) := {
  radix_new : ∀ {A}, T A;
  radix_Get : ∀ {A}, string → T A → option A;
  radix_Insert : ∀ {A}, string → A → T A → T A;
  WalkPath : ∀ {A}, string → T A → list (string * A);
  WalkPrefix : ∀ {A}, string → T A → list (string * A);
}.

(** Entries in the order of their length: from the root down. *)
Definition above {A} (x y : string * A) : Prop := String.length x.1 < String.length y.1.

Class RadixTree (T : Type → Type) `{RadixOps T} := {
  radix_get_new {A} k : radix_Get (A := A) k radix_new = None;
  radix_get_insert {A} k k' (x : A) t :
    radix_Get k (radix_Insert k' x t) = if decide (k = k') then Some x else radix_Get k t;
  radix_path {A} s k x (t : T A) :
    (k, x) ∈ WalkPath s t ↔ radix_Get k t = Some x ∧ String.prefix k s = true;
  radix_path_sorted {A} s (t : T A) : StronglySorted above (WalkPath s t);
  radix_prefix {A} s k x (t : T A) :
    (k, x) ∈ WalkPrefix s t ↔ radix_Get k t = Some x ∧ String.prefix s k = true;
}.

(** [tree.WalkPath(segment, fn)] with the variables the closure assigns. *)
Fixpoint walk {A S} (l : list (string * A)) (fn : string → A → S → bool * S) (s : S) : S :=
  match l with
  | [] => s
  | (k, x) :: l => match fn k x s with (true, s) => s | (false, s) => walk l fn s end
  end.

(** ** A finite map as a tree *)

Definition above_le {A} (x y : string * A) : Prop := String.length x.1 ≤ String.length y.1.
#[export] Instance above_le_dec {A} : RelDecision (@above_le A).
Proof. intros x y. unfold above_le. apply _. Defined.
#[export] Instance above_le_trans {A} : Transitive (@above_le A).
Proof. unfold above_le. intros x y z. lia. Qed.
#[export] Instance above_le_total {A} : Total (@above_le A).
Proof. unfold above_le. intros x y. lia. Qed.

Definition entries_where {A} (P : string → bool) (m : gmap string A) : list (string * A) :=
  filter (λ e, P e.1 = true) (map_to_list m).

#[export] Instance map_radix_ops : RadixOps (gmap string) := {
  radix_new A := ∅;
  radix_Get A k m := m !! k;
  radix_Insert A k x m := <[k := x]> m;
  WalkPath A s m := merge_sort above_le (entries_where (λ k, String.prefix k s) m);
  WalkPrefix A s m := sort_keys (entries_where (String.prefix s) m);
}.

Lemma elem_of_entries_where {A} P k x (m : gmap string A) :
  (k, x) ∈ entries_where P m ↔ m !! k = Some x ∧ P k = true.
Proof. unfold entries_where. rewrite list_elem_of_filter, elem_of_map_to_list. simpl. tauto. Qed.

Lemma prefix_same a b s :
  String.prefix a s = true → String.prefix b s = true → String.length a = String.length b → a = b.
Proof.
  revert b s. induction a as [|c a IH]; intros [|d b] [|e s] Ha Hb Hl; try done.
  rewrite prefix_cons, andb_true_iff, bool_decide_eq_true in Ha, Hb.
  destruct Ha as [-> Ha], Hb as [-> Hb]. f_equal. eapply IH; [done..|]. by injection Hl.
Qed.
Lemma prefix_comparable a b s :
  String.prefix a s = true → String.prefix b s = true → String.prefix a b = true ∨ String.prefix b a = true.
Proof.
  revert b s. induction a as [|c a IH]; intros b s Ha Hb; [left; apply prefix_empty|].
  destruct b as [|d b]; [right; apply prefix_empty|]. destruct s as [|e s]; [done|].
  rewrite prefix_cons, andb_true_iff, bool_decide_eq_true in Ha, Hb. destruct Ha as [-> Ha], Hb as [-> Hb].
  rewrite !prefix_cons, !bool_decide_true by done. by apply (IH b s).
Qed.

Lemma sorted_above {A} (l : list (string * A)) s :
  NoDup l.*1 → (∀ k x, (k, x) ∈ l → String.prefix k s = true) → StronglySorted above_le l → StronglySorted above l.
Proof.
  induction l as [|[k x] l IH]; intros Hnd Hp Hs; [constructor|].
  apply list.NoDup_cons in Hnd as [Hk Hnd]. apply StronglySorted_inv in Hs as [Hs Hall]. constructor.
  - apply IH; [done| |done]. intros k' x' Hin. apply (Hp k' x'). by right.
  - rewrite Forall_forall in *. intros [k' x'] Hin%list_elem_of_In. apply list_elem_of_In in Hin as Hin'.
    assert (k ≠ k') as Hne. { intros ->. apply Hk. apply list_elem_of_fmap. by exists (k', x'). }
    specialize (Hall (k', x') ltac:(by apply list_elem_of_In)). unfold above, above_le in *. simpl in *.
    destruct (decide (String.length k = String.length k')) as [Heq|]; [|lia]. destruct Hne.
    eapply prefix_same; [apply (Hp k x); left|apply (Hp k' x'); by right|done].
Qed.

#[export] Instance map_radix : RadixTree (gmap string).
Proof.
  split.
  - done.
  - intros A k k' x t. simpl. case_decide; subst; [apply lookup_insert_eq|by apply lookup_insert_ne].
  - intros A s k x t. simpl. by rewrite merge_sort_Permutation, elem_of_entries_where.
  - intros A s t. simpl. apply (sorted_above _ s).
    + rewrite merge_sort_Permutation. unfold entries_where.
      apply (sublist_NoDup _ (map_to_list t).*1); [apply NoDup_fst_map_to_list|]. apply fmap_sublist, sublist_filter.
    + intros k x. rewrite merge_sort_Permutation, elem_of_entries_where. tauto.
    + apply StronglySorted_merge_sort; apply _.
  - intros A s k x t. simpl. unfold sort_keys. by rewrite merge_sort_Permutation, elem_of_entries_where.
Qed.
