(* ===== verification/Acl.v ===== *)
(** * Access-control policies (acl/policy.go)

    Policies point at their service rules, and merging policies writes through
    those pointers; so service rules live in a heap.  The rules of the other
    kinds are never written and are values. *)

From stdpp Require Import pretty.
From S2P Require Import Prelude.

Definition PolicyDeny : string := "deny".
Definition PolicyRead : string := "read".
Definition PolicyWrite : string := "write".
Definition PolicyList : string := "list".

(** ** Rules and policies *)

Record AgentPolicy := mkAgentPolicy { agp_Node : string; agp_Policy : string }.
Record KeyPolicy := mkKeyPolicy { kp_Prefix : string; kp_Policy : string }.
Record NodePolicy := mkNodePolicy { np_Name : string; np_Policy : string }.
Record ServicePolicy := mkServicePolicy { sp_Name : string; sp_Policy : string; sp_Intentions : string }.
Record SessionPolicy := mkSessionPolicy { ssp_Node : string; ssp_Policy : string }.
Record EventPolicy := mkEventPolicy { ep_Event : string; ep_Policy : string }.
Record PreparedQueryPolicy := mkPreparedQueryPolicy { qp_Prefix : string; qp_Policy : string }.

(** The kinds of rules that hold a segment (a name or a prefix) and one permission. *)
Class RuleKind (A : Type) := { rule_segment : A → string; rule_policy : A → string }.
#[export] Instance agent_rule : RuleKind AgentPolicy := {| rule_segment := agp_Node; rule_policy := agp_Policy |}.
#[export] Instance key_rule : RuleKind KeyPolicy := {| rule_segment := kp_Prefix; rule_policy := kp_Policy |}.
#[export] Instance node_rule : RuleKind NodePolicy := {| rule_segment := np_Name; rule_policy := np_Policy |}.
#[export] Instance session_rule : RuleKind SessionPolicy := {| rule_segment := ssp_Node; rule_policy := ssp_Policy |}.
#[export] Instance event_rule : RuleKind EventPolicy := {| rule_segment := ep_Event; rule_policy := ep_Policy |}.
#[export] Instance query_rule : RuleKind PreparedQueryPolicy := {| rule_segment := qp_Prefix; rule_policy := qp_Policy |}.

(** Pointers to service rules. *)
Notation loc := positive.
Notation heap := (gmap positive ServicePolicy).
Definition load (l : loc) : M heap ServicePolicy := λ h,
  match h !! l with
  | Some sp => (Ok sp, h)
  | None => (Panic "invalid memory address or nil pointer dereference", h)
  end.
Definition store (l : loc) (sp : ServicePolicy) : M heap unit := mmodify (λ h, <[l := sp]> h).

Record Policy := mkPolicy {
  po_ID : string;
  po_Revision : N;
  po_ACL : string;
  Agents : list AgentPolicy;
  AgentPrefixes : list AgentPolicy;
  Keys : list KeyPolicy;
  KeyPrefixes : list KeyPolicy;
  Nodes : list NodePolicy;
  NodePrefixes : list NodePolicy;
  Services : list loc;
  ServicePrefixes : list loc;
  Sessions : list SessionPolicy;
  SessionPrefixes : list SessionPolicy;
  Events : list EventPolicy;
  EventPrefixes : list EventPolicy;
  PreparedQueries : list PreparedQueryPolicy;
  PreparedQueryPrefixes : list PreparedQueryPolicy;
  po_Keyring : string;
  po_Operator : string;
}.

(** ** Parsing

    HCL decoding is third-party: [decode] and [decodeLegacy] allocate the
    rules of a source text. *)

Definition isPolicyValid (policy : string) : bool :=
  bool_decide (policy = PolicyDeny) || bool_decide (policy = PolicyRead) || bool_decide (policy = PolicyWrite).
Definition isKeyPolicyValid (policy : string) : bool :=
  bool_decide (policy = PolicyList) || isPolicyValid policy.

Definition validate_one (msg policy : string) : M heap unit :=
  if negb (bool_decide (policy = "")) && negb (isPolicyValid policy) then mthrow (EMsg msg [policy]) else mreturn tt.
Definition validate {A} `{RuleKind A} (msg : string) (valid : string → bool) (rules : list A) : M heap unit :=
  for r in rules do
    (if valid (rule_policy r) then mreturn tt else mthrow (EMsg msg [rule_segment r; rule_policy r])).
Definition validate_services (msg msgIntentions : string) (rules : list loc) : M heap unit :=
  for l in rules do
    (let* sp := load l in
     if negb (isPolicyValid (sp_Policy sp)) then mthrow (EMsg msg [sp_Name sp; sp_Policy sp])
     else if negb (bool_decide (sp_Intentions sp = "")) && negb (isPolicyValid (sp_Intentions sp))
     then mthrow (EMsg msgIntentions [sp_Name sp; sp_Intentions sp])
     else mreturn tt).

(** The struct [LegacyPolicy] of [parseLegacy]. *)
Record LegacyPolicy := mkLegacyPolicy {
  lp_Agents : list AgentPolicy;
  lp_Keys : list KeyPolicy;
  lp_Nodes : list NodePolicy;
  lp_Services : list loc;
  lp_Sessions : list SessionPolicy;
  lp_Events : list EventPolicy;
  lp_PreparedQueries : list PreparedQueryPolicy;
  lp_Keyring : string;
  lp_Operator : string;
}.

Definition SyntaxCurrent : Z := 0.
Definition SyntaxLegacy : Z := 1.
Definition empty_policy (id : string) (revision : N) : Policy :=
  mkPolicy id revision "" [] [] [] [] [] [] [] [] [] [] [] [] [] [] "" "".
Definition policy_set_id (id : string) (revision : N) (p : Policy) : Policy :=
  mkPolicy id revision (po_ACL p) (Agents p) (AgentPrefixes p) (Keys p) (KeyPrefixes p) (Nodes p) (NodePrefixes p)
    (Services p) (ServicePrefixes p) (Sessions p) (SessionPrefixes p) (Events p) (EventPrefixes p)
    (PreparedQueries p) (PreparedQueryPrefixes p) (po_Keyring p) (po_Operator p).

Section parse.
Variable decode : string → M heap Policy.
Variable decodeLegacy : string → M heap LegacyPolicy.

Definition parseCurrent (rules : string) : M heap Policy :=
  let* p := mwrap "Failed to parse ACL rules" (decode rules) in
  validate_one "Invalid acl policy" (po_ACL p) ;;;
  validate "Invalid agent policy" isPolicyValid (Agents p) ;;;
  validate "Invalid agent_prefix policy" isPolicyValid (AgentPrefixes p) ;;;
  validate "Invalid key policy" isKeyPolicyValid (Keys p) ;;;
  validate "Invalid key_prefix policy" isKeyPolicyValid (KeyPrefixes p) ;;;
  validate "Invalid node policy" isPolicyValid (Nodes p) ;;;
  validate "Invalid node_prefix policy" isPolicyValid (NodePrefixes p) ;;;
  validate_services "Invalid service policy" "Invalid service intentions policy" (Services p) ;;;
  validate_services "Invalid service_prefix policy" "Invalid service_prefix intentions policy" (ServicePrefixes p) ;;;
  validate "Invalid session policy" isPolicyValid (Sessions p) ;;;
  validate "Invalid session_prefix policy" isPolicyValid (SessionPrefixes p) ;;;
  validate "Invalid event policy" isPolicyValid (Events p) ;;;
  validate "Invalid event_prefix policy" isPolicyValid (EventPrefixes p) ;;;
  validate "Invalid query policy" isPolicyValid (PreparedQueries p) ;;;
  validate "Invalid query_prefix policy" isPolicyValid (PreparedQueryPrefixes p) ;;;
  validate_one "Invalid keyring policy" (po_Keyring p) ;;;
  validate_one "Invalid operator policy" (po_Operator p) ;;;
  mreturn p.

(** Legacy rules become prefix rules; each loop appends the rules it accepts. *)
Definition parseLegacy (rules : string) : M heap Policy :=
  let* lp := mwrap "Failed to parse ACL rules" (decodeLegacy rules) in
  validate "Invalid agent policy" isPolicyValid (lp_Agents lp) ;;;
  validate "Invalid key policy" isKeyPolicyValid (lp_Keys lp) ;;;
  validate "Invalid node policy" isPolicyValid (lp_Nodes lp) ;;;
  validate_services "Invalid service policy" "Invalid service intentions policy" (lp_Services lp) ;;;
  validate "Invalid session policy" isPolicyValid (lp_Sessions lp) ;;;
  validate "Invalid event policy" isPolicyValid (lp_Events lp) ;;;
  validate "Invalid query policy" isPolicyValid (lp_PreparedQueries lp) ;;;
  validate_one "Invalid keyring policy" (lp_Keyring lp) ;;;
  validate_one "Invalid operator policy" (lp_Operator lp) ;;;
  mreturn (mkPolicy "" 0 "" [] (lp_Agents lp) [] (lp_Keys lp) [] (lp_Nodes lp) [] (lp_Services lp)
             [] (lp_Sessions lp) [] (lp_Events lp) [] (lp_PreparedQueries lp) (lp_Keyring lp) (lp_Operator lp)).

Definition NewPolicyFromSource (id : string) (revision : N) (rules : string) (syntax : Z) : M heap Policy :=
  if decide (rules = "") then mreturn (empty_policy id revision)
  else
    let* policy := (if decide (syntax = SyntaxLegacy) then parseLegacy rules
                    else if decide (syntax = SyntaxCurrent) then parseCurrent rules
                    else mthrow (EMsg "Invalid rules version" [pretty syntax])) in
    mreturn (policy_set_id id revision policy).
End parse.

Definition ConvertToLegacy (p : Policy) : Policy :=
  mkPolicy (po_ID p) (po_Revision p) (po_ACL p) (Agents p ++ AgentPrefixes p) [] (Keys p ++ KeyPrefixes p) []
    (Nodes p ++ NodePrefixes p) [] (Services p ++ ServicePrefixes p) [] (Sessions p ++ SessionPrefixes p) []
    (Events p ++ EventPrefixes p) [] (PreparedQueries p ++ PreparedQueryPrefixes p) [] (po_Keyring p) (po_Operator p).
Definition ConvertFromLegacy (p : Policy) : Policy :=
  mkPolicy (po_ID p) (po_Revision p) "" [] (Agents p) [] (Keys p) [] (Nodes p) [] (Services p)
    [] (Sessions p) [] (Events p) [] (PreparedQueries p) (po_Keyring p) (po_Operator p).

(** ** Merging *)

Definition takesPrecedenceOver (a b : string) : bool :=
  if decide (a = PolicyDeny) then true else if decide (b = PolicyDeny) then false
  else if decide (a = PolicyWrite) then true else if decide (b = PolicyWrite) then false
  else if decide (a = PolicyList) then true else if decide (b = PolicyList) then false
  else if decide (a = PolicyRead) then true else if decide (b = PolicyRead) then false
  else false.

Definition merge_permission (acc policy : string) : string :=
  if takesPrecedenceOver policy acc then policy else acc.
Definition merge_rule {A} `{RuleKind A} (m : gmap string A) (r : A) : gmap string A :=
  match m !! rule_segment r with
  | Some found => if takesPrecedenceOver (rule_policy r) (rule_policy found) then <[rule_segment r := r]> m else m
  | None => <[rule_segment r := r]> m
  end.
Definition merge_service (m : gmap string loc) (l : loc) : M heap (gmap string loc) :=
  let* sp := load l in
  match m !! sp_Name sp with
  | None => mreturn (<[sp_Name sp := l]> m)
  | Some existing =>
      let* e := load existing in
      (if takesPrecedenceOver (sp_Policy sp) (sp_Policy e)
       then store existing (mkServicePolicy (sp_Name e) (sp_Policy sp) (sp_Intentions e)) else mreturn tt) ;;;
      let* sp := load l in
      let* e := load existing in
      (if takesPrecedenceOver (sp_Intentions sp) (sp_Intentions e)
       then store existing (mkServicePolicy (sp_Name e) (sp_Policy e) (sp_Intentions sp)) else mreturn tt) ;;;
      mreturn m
  end.

(** The order in which Go ranges over a map is unspecified. *)
Class MapRange := range : ∀ {A}, gmap string A → list A.
Class MapRangeSpec `{MapRange} : Prop := range_perm : ∀ {A} (m : gmap string A), range m ≡ₚ (map_to_list m).*2.

(** The maps of [MergePolicies]. *)
Record merge_maps := mkMaps {
  mm_acl : string;
  mm_agents : gmap string AgentPolicy;
  mm_agentPrefixes : gmap string AgentPolicy;
  mm_keys : gmap string KeyPolicy;
  mm_keyPrefixes : gmap string KeyPolicy;
  mm_nodes : gmap string NodePolicy;
  mm_nodePrefixes : gmap string NodePolicy;
  mm_services : gmap string loc;
  mm_servicePrefixes : gmap string loc;
  mm_sessions : gmap string SessionPolicy;
  mm_sessionPrefixes : gmap string SessionPolicy;
  mm_events : gmap string EventPolicy;
  mm_eventPrefixes : gmap string EventPolicy;
  mm_queries : gmap string PreparedQueryPolicy;
  mm_queryPrefixes : gmap string PreparedQueryPolicy;
  mm_keyring : string;
  mm_operator : string;
}.
Definition empty_maps : merge_maps := mkMaps "" ∅ ∅ ∅ ∅ ∅ ∅ ∅ ∅ ∅ ∅ ∅ ∅ ∅ ∅ "" "".

Definition merge_policy (mm : merge_maps) (p : Policy) : M heap merge_maps :=
  let* services := mfold merge_service (mm_services mm) (Services p) in
  let* servicePrefixes := mfold merge_service (mm_servicePrefixes mm) (ServicePrefixes p) in
  mreturn (mkMaps (merge_permission (mm_acl mm) (po_ACL p))
    (foldl merge_rule (mm_agents mm) (Agents p)) (foldl merge_rule (mm_agentPrefixes mm) (AgentPrefixes p))
    (foldl merge_rule (mm_keys mm) (Keys p)) (foldl merge_rule (mm_keyPrefixes mm) (KeyPrefixes p))
    (foldl merge_rule (mm_nodes mm) (Nodes p)) (foldl merge_rule (mm_nodePrefixes mm) (NodePrefixes p))
    services servicePrefixes
    (foldl merge_rule (mm_sessions mm) (Sessions p)) (foldl merge_rule (mm_sessionPrefixes mm) (SessionPrefixes p))
    (foldl merge_rule (mm_events mm) (Events p)) (foldl merge_rule (mm_eventPrefixes mm) (EventPrefixes p))
    (foldl merge_rule (mm_queries mm) (PreparedQueries p))
    (foldl merge_rule (mm_queryPrefixes mm) (PreparedQueryPrefixes p))
    (merge_permission (mm_keyring mm) (po_Keyring p)) (merge_permission (mm_operator mm) (po_Operator p))).

Section merge.
Context `{MapRange}.
(** blake2b, a third-party hash. *)
Variable sum256 : string → string.

Definition multiPolicyID (policies : list Policy) : string :=
  sum256 (foldr (λ p s, po_ID p +:+ be64 (po_Revision p) +:+ s) "" policies).

Definition MergePolicies (policies : list Policy) : M heap Policy :=
  let* mm := mfold merge_policy empty_maps policies in
  mreturn (mkPolicy (hex_encode (multiPolicyID policies)) 0 (mm_acl mm)
    (range (mm_agents mm)) (range (mm_agentPrefixes mm)) (range (mm_keys mm)) (range (mm_keyPrefixes mm))
    (range (mm_nodes mm)) (range (mm_nodePrefixes mm)) (range (mm_services mm)) (range (mm_servicePrefixes mm))
    (range (mm_sessions mm)) (range (mm_sessionPrefixes mm)) (range (mm_events mm)) (range (mm_eventPrefixes mm))
    (range (mm_queries mm)) (range (mm_queryPrefixes mm)) (mm_keyring mm) (mm_operator mm)).
End merge.
