(* ===== verification/Authorizer.v ===== *)
(** * Authorizers (acl/acl.go) *)

From S2P Require Import Prelude Radix Acl.

(** ** Rule trees *)

(** [policyAuthorizerRadixLeaf]; the interfaces in it hold a permission, as a
    string or wrapped in a [RulePolicy]. *)
Record leaf := mkLeaf { leaf_exact : option string; leaf_prefix : option string }.

(** [enforce]: allow and recurse. *)
Definition enforce (rule requiredPermission : string) : bool * bool :=
  if decide (rule = PolicyWrite) then (true, false)
  else if decide (rule = PolicyList) then
    if decide (requiredPermission = PolicyList ∨ requiredPermission = PolicyRead) then (true, false) else (false, false)
  else if decide (rule = PolicyRead) then
    if decide (requiredPermission = PolicyRead) then (true, false) else (false, false)
  else if decide (rule = PolicyDeny) then (false, false)
  else (false, true).

Section authorizer.
Context {T : Type → Type} `{RadixOps T}.

Definition getPolicy (segment : string) (tree : T leaf) : option string :=
  walk (WalkPath segment tree) (λ path policies policy,
    if bool_decide (is_Some (leaf_exact policies)) && bool_decide (path = segment)
    then (true, leaf_exact policies)
    else match leaf_prefix policies with
         | Some p => (false, Some p)
         | None => (false, policy)
         end) None.

(** The leaf in a tree is updated in place; nothing else points at it. *)
Definition insertPolicyIntoRadix (segment : string) (tree : T leaf) (exactPolicy prefixPolicy : option string) : T leaf :=
  match radix_Get segment tree with
  | Some policy =>
      radix_Insert segment
        (mkLeaf (match exactPolicy with Some _ => exactPolicy | None => leaf_exact policy end)
                (match prefixPolicy with Some _ => prefixPolicy | None => leaf_prefix policy end)) tree
  | None => radix_Insert segment (mkLeaf exactPolicy prefixPolicy) tree
  end.

(** The loops that load the exact and the prefix rules of a kind. *)
Definition load_rules (exacts prefixes : list (string * string)) : T leaf :=
  foldl (λ t r, insertPolicyIntoRadix r.1 t None (Some r.2))
    (foldl (λ t r, insertPolicyIntoRadix r.1 t (Some r.2) None) radix_new exacts) prefixes.

(** ** Authorizers *)

Record rule_set := mkRuleSet {
  aclRule : string;
  agentRules : T leaf;
  intentionRules : T leaf;
  keyRules : T leaf;
  nodeRules : T leaf;
  serviceRules : T leaf;
  sessionRules : T leaf;
  eventRules : T leaf;
  preparedQueryRules : T leaf;
  keyringRule : string;
  operatorRule : string;
}.

(** The implementations of the interface [Authorizer]. *)
Inductive Authorizer :=
| StaticAuthorizer (allowManage defaultAllow : bool)
| PolicyAuthorizer (parent : Authorizer) (p : rule_set).

Definition AllowAll : Authorizer := StaticAuthorizer false true.
Definition DenyAll : Authorizer := StaticAuthorizer false false.
Definition ManageAll : Authorizer := StaticAuthorizer true true.
Definition RootAuthorizer (id : string) : option Authorizer :=
  if decide (id = "allow") then Some AllowAll
  else if decide (id = "deny") then Some DenyAll
  else if decide (id = "manage") then Some ManageAll
  else None.

(** [if allow, recurse := enforce(rule, perm); !recurse { return allow }],
    then the parent; with a rule that may be missing. *)
Definition enforce_or (rule perm : string) (parent : bool) : bool :=
  let (allow, recurse) := enforce rule perm in if recurse then parent else allow.
Definition enforce_path (tree : T leaf) (segment perm : string) (parent : bool) : bool :=
  match getPolicy segment tree with
  | Some rule => enforce_or rule perm parent
  | None => parent
  end.

Fixpoint ACLRead (a : Authorizer) : bool :=
  match a with
  | StaticAuthorizer m _ => m
  | PolicyAuthorizer parent p => enforce_or (aclRule p) PolicyRead (ACLRead parent)
  end.
Fixpoint ACLWrite (a : Authorizer) : bool :=
  match a with
  | StaticAuthorizer m _ => m
  | PolicyAuthorizer parent p => enforce_or (aclRule p) PolicyWrite (ACLWrite parent)
  end.
Fixpoint Snapshot (a : Authorizer) : bool :=
  match a with
  | StaticAuthorizer m _ => m
  | PolicyAuthorizer parent p => enforce_or (aclRule p) PolicyWrite (Snapshot parent)
  end.
Fixpoint AgentRead (a : Authorizer) (node : string) : bool :=
  match a with
  | StaticAuthorizer _ d => d
  | PolicyAuthorizer parent p => enforce_path (agentRules p) node PolicyRead (AgentRead parent node)
  end.
Fixpoint AgentWrite (a : Authorizer) (node : string) : bool :=
  match a with
  | StaticAuthorizer _ d => d
  | PolicyAuthorizer parent p => enforce_path (agentRules p) node PolicyWrite (AgentWrite parent node)
  end.
Fixpoint EventRead (a : Authorizer) (name : string) : bool :=
  match a with
  | StaticAuthorizer _ d => d
  | PolicyAuthorizer parent p => enforce_path (eventRules p) name PolicyRead (EventRead parent name)
  end.
Fixpoint EventWrite (a : Authorizer) (name : string) : bool :=
  match a with
  | StaticAuthorizer _ d => d
  | PolicyAuthorizer parent p => enforce_path (eventRules p) name PolicyWrite (EventWrite parent name)
  end.
Fixpoint IntentionDefaultAllow (a : Authorizer) : bool :=
  match a with
  | StaticAuthorizer _ d => d
  | PolicyAuthorizer parent _ => IntentionDefaultAllow parent
  end.
Fixpoint IntentionRead (a : Authorizer) (prefix : string) : bool :=
  match a with
  | StaticAuthorizer _ d => d
  | PolicyAuthorizer parent p => enforce_path (intentionRules p) prefix PolicyRead (IntentionRead parent prefix)
  end.
Fixpoint IntentionWrite (a : Authorizer) (prefix : string) : bool :=
  match a with
  | StaticAuthorizer _ d => d
  | PolicyAuthorizer parent p => enforce_path (intentionRules p) prefix PolicyWrite (IntentionWrite parent prefix)
  end.
Fixpoint KeyRead (a : Authorizer) (key : string) : bool :=
  match a with
  | StaticAuthorizer _ d => d
  | PolicyAuthorizer parent p => enforce_path (keyRules p) key PolicyRead (KeyRead parent key)
  end.
Fixpoint KeyList (a : Authorizer) (key : string) : bool :=
  match a with
  | StaticAuthorizer _ d => d
  | PolicyAuthorizer parent p => enforce_path (keyRules p) key PolicyList (KeyList parent key)
  end.
Fixpoint KeyWrite (a : Authorizer) (key : string) : bool :=
  match a with
  | StaticAuthorizer _ d => d
  | PolicyAuthorizer parent p => enforce_path (keyRules p) key PolicyWrite (KeyWrite parent key)
  end.

(** The two walks of [KeyWritePrefix]: whether the prefix is allowed and
    whether a rule was found above it, and whether a rule under it denies. *)
Definition prefix_rules_above (prefix : string) (tree : T leaf) (parentAllows : bool) : bool * bool :=
  walk (WalkPath prefix tree) (λ _ rule acc,
    match leaf_prefix rule with
    | Some p => (false, (bool_decide (p = PolicyWrite), true))
    | None => (false, acc)
    end) (parentAllows, false).
Definition denies_write (rule : option string) : bool :=
  match rule with Some p => negb (bool_decide (p = PolicyWrite)) | None => false end.
Definition rules_under_deny (prefix : string) (tree : T leaf) : bool :=
  walk (WalkPrefix prefix tree) (λ _ rule deny,
    if denies_write (leaf_prefix rule) then (true, true)
    else if denies_write (leaf_exact rule) then (true, true)
    else (false, deny)) false.
Fixpoint KeyWritePrefix (a : Authorizer) (prefix : string) : bool :=
  match a with
  | StaticAuthorizer _ d => d
  | PolicyAuthorizer parent p =>
      let parentAllows := KeyWritePrefix parent prefix in
      let (prefixAllowed, found) := prefix_rules_above prefix (keyRules p) parentAllows in
      if negb prefixAllowed then false
      else if rules_under_deny prefix (keyRules p) then false
      else if found then true
      else parentAllows
  end.

Fixpoint KeyringRead (a : Authorizer) : bool :=
  match a with
  | StaticAuthorizer _ d => d
  | PolicyAuthorizer parent p => enforce_or (keyringRule p) PolicyRead (KeyringRead parent)
  end.
Fixpoint KeyringWrite (a : Authorizer) : bool :=
  match a with
  | StaticAuthorizer _ d => d
  | PolicyAuthorizer parent p => enforce_or (keyringRule p) PolicyWrite (KeyringWrite parent)
  end.
Fixpoint OperatorRead (a : Authorizer) : bool :=
  match a with
  | StaticAuthorizer _ d => d
  | PolicyAuthorizer parent p => enforce_or (operatorRule p) PolicyRead (OperatorRead parent)
  end.
Fixpoint OperatorWrite (a : Authorizer) : bool :=
  match a with
  | StaticAuthorizer _ d => d
  | PolicyAuthorizer parent p => enforce_or (operatorRule p) PolicyWrite (OperatorWrite parent)
  end.
Fixpoint NodeRead (a : Authorizer) (name : string) : bool :=
  match a with
  | StaticAuthorizer _ d => d
  | PolicyAuthorizer parent p => enforce_path (nodeRules p) name PolicyRead (NodeRead parent name)
  end.
Fixpoint NodeWrite (a : Authorizer) (name : string) : bool :=
  match a with
  | StaticAuthorizer _ d => d
  | PolicyAuthorizer parent p => enforce_path (nodeRules p) name PolicyWrite (NodeWrite parent name)
  end.
Fixpoint PreparedQueryRead (a : Authorizer) (prefix : string) : bool :=
  match a with
  | StaticAuthorizer _ d => d
  | PolicyAuthorizer parent p => enforce_path (preparedQueryRules p) prefix PolicyRead (PreparedQueryRead parent prefix)
  end.
Fixpoint PreparedQueryWrite (a : Authorizer) (prefix : string) : bool :=
  match a with
  | StaticAuthorizer _ d => d
  | PolicyAuthorizer parent p => enforce_path (preparedQueryRules p) prefix PolicyWrite (PreparedQueryWrite parent prefix)
  end.
Fixpoint ServiceRead (a : Authorizer) (name : string) : bool :=
  match a with
  | StaticAuthorizer _ d => d
  | PolicyAuthorizer parent p => enforce_path (serviceRules p) name PolicyRead (ServiceRead parent name)
  end.
Fixpoint ServiceWrite (a : Authorizer) (name : string) : bool :=
  match a with
  | StaticAuthorizer _ d => d
  | PolicyAuthorizer parent p => enforce_path (serviceRules p) name PolicyWrite (ServiceWrite parent name)
  end.
Fixpoint SessionRead (a : Authorizer) (node : string) : bool :=
  match a with
  | StaticAuthorizer _ d => d
  | PolicyAuthorizer parent p => enforce_path (sessionRules p) node PolicyRead (SessionRead parent node)
  end.
Fixpoint SessionWrite (a : Authorizer) (node : string) : bool :=
  match a with
  | StaticAuthorizer _ d => d
  | PolicyAuthorizer parent p => enforce_path (sessionRules p) node PolicyWrite (SessionWrite parent node)
  end.

(** ** Construction *)

Definition rules_of {A} `{RuleKind A} (l : list A) : list (string * string) := (λ r, (rule_segment r, rule_policy r)) <$> l.
Definition service_rule (sp : ServicePolicy) : string * string := (sp_Name sp, sp_Policy sp).
(** The permission on the intentions of a service, read or denied when the
    rule does not say. *)
Definition intention_policy (sp : ServicePolicy) : string :=
  if decide (sp_Intentions sp = "") then
    if decide (sp_Policy sp = PolicyRead ∨ sp_Policy sp = PolicyWrite) then PolicyRead else PolicyDeny
  else sp_Intentions sp.
Definition intention_rule (sp : ServicePolicy) : string * string := (sp_Name sp, intention_policy sp).

Context `{MapRange}.
Variable sum256 : string → string.

Definition NewPolicyAuthorizer (parent : Authorizer) (policies : list Policy) : M heap Authorizer :=
  let* policy := MergePolicies sum256 policies in
  let* services := mmap load (Services policy) in
  let* servicePrefixes := mmap load (ServicePrefixes policy) in
  mreturn (PolicyAuthorizer parent (mkRuleSet (po_ACL policy)
    (load_rules (rules_of (Agents policy)) (rules_of (AgentPrefixes policy)))
    (load_rules (intention_rule <$> services) (intention_rule <$> servicePrefixes))
    (load_rules (rules_of (Keys policy)) (rules_of (KeyPrefixes policy)))
    (load_rules (rules_of (Nodes policy)) (rules_of (NodePrefixes policy)))
    (load_rules (service_rule <$> services) (service_rule <$> servicePrefixes))
    (load_rules (rules_of (Sessions policy)) (rules_of (SessionPrefixes policy)))
    (load_rules (rules_of (Events policy)) (rules_of (EventPrefixes policy)))
    (load_rules (rules_of (PreparedQueries policy)) (rules_of (PreparedQueryPrefixes policy)))
    (po_Keyring policy) (po_Operator policy))).
End authorizer.
Arguments Authorizer T : clear implicits.
Arguments rule_set T : clear implicits.
