(* ===== verification/AclCache.v ===== *)
(** * Compiling the policies of a token (agent/structs/acl.go, acl_cache.go)

    The caches are github.com/hashicorp/golang-lru, third-party: a cache is a
    map that, in this model, keeps what it is given; [None] is a cache that is
    not configured. *)

From S2P Require Import Prelude Memdb AclTables Radix Acl Authorizer.

Section cache.
Context {T : Type → Type} `{RadixOps T} `{MapRange}.
Variable decode : string → M heap Policy.
Variable decodeLegacy : string → M heap LegacyPolicy.
Variable sum256 : string → string.

Record ACLCaches := mkACLCaches {
  parsedPolicies : option (gmap string Policy);
  authorizers : option (gmap string (Authorizer T));
}.
Definition GetParsedPolicy (c : ACLCaches) (id : string) : option Policy := parsedPolicies c ≫= λ m, m !! id.
Definition GetAuthorizer (c : ACLCaches) (id : string) : option (Authorizer T) := authorizers c ≫= λ m, m !! id.
Definition PutParsedPolicy (id : string) (policy : Policy) (c : ACLCaches) : ACLCaches :=
  mkACLCaches (insert id policy <$> parsedPolicies c) (authorizers c).
Definition PutAuthorizer (id : string) (authorizer : Authorizer T) (c : ACLCaches) : ACLCaches :=
  mkACLCaches (parsedPolicies c) (insert id authorizer <$> authorizers c).

(** The memory the compiled policies share, and the caches. *)
Record acl_state := mkAclState { as_heap : heap; as_caches : ACLCaches }.
Definition on_heap {A} (m : M heap A) : M acl_state A := λ s,
  let (r, h) := m (as_heap s) in (r, mkAclState h (as_caches s)).
Definition on_caches (f : ACLCaches → ACLCaches) : M acl_state unit :=
  mmodify (λ s, mkAclState (as_heap s) (f (as_caches s))).

(** The hash that [SetHash(false)] leaves in the policy: the one it has, or
    that of its contents. *)
Definition ACLPolicy_SetHash (p : ACLPolicy) : string :=
  match acp_Hash p with
  | Some hash => hash
  | None => sum256 (acp_Name p +:+ acp_Description p +:+ acp_Rules p +:+ foldr String.append "" (acp_Datacenters p))
  end.

Definition ACLPolicies_HashKey (policies : list ACLPolicy) : string :=
  hex_encode (sum256 (foldr (λ p s, acp_ID p +:+ be64 (acp_ModifyIndex p) +:+ s) "" policies)).

Definition resolve_policy (policy : ACLPolicy) : M acl_state Policy :=
  let cacheKey := hex_encode (ACLPolicy_SetHash policy) in
  let* cachedPolicy := mget (λ s, GetParsedPolicy (as_caches s) cacheKey) in
  match cachedPolicy with
  | Some p => mreturn p
  | None =>
      let* p := mwrap "failed to parse"
        (on_heap (NewPolicyFromSource decode decodeLegacy (acp_ID policy) (acp_ModifyIndex policy)
                    (acp_Rules policy) (acp_Syntax policy))) in
      on_caches (PutParsedPolicy cacheKey p) ;;;
      mreturn p
  end.
Definition resolveWithCache (policies : list ACLPolicy) : M acl_state (list Policy) := mmap resolve_policy policies.

Definition Compile (parent : Authorizer T) (policies : list ACLPolicy) : M acl_state (Authorizer T) :=
  let cacheKey := ACLPolicies_HashKey policies in
  let* entry := mget (λ s, GetAuthorizer (as_caches s) cacheKey) in
  match entry with
  | Some authorizer => mreturn authorizer
  | None =>
      let* parsed := mwrap "failed to parse the ACL policies" (resolveWithCache policies) in
      let* authorizer := mwrap "failed to construct ACL Authorizer" (on_heap (NewPolicyAuthorizer sum256 parent parsed)) in
      on_caches (PutAuthorizer cacheKey authorizer) ;;;
      mreturn authorizer
  end.

Definition ACLPolicies_Merge (policies : list ACLPolicy) : M acl_state Policy :=
  let* parsed := resolveWithCache policies in
  on_heap (MergePolicies sum256 parsed).
End cache.
Arguments ACLCaches T : clear implicits.
Arguments acl_state T : clear implicits.
