(* ===== verification/Filter.v ===== *)
(** * What a token may see (agent/consul/filter.go, acl.go)

    Replies are filtered before they leave a server.  [FilterEntries] compacts
    a slice in place through an interface; the methods of [aclFilter] delete
    from slices and maps while they range over them.  A slice is the list of
    its elements: what is written to it while it is filtered is part of the
    state.  The pointers in a reply are not nil. *)

From S2P Require Import Prelude Memdb ProxyConfig Structs ConnectTables AclTables Delay TombstoneGC Store Intention Txn.
From S2P Require Import Radix Acl Authorizer.

Definition index_out_of_range : string := "runtime error: index out of range".
Definition filter_out_of_fuel : string := "out of fuel".
Definition redactedToken : string := "<hidden>".

(** ** [FilterEntries] *)

Section entries.
Context {A : Type} (refused : A → bool).

(** [Filter(i)], of the element that the slice has at [i] by now. *)
Definition Filter (i : nat) : M (list A) bool :=
  let* x := mget (λ l, l !! i) in
  match x with Some x => mreturn (refused x) | None => mpanic index_out_of_range end.
(** [Move]: [copy(ent[dst:dst+span], ent[src:src+span])]. *)
Definition Move (dst src span : nat) : M (list A) unit :=
  mmodify (λ l, take dst l ++ take span (drop src l) ++ drop (dst + span) l).
(** [for i < n && Filter(i) == b { i++ }]. *)
Fixpoint skip (fuel : nat) (b : bool) (i n : nat) : M (list A) nat :=
  match fuel with
  | O => mpanic filter_out_of_fuel
  | S fuel =>
      if (i <? n)%nat then
        let* f := Filter i in
        if Bool.eqb f b then skip fuel b (S i) n else mreturn i
      else mreturn i
  end.
Fixpoint compact (fuel dst src n : nat) : M (list A) nat :=
  match fuel with
  | O => mpanic filter_out_of_fuel
  | S fuel =>
      if (dst <? n)%nat then
        let* src := skip (S n) true src n in
        if decide (src = n) then mreturn dst
        else
          let* last := skip (S n) false (S src) n in
          let span := last - src in
          if (0 <? span)%nat
          then Move dst src span ;;; compact fuel (dst + span) (src + span) n
          else compact fuel dst src n
      else mreturn dst
  end.
(** Each turn moves [src] on. *)
Definition FilterEntries : M (list A) nat :=
  let* n := mget length in compact (S n) 0 0 n.
(** [ent[:FilterEntries(&df)]]. *)
Definition filter_slice (ent : list A) : outcome (list A) :=
  match FilterEntries ent with
  | (Ok n, ent) => Ok (take n ent)
  | (Err e, _) => Err e
  | (Panic w, _) => Panic w
  end.

(** The loops [for i := 0; i < len(s); i++] that keep an element or delete it
    with [s = append(s[:i], s[i+1:]...); i--]. *)
Fixpoint prune (keep : A → bool) (fuel i : nat) (s : list A) : outcome (list A) :=
  match fuel with
  | O => Panic filter_out_of_fuel
  | S fuel =>
      match s !! i with
      | None => Ok s
      | Some x => if keep x then prune keep fuel (S i) s else prune keep fuel i (take i s ++ drop (S i) s)
      end
  end.
Definition prune_slice (keep : A → bool) (s : list A) : outcome (list A) := prune keep (S (length s)) 0 s.
End entries.

(** Ranging over the keys of a map and deleting some. *)
Definition prune_map {A} (keep : string → bool) (m : gmap string A) : gmap string A :=
  foldl (λ m k, if keep k then m else delete k m) m (map_to_list m).*1.

(** ** The structs of the replies *)

(** [CheckServiceNode], [NodeInfo] and [NodeServices]; the map of the last is
    keyed by service ID, a [Services] by service name. *)
Record CheckServiceNode := mkCheckServiceNode {
  csn_Node : Node; csn_Service : NodeService; csn_Checks : list HealthCheck
}.
Record NodeInfo := mkNodeInfo {
  ni_ID : string;
  ni_Node : string;
  ni_Address : string;
  ni_TaggedAddresses : option (gmap string string);
  ni_Meta : option (gmap string string);
  ni_Services : list NodeService;
  ni_Checks : list HealthCheck
}.
Definition ni_set (services : list NodeService) (checks : list HealthCheck) (n : NodeInfo) : NodeInfo :=
  mkNodeInfo (ni_ID n) (ni_Node n) (ni_Address n) (ni_TaggedAddresses n) (ni_Meta n) services checks.
Record NodeServices := mkNodeServices { nss_Node : Node; nss_Services : gmap string NodeService }.

(** [PreparedQuery.GetACLPrefix]. *)
Definition PreparedQuery_GetACLPrefix (pq : PreparedQuery) : string * bool :=
  if decide (pq_Name pq ≠ "" ∨ pq_Template_Type pq ≠ "") then (pq_Name pq, true) else ("", false).
Definition pq_set_token (token : string) (q : PreparedQuery) : PreparedQuery :=
  mkPreparedQuery (pq_ID q) (pq_Name q) (pq_Session q) token (pq_Template_Type q) (pq_rest q)
    (pq_CreateIndex q) (pq_ModifyIndex q).
Definition act_set_secret (secret : string) (t : ACLToken) : ACLToken :=
  mkACLToken (act_AccessorID t) secret (act_Description t) (act_Policies t) (act_Roles t) (act_ServiceIdentities t)
    (act_Type t) (act_Rules t) (act_Local t) (act_AuthMethod t) (act_ExpirationTime t) (act_ExpirationTTL t)
    (act_CreateTime t) (act_Hash t) (act_CreateIndex t) (act_ModifyIndex t).

Definition ConsulServiceID : string := "consul".
Definition ConsulServiceName : string := "consul".

Section acl.
Context {T : Type → Type} `{RadixOps T}.

(** ** The filters of the key/value store and of transactions *)

Definition FilterDirEnt (authorizer : Authorizer T) : list DirEntry → outcome (list DirEntry) :=
  filter_slice (λ e, negb (KeyRead authorizer (de_Key e))).
Definition FilterKeys (authorizer : Authorizer T) : list string → outcome (list string) :=
  filter_slice (λ k, negb (KeyRead authorizer k)).
(** [txnResultsFilter.Filter]. *)
Definition txn_result_refused (authorizer : Authorizer T) (result : TxnResult) : bool :=
  match result with
  | ResKV e => negb (KeyRead authorizer (de_Key e))
  | ResNode n => negb (NodeRead authorizer (node_Node n))
  | ResService s => negb (ServiceRead authorizer (ns_Service s))
  | ResCheck c =>
      if decide (hc_ServiceName c ≠ "") then negb (ServiceRead authorizer (hc_ServiceName c))
      else negb (NodeRead authorizer (hc_Node c))
  end.
Definition FilterTxnResults (authorizer : Authorizer T) : list TxnResult → outcome (list TxnResult) :=
  filter_slice (txn_result_refused authorizer).

(** ** [aclFilter] *)

Record aclFilter := newACLFilter { f_authorizer : Authorizer T; f_enforceVersion8 : bool }.
Context (f : aclFilter).

Definition allowNode (node : string) : bool :=
  if negb (f_enforceVersion8 f) then true else NodeRead (f_authorizer f) node.
Definition allowService (service : string) : bool :=
  if decide (service = "") then true
  else if negb (f_enforceVersion8 f) && bool_decide (service = ConsulServiceID) then true
  else ServiceRead (f_authorizer f) service.
Definition allowSession (node : string) : bool :=
  if negb (f_enforceVersion8 f) then true else SessionRead (f_authorizer f) node.

Definition filterHealthChecks : list HealthCheck → outcome (list HealthCheck) :=
  prune_slice (λ c, allowNode (hc_Node c) && allowService (hc_ServiceName c)).
Definition filterServices : gmap string (list string) → gmap string (list string) := prune_map allowService.
Definition filterServiceNodes : list ServiceNode → outcome (list ServiceNode) :=
  prune_slice (λ n, allowNode (sn_Node n) && allowService (sn_ServiceName n)).
(** The keys of the map are what [allowService] is asked about. *)
Definition filterNodeServices (services : option NodeServices) : option NodeServices :=
  match services with
  | None => None
  | Some s =>
      if negb (allowNode (node_Node (nss_Node s))) then None
      else Some (mkNodeServices (nss_Node s) (prune_map allowService (nss_Services s)))
  end.
Definition filterCheckServiceNodes : list CheckServiceNode → outcome (list CheckServiceNode) :=
  prune_slice (λ n, allowNode (node_Node (csn_Node n)) && allowService (ns_Service (csn_Service n))).
Definition filterSessions : list Session → outcome (list Session) :=
  prune_slice (λ s, allowSession (sess_Node s)).
Definition filterCoordinates : list Coordinate → outcome (list Coordinate) :=
  prune_slice (λ c, allowNode (co_Node c)).
Definition filterIntentions (ixns : list Intention) : list Intention :=
  if ACLRead (f_authorizer f) then ixns
  else foldl (λ ret ixn,
    let (prefix, ok) := Intention_GetACLPrefix ixn in
    if negb ok || negb (IntentionRead (f_authorizer f) prefix) then ret else ret ++ [ixn]) [] ixns.

(** One node of a dump: its services and checks are pruned in place. *)
Definition filter_info (info : NodeInfo) : outcome NodeInfo :=
  obind (prune_slice (λ s, allowService (ns_Service s)) (ni_Services info)) (λ services,
  obind (prune_slice (λ c, allowService (hc_ServiceName c)) (ni_Checks info)) (λ checks,
  Ok (ni_set services checks info))).
Fixpoint dump_loop (fuel i : nat) (nd : list NodeInfo) : outcome (list NodeInfo) :=
  match fuel with
  | O => Panic filter_out_of_fuel
  | S fuel =>
      match nd !! i with
      | None => Ok nd
      | Some info =>
          if negb (allowNode (ni_Node info)) then dump_loop fuel i (take i nd ++ drop (S i) nd)
          else obind (filter_info info) (λ info, dump_loop fuel (S i) (<[i := info]> nd))
      end
  end.
Definition filterNodeDump (nd : list NodeInfo) : outcome (list NodeInfo) := dump_loop (S (length nd)) 0 nd.
Definition filterNodes : list Node → outcome (list Node) := prune_slice (λ n, allowNode (node_Node n)).

(** A copy of the query replaces it. *)
Definition redactPreparedQueryTokens (query : PreparedQuery) : PreparedQuery :=
  if ACLWrite (f_authorizer f) then query
  else if decide (pq_Token query ≠ "") then pq_set_token redactedToken query
  else query.
Definition filterPreparedQueries (queries : list PreparedQuery) : list PreparedQuery :=
  if ACLWrite (f_authorizer f) then queries
  else foldl (λ ret query,
    let (prefix, ok) := PreparedQuery_GetACLPrefix query in
    if negb ok || negb (PreparedQueryRead (f_authorizer f) prefix) then ret
    else ret ++ [redactPreparedQueryTokens query]) [] queries.
Definition redactTokenSecret (token : option ACLToken) : option ACLToken :=
  match token with
  | None => None
  | Some t => if ACLWrite (f_authorizer f) then token else Some (act_set_secret redactedToken t)
  end.
Definition redactTokenSecrets (tokens : list (option ACLToken)) : list (option ACLToken) :=
  foldl (λ ret token, ret ++ [redactTokenSecret token]) [] tokens.
End acl.
Arguments aclFilter T : clear implicits.

(** ** [filterACL] *)

(** What a filter is given; [CheckServiceNodes] stands for itself and its
    indexed form. *)
Inductive subject :=
| SubjCheckServiceNodes (nodes : list CheckServiceNode)
| SubjCoordinates (coords : list Coordinate)
| SubjHealthChecks (checks : list HealthCheck)
| SubjIntentions (ixns : list Intention)
| SubjNodeDump (dump : list NodeInfo)
| SubjNodes (nodes : list Node)
| SubjNodeServices (services : option NodeServices)
| SubjServiceNodes (nodes : list ServiceNode)
| SubjServices (services : gmap string (list string))
| SubjSessions (sessions : list Session)
| SubjPreparedQueries (queries : list PreparedQuery)
| SubjPreparedQuery (query : PreparedQuery)
| SubjACLTokens (tokens : list (option ACLToken))
| SubjACLToken (token : option ACLToken).
Definition omap_out {A B} (f : A → B) (o : outcome A) : outcome B := obind o (λ a, Ok (f a)).

Section filterACL.
Context {T : Type → Type} `{RadixOps T} (ACLEnforceVersion8 : bool).

Definition filterACLWithAuthorizer (authorizer : option (Authorizer T)) (subj : subject) : outcome subject :=
  match authorizer with
  | None => Ok subj
  | Some a =>
      let filt := newACLFilter a ACLEnforceVersion8 in
      match subj with
      | SubjCheckServiceNodes v => omap_out SubjCheckServiceNodes (filterCheckServiceNodes filt v)
      | SubjCoordinates v => omap_out SubjCoordinates (filterCoordinates filt v)
      | SubjHealthChecks v => omap_out SubjHealthChecks (filterHealthChecks filt v)
      | SubjIntentions v => Ok (SubjIntentions (filterIntentions filt v))
      | SubjNodeDump v => omap_out SubjNodeDump (filterNodeDump filt v)
      | SubjNodes v => omap_out SubjNodes (filterNodes filt v)
      | SubjNodeServices v => Ok (SubjNodeServices (filterNodeServices filt v))
      | SubjServiceNodes v => omap_out SubjServiceNodes (filterServiceNodes filt v)
      | SubjServices v => Ok (SubjServices (filterServices filt v))
      | SubjSessions v => omap_out SubjSessions (filterSessions filt v)
      | SubjPreparedQueries v => Ok (SubjPreparedQueries (filterPreparedQueries filt v))
      | SubjPreparedQuery v => Ok (SubjPreparedQuery (redactPreparedQueryTokens filt v))
      | SubjACLTokens v => Ok (SubjACLTokens (redactTokenSecrets filt v))
      | SubjACLToken v => Ok (SubjACLToken (redactTokenSecret filt v))
      end
  end.
(** [filterACL], given what [ResolveToken] answers for the token. *)
Definition filterACL (resolved : outcome (option (Authorizer T))) (subj : subject) : outcome subject :=
  obind resolved (λ authorizer, filterACLWithAuthorizer authorizer subj).
End filterACL.
