(* ===== verification/FilterProps.v ===== *)
(** * Filters leave what a token may read

    The loops that compact slices in place are the filters of lists
    ([prune_slice_spec], [filter_slice_spec]); so a reply shows the rows that
    the token may read, in their order.  The services of one node are filtered
    by their IDs instead of their names. *)

From S2P Require Import Prelude Memdb ProxyConfig Structs ConnectTables AclTables Delay TombstoneGC Store Intention Txn.
From S2P Require Import Radix Acl Authorizer Filter.

Section loops.
Context {A : Type}.

(** ** Deleting while ranging *)

Lemma prune_spec (keep : A → bool) fuel done rest :
  length rest < fuel →
  prune keep fuel (length done) (done ++ rest) = Ok (done ++ filter (λ x, keep x) rest).
Proof.
  revert done rest. induction fuel as [|fuel IH]; intros done rest Hf; [lia|]. simpl.
  destruct rest as [|x rest]; simpl in Hf.
  - by rewrite !app_nil_r, lookup_ge_None_2.
  - rewrite list_lookup_middle by done. rewrite filter_cons. destruct (keep x); case_decide; try done.
    + rewrite cons_middle, app_assoc.
      replace (S (length done)) with (length (done ++ [x])) by (rewrite length_app; simpl; lia).
      rewrite IH by lia. by rewrite <-app_assoc.
    + rewrite take_app_length, drop_app_ge by lia.
      replace (S (length done) - length done) with 1 by lia. simpl. rewrite drop_0. apply IH. lia.
Qed.
Lemma prune_slice_spec (keep : A → bool) s : prune_slice keep s = Ok (filter (λ x, keep x) s).
Proof. unfold prune_slice. apply (prune_spec keep _ []). lia. Qed.

Lemma prune_keys (keep : string → bool) (m : gmap string A) keys :
  foldl (λ m k, if keep k then m else delete k m) m keys = filter (λ kx, keep kx.1 ∨ kx.1 ∉ keys) m.
Proof.
  revert m. induction keys as [|k keys IH]; intros m; simpl.
  - symmetry. apply map_filter_id. intros k x _. right. by apply not_elem_of_nil.
  - rewrite IH. apply map_eq. intros i. apply option_eq. intros x. rewrite !map_lookup_filter_Some. simpl.
    destruct (keep k) eqn:Hk.
    + rewrite not_elem_of_cons. destruct (decide (i = k)) as [->|]; [|naive_solver].
      rewrite Hk. naive_solver.
    + rewrite lookup_delete_Some, not_elem_of_cons. destruct (decide (i = k)) as [->|]; [|naive_solver].
      rewrite Hk. naive_solver.
Qed.
Lemma prune_map_spec (keep : string → bool) (m : gmap string A) :
  prune_map keep m = filter (λ kx, keep kx.1) m.
Proof.
  unfold prune_map. rewrite prune_keys. apply map_filter_ext. intros k x Hx. simpl. split; [|by left].
  intros [?|Hn]; [done|]. destruct Hn. apply list_elem_of_fmap. exists (k, x). split; [done|].
  by apply elem_of_map_to_list.
Qed.

(** ** Compacting a slice *)

Context (refused : A → bool).
Abbreviation kept := (filter (λ x, negb (refused x))).

(** Runs of the loop [skip]: the elements it passes over. *)
Lemma skip_spec b fuel (done mid : list A) n :
  n = length done + length mid → length mid < fuel → ∀ l, drop (length done) l = mid → length l = n →
  ∃ run rest, mid = run ++ rest ∧ Forall (λ x, refused x = b) run ∧
    (∀ x, head rest = Some x → refused x = negb b) ∧
    skip refused fuel b (length done) n l = (Ok (length done + length run), l).
Proof.
  intros Hn. revert done mid Hn. induction fuel as [|fuel IH]; intros done mid Hn Hf l Hl Hlen; [lia|]. simpl.
  destruct mid as [|x mid]; simpl in *.
  - rewrite (proj2 (Nat.ltb_ge _ _)) by lia. exists [], []. rewrite Nat.add_0_r. split_and!; [done|done|by intros x|done].
  - rewrite (proj2 (Nat.ltb_lt _ _)) by lia.
    assert (l !! length done = Some x) as Hx.
    { rewrite <-(take_drop (length done) l), lookup_app_r by (rewrite length_take; lia).
      rewrite length_take, Hl. by replace (length done - length done `min` length l) with 0 by lia. }
    unfold Filter, mbind', mget. rewrite Hx. unfold mreturn.
    destruct (Bool.eqb (refused x) b) eqn:Hb.
    + apply Bool.eqb_prop in Hb.
      destruct (IH (done ++ [x]) mid ltac:(rewrite length_app; simpl; lia) ltac:(lia) l) as (run&rest&->&Hr&Hh&Hs).
      { rewrite length_app. simpl. by rewrite <-drop_drop, Hl. }
      { done. }
      exists (x :: run), rest. rewrite length_app in Hs. simpl in *.
      replace (S (length done)) with (length done + 1) by lia. rewrite Hs.
      split_and!; [done|by constructor|done|]. do 2 f_equal. lia.
    + exists [], (x :: mid). rewrite Nat.add_0_r. split_and!; [done|done| |done].
      intros y [= <-]. apply Bool.eqb_false_iff in Hb. by destruct (refused x), b.
Qed.
Lemma kept_run b run : Forall (λ x, refused x = b) run → kept run = if b then [] else run.
Proof. induction 1 as [|x run Hx _ IH]; [by destruct b|]. rewrite filter_cons, Hx, IH. by destruct b. Qed.

(** [a] is behind, its kept elements [b] are in front of what is left of it. *)
Lemma compact_spec fuel (a mid b junk : list A) :
  length b + length junk = length a → b = kept a → length junk + length mid < fuel →
  ∃ l', compact refused fuel (length b) (length a) (length a + length mid) (b ++ junk ++ mid) =
    (Ok (length (kept (a ++ mid))), l') ∧ take (length (kept (a ++ mid))) l' = kept (a ++ mid).
Proof.
  revert a mid b junk. induction fuel as [|fuel IH]; intros a mid b junk Hlen Hb Hf; [lia|]. cbn [compact].
  set (n := length a + length mid). set (l := b ++ junk ++ mid).
  assert (length l = n) as Hln by (unfold l, n; rewrite !length_app; lia).
  assert (drop (length a) l = mid) as Hdrop.
  { unfold l. rewrite app_assoc. apply drop_app_length'. rewrite length_app. lia. }
  destruct (Nat.ltb_spec (length b) n) as [Hlt|Hge].
  2: { exists l. assert (mid = []) as Hm by (apply nil_length_inv; lia). rewrite Hm, app_nil_r, <-Hb.
       split; [done|]. unfold l. apply take_app_length. }
  destruct (skip_spec true (S n) a mid n eq_refl ltac:(lia) l Hdrop Hln) as (run&rest&Hmid&Hrun&Hhd&Hs).
  unfold mbind' at 1. rewrite Hs. destruct rest as [|x rest].
  { rewrite app_nil_r in Hmid. assert (kept (a ++ mid) = b) as ->.
    { by rewrite list.filter_app, Hmid, (kept_run true run Hrun), app_nil_r. }
    rewrite decide_True by (unfold n; rewrite Hmid; lia). exists l. split; [done|]. unfold l. apply take_app_length. }
  specialize (Hhd x eq_refl). pose proof (f_equal length Hmid) as Hml. rewrite length_app in Hml. simpl in Hml.
  rewrite decide_False by (unfold n; lia).
  destruct (skip_spec false (S n) (a ++ run ++ [x]) rest n ltac:(rewrite !length_app; simpl; unfold n; lia)
    ltac:(unfold n; lia) l) as (run2&rest2&Hrest&Hrun2&_&Hs2).
  { rewrite length_app, <-drop_drop, Hdrop, Hmid, (cons_middle x run rest), app_assoc. apply drop_app_length. }
  { done. }
  replace (length (a ++ run ++ [x])) with (S (length a + length run)) in Hs2 by (rewrite !length_app; simpl; lia).
  unfold mbind' at 1. rewrite Hs2. subst rest.
  replace (S (length a + length run) + length run2 - (length a + length run)) with (S (length run2)) by lia.
  cbn [Nat.ltb Nat.leb]. unfold mbind', Move, mmodify.
  set (junk' := drop (S (length run2)) (junk ++ run ++ x :: run2)).
  assert (take (length b) l ++ take (S (length run2)) (drop (length a + length run) l) ++
    drop (length b + S (length run2)) l = (b ++ x :: run2) ++ junk' ++ rest2) as ->.
  { rewrite <-drop_drop, Hdrop, Hmid, drop_app_length. replace (take (length b) l) with b by (unfold l; by rewrite take_app_length).
    cbn [take]. rewrite firstn_app, Nat.sub_diag, firstn_all, app_nil_r.
    rewrite <-app_assoc. do 2 f_equal. rewrite <-drop_drop. unfold l. rewrite drop_app_length, Hmid.
    unfold junk'. replace (junk ++ run ++ x :: run2 ++ rest2) with ((junk ++ run ++ x :: run2) ++ rest2)
      by (by rewrite <-!app_assoc). rewrite drop_app_le; [done|]. rewrite !length_app. simpl. lia. }
  destruct (IH (a ++ run ++ x :: run2) rest2 (b ++ x :: run2) junk') as (l'&Hl'&Ht).
  { unfold junk'. rewrite length_drop, !length_app. simpl. lia. }
  { rewrite !list.filter_app, <-Hb, (kept_run true run Hrun). f_equal. symmetry. by apply (kept_run false); constructor. }
  { unfold junk'. rewrite length_app in Hml. rewrite length_drop, !length_app. simpl. lia. }
  exists l'. replace ((a ++ run ++ x :: run2) ++ rest2) with (a ++ mid) in Hl', Ht
    by (rewrite Hmid, <-!app_assoc; done).
  split; [|done]. rewrite <-Hl'. f_equal; unfold n; rewrite ?Hmid, ?length_app; simpl; rewrite ?length_app; lia.
Qed.

(** In-place filtering is the filter of lists. *)
Lemma filter_slice_spec (s : list A) : filter_slice refused s = Ok (kept s).
Proof.
  destruct (compact_spec (S (length s)) [] s [] []) as (l'&Hl&Ht); [done|done|simpl; lia|].
  unfold filter_slice, FilterEntries, mbind', mget. cbn [app length Nat.add] in Hl, Ht. rewrite Hl. by rewrite Ht.
Qed.
End loops.

(** ** Replies *)

Section replies.
Context {T : Type → Type} `{RadixOps T} (v8 : bool) (a : Authorizer T).
Abbreviation filt := (newACLFilter a v8).

(** What the token may see: without [ACLEnforceVersion8], every node, session
    and the service of the servers. *)
Definition node_seen (n : string) : bool := negb v8 || NodeRead a n.
Definition service_seen (s : string) : bool :=
  bool_decide (s = "") || negb v8 && bool_decide (s = ConsulServiceID) || ServiceRead a s.
Definition session_seen (n : string) : bool := negb v8 || SessionRead a n.

Lemma allowNode_spec n : allowNode filt n = node_seen n.
Proof. unfold allowNode, node_seen. simpl. by destruct v8. Qed.
Lemma allowSession_spec n : allowSession filt n = session_seen n.
Proof. unfold allowSession, session_seen. simpl. by destruct v8. Qed.
Lemma allowService_spec n : allowService filt n = service_seen n.
Proof.
  unfold allowService, service_seen. cbn [f_enforceVersion8 f_authorizer]. destruct (decide (n = "")) as [e|e].
  { by rewrite (bool_decide_true _ e). }
  rewrite (bool_decide_false _ e), orb_false_l. by destruct (negb v8 && _).
Qed.
Hint Rewrite allowNode_spec allowSession_spec allowService_spec : seen.
Lemma prune_slice_seen {A} (keep seen : A → bool) s : (∀ x, keep x = seen x) → prune_slice keep s = Ok (filter (λ x, seen x) s).
Proof. intros Hx. rewrite prune_slice_spec. f_equal. apply list_filter_iff. intros x. by rewrite Hx. Qed.
Lemma prune_map_seen {A} (keep seen : string → bool) (m : gmap string A) :
  (∀ k, keep k = seen k) → prune_map keep m = filter (λ kx, seen kx.1) m.
Proof. intros Hx. rewrite prune_map_spec. apply map_filter_ext. intros k x _. simpl. by rewrite Hx. Qed.

(** What is left of a reply. *)
Definition visible_info (i : NodeInfo) : NodeInfo :=
  ni_set (filter (λ s, service_seen (ns_Service s)) (ni_Services i))
    (filter (λ c, service_seen (hc_ServiceName c)) (ni_Checks i)) i.
Definition redacted_query (q : PreparedQuery) : PreparedQuery :=
  if bool_decide (pq_Token q = "") then q else pq_set_token redactedToken q.
Definition redacted_token (t : ACLToken) : ACLToken := if ACLWrite a then t else act_set_secret redactedToken t.
Definition visible (subj : subject) : subject :=
  match subj with
  | SubjCheckServiceNodes l =>
      SubjCheckServiceNodes (filter (λ n, node_seen (node_Node (csn_Node n)) && service_seen (ns_Service (csn_Service n))) l)
  | SubjCoordinates l => SubjCoordinates (filter (λ c, node_seen (co_Node c)) l)
  | SubjHealthChecks l => SubjHealthChecks (filter (λ c, node_seen (hc_Node c) && service_seen (hc_ServiceName c)) l)
  | SubjIntentions l =>
      SubjIntentions (filter (λ x, ACLRead a || (bool_decide (ixn_DestinationName x ≠ "") &&
                                                 IntentionRead a (ixn_DestinationName x))) l)
  | SubjNodeDump l => SubjNodeDump (visible_info <$> filter (λ i, node_seen (ni_Node i)) l)
  | SubjNodes l => SubjNodes (filter (λ n, node_seen (node_Node n)) l)
  | SubjNodeServices None => SubjNodeServices None
  | SubjNodeServices (Some s) =>
      SubjNodeServices (if node_seen (node_Node (nss_Node s))
        then Some (mkNodeServices (nss_Node s) (filter (λ kx, service_seen kx.1) (nss_Services s))) else None)
  | SubjServiceNodes l => SubjServiceNodes (filter (λ n, node_seen (sn_Node n) && service_seen (sn_ServiceName n)) l)
  | SubjServices m => SubjServices (filter (λ kx, service_seen kx.1) m)
  | SubjSessions l => SubjSessions (filter (λ s, session_seen (sess_Node s)) l)
  | SubjPreparedQueries l =>
      SubjPreparedQueries (if ACLWrite a then l else redacted_query <$>
        filter (λ q, bool_decide (pq_Name q ≠ "" ∨ pq_Template_Type q ≠ "") && PreparedQueryRead a (pq_Name q)) l)
  | SubjPreparedQuery q => SubjPreparedQuery (if ACLWrite a then q else redacted_query q)
  | SubjACLTokens l => SubjACLTokens (map (option_map redacted_token) l)
  | SubjACLToken t => SubjACLToken (option_map redacted_token t)
  end.

Lemma filter_info_spec i : filter_info filt i = Ok (visible_info i).
Proof. unfold filter_info. do 2 (erewrite prune_slice_seen by (intros; by autorewrite with seen); simpl). done. Qed.
Lemma dump_spec fuel pre rest :
  length rest < fuel →
  dump_loop filt fuel (length pre) (pre ++ rest) =
    Ok (pre ++ (visible_info <$> filter (λ i, node_seen (ni_Node i)) rest)).
Proof.
  revert pre rest. induction fuel as [|fuel IH]; intros pre rest Hf; [lia|]. cbn [dump_loop].
  destruct rest as [|i rest]; simpl in Hf; [by rewrite !app_nil_r, lookup_ge_None_2|].
  rewrite list_lookup_middle by done. rewrite filter_cons, allowNode_spec. destruct (node_seen (ni_Node i)); case_decide; try done; simpl.
  - rewrite filter_info_spec. simpl. rewrite insert_app_r_alt, Nat.sub_diag by lia. simpl.
    rewrite cons_middle, app_assoc. replace (S (length pre)) with (length (pre ++ [visible_info i])) by (rewrite length_app; simpl; lia).
    rewrite IH by lia. by rewrite <-app_assoc.
  - rewrite take_app_length, drop_app_ge by lia. replace (S (length pre) - length pre) with 1 by lia. simpl.
    rewrite drop_0. apply IH. lia.
Qed.
(** Appending what is kept to a new slice. *)
Lemma fold_filter_map {A B} (keep : A → bool) (f : A → B) (step : list B → A → list B) (l : list A) :
  (∀ acc x, step acc x = if keep x then acc ++ [f x] else acc) → foldl step [] l = map f (filter (λ x, keep x) l).
Proof.
  intros Hs. enough (∀ acc, foldl step acc l = acc ++ map f (filter (λ x, keep x) l)) as Hx by apply Hx.
  induction l as [|x l IH]; intros acc; simpl; [by rewrite app_nil_r|]. rewrite IH, Hs, filter_cons.
  destruct (keep x); case_decide; try done. simpl. by rewrite <-app_assoc.
Qed.
Lemma filter_everything {A} (keep : A → bool) (l : list A) : (∀ x, keep x = true) → filter (λ x, keep x) l = l.
Proof. intros Hk. induction l as [|x l IH]; [done|]. rewrite filter_cons, IH, Hk. done. Qed.

(** C13. A reply is filtered to what the token may see: every filter of
    [filterACL] ends without a panic, and leaves, in their order, exactly the
    rows whose node and service (or session, intention, query) the authorizer
    lets the token read, with the tokens that queries captured and the secrets
    of ACL tokens hidden from those who may not manage ACLs.  The services in
    the listing of a node are the exception: as in the code, the authorizer is
    asked about the keys of the map, which are service IDs and not names, so
    that those stay whose ID, taken for a name, the token may read
    ([node_services_filtered_by_id] shows the difference). *)
Theorem filterACLWithAuthorizer_spec subj :
  filterACLWithAuthorizer v8 (Some a) subj = Ok (visible subj).
Proof.
  destruct subj; simpl;
    unfold filterCheckServiceNodes, filterCoordinates, filterHealthChecks, filterNodes, filterServiceNodes, filterSessions;
    try (erewrite prune_slice_seen by (intros; by autorewrite with seen); done); try done.
  - unfold filterIntentions. simpl. destruct (ACLRead a); do 2 f_equal.
    { symmetry. by apply (filter_everything (λ x, true || _)). }
    rewrite (fold_filter_map (λ x, bool_decide (ixn_DestinationName x ≠ "") &&
      IntentionRead a (ixn_DestinationName x)) id); [apply map_id|]. intros acc x. simpl.
    destruct (bool_decide _), (IntentionRead a _); done.
  - unfold filterNodeDump. by rewrite (dump_spec _ [] dump) by lia.
  - destruct services as [s|]; [|done]. simpl. rewrite allowNode_spec. destruct (node_seen _); simpl; [|done].
    by erewrite prune_map_seen by (intros; by autorewrite with seen).
  - unfold filterServices. by erewrite prune_map_seen by (intros; by autorewrite with seen).
  - unfold filterPreparedQueries. simpl. destruct (ACLWrite a) eqn:Hw; [done|]. do 2 f_equal.
    apply (fold_filter_map (λ q, bool_decide (pq_Name q ≠ "" ∨ pq_Template_Type q ≠ "") && PreparedQueryRead a (pq_Name q))).
    intros acc q. unfold PreparedQuery_GetACLPrefix, redactPreparedQueryTokens, redacted_query. simpl. rewrite Hw.
    rewrite (bool_decide_decide (_ ∨ _)). destruct (decide (_ ∨ _)); [|done]. simpl.
    destruct (PreparedQueryRead _ _); simpl; [|done]. unfold redacted_query.
    case_bool_decide; [rewrite decide_False by tauto|rewrite decide_True by done]; done.
  - unfold redactPreparedQueryTokens, redacted_query. simpl. destruct (ACLWrite a); [done|].
    case_bool_decide; [rewrite decide_False by tauto|rewrite decide_True by done]; done.
  - unfold redactTokenSecrets. rewrite (fold_filter_map (λ _, true) (option_map redacted_token)).
    + by rewrite filter_everything.
    + intros acc [t|]; [|done]. unfold redactTokenSecret, redacted_token. simpl. by destruct (ACLWrite a).
  - unfold redactTokenSecret, redacted_token. destruct token; [|done]. simpl. by destruct (ACLWrite a).
Qed.
End replies.
