(* ===== verification/CatalogRead.v ===== *)
(** * Reading the catalog (agent/consul/state/catalog.go, coordinate.go)

    Lookups, listings and dumps of nodes, services and checks: what the query
    endpoints answer from.  Each opens a read transaction; the index it
    returns is what a blocking query waits on.  The runtime ranges over a map
    in an order of its own: [order], a permutation. *)

From S2P Require Import Prelude Memdb ProxyConfig Structs Delay TombstoneGC Store Catalog Filter.

(** ** Nodes *)

Definition minUUIDLookupLen : nat := 2.
Definition resizeNodeLookupKey (s : string) : string :=
  let l := String.length s in
  if negb (l mod 2 =? 0)%nat then String.substring 0 (l - 1) s else s.
(** [UUIDFieldIndex.PrefixFromArgs]: [parseString(s, false)]. *)
Definition uuid_prefix_parse (s : string) : outcome string :=
  if (36 <? String.length s)%nat then Err (EMsg "Invalid UUID length. UUID have 36 characters" [s])
  else if (4 <? count_char "-" s)%nat then Err (EMsg "UUID should have maximum of 4 hyphens" [])
  else
    let sanitized := remove_char "-" s in
    if Nat.odd (String.length sanitized)
    then Err (EMsg "Input (without hyphens) must be even length" [])
    else match hex_decode sanitized with
         | Some b => Ok b
         | None => Err (EMsg "Invalid UUID" [])
         end.

(** [GetNode], [GetNodeID], [Nodes]. *)
Definition GetNode (id : string) : Store → outcome (N * option Node) :=
  read_txn (let* idx := maxIndexTxn ["nodes"] in let* node := getNodeTxn id in mreturn (idx, node)).
Definition GetNodeID (id : string) : Store → outcome (N * option Node) :=
  read_txn (let* idx := maxIndexTxn ["nodes"] in let* node := getNodeIDTxn id in mreturn (idx, node)).
Definition Nodes : Store → outcome (N * list Node) :=
  read_txn (let* idx := maxIndexTxn ["nodes"] in let* nodes := tx_GetPrefix "" in mreturn (idx, nodes)).

Section order.
Context (order : list (string * string) → list (string * string)).

(** [tx.Get("nodes", "meta", args...)] on the first filter the runtime names;
    without a filter, everything filed in the index. *)
Definition meta_args (filters : gmap string string) : string :=
  match order (map_to_list filters) with
  | [] => ""
  | (key, value) :: _ => key +:+ nul +:+ value +:+ nul
  end.
Definition nodesByMetaTxn (filters : gmap string string) : Tx (list Node) :=
  let* nodes := tx_Get nodes_meta_index (meta_args filters) in
  mreturn (filter (λ n, (size filters <= 1)%nat ∨ SatisfiesMetaFilters (node_Meta n) filters) nodes).
(** [NodesByMeta]. *)
Definition NodesByMeta (filters : gmap string string) : Store → outcome (N * list Node) :=
  read_txn (let* idx := maxIndexTxn ["nodes"] in let* nodes := nodesByMetaTxn filters in mreturn (idx, nodes)).
End order.

(** ** Services *)

(** The map of unique tags, and the slices made of it. *)
Definition add_tags (unique : gmap string (gset string)) (svc : ServiceNode) : gmap string (gset string) :=
  let tags := default ∅ (unique !! sn_ServiceName svc) in
  <[sn_ServiceName svc := tags ∪ list_to_set (default [] (sn_ServiceTags svc))]> unique.
Section tags.
Context (range : list string → list string).
Definition tag_slices (unique : gmap string (gset string)) : gmap string (list string) :=
  (λ tags, range (elements tags)) <$> unique.
(** [Services]. *)
Definition Services : Store → outcome (N * gmap string (list string)) :=
  read_txn (
    let* idx := maxIndexTxn ["services"] in
    let* services := tx_GetPrefix "" in
    mreturn (idx, tag_slices (foldl add_tags ∅ services))).
(** [ServicesByNodeMeta]. *)
Definition ServicesByNodeMeta (order : list (string * string) → list (string * string))
    (filters : gmap string string) : Store → outcome (N * gmap string (list string)) :=
  read_txn (
    let* idx := maxIndexTxn ["services"; "nodes"] in
    let* nodes := tx_Get nodes_meta_index (meta_args order filters) in
    let* unique :=
      mfold (λ unique n,
        if (1 <? size filters)%nat && negb (SatisfiesMetaFilters (node_Meta n) filters) then mreturn unique
        else
          let* services := tx_Get services_node_index (string_args true (node_Node n)) in
          mreturn (foldl add_tags unique services)) ∅ nodes in
    mreturn (idx, tag_slices unique)).
End tags.

(** [maxIndexForService]. *)
Definition maxIndexForService (serviceName : string) (serviceExists checks : bool) : Tx N :=
  let* missingIdx :=
    (if serviceExists then mreturn None
     else tx_First (A := IndexEntry) (string_args true serviceLastExtinctionIndexName)) in
  match missingIdx with
  | Some ie => mreturn (ie_Value ie)
  | None =>
      let* res := tx_First (A := IndexEntry) (string_args true (serviceIndexName serviceName)) in
      match res with
      | Some ie => mreturn (ie_Value ie)
      | None => maxIndexTxn (if checks then ["nodes"; "services"; "checks"] else ["nodes"; "services"])
      end
  end.

(** [parseServiceNodes]: the type assertion on the node panics when there is
    none. *)
Definition parseServiceNodes (services : list ServiceNode) : Tx (list ServiceNode) :=
  mmap (λ sn,
    let s := ServiceNode_PartialClone sn in
    let* n := tx_First (A := Node) (node_key (sn_Node sn)) in
    match n with
    | Some node => mreturn (sn_fill_node node s)
    | None => mpanic "interface conversion: interface {} is nil, not *structs.Node"
    end) services.

(** The instances of a service, or the Connect-capable ones. *)
Definition service_lookup (connect : bool) (serviceName : string) : Tx (list ServiceNode) :=
  tx_Get (if connect then services_connect_index else services_service_index) (string_args true serviceName).
(** [serviceNodes], [ServiceNodes], [ConnectServiceNodes]. *)
Definition serviceNodes (serviceName : string) (connect : bool) : Store → outcome (N * list ServiceNode) :=
  read_txn (
    let* results := service_lookup connect serviceName in
    let* results := mwrap "failed parsing service nodes" (parseServiceNodes results) in
    let* idx := maxIndexForService serviceName (0 <? length results)%nat false in
    mreturn (idx, results)).
Definition ServiceNodes (serviceName : string) := serviceNodes serviceName false.
Definition ConnectServiceNodes (serviceName : string) := serviceNodes serviceName true.

(** [serviceTagFilter], [serviceTagsFilter]: whether to drop the instance. *)
Definition serviceTagFilter (sn : ServiceNode) (tag : string) : bool :=
  negb (existsb (λ t, bool_decide (to_lower t = to_lower tag)) (default [] (sn_ServiceTags sn))).
Definition serviceTagsFilter (sn : ServiceNode) (tags : list string) : bool := existsb (serviceTagFilter sn) tags.
(** [ServiceTagNodes]. *)
Definition ServiceTagNodes (service : string) (tags : list string) : Store → outcome (N * list ServiceNode) :=
  read_txn (
    let* services := service_lookup false service in
    let* results := mwrap "failed parsing service nodes"
      (parseServiceNodes (filter (λ svc, ¬ serviceTagsFilter svc tags) services)) in
    let* idx := maxIndexForService service (0 <? length services)%nat false in
    mreturn (idx, results)).
(** [ServiceAddressNodes]; its index is always 0. *)
Definition at_address (address : string) (svc : ServiceNode) : bool :=
  bool_decide (sn_ServiceAddress svc = address) ||
  existsb (λ kv, bool_decide (sa_Address kv.2 = address)) (map_to_list (default ∅ (sn_ServiceTaggedAddresses svc))).
Definition ServiceAddressNodes (address : string) : Store → outcome (N * list ServiceNode) :=
  read_txn (
    let* services := tx_GetPrefix "" in
    let* results := mwrap "failed parsing service nodes"
      (parseServiceNodes (filter (λ svc, at_address address svc) services)) in
    mreturn (0%N, results)).

(** [NodeService]. *)
Definition Store_NodeService (nodeName serviceID : string) : Store → outcome (N * option NodeService) :=
  read_txn (
    let* idx := maxIndexTxn ["services"] in
    let* service := mwrap "failed querying service for node" (getNodeServiceTxn nodeName serviceID) in
    mreturn (idx, service)).
(** [NodeServices]: the node is looked up by name, then by a prefix of its ID
    that only one node has. *)
Definition node_lookup (nodeNameOrID : string) : Tx (option Node) :=
  let* n := tx_First (node_key nodeNameOrID) in
  match n with
  | Some n => mreturn (Some n)
  | None =>
      if (String.length nodeNameOrID <? minUUIDLookupLen)%nat then mreturn None
      else
        match uuid_prefix_parse (resizeNodeLookupKey nodeNameOrID) with
        | Ok p =>
            let* l := tx_Get nodes_uuid_index p in
            mreturn (match l with [n] => Some n | _ => None end)
        | _ => mreturn None
        end
  end.
Definition Store_NodeServices (nodeNameOrID : string) : Store → outcome (N * option NodeServices) :=
  read_txn (
    let* idx := maxIndexTxn ["nodes"; "services"] in
    let* n := node_lookup nodeNameOrID in
    match n with
    | None => mreturn (0%N, None)
    | Some node =>
        let* services := tx_Get services_node_index (string_args true (node_Node node)) in
        mreturn (idx, Some (mkNodeServices node
          (foldl (λ m service, let svc := ServiceNode_ToNodeService service in <[ns_ID svc := svc]> m) ∅ services)))
    end).

(** ** Checks *)

(** [NodeCheck], [NodeChecks], [ServiceChecks]. *)
Definition NodeCheck (nodeName checkID : string) : Store → outcome (N * option HealthCheck) :=
  read_txn (getNodeCheckTxn nodeName checkID).
Definition NodeChecks (nodeName : string) : Store → outcome (N * list HealthCheck) :=
  read_txn (
    let* idx := maxIndexTxn ["checks"] in
    let* results := tx_Get checks_node_index (string_args true nodeName) in
    mreturn (idx, results)).
Definition ServiceChecks (serviceName : string) : Store → outcome (N * list HealthCheck) :=
  read_txn (
    let* idx := maxIndexTxn ["checks"] in
    let* results := tx_Get checks_service_index (string_args true serviceName) in
    mreturn (idx, results)).
(** [parseChecksByNodeMeta]. *)
Fixpoint parseChecksByNodeMeta (iter : list HealthCheck) (filters : gmap string string) : Tx (list HealthCheck) :=
  match iter with
  | [] => mreturn []
  | healthCheck :: iter =>
      let* node := tx_First (A := Node) (node_key (hc_Node healthCheck)) in
      match node with
      | None => mthrow ErrMissingNode
      | Some node =>
          let* results := parseChecksByNodeMeta iter filters in
          mreturn (if SatisfiesMetaFilters (node_Meta node) filters then healthCheck :: results else results)
      end
  end.
(** [ServiceChecksByNodeMeta]. *)
Definition ServiceChecksByNodeMeta (serviceName : string) (filters : gmap string string) :
    Store → outcome (N * list HealthCheck) :=
  read_txn (
    let* idx := maxIndexForService serviceName true true in
    let* iter := tx_Get checks_service_index (string_args true serviceName) in
    let* results := parseChecksByNodeMeta iter filters in
    mreturn (idx, results)).
(** [ChecksInState], [ChecksInStateByNodeMeta]. *)
Definition checks_in_state (state : string) : Tx (list HealthCheck) :=
  tx_Get checks_status_index (if decide (state = HealthAny) then "" else string_args false state).
Definition ChecksInState (state : string) : Store → outcome (N * list HealthCheck) :=
  read_txn (
    let* idx := maxIndexTxn ["checks"] in
    let* results := checks_in_state state in
    mreturn (idx, results)).
Definition ChecksInStateByNodeMeta (state : string) (filters : gmap string string) :
    Store → outcome (N * list HealthCheck) :=
  read_txn (
    let* idx := maxIndexTxn ["nodes"; "checks"] in
    let* iter := checks_in_state state in
    let* results := parseChecksByNodeMeta iter filters in
    mreturn (idx, results)).

(** ** Services with their nodes and checks *)

(** [parseCheckServiceNodes]; [tx.Get("checks", "node_service_check", node,
    false)] is filed under the byte 0. *)
Definition checkServiceNode (sn : ServiceNode) : Tx CheckServiceNode :=
  let* n := tx_First (A := Node) (node_key (sn_Node sn)) in
  match n with
  | None => mthrow ErrMissingNode
  | Some node =>
      let* node_checks := tx_Get checks_node_service_check_index (string_args true (sn_Node sn) +:+ nul) in
      let* service_checks := tx_Get checks_node_service_index (service_key (sn_Node sn) (sn_ServiceID sn)) in
      mreturn (mkCheckServiceNode node (ServiceNode_ToNodeService sn) (node_checks ++ service_checks))
  end.
Definition parseCheckServiceNodes (idx : N) (services : list ServiceNode) : Tx (N * list CheckServiceNode) :=
  let* results := mmap checkServiceNode services in mreturn (idx, results).
(** [checkServiceNodes], [CheckServiceNodes], [CheckConnectServiceNodes]. *)
Definition checkServiceNodes (serviceName : string) (connect : bool) : Store → outcome (N * list CheckServiceNode) :=
  read_txn (
    let* results := service_lookup connect serviceName in
    let serviceNames : gset string := list_to_set (sn_ServiceName <$> results) in
    let* idx :=
      (if decide (serviceNames = ∅) then maxIndexForService serviceName false true
       else mfold (λ idx svcName,
              let* svcIdx := maxIndexForService svcName true true in
              mreturn (if (idx <? svcIdx)%N then svcIdx else idx)) 0%N (elements serviceNames)) in
    parseCheckServiceNodes idx results).
Definition CheckServiceNodes (serviceName : string) := checkServiceNodes serviceName false.
Definition CheckConnectServiceNodes (serviceName : string) := checkServiceNodes serviceName true.
(** [CheckServiceTagNodes]. *)
Definition CheckServiceTagNodes (serviceName : string) (tags : list string) :
    Store → outcome (N * list CheckServiceNode) :=
  read_txn (
    let* services := service_lookup false serviceName in
    let* idx := maxIndexForService serviceName (0 <? length services)%nat true in
    parseCheckServiceNodes idx (filter (λ svc, ¬ serviceTagsFilter svc tags) services)).
(** [ServiceDump]. *)
Definition ServiceDump (kind : string) (useKind : bool) : Store → outcome (N * list CheckServiceNode) :=
  read_txn (
    if useKind then
      let* idx := maxIndexTxn [serviceKindIndexName kind] in
      let* services := tx_Get services_kind_index (string_args true kind) in
      parseCheckServiceNodes idx services
    else
      let* idx := maxIndexTxn ["nodes"; "services"; "checks"] in
      let* services := tx_GetPrefix "" in
      parseCheckServiceNodes idx services).

(** ** Dumps of nodes *)

(** [parseNodes]. *)
Definition parseNode (node : Node) : Tx NodeInfo :=
  let* services := tx_Get services_node_index (string_args true (node_Node node)) in
  let* checks := tx_Get checks_node_index (string_args true (node_Node node)) in
  mreturn (mkNodeInfo (node_ID node) (node_Node node) (node_Address node) (node_TaggedAddresses node)
             (node_Meta node) (ServiceNode_ToNodeService <$> services) checks).
Definition parseNodes (idx : N) (iter : list Node) : Tx (N * list NodeInfo) :=
  let* results := mmap parseNode iter in mreturn (idx, results).
(** [NodeInfo], [NodeDump]. *)
Definition Store_NodeInfo (node : string) : Store → outcome (N * list NodeInfo) :=
  read_txn (
    let* idx := maxIndexTxn ["nodes"; "services"; "checks"] in
    let* nodes := tx_GetPrefix (node_key node) in
    parseNodes idx nodes).
Definition NodeDump : Store → outcome (N * list NodeInfo) :=
  read_txn (
    let* idx := maxIndexTxn ["nodes"; "services"; "checks"] in
    let* nodes := tx_GetPrefix "" in
    parseNodes idx nodes).

(** [Coordinate]: the coordinates of a node, by segment. *)
Definition Store_Coordinate (node : string) : Store → outcome (N * gmap string (bool * string)) :=
  read_txn (
    let* idx := maxIndexTxn ["coordinates"] in
    let* iter := tx_Get coordinates_node_index (string_args true node) in
    mreturn (idx, foldl (λ results c, <[co_Segment c := (co_IsValid c, co_rest c)]> results) ∅ iter)).
