(* ===== verification/ServiceValidate.v ===== *)
(** * Validating a service or a check before it is registered
      (agent/structs/structs.go, agent/consul/catalog_endpoint.go, ipaddr)

    [NodeService.Validate] collects what is wrong in a multierror, here the
    list of its messages.  It is given copies of the upstreams and of the
    exposed paths.  A nested SidecarService is nil in what reaches the
    servers. *)

From stdpp Require Import pretty.
From S2P Require Import Prelude Memdb ProxyConfig Structs PreparedQuery Catalog Intention.

(** ** Helpers of the Go library *)

(** [strings.TrimSpace(s) == ""]: only white space, in UTF-8. *)
Definition byte_of (c : ascii) : N := N_of_ascii c.
Definition ascii_space (n : N) : bool := ((9 <=? n) && (n <=? 13) || (n =? 32))%N.
(** U+0085, U+00A0; U+1680, U+2000 to U+200A, U+2028, U+2029, U+202F,
    U+205F, U+3000. *)
Definition space2 (a b : N) : bool := ((a =? 194) && ((b =? 133) || (b =? 160)))%N.
Definition space3 (a b c : N) : bool :=
  ((a =? 225) && (b =? 154) && (c =? 128) ||
   (a =? 226) && (b =? 128) && ((128 <=? c) && (c <=? 138) || (c =? 168) || (c =? 169) || (c =? 175)) ||
   (a =? 226) && (b =? 129) && (c =? 159) ||
   (a =? 227) && (b =? 128) && (c =? 128))%N.
Fixpoint blank (s : string) : bool :=
  match s with
  | EmptyString => true
  | String a s =>
      (ascii_space (byte_of a) && blank s) ||
      match s with
      | String b s =>
          (space2 (byte_of a) (byte_of b) && blank s) ||
          match s with
          | String c s => space3 (byte_of a) (byte_of b) (byte_of c) && blank s
          | EmptyString => false
          end
      | EmptyString => false
      end
  end.

(** [net.JoinHostPort(host, fmt.Sprintf("%d", port))]. *)
Definition JoinHostPort (host : string) (port : Z) : string :=
  if (0 <? count_char ":" host)%nat then "[" +:+ host +:+ "]:" +:+ pretty port
  else host +:+ ":" +:+ pretty port.

(** [ipaddr.IsAny] of a string. *)
Definition IsAnyV4 (ip : string) : bool := bool_decide (ip = "0.0.0.0").
Definition IsAnyV6 (ip : string) : bool := bool_decide (ip = "::" ∨ ip = "[::]").
Definition IsAny (ip : string) : bool := IsAnyV4 ip || IsAnyV6 ip.

(** What is left of an error in a multierror. *)
Definition messages {A} (o : outcome A) : list string :=
  match o with Ok _ => [] | Err (EMsg fmt _) => [fmt] | Err _ => ["error"] | Panic w => [w] end.
(** A multierror as a result: nil when nothing was appended. *)
Definition multierror (l : list string) : outcome unit :=
  match l with [] => Ok tt | _ => Err (EMsg "errors occurred" l) end.

(** ** [NodeService.Validate] *)

Record upstream_state := mkUpstreams {
  us_result : list string; us_upstreamKeys : list UpstreamKey; us_bindAddrs : list string
}.
Definition validate_upstream (st : upstream_state) (u : Upstream) : upstream_state :=
  let fail msgs keys := mkUpstreams (us_result st ++ msgs) keys (us_bindAddrs st) in
  match Upstream_Validate u with
  | Ok _ =>
      let uk := Upstream_ToKey u in
      if decide (uk ∈ us_upstreamKeys st)
      then fail ["upstreams cannot contain duplicates of %s"] (us_upstreamKeys st)
      else
        let keys := uk :: us_upstreamKeys st in
        let addr := if decide (up_LocalBindAddress u = "") then "127.0.0.1" else up_LocalBindAddress u in
        let addr := JoinHostPort addr (up_LocalBindPort u) in
        if decide (addr ∈ us_bindAddrs st)
        then fail ["upstreams cannot contain duplicates by local bind address and port"] keys
        else mkUpstreams (us_result st) keys (addr :: us_bindAddrs st)
  | e => fail (messages e) (us_upstreamKeys st)
  end.
Definition validate_upstreams (l : list Upstream) : list string :=
  us_result (foldl validate_upstream (mkUpstreams [] [] []) l).

Definition allowedExposeProtocols : list string := ["http"; "http2"].
Record path_state := mkPaths {
  pst_result : list string; pst_knownPaths : list string; pst_knownListeners : list Z
}.
Definition validate_path (st : path_state) (p : ExposePath) : path_state :=
  mkPaths
    (pst_result st ++
     when (bool_decide (xp_Path p = "")) "expose.paths: empty path exposed" ++
     when (bool_decide (xp_Path p ∈ pst_knownPaths st)) "expose.paths: duplicate paths exposed" ++
     when (bool_decide (xp_ListenerPort p ∈ pst_knownListeners st)) "expose.paths: duplicate listener ports exposed" ++
     when ((xp_ListenerPort p <=? 0) || (65535 <? xp_ListenerPort p))%Z "expose.paths: invalid listener port" ++
     when (bool_decide (to_lower (xp_Protocol p) ∉ allowedExposeProtocols) &&
           bool_decide (to_lower (xp_Protocol p) ≠ "")) "protocol not supported for path")
    (xp_Path p :: pst_knownPaths st)
    (xp_ListenerPort p :: pst_knownListeners st).
Definition validate_paths (l : list ExposePath) : list string :=
  pst_result (foldl validate_path (mkPaths [] [] []) l).

Definition NodeService_Validate (s : NodeService) : list string :=
  let p := ns_Proxy s in
  (if decide (ns_Kind s = ServiceKindConnectProxy) then
     when (blank (cp_DestinationServiceName p))
       "Proxy.DestinationServiceName must be non-empty for Connect proxy services" ++
     when (bool_decide (ns_Port s = 0%Z)) "Port must be set for a Connect proxy" ++
     when (sco_Native (ns_Connect s)) "A Proxy cannot also be Connect Native, only typical services" ++
     validate_upstreams (default [] (cp_Upstreams p)) ++
     validate_paths (default [] (xc_Paths (cp_Expose p)))
   else []) ++
  (if decide (ns_Kind s = ServiceKindMeshGateway) then
     when (bool_decide (ns_Port s = 0%Z)) "Port must be non-zero for a Mesh Gateway" ++
     when (bool_decide (cp_DestinationServiceName p ≠ ""))
       "The Proxy.DestinationServiceName configuration is invalid for Mesh Gateways" ++
     when (bool_decide (cp_DestinationServiceID p ≠ ""))
       "The Proxy.DestinationServiceID configuration is invalid for Mesh Gateways" ++
     when (bool_decide (cp_LocalServiceAddress p ≠ ""))
       "The Proxy.LocalServiceAddress configuration is invalid for Mesh Gateways" ++
     when (bool_decide (cp_LocalServicePort p ≠ 0%Z))
       "The Proxy.LocalServicePort configuration is invalid for Mesh Gateways" ++
     when (bool_decide (length (default [] (cp_Upstreams p)) ≠ 0))
       "The Proxy.Upstreams configuration is invalid for Mesh Gateways"
   else []).

(** [IsSidecarProxy], [IsMeshGateway]. *)
Definition NodeService_IsSidecarProxy (s : NodeService) : bool :=
  bool_decide (ns_Kind s = ServiceKindConnectProxy) && bool_decide (cp_DestinationServiceID (ns_Proxy s) ≠ "").
Definition NodeService_IsMeshGateway (s : NodeService) : bool := bool_decide (ns_Kind s = ServiceKindMeshGateway).

(** ** The type of a check *)

(** [HealthCheck.CheckType]; the fields it does not set are zero. *)
Definition HealthCheck_CheckType (c : HealthCheck) : CheckType :=
  let d := hc_Definition c in {|
    ct_CheckID := hc_CheckID c; ct_Name := hc_Name c; ct_Status := hc_Status c; ct_Notes := hc_Notes c;
    ct_ScriptArgs := hd_ScriptArgs d; ct_HTTP := hd_HTTP d; ct_Header := hd_Header d; ct_Method := hd_Method d;
    ct_TCP := hd_TCP d; ct_Interval := hd_Interval d; ct_AliasNode := hd_AliasNode d;
    ct_AliasService := hd_AliasService d; ct_DockerContainerID := hd_DockerContainerID d; ct_Shell := hd_Shell d;
    ct_GRPC := hd_GRPC d; ct_GRPCUseTLS := hd_GRPCUseTLS d; ct_TLSSkipVerify := hd_TLSSkipVerify d;
    ct_Timeout := hd_Timeout d; ct_TTL := hd_TTL d; ct_ProxyHTTP := ""; ct_ProxyGRPC := "";
    ct_DeregisterCriticalServiceAfter := hd_DeregisterCriticalServiceAfter d; ct_OutputMaxSize := 0 |}.
