(* ===== verification/Endpoint.v ===== *)
(** * Write requests on a server (agent/consul: catalog_endpoint.go,
      kvs_endpoint.go, txn_endpoint.go, acl.go, rpc.go)

    What a server does with a request before it becomes an entry of the Raft
    log: validation, defaults, and the rules of the token it carries.  The
    answer of [ResolveToken] is an argument: an error, no authorizer (ACLs are
    off), or the authorizer of the token.  The request is one that is served
    here and not forwarded. *)

From S2P Require Import Prelude Memdb ProxyConfig Structs ConnectTables AclTables ConfigEntries Delay TombstoneGC Store Kvs PreparedQuery Catalog Intention Txn Fsm.
From S2P Require Import Radix Acl Authorizer Filter CatalogRead ServiceValidate.

Definition ErrPermissionDenied : error := EMsg "Permission denied" [].

(** ** The Raft log *)

(** What becomes of an entry handed to Raft (third-party): it is committed, at
    the index [idx] and after the entries [before] of others, and applied at
    the local time [now]; or Raft returns an error, the entries [before], to
    which it may or may not belong, having been committed. *)
Inductive raft_run :=
| Committed (before : list (Z * N * command)) (now : Z) (idx : N)
| Refused (before : list (Z * N * command)) (e : error).

Definition replay (ext : externals) (before : list (Z * N * command)) : M Store unit := λ st,
  let '(rs, st) := fsm_run ext before st in
  match list.last rs with
  | Some (Panic w) => (Panic w, st)
  | _ => (Ok tt, st)
  end.
(** [raftApply]: the error of Raft is thrown, the answer of the state machine,
    which may be an error, is the value. *)
Definition raftApply (ext : externals) (raft : raft_run) (c : command) : M Store (outcome response) :=
  match raft with
  | Committed before now idx => replay ext before ;;; mtry (fsm_apply ext now idx c)
  | Refused before e => replay ext before ;;; mthrow e
  end.
(** [if respErr, ok := resp.(error); ok { return respErr }]. *)
Definition response_of (resp : outcome response) : M Store response := mlift resp.

(** ** Validation and defaults *)

(** [nodePreApply]. *)
Definition nodePreApply (nodeName nodeID : string) : outcome unit :=
  if decide (nodeName = "") then Err (EMsg "Must provide node" [])
  else if decide (nodeID ≠ "") then
    match ParseUUID nodeID with
    | Ok _ => Ok tt
    | Err e => Err (EWrap "Bad node ID: %v" [] e)
    | Panic w => Panic w
    end
  else Ok tt.

Definition ns_set_id (id : string) (s : NodeService) : NodeService :=
  mkNodeService (ns_Kind s) id (ns_Service s) (ns_Tags s) (ns_Address s) (ns_TaggedAddresses s) (ns_Meta s)
    (ns_Port s) (ns_Weights s) (ns_EnableTagOverride s) (ns_Proxy s) (ns_Connect s) (ns_CreateIndex s) (ns_ModifyIndex s).
Definition hc_set (node checkID type : string) (c : HealthCheck) : HealthCheck :=
  mkHealthCheck node checkID (hc_Name c) (hc_Status c) (hc_Notes c) (hc_Output c) (hc_ServiceID c)
    (hc_ServiceName c) (hc_ServiceTags c) type (hc_Definition c) (hc_CreateIndex c) (hc_ModifyIndex c).

(** [checkPreApply]. *)
Definition checkPreApply (check : HealthCheck) : HealthCheck :=
  if decide (hc_CheckID check = "" ∧ hc_Name check ≠ "")
  then hc_set (hc_Node check) (hc_Name check) (hc_Type check) check else check.
(** The loop of [Register] over the checks. *)
Definition register_check (node : string) (check : HealthCheck) : HealthCheck :=
  let check := if decide (hc_Node check = "") then hc_set node (hc_CheckID check) (hc_Type check) check else check in
  let check := checkPreApply check in
  if decide (hc_Type check = "")
  then hc_set (hc_Node check) (hc_CheckID check) (CheckType_Type (HealthCheck_CheckType check)) check
  else check.
Definition rr_set (service : option NodeService) (check : option HealthCheck) (checks : list HealthCheck)
    (r : RegisterRequest) : RegisterRequest :=
  mkRegisterRequest (rr_Datacenter r) (rr_ID r) (rr_Node r) (rr_Address r) (rr_TaggedAddresses r) (rr_NodeMeta r)
    service check checks (rr_SkipNodeUpdate r).

Section endpoints.
Context {T : Type → Type} `{RadixOps T}.

(** [if rule != nil && !rule.Allowed(...)]. *)
Definition denies (rule : option (Authorizer T)) (allowed : Authorizer T → bool) : bool :=
  match rule with None => false | Some a => negb (allowed a) end.

(** [servicePreApply]: the service with its default ID. *)
Definition servicePreApply (service : NodeService) (rule : option (Authorizer T)) : outcome NodeService :=
  obind (multierror (NodeService_Validate service)) (λ _,
  let service := if decide (ns_ID service = "" ∧ ns_Service service ≠ "")
                 then ns_set_id (ns_Service service) service else service in
  if decide (ns_ID service ≠ "" ∧ ns_Service service = "") then Err (EMsg "Must provide service name with ID" [])
  else if IsAny (ns_Address service) then Err (EMsg "Invalid service address" [])
  else if bool_decide (ns_Service service ≠ ConsulServiceName) && denies rule (λ a, ServiceWrite a (ns_Service service))
  then Err ErrPermissionDenied
  else if bool_decide (ns_Kind service = ServiceKindConnectProxy) &&
          denies rule (λ a, ServiceWrite a (cp_DestinationServiceName (ns_Proxy service)))
  then Err ErrPermissionDenied
  else Ok service).

(** ** Vetting by the rules of the token (acl.go) *)

(** The loop of [vetRegisterWithACL] over the checks. *)
Fixpoint vet_checks (a : Authorizer T) (subj : RegisterRequest) (ns : option NodeServices) (l : list HealthCheck) :
    outcome unit :=
  match l with
  | [] => Ok tt
  | check :: l =>
      if decide (hc_Node check ≠ rr_Node subj)
      then Err (EMsg "Node '%s' for check '%s' doesn't match register request node '%s'"
                  [hc_Node check; hc_CheckID check; rr_Node subj])
      else if decide (hc_ServiceID check = "") then
        if NodeWrite a (rr_Node subj) then vet_checks a subj ns l else Err ErrPermissionDenied
      else if decide (ns_ID <$> rr_Service subj = Some (hc_ServiceID check)) then vet_checks a subj ns l
      else
        match ns ≫= λ ns, nss_Services ns !! hc_ServiceID check with
        | None => Err (EMsg "Unknown service '%s' for check '%s'" [hc_ServiceID check; hc_CheckID check])
        | Some other =>
            if ServiceWrite a (ns_Service other) then vet_checks a subj ns l else Err ErrPermissionDenied
        end
  end.
(** [vetRegisterWithACL]. *)
Definition vetRegisterWithACL (rule : option (Authorizer T)) (subj : RegisterRequest) (ns : option NodeServices) :
    outcome unit :=
  match rule with
  | None => Ok tt
  | Some a =>
      let needsNode := match ns with None => true | Some ns => RegisterRequest_ChangesNode subj (Some (nss_Node ns)) end in
      if needsNode && negb (NodeWrite a (rr_Node subj)) then Err ErrPermissionDenied
      else
        obind (match rr_Service subj with
               | None => Ok tt
               | Some svc =>
                   if negb (ServiceWrite a (ns_Service svc)) then Err ErrPermissionDenied
                   else match ns ≫= λ ns, nss_Services ns !! ns_ID svc with
                        | Some other => if ServiceWrite a (ns_Service other) then Ok tt else Err ErrPermissionDenied
                        | None => Ok tt
                        end
               end) (λ _,
        match rr_Check subj with
        | Some _ => Err (EMsg "check member must be nil" [])
        | None => vet_checks a subj ns (rr_Checks subj)
        end)
  end.
(** [vetDeregisterWithACL]. *)
Definition vetDeregisterWithACL (rule : option (Authorizer T)) (subj : DeregisterRequest) (ns : option NodeService)
    (nc : option HealthCheck) : outcome unit :=
  match rule with
  | None => Ok tt
  | Some a =>
      if NodeWrite a (dr_Node subj) then Ok tt
      else if decide (dr_ServiceID subj ≠ "") then
        match ns with
        | None => Err (EMsg "Unknown service '%s'" [dr_ServiceID subj])
        | Some ns => if ServiceWrite a (ns_Service ns) then Ok tt else Err ErrPermissionDenied
        end
      else if decide (dr_CheckID subj ≠ "") then
        match nc with
        | None => Err (EMsg "Unknown check '%s'" [dr_CheckID subj])
        | Some nc =>
            if decide (hc_ServiceID nc ≠ "")
            then if ServiceWrite a (hc_ServiceName nc) then Ok tt else Err ErrPermissionDenied
            else if NodeWrite a (dr_Node subj) then Ok tt else Err ErrPermissionDenied
        end
      else Err ErrPermissionDenied
  end.
(** [vetNodeTxnOp], [vetServiceTxnOp], [vetCheckTxnOp]. *)
Definition permit (b : bool) : outcome unit := if b then Ok tt else Err ErrPermissionDenied.
Definition vetNodeTxnOp (op : TxnNodeOp) (rule : option (Authorizer T)) : outcome unit :=
  permit (negb (denies rule (λ a, NodeWrite a (node_Node (tn_Node op))))).
Definition vetServiceTxnOp (op : TxnServiceOp) (rule : option (Authorizer T)) : outcome unit :=
  permit (negb (denies rule (λ a, ServiceWrite a (ns_Service (tsv_Service op))))).
Definition vetCheckTxnOp (op : TxnCheckOp) (rule : option (Authorizer T)) : outcome unit :=
  let c := tc_Check op in
  permit (negb (denies rule (λ a,
    if decide (hc_ServiceID c = "") then NodeWrite a (hc_Node c) else ServiceWrite a (hc_ServiceName c)))).

(** ** Catalog.Register and Catalog.Deregister *)

Context (ext : externals) (ACLEnforceVersion8 : bool).
(** What the request meets: its token, resolved, and the Raft log. *)
Context (resolved : outcome (option (Authorizer T))) (raft : raft_run).

Definition vet_if8 (rule : option (Authorizer T)) (vet : Store → outcome unit) : M Store unit :=
  match rule with
  | Some _ => if ACLEnforceVersion8 then mread vet else mreturn tt
  | None => mreturn tt
  end.

(** The request as it goes into the log, with what stands for an error in it. *)
Definition register_args (rule : option (Authorizer T)) (args : RegisterRequest) : outcome RegisterRequest :=
  obind (nodePreApply (rr_Node args) (rr_ID args)) (λ _,
  if decide (rr_Address args = "" ∧ rr_SkipNodeUpdate args = false)
  then Err (EMsg "Must provide address if SkipNodeUpdate is not set" [])
  else
    obind (match rr_Service args with
           | None => Ok None
           | Some svc => obind (servicePreApply svc rule) (λ svc, Ok (Some svc))
           end) (λ service,
    let checks := match rr_Check args with Some c => rr_Checks args ++ [c] | None => rr_Checks args end in
    Ok (rr_set service None (register_check (rr_Node args) <$> checks) args))).
Definition vet_register (rule : option (Authorizer T)) (args : RegisterRequest) (st : Store) : outcome unit :=
  obind (owrap "Node lookup failed: %v" (Store_NodeServices (rr_Node args) st)) (λ r, vetRegisterWithACL rule args r.2).
(** [Catalog.Register]. *)
Definition Catalog_Register (args : RegisterRequest) : M Store unit :=
  let* rule := mlift resolved in
  let* args := mlift (register_args rule args) in
  vet_if8 rule (vet_register rule args) ;;;
  let* resp := raftApply ext raft (RegisterRequestType args) in
  response_of resp ;;; mreturn tt.

Definition vet_deregister (rule : option (Authorizer T)) (args : DeregisterRequest) (st : Store) : outcome unit :=
  obind (if decide (dr_ServiceID args ≠ "")
         then obind (owrap "Service lookup failed: %v" (Store_NodeService (dr_Node args) (dr_ServiceID args) st)) (λ r, Ok r.2)
         else Ok None) (λ ns,
  obind (if decide (dr_CheckID args ≠ "")
         then obind (owrap "Check lookup failed: %v" (NodeCheck (dr_Node args) (dr_CheckID args) st)) (λ r, Ok r.2)
         else Ok None) (λ nc,
  vetDeregisterWithACL rule args ns nc)).
(** [Catalog.Deregister]: the answer of the state machine is not looked at. *)
Definition Catalog_Deregister (args : DeregisterRequest) : M Store unit :=
  if decide (dr_Node args = "") then mthrow (EMsg "Must provide node" [])
  else
    let* rule := mlift resolved in
    vet_if8 rule (vet_deregister rule args) ;;;
    raftApply ext raft (DeregisterRequestType args) ;;; mreturn tt.

(** ** KVS.Apply *)

(** [kvsPreApply], at the leader's time [now]. *)
Definition kvsPreApply (now : Z) (rule : option (Authorizer T)) (op : string) (dirEnt : DirEntry) (st : Store) :
    outcome bool :=
  let key := de_Key dirEnt in
  if decide (key = "" ∧ op ≠ "delete-tree") then Err (EMsg "Must provide key" [])
  else
    let refused :=
      if decide (op = "delete-tree") then denies rule (λ a, KeyWritePrefix a key)
      else if decide (op = "get" ∨ op = "get-tree") then false
      else if decide (op = "check-session" ∨ op = "check-index") then denies rule (λ a, KeyRead a key)
      else denies rule (λ a, KeyWrite a key) in
    if refused then Err ErrPermissionDenied
    else if decide (op = "lock") then
      match KVSLockDelay key st with
      | Some expires => Ok (negb (now <? expires)%Z)
      | None => Ok true
      end
    else Ok true.
(** [KVS.Apply]: the reply. *)
Definition KVS_Apply (now : Z) (args : KVSRequest) : M Store bool :=
  let* acl := mlift resolved in
  let* ok := mread (kvsPreApply now acl (kr_Op args) (kr_DirEnt args)) in
  if (ok : bool) then
    let* resp := raftApply ext raft (KVSRequestType args) in
    let* resp := response_of resp in
    mreturn (match resp with RBool b => b | _ => false end)
  else mreturn false.

(** ** Txn.Apply and Txn.Read *)

(** One operation of [preCheck]: with its defaults filled in, or refused. *)
Definition preCheck_op (now : Z) (authorizer : option (Authorizer T)) (st : Store) (op : TxnOp) : outcome TxnOp :=
  match op_KV op, op_Node op, op_Service op, op_Check op with
  | Some o, _, _, _ =>
      obind (kvsPreApply now authorizer (tk_Verb o) (tk_DirEnt o) st) (λ ok,
      if (ok : bool) then Ok op
      else Err (EMsg "failed to lock key %q due to lock delay" [de_Key (tk_DirEnt o)]))
  | None, Some o, _, _ =>
      if decide (tn_Verb o = "get") then Ok op
      else
        obind (nodePreApply (node_Node (tn_Node o)) (node_ID (tn_Node o))) (λ _,
        obind (vetNodeTxnOp o authorizer) (λ _, Ok op))
  | None, None, Some o, _ =>
      if decide (tsv_Verb o = "get") then Ok op
      else
        obind (servicePreApply (tsv_Service o) None) (λ service,
        let o := mkTxnServiceOp (tsv_Verb o) (tsv_Node o) service in
        obind (vetServiceTxnOp o authorizer) (λ _,
        Ok (mkTxnOp (op_KV op) (op_Intention op) (op_Node op) (Some o) (op_Check op))))
  | None, None, None, Some o =>
      if decide (tc_Verb o = "get") then Ok op
      else
        let o := mkTxnCheckOp (tc_Verb o) (checkPreApply (tc_Check o)) in
        obind (vetCheckTxnOp o authorizer) (λ _,
        Ok (mkTxnOp (op_KV op) (op_Intention op) (op_Node op) (op_Service op) (Some o)))
  | None, None, None, None => Ok op
  end.
(** [Txn.preCheck]: the operations and the errors, each with its position. *)
Fixpoint preCheck (now : Z) (authorizer : option (Authorizer T)) (st : Store) (i : nat) (ops : list TxnOp) :
    outcome (list TxnOp * TxnErrors) :=
  match ops with
  | [] => Ok ([], [])
  | op :: ops =>
      obind (match preCheck_op now authorizer st op with
             | Ok op => Ok (op, [])
             | Err e => Ok (op, [(i, e)])
             | Panic w => Panic w
             end) (λ '(op, errs),
      obind (preCheck now authorizer st (S i) ops) (λ '(ops, errors), Ok (op :: ops, errs ++ errors)))
  end.

Definition filter_results (authorizer : option (Authorizer T)) (results : list TxnResult) : outcome (list TxnResult) :=
  match authorizer with Some a => FilterTxnResults a results | None => Ok results end.
(** [Txn.Apply]. *)
Definition Txn_Apply (now : Z) (ops : list TxnOp) : M Store (list TxnResult * TxnErrors) :=
  let* authorizer := mlift resolved in
  let* (ops, errors) := mread (λ st, preCheck now authorizer st 0 ops) in
  match errors with
  | _ :: _ => mreturn ([], errors)
  | [] =>
      let* resp := raftApply ext raft (TxnRequestType ops) in
      let* resp := response_of resp in
      match resp with
      | RTxn results errors =>
          let* results := mlift (filter_results authorizer results) in
          mreturn (results, errors)
      | _ => mthrow (EMsg "unexpected return type %T" [])
      end
  end.
(** [Txn.Read], which answers from the local store; [consistent] is the answer
    of [consistentRead] when the request asks for it. *)
Definition Txn_Read (now : Z) (consistent : outcome unit) (ops : list TxnOp) (st : Store) :
    outcome (list TxnResult * TxnErrors) :=
  obind consistent (λ _,
  obind resolved (λ authorizer,
  obind (preCheck now authorizer st 0 ops) (λ '(ops, errors),
  match errors with
  | _ :: _ => Ok ([], errors)
  | [] =>
      obind (TxnRO ops st) (λ '(results, errors),
      obind (filter_results authorizer results) (λ results, Ok (results, errors)))
  end))).
End endpoints.
