(* ===== verification/SessionEndpoint.v ===== *)
(** * Sessions on the leader (agent/consul: session_endpoint.go,
      session_ttl.go, session_timers.go)

    The session requests, and the timers that end a session whose TTL was not
    renewed.  A timer ([*time.Timer] of the Go library) has an identity of its
    own, apart from its entry in the map: it is armed with a deadline, or it
    has fired or was stopped.  The function it runs is a goroutine. *)

From Stdlib Require Import Floats.SpecFloat.
From S2P Require Import Prelude.
From S2P Require Import Memdb ProxyConfig Structs ConnectTables AclTables ConfigEntries Delay TombstoneGC Store Session Txn Fsm.
From S2P Require Import Radix Acl Authorizer Filter Endpoint.

(** ** Durations as text: [time.ParseDuration] of the Go library

    A duration is an [int64] of nanoseconds, parsed as a [uint64] of at most
    2^63; fractions go through a 64-bit floating point number. *)

Definition two63 : N := 9223372036854775808%N.
Definition digit (c : ascii) : option N :=
  let n := N_of_ascii c in if ((48 <=? n) && (n <=? 57))%N then Some (n - 48)%N else None.
Definition dot_or_digit (c : ascii) : bool := Ascii.eqb c "." || bool_decide (is_Some (digit c)).

(** [leadingInt]: an error when the number passes 2^63. *)
Fixpoint leadingInt (x : N) (s : string) : option (N * string) :=
  match s with
  | EmptyString => Some (x, s)
  | String c s' =>
      match digit c with
      | None => Some (x, s)
      | Some n =>
          if (two63 / 10 <? x)%N then None
          else let x := (x * 10 + n)%N in if (two63 <? x)%N then None else leadingInt x s'
      end
  end.

(** [leadingFraction]: digits past what fits are skipped; the scale is ten to
    the number of digits taken. *)
Definition f64 : Type := spec_float.
Definition f64_of_N (n : N) : f64 := binary_normalize 53 1024 (Z.of_N n) 0 false.
Fixpoint leadingFraction (x : N) (scale : f64) (overflow : bool) (s : string) : N * f64 * string :=
  match s with
  | EmptyString => (x, scale, s)
  | String c s' =>
      match digit c with
      | None => (x, scale, s)
      | Some n =>
          if overflow then leadingFraction x scale true s'
          else if ((two63 - 1) / 10 <? x)%N then leadingFraction x scale true s'
          else
            let y := (x * 10 + n)%N in
            if (two63 <? y)%N then leadingFraction x scale true s'
            else leadingFraction y (SFmul 53 1024 scale (f64_of_N 10)) false s'
      end
  end.
(** [uint64(f)], towards zero. *)
Definition u64_of_f64 (f : f64) : N :=
  match f with
  | S754_finite false m e => Z.to_N (Z.shiftl (Zpos m) e)
  | _ => 0%N
  end.

(** The unit: everything up to the next digit or dot. *)
Fixpoint span_unit (s : string) : string * string :=
  match s with
  | EmptyString => (s, s)
  | String c s' => if dot_or_digit c then (EmptyString, s) else let (u, r) := span_unit s' in (String c u, r)
  end.
(** [unitMap]; the micro sign is U+00B5 or U+03BC. *)
Definition micro1 : string := String "194" (String "181" "s").
Definition micro2 : string := String "206" (String "188" "s").
Definition unit_of (u : string) : option N :=
  if decide (u = "ns") then Some 1%N
  else if decide (u = "us" ∨ u = micro1 ∨ u = micro2) then Some 1000%N
  else if decide (u = "ms") then Some 1000000%N
  else if decide (u = "s") then Some 1000000000%N
  else if decide (u = "m") then Some 60000000000%N
  else if decide (u = "h") then Some 3600000000000%N
  else None.

Definition invalid_duration (s : string) : outcome Z := Err (EMsg "time: invalid duration" [s]).
(** One number with its unit, and the rest of the string. *)
Definition parse_part (orig s : string) : outcome (N * string) :=
  let invalid := Err (EMsg "time: invalid duration" [orig]) in
  match leadingInt 0 s with
  | None => invalid
  | Some (v, s1) =>
      let pre := negb (String.length s =? String.length s1)%nat in
      let '(f, scale, s2, post) :=
        match s1 with
        | String "." s' =>
            let '(f, scale, s2) := leadingFraction 0 (f64_of_N 1) false s' in
            (f, scale, s2, negb (String.length s' =? String.length s2)%nat)
        | _ => (0%N, f64_of_N 1, s1, false)
        end in
      if negb pre && negb post then invalid
      else
        let (u, s3) := span_unit s2 in
        if decide (u = "") then Err (EMsg "time: missing unit in duration" [orig])
        else match unit_of u with
             | None => Err (EMsg "time: unknown unit" [u; orig])
             | Some unit =>
                 if (two63 / unit <? v)%N then invalid
                 else
                   let v := (v * unit)%N in
                   let v := if (0 <? f)%N
                            then u64_add v (u64_of_f64 (SFmul 53 1024 (f64_of_N f) (SFdiv 53 1024 (f64_of_N unit) scale)))
                            else v in
                   if (0 <? f)%N && (two63 <? v)%N then invalid else Ok (v, s3)
             end
  end.
(** Each part takes a character at least. *)
Fixpoint parse_parts (fuel : nat) (orig : string) (d : N) (s : string) : outcome N :=
  match fuel with
  | O => Panic "out of fuel"
  | S fuel =>
      match s with
      | EmptyString => Ok d
      | String c _ =>
          if negb (dot_or_digit c) then Err (EMsg "time: invalid duration" [orig])
          else obind (parse_part orig s) (λ '(v, s),
            let d := u64_add d v in
            if (two63 <? d)%N then Err (EMsg "time: invalid duration" [orig]) else parse_parts fuel orig d s)
      end
  end.
Definition ParseDuration (orig : string) : outcome Z :=
  let (neg, s) := match orig with
                  | String "-" s => (true, s)
                  | String "+" s => (false, s)
                  | _ => (false, orig)
                  end in
  if decide (s = "0") then Ok 0%Z
  else if decide (s = "") then invalid_duration orig
  else obind (parse_parts (S (String.length s)) orig 0 s) (λ d,
    if neg then Ok (- Z.of_N d)%Z
    else if (two63 - 1 <? d)%N then invalid_duration orig
    else Ok (Z.of_N d)).

Example parse_examples :
  ParseDuration "1h15m30.918s" = Ok 4530918000000%Z ∧ ParseDuration "-.5s" = Ok (-500000000)%Z ∧
  ParseDuration "10" = Err (EMsg "time: missing unit in duration" ["10"]) ∧ ParseDuration "" = invalid_duration "".
Proof. vm_compute. repeat split. Qed.

(** [SessionTTLMax = 24 * time.Hour], [SessionTTLMultiplier = 2]. *)
Definition SessionTTLMax : Z := 86400000000000.
Definition SessionTTLMultiplier : Z := 2.
Definition maxInvalidateAttempts : nat := 6.
Definition invalidateRetryBase : Z := 10000000000.

(** Go's [int64] arithmetic. *)
Definition i64_wrap (z : Z) : Z := ((z + 9223372036854775808) mod 18446744073709551616 - 9223372036854775808)%Z.
(** The deadline of [time.AfterFunc(d, f)] and [Reset(d)]. *)
Definition timer_when (now d : Z) : Z := Z.min (now + Z.max 0 d) 9223372036854775807.

(** ** [SessionTimers] *)

Record SessionTimers := mkTimers {
  t_m : gmap string positive;
  t_timers : gmap positive (string * option Z)
}.
Definition NewSessionTimers : SessionTimers := mkTimers ∅ ∅.
Definition Timers_Get (id : string) (t : SessionTimers) : option positive := t_m t !! id.
Definition Timers_Set (id : string) (tm : option positive) (t : SessionTimers) : SessionTimers :=
  match tm with
  | None => mkTimers (delete id (t_m t)) (t_timers t)
  | Some l => mkTimers (<[id := l]> (t_m t)) (t_timers t)
  end.
Definition Timers_Del (id : string) (t : SessionTimers) : SessionTimers := Timers_Set id None t.
Definition Timers_Len (t : SessionTimers) : nat := size (t_m t).
(** What [Reset] and [Stop] of a timer do. *)
Definition set_deadline (l : positive) (d : option Z) (t : SessionTimers) : SessionTimers :=
  mkTimers (t_m t) (alter (λ x, (x.1, d)) l (t_timers t)).
Definition ResetOrCreate (now : Z) (id : string) (ttl : Z) (t : SessionTimers) : SessionTimers :=
  match t_m t !! id with
  | Some l => set_deadline l (Some (timer_when now ttl)) t
  | None =>
      let l := fresh (dom (t_timers t)) in
      mkTimers (<[id := l]> (t_m t)) (<[l := (id, Some (timer_when now ttl))]> (t_timers t))
  end.
Definition Timers_Stop (id : string) (t : SessionTimers) : SessionTimers :=
  match t_m t !! id with
  | Some l => Timers_Del id (set_deadline l None t)
  | None => t
  end.
Definition StopAll (t : SessionTimers) : SessionTimers :=
  mkTimers ∅ (t_timers (foldl (λ t kl, set_deadline kl.2 None t) t (map_to_list (t_m t)))).

(** ** The server: its store and its timers *)

Record Server := mkServer { srv_store : Store; sessionTimers : SessionTimers }.
Definition on_store {A} (m : M Store A) : M Server A := λ s,
  let '(r, st) := m (srv_store s) in (r, mkServer st (sessionTimers s)).
Definition on_timers (f : SessionTimers → SessionTimers) : M Server unit :=
  mmodify (λ s, mkServer (srv_store s) (f (sessionTimers s))).

(** ** TTLs (session_ttl.go) *)

Definition createSessionTimer (now : Z) (id : string) (ttl : Z) : M Server unit :=
  let ttl := i64_wrap (ttl * SessionTTLMultiplier) in
  on_timers (ResetOrCreate now id ttl).
Definition resetSessionTimer (now : Z) (id : string) (session : option Session) : M Server unit :=
  let* session :=
    (match session with
     | Some s => mreturn s
     | None =>
         let* (_, s) := on_store (mread (SessionGet id)) in
         match s with Some s => mreturn s | None => mthrow (EMsg "Session '%s' not found" [id]) end
     end) in
  if decide (sess_TTL session ∈ [""; "0"; "0s"; "0m"; "0h"]) then mreturn tt
  else
    match ParseDuration (sess_TTL session) with
    | Ok ttl => if (ttl =? 0)%Z then mreturn tt else createSessionTimer now (sess_ID session) ttl
    | Err e => mthrow (EWrap "Invalid Session TTL '%s': %v" [sess_TTL session] e)
    | Panic w => mpanic w
    end.
Definition initializeSessionTimers (now : Z) : M Server unit :=
  let* (_, sessions) := on_store (mread SessionList) in
  for session in sessions do resetSessionTimer now (sess_ID session) (Some session).
Definition clearSessionTimer (id : string) : M Server unit := on_timers (Timers_Stop id).
Definition clearAllSessionTimers : M Server unit := on_timers StopAll.

Definition sess_set (id behavior : string) (s : Session) : Session :=
  mkSession id (sess_Name s) (sess_Node s) (sess_Checks s) (sess_LockDelay s) behavior (sess_TTL s)
    (sess_CreateIndex s) (sess_ModifyIndex s).

Section server.
Context {T : Type → Type} `{RadixOps T} (ext : externals).

(** The attempts of [invalidateSession] and how long each failed one sleeps;
    [raft] is what Raft does with each. *)
Definition destroy_request (id : string) : command :=
  SessionRequestType (mkSessionRequest "destroy" (mkSession id "" "" [] 0 "" "" 0 0)).
Fixpoint invalidate_attempts (attempt : nat) (raft : list raft_run) (id : string) : M Server (list Z) :=
  match raft with
  | [] => mreturn []
  | run :: raft =>
      if (attempt <? maxInvalidateAttempts)%nat then
        let* r := mtry (on_store (raftApply ext run (destroy_request id))) in
        match r with
        | Ok _ => mreturn []
        | _ =>
            let* sleeps := invalidate_attempts (S attempt) raft id in
            mreturn ((Z.shiftl 1 (Z.of_nat attempt) * invalidateRetryBase)%Z :: sleeps)
        end
      else mreturn []
  end.
Definition invalidateSession (raft : list raft_run) (id : string) : M Server (list Z) :=
  on_timers (Timers_Del id) ;;; invalidate_attempts 0 raft id.

(** ** The Session endpoint *)

Context (ACLEnforceVersion8 : bool) (SessionTTLMin : Z).
Context (resolved : outcome (option (Authorizer T))).

(** The rules of the token, for [Apply]. *)
Definition vet_session (rule : option (Authorizer T)) (args : SessionRequest) (st : Store) : outcome unit :=
  match rule with
  | None => Ok tt
  | Some a =>
      if negb ACLEnforceVersion8 then Ok tt
      else if decide (sr_Op args = "destroy") then
        obind (owrap "Session lookup failed: %v" (SessionGet (sess_ID (sr_Session args)) st)) (λ r,
        match r.2 with
        | None => Err (EMsg "Unknown session %q" [sess_ID (sr_Session args)])
        | Some existing => if SessionWrite a (sess_Node existing) then Ok tt else Err ErrPermissionDenied
        end)
      else if decide (sr_Op args = "create") then
        if SessionWrite a (sess_Node (sr_Session args)) then Ok tt else Err ErrPermissionDenied
      else Err (EMsg "Invalid session operation %q" [sr_Op args])
  end.
Definition check_behavior (b : string) : outcome string :=
  if decide (b = "") then Ok SessionKeysRelease
  else if decide (b = SessionKeysRelease ∨ b = SessionKeysDelete) then Ok b
  else Err (EMsg "Invalid Behavior setting '%s'" [b]).
Definition check_ttl (ttl : string) : outcome unit :=
  if decide (ttl = "") then Ok tt
  else
    match ParseDuration ttl with
    | Ok d =>
        if negb (d =? 0)%Z && ((d <? SessionTTLMin)%Z || (SessionTTLMax <? d)%Z)
        then Err (EMsg "Invalid Session TTL '%d', must be between [%v=%v]" [ttl]) else Ok tt
    | Err e => Err (EWrap "Session TTL '%s' invalid: %v" [ttl] e)
    | Panic w => Panic w
    end.
(** The loop that draws an ID no session has; [uuids] are the draws of
    [uuid.GenerateUUID] (third-party). *)
Fixpoint generate_id (uuids : list (outcome string)) : M Server string :=
  match uuids with
  | [] => mpanic "out of fuel"
  | u :: uuids =>
      let* id := mlift u in
      let* (_, sess) := on_store (mread (SessionGet id)) in
      match sess with Some _ => generate_id uuids | None => mreturn id end
  end.
(** [Session.Apply]. *)
Definition Session_Apply (now : Z) (raft : raft_run) (uuids : list (outcome string)) (args : SessionRequest) :
    M Server string :=
  let op := sr_Op args in
  let session := sr_Session args in
  if decide (sess_ID session = "" ∧ op = "destroy") then mthrow (EMsg "Must provide ID" [])
  else if decide (sess_Node session = "" ∧ op = "create") then mthrow (EMsg "Must provide Node" [])
  else
    let* rule := mlift resolved in
    on_store (mread (vet_session rule args)) ;;;
    let* behavior := mlift (check_behavior (sess_Behavior session)) in
    mlift (check_ttl (sess_TTL session)) ;;;
    let* id := (if decide (op = "create") then generate_id uuids else mreturn (sess_ID session)) in
    let session := sess_set id behavior session in
    let* resp := on_store (raftApply ext raft (SessionRequestType (mkSessionRequest op session))) in
    (if decide (op = "create" ∧ sess_TTL session ≠ "")
     then mtry (resetSessionTimer now id (Some session)) ;;; mreturn tt
     else if decide (op = "destroy") then clearSessionTimer id else mreturn tt) ;;;
    let* resp := mlift resp in
    mreturn (match resp with RString s => s | _ => "" end).

(** [Session.Renew]: the index and the session. *)
Definition Session_Renew (now : Z) (id : string) : M Server (N * option Session) :=
  let* (index, session) := on_store (mread (SessionGet id)) in
  match session with
  | None => mreturn (index, None)
  | Some session =>
      let* rule := mlift resolved in
      (if ACLEnforceVersion8 && denies rule (λ a, SessionWrite a (sess_Node session))
       then mthrow ErrPermissionDenied else mreturn tt) ;;;
      resetSessionTimer now id (Some session) ;;;
      mreturn (index, Some session)
  end.

(** [Session.Get], [Session.List] and [Session.NodeSessions], answered from the
    store and filtered. *)
Definition session_reply (r : outcome (N * list Session)) : outcome (N * list Session) :=
  obind r (λ '(index, sessions),
  obind (filterACL ACLEnforceVersion8 resolved (SubjSessions sessions)) (λ subj,
  match subj with SubjSessions sessions => Ok (index, sessions) | _ => Ok (index, []) end)).
Definition Session_Get (id : string) (st : Store) : outcome (N * list Session) :=
  session_reply (obind (SessionGet id st) (λ '(index, s), Ok (index, match s with Some s => [s] | None => [] end))).
Definition Session_List (st : Store) : outcome (N * list Session) := session_reply (SessionList st).
Definition Session_NodeSessions (node : string) (st : Store) : outcome (N * list Session) :=
  session_reply (NodeSessions node st).
End server.
