(* ===== verification/Replication.v ===== *)
(** * Replication from the primary datacenter (agent/consul: acl_replication.go,
      acl_replication_types.go, acl_replication_legacy.go,
      config_replication.go, the replicators of leader.go)

    The leader of a secondary datacenter asks the primary one for its ACL
    tokens, policies, roles and config entries, compares them with its own and
    writes the difference through Raft.  What the primary datacenter answers is
    an argument; so is what becomes of each write ([raft_run]), and whether the
    server is told to stop each time it waits. *)

From S2P Require Import Prelude Memdb ProxyConfig Structs ConnectTables AclTables ConfigEntries Delay TombstoneGC Store.
From S2P Require Import AclState ConfigState Txn Fsm Radix Acl Authorizer Filter Endpoint.

(** [aclBatchDeleteSize], [aclBatchUpsertSize] (bytes, as estimated). *)
Definition aclBatchDeleteSize : nat := 4096.
Definition aclBatchUpsertSize : Z := 262144.
Definition aclReplicationMaxRetryBackoff : Z := 64.

(** ** Sizes and stubs (agent/structs/acl.go) *)

Definition len (s : string) : Z := Z.of_nat (String.length s).
Definition sum_sizes {A} (size : A → Z) (l : list A) : Z := foldl (λ n x, (n + size x)%Z) 0%Z l.
Definition ACLServiceIdentity_EstimateSize (s : ACLServiceIdentity) : Z :=
  (len (asi_ServiceName s) + sum_sizes len (asi_Datacenters s))%Z.
Definition ACLToken_EstimateSize (t : ACLToken) : Z :=
  (41 + len (act_AccessorID t) + len (act_SecretID t) + len (act_Description t) + len (act_Type t) + len (act_Rules t) +
   len (act_AuthMethod t) + sum_sizes (λ l, len (tpl_ID l) + len (tpl_Name l)) (act_Policies t) +
   sum_sizes (λ l, len (trl_ID l) + len (trl_Name l)) (act_Roles t) +
   sum_sizes ACLServiceIdentity_EstimateSize (act_ServiceIdentities t))%Z.
Definition ACLPolicy_EstimateSize (p : ACLPolicy) : Z :=
  (64 + len (acp_Name p) + len (acp_Description p) + len (acp_Rules p) + sum_sizes len (acp_Datacenters p))%Z.
Definition ACLRole_EstimateSize (r : ACLRole) : Z :=
  (60 + len (acr_Name r) + len (acr_Description r) + sum_sizes (λ l, len (rpl_ID l) + len (rpl_Name l)) (acr_Policies r) +
   sum_sizes ACLServiceIdentity_EstimateSize (acr_ServiceIdentities r))%Z.

Record ACLTokenListStub := mkTokenStub {
  ats_AccessorID : string;
  ats_Description : string;
  ats_Policies : list ACLTokenPolicyLink;
  ats_Roles : list ACLTokenRoleLink;
  ats_ServiceIdentities : list ACLServiceIdentity;
  ats_Local : bool;
  ats_AuthMethod : string;
  ats_ExpirationTime : option Z;
  ats_CreateTime : Z;
  ats_Hash : option string;
  ats_CreateIndex : N;
  ats_ModifyIndex : N;
  ats_Legacy : bool
}.
Definition ACLToken_Stub (t : ACLToken) : ACLTokenListStub :=
  mkTokenStub (act_AccessorID t) (act_Description t) (act_Policies t) (act_Roles t) (act_ServiceIdentities t) (act_Local t)
    (act_AuthMethod t) (act_ExpirationTime t) (act_CreateTime t) (act_Hash t) (act_CreateIndex t) (act_ModifyIndex t)
    (bool_decide (act_Rules t ≠ "")).
Record ACLPolicyListStub := mkPolicyStub {
  aps_ID : string;
  aps_Name : string;
  aps_Description : string;
  aps_Datacenters : list string;
  aps_Hash : option string;
  aps_CreateIndex : N;
  aps_ModifyIndex : N
}.
Definition ACLPolicy_Stub (p : ACLPolicy) : ACLPolicyListStub :=
  mkPolicyStub (acp_ID p) (acp_Name p) (acp_Description p) (acp_Datacenters p) (acp_Hash p) (acp_CreateIndex p) (acp_ModifyIndex p).

(** ** Content hashes (agent/structs/acl.go) *)

Section hash.
(** [blake2b.New256], third-party: the hash of the bytes written. *)
Variable sum256 : string → string.
Definition concat_strings (l : list string) : string := foldr String.append "" l.
Definition ACLServiceIdentity_AddToHash (s : ACLServiceIdentity) : string :=
  asi_ServiceName s +:+ concat_strings (asi_Datacenters s).
Definition act_set_hash (hash : string) (t : ACLToken) : ACLToken :=
  mkACLToken (act_AccessorID t) (act_SecretID t) (act_Description t) (act_Policies t) (act_Roles t) (act_ServiceIdentities t)
    (act_Type t) (act_Rules t) (act_Local t) (act_AuthMethod t) (act_ExpirationTime t) (act_ExpirationTTL t) (act_CreateTime t)
    (Some hash) (act_CreateIndex t) (act_ModifyIndex t).
Definition ACLToken_SetHash (force : bool) (t : ACLToken) : ACLToken :=
  if force || bool_decide (act_Hash t = None) then
    act_set_hash (sum256 (act_Description t +:+ act_Type t +:+ act_Rules t +:+ (if act_Local t then "local" else "global") +:+
      concat_strings (tpl_ID <$> act_Policies t) +:+ concat_strings (trl_ID <$> act_Roles t) +:+
      concat_strings (ACLServiceIdentity_AddToHash <$> act_ServiceIdentities t))) t
  else t.
Definition acr_set_hash (hash : string) (r : ACLRole) : ACLRole :=
  mkACLRole (acr_ID r) (acr_Name r) (acr_Description r) (acr_Policies r) (acr_ServiceIdentities r) (Some hash)
    (acr_CreateIndex r) (acr_ModifyIndex r).
Definition ACLRole_SetHash (force : bool) (r : ACLRole) : ACLRole :=
  if force || bool_decide (acr_Hash r = None) then
    acr_set_hash (sum256 (acr_Name r +:+ acr_Description r +:+ concat_strings (rpl_ID <$> acr_Policies r) +:+
      concat_strings (ACLServiceIdentity_AddToHash <$> acr_ServiceIdentities r))) r
  else r.
End hash.

(** ** The difference of two sorted lists *)

(** What [LocalMeta] and [RemoteMeta] return: the ID, the index, the hash. *)
Record meta := mkMeta { m_id : string; m_mod : N; m_hash : option string }.
(** [bytes.Equal]: a nil slice equals an empty one. *)
Definition bytes_Equal (a b : option string) : bool := bool_decide (default "" a = default "" b).

Record itemDiffResults := mkDiff {
  LocalDeletes : list string;
  LocalUpserts : list string;
  LocalSkipped : nat;
  RemoteSkipped : nat
}.
Definition no_diff : itemDiffResults := mkDiff [] [] 0 0.
Definition add_delete (id : string) (d : itemDiffResults) : itemDiffResults :=
  mkDiff (LocalDeletes d ++ [id]) (LocalUpserts d) (LocalSkipped d) (RemoteSkipped d).
Definition add_upsert (id : string) (d : itemDiffResults) : itemDiffResults :=
  mkDiff (LocalDeletes d) (LocalUpserts d ++ [id]) (LocalSkipped d) (RemoteSkipped d).
Definition skip_local (d : itemDiffResults) : itemDiffResults :=
  mkDiff (LocalDeletes d) (LocalUpserts d) (S (LocalSkipped d)) (RemoteSkipped d).
Definition skip_remote (d : itemDiffResults) : itemDiffResults :=
  mkDiff (LocalDeletes d) (LocalUpserts d) (LocalSkipped d) (S (RemoteSkipped d)).

(** The loops of [diffACLType]: both lists, the rest of the local one, the rest
    of the remote one. *)
Definition local_rest (d : itemDiffResults) (l : list meta) : itemDiffResults :=
  foldl (λ d x, if decide (m_id x ≠ "") then add_delete (m_id x) d else skip_local d) d l.
Definition remote_rest (d : itemDiffResults) (l : list meta) : itemDiffResults :=
  foldl (λ d x, if decide (m_id x ≠ "") then add_upsert (m_id x) d else skip_remote d) d l.
Fixpoint diff_loop (lastRemoteIndex : N) (local : list meta) : list meta → itemDiffResults → itemDiffResults :=
  fix go (remote : list meta) (res : itemDiffResults) : itemDiffResults :=
    match local, remote with
    | l :: local', r :: remote' =>
        if decide (m_id l = "") then diff_loop lastRemoteIndex local' remote (skip_local res)
        else if decide (m_id r = "") then go remote' (skip_remote res)
        else if decide (m_id l = m_id r) then
          diff_loop lastRemoteIndex local' remote'
            (if (lastRemoteIndex <? m_mod r)%N && negb (bytes_Equal (m_hash r) (m_hash l))
             then add_upsert (m_id r) res else res)
        else if String.ltb (m_id l) (m_id r) then diff_loop lastRemoteIndex local' remote (add_delete (m_id l) res)
        else go remote' (add_upsert (m_id r) res)
    | _, _ => remote_rest (local_rest res local) remote
    end.

(** [Sort] of the lists of tokens, policies and roles. *)
Definition id_le (a b : meta) : Prop := String.ltb (m_id b) (m_id a) = false.
#[export] Instance id_le_dec : RelDecision id_le.
Proof. intros a b. unfold id_le. apply _. Defined.
Definition SortState : list meta → list meta := merge_sort id_le.
Definition diffACLType (local remote : list meta) (lastRemoteIndex : N) : itemDiffResults :=
  diff_loop lastRemoteIndex (SortState local) (SortState remote) no_diff.

(** ** The server during a round *)

Record ACLReplicationStatus := mkReplStatus {
  rst_Enabled : bool;
  rst_Running : bool;
  rst_SourceDatacenter : string;
  rst_ReplicationType : string;
  rst_ReplicatedIndex : N;
  rst_ReplicatedRoleIndex : N;
  rst_ReplicatedTokenIndex : N;
  rst_LastSuccess : Z;
  rst_LastError : Z
}.
(** The store, the status, and how many writes and waits there have been. *)
Record replication := mkReplication {
  rp_store : Store;
  rp_status : ACLReplicationStatus;
  rp_writes : nat;
  rp_waits : nat
}.

Definition ACLReplicateLegacy : string := "legacy".
Definition ACLReplicatePolicies : string := "policies".
Definition ACLReplicateRoles : string := "roles".
Definition ACLReplicateTokens : string := "tokens".

(** ** [aclTypeReplicator] *)

Record aclTypeReplicator (L R U : Type) := mkReplicator {
  Replication_Type : string;
  SingularNoun : string;
  PluralNoun : string;
  FetchRemote : N → outcome (list R * N);
  FetchLocal : Store → outcome (N * list L);
  LocalMeta : L → meta;
  RemoteMeta : R → meta;
  (** From the remote items and the IDs; [None] is [errContainsRedactedData]. *)
  FetchUpdated : list R → list string → outcome (option (list U));
  PendingUpdateIsRedacted : U → bool;
  PendingUpdateEstimatedSize : U → Z;
  UpdateLocalBatch : list U → M replication unit;
  DeleteLocalBatch : list string → M replication unit
}.
Arguments mkReplicator {_ _ _}.
Arguments Replication_Type {_ _ _}.
Arguments SingularNoun {_ _ _}.
Arguments PluralNoun {_ _ _}.
Arguments FetchRemote {_ _ _}.
Arguments FetchLocal {_ _ _}.
Arguments LocalMeta {_ _ _}.
Arguments RemoteMeta {_ _ _}.
Arguments FetchUpdated {_ _ _}.
Arguments PendingUpdateIsRedacted {_ _ _}.
Arguments PendingUpdateEstimatedSize {_ _ _}.
Arguments UpdateLocalBatch {_ _ _}.
Arguments DeleteLocalBatch {_ _ _}.

Section replication.
Context (ext : externals) (raft : nat → raft_run) (stopped : nat → bool).
Context (ACLReplicationApplyLimit ConfigReplicationApplyLimit : Z).

Definition r_apply (c : command) : M replication (outcome response) := λ s,
  let '(r, st) := raftApply ext (raft (rp_writes s)) c (rp_store s) in
  (r, mkReplication st (rp_status s) (S (rp_writes s)) (rp_waits s)).
(** [respErr, ok := resp.(error)]: the error of the state machine is the error
    of the call. *)
Definition apply_checked (c : command) : M replication unit :=
  let* resp := r_apply c in let* _ := mlift resp in mreturn tt.
(** [respErr, ok := resp.(error); ok && err != nil], where [err] is nil. *)
Definition apply_unchecked (c : command) : M replication unit :=
  let* _ := r_apply c in mreturn tt.
(** The select on [ctx.Done()] and a ticker: whether to stop. *)
Definition ctx_done : M replication bool := λ s,
  (Ok (stopped (rp_waits s)), mkReplication (rp_store s) (rp_status s) (rp_writes s) (S (rp_waits s))).
(** [time.NewTicker(time.Second / time.Duration(limit))]. *)
Definition new_ticker {S} (limit : Z) : M S unit :=
  if decide (limit = 0%Z) then mpanic "integer divide by zero"
  else if decide (Z.quot 1000000000 limit ≤ 0)%Z then mpanic "non-positive interval for NewTicker"
  else mreturn tt.
Definition on_repl_store {A} (f : Store → outcome A) : M replication A := λ s, (f (rp_store s), s).


(** ** The three kinds of items *)

Definition stub_meta (t : ACLTokenListStub) : meta := mkMeta (ats_AccessorID t) (ats_ModifyIndex t) (ats_Hash t).
Definition token_meta (t : ACLToken) : meta := mkMeta (act_AccessorID t) (act_ModifyIndex t) (act_Hash t).
(** [aclTokenReplicator]; the answers of [ACL.TokenList] and of
    [ACL.TokenBatchRead] (the tokens, and whether they are redacted). *)
Definition aclTokenReplicator (list_rpc : N → outcome (list ACLTokenListStub * N))
    (batch_rpc : list string → outcome (list ACLToken * bool)) : aclTypeReplicator ACLToken ACLTokenListStub ACLToken :=
  mkReplicator ACLReplicateTokens "token" "tokens" list_rpc
    (ACLTokenList false true "" "" "") token_meta stub_meta
    (λ _ updates,
      match updates with
      | [] => Ok (Some [])
      | _ => obind (batch_rpc updates) (λ '(tokens, redacted), Ok (if redacted then None else Some tokens))
      end)
    (λ t, bool_decide (act_SecretID t = redactedToken)) ACLToken_EstimateSize
    (λ tokens, apply_checked (ACLTokenSetRequestType (mkTokenBatchSet tokens false true false)))
    (λ batch, apply_checked (ACLTokenDeleteRequestType batch)).

Definition policy_meta (p : ACLPolicy) : meta := mkMeta (acp_ID p) (acp_ModifyIndex p) (acp_Hash p).
Definition policy_stub_meta (p : ACLPolicyListStub) : meta := mkMeta (aps_ID p) (aps_ModifyIndex p) (aps_Hash p).
Definition aclPolicyReplicator (list_rpc : N → outcome (list ACLPolicyListStub * N))
    (batch_rpc : list string → outcome (list ACLPolicy)) : aclTypeReplicator ACLPolicy ACLPolicyListStub ACLPolicy :=
  mkReplicator ACLReplicatePolicies "policy" "policies" list_rpc
    ACLPolicyList policy_meta policy_stub_meta
    (λ _ updates,
      match updates with
      | [] => Ok (Some [])
      | _ => obind (batch_rpc updates) (λ policies, Ok (Some policies))
      end)
    (λ _, false) ACLPolicy_EstimateSize
    (λ policies, apply_unchecked (ACLPolicySetRequestType policies))
    (λ batch, apply_checked (ACLPolicyDeleteRequestType batch)).

Definition role_meta (r : ACLRole) : meta := mkMeta (acr_ID r) (acr_ModifyIndex r) (acr_Hash r).
(** [aclRoleReplicator.FetchUpdated]: the roles are in the list already. *)
Definition role_FetchUpdated (remote : list ACLRole) (updates : list string) : outcome (option (list ACLRole)) :=
  match updates with
  | [] => Ok (Some [])
  | _ =>
      let keep : gset string := list_to_set updates in
      let subset := foldl (λ subset role, if decide (acr_ID role ∈ keep) then subset ++ [role] else subset) [] remote in
      if decide (length subset ≠ size keep)
      then Err (EMsg "role replication trying to replicated uncached roles with IDs: %v"
                  (elements (foldl (λ keep role, keep ∖ {[ acr_ID role ]}) keep subset)))
      else Ok (Some subset)
  end.
Definition aclRoleReplicator (list_rpc : N → outcome (list ACLRole * N)) : aclTypeReplicator ACLRole ACLRole ACLRole :=
  mkReplicator ACLReplicateRoles "role" "roles" list_rpc (ACLRoleList "") role_meta role_meta role_FetchUpdated
    (λ _, false) ACLRole_EstimateSize
    (λ roles, apply_unchecked (ACLRoleSetRequestType (mkRoleBatchSet roles true)))
    (λ batch, apply_unchecked (ACLRoleDeleteRequestType batch)).

(** ** A round *)

Definition repl_out_of_fuel : string := "replication: out of fuel".
Section round.
Context {L R U : Type} (tr : aclTypeReplicator L R U).

(** The loop of [deleteLocalACLType] over the deletions that are left. *)
Fixpoint delete_batches (fuel : nat) (deletions : list string) : M replication bool :=
  match fuel with
  | O => mpanic repl_out_of_fuel
  | S fuel =>
      match deletions with
      | [] => mreturn false
      | _ =>
          mwrap "Failed to apply deletions" (DeleteLocalBatch tr (take aclBatchDeleteSize deletions)) ;;;
          let rest := drop aclBatchDeleteSize deletions in
          match rest with
          | [] => mreturn false
          | _ => let* exit := ctx_done in if exit then mreturn true else delete_batches fuel rest
          end
      end
  end.
Definition deleteLocalACLType (deletions : list string) : M replication bool :=
  new_ticker ACLReplicationApplyLimit ;;; delete_batches (S (length deletions)) deletions.

(** The inner loop of [updateLocalACLType]: how many items the next batch has. *)
Fixpoint batch_end (batchSize : Z) (items : list U) : outcome nat :=
  match items with
  | [] => Ok 0
  | x :: items =>
      if (batchSize <? aclBatchUpsertSize)%Z then
        if PendingUpdateIsRedacted tr x
        then Err (EMsg "Detected redacted %s secrets: stopping %s update round - verify that the replication token in use has acl:write permissions."
                    [SingularNoun tr; SingularNoun tr])
        else obind (batch_end (batchSize + PendingUpdateEstimatedSize tr x)%Z items) (λ n, Ok (S n))
      else Ok 0
  end.
Fixpoint update_batches (fuel : nat) (pending : list U) : M replication bool :=
  match fuel with
  | O => mpanic repl_out_of_fuel
  | S fuel =>
      match pending with
      | [] => mreturn false
      | _ =>
          let* batchEnd := mlift (batch_end 0 pending) in
          mwrap "Failed to apply upserts" (UpdateLocalBatch tr (take batchEnd pending)) ;;;
          let rest := drop batchEnd pending in
          match rest with
          | [] => update_batches fuel []
          | _ => let* exit := ctx_done in if exit then mreturn true else update_batches fuel rest
          end
      end
  end.
Definition updateLocalACLType (updated : list U) : M replication bool :=
  new_ticker ACLReplicationApplyLimit ;;; update_batches (S (length updated)) updated.

(** [replicateACLType]: the index, and whether to exit. *)
Definition replicateACLType (lastRemoteIndex : N) : M replication (N * bool) :=
  let* (remote, remoteIndex) := mwrap "failed to retrieve remote ACL" (mlift (FetchRemote tr lastRemoteIndex)) in
  let* stop := ctx_done in
  if stop then mreturn (0%N, true) else
  let* (_, local) := mwrap "failed to retrieve local ACL" (on_repl_store (FetchLocal tr)) in
  let lastRemoteIndex := if (remoteIndex <? lastRemoteIndex)%N then 0%N else lastRemoteIndex in
  let res := diffACLType (LocalMeta tr <$> local) (RemoteMeta tr <$> remote) lastRemoteIndex in
  let* updated :=
    (match LocalUpserts res with
     | [] => mreturn []
     | upserts =>
         let* updated := mwrap "failed to retrieve ACL updates" (mlift (FetchUpdated tr remote upserts)) in
         match updated with
         | None => mthrow (EMsg "failed to retrieve unredacted %s - replication token in use does not grant acl:write" [PluralNoun tr])
         | Some updated => mreturn updated
         end
     end) in
  let* exit :=
    (match LocalDeletes res with
     | [] => mreturn false
     | deletes => mwrap "failed to delete local ACL" (deleteLocalACLType deletes)
     end) in
  if exit : bool then mreturn (0%N, true) else
  let* exit :=
    (match LocalUpserts res with
     | [] => mreturn false
     | _ => mwrap "failed to update local ACL" (updateLocalACLType updated)
     end) in
  if exit : bool then mreturn (0%N, true) else mreturn (remoteIndex, false).
End round.

(** ** Config entries (config_replication.go) *)

Definition ConfigEntryUpsert : string := "upsert".
Definition ConfigEntryDelete : string := "delete".
Definition cmpConfigLess (first second : ConfigEntry) : bool :=
  String.ltb (GetKind first) (GetKind second) ||
  (bool_decide (GetKind first = GetKind second) && String.ltb (GetName first) (GetName second)).
Definition config_le (a b : ConfigEntry) : Prop := cmpConfigLess b a = false.
#[local] Instance config_le_dec : RelDecision config_le.
Proof. intros a b. unfold config_le. apply _. Defined.
Definition configSort : list ConfigEntry → list ConfigEntry := merge_sort config_le.

Fixpoint config_diff_loop (lastRemoteIndex : N) (local : list ConfigEntry) :
    list ConfigEntry → list ConfigEntry * list ConfigEntry → list ConfigEntry * list ConfigEntry :=
  fix go (remote : list ConfigEntry) (acc : list ConfigEntry * list ConfigEntry) :=
    let '(deletions, updates) := acc in
    match local, remote with
    | l :: local', r :: remote' =>
        if decide (GetKind l = GetKind r ∧ GetName l = GetName r) then
          config_diff_loop lastRemoteIndex local' remote'
            (deletions, if (lastRemoteIndex <? ModifyIndex (GetRaftIndex r))%N then updates ++ [r] else updates)
        else if cmpConfigLess l r then config_diff_loop lastRemoteIndex local' remote (deletions ++ [l], updates)
        else go remote' (deletions, updates ++ [r])
    | _, _ => (deletions ++ local, updates ++ remote)
    end.
(** [diffConfigEntries]: the deletions and the updates. *)
Definition diffConfigEntries (local remote : list ConfigEntry) (lastRemoteIndex : N) : list ConfigEntry * list ConfigEntry :=
  config_diff_loop lastRemoteIndex (configSort local) (configSort remote) ([], []).

(** [reconcileLocalConfig]: [respErr, ok := resp.(error); ok && err != nil]. *)
Fixpoint reconcile_entries (op : string) (configs : list ConfigEntry) : M replication bool :=
  match configs with
  | [] => mreturn false
  | entry :: configs =>
      mwrap "Failed to apply config" (apply_unchecked (ConfigEntryRequestType (mkConfigEntryRequest op entry))) ;;;
      match configs with
      | [] => mreturn false
      | _ => let* exit := ctx_done in if exit then mreturn true else reconcile_entries op configs
      end
  end.
Definition reconcileLocalConfig (op : string) (configs : list ConfigEntry) : M replication bool :=
  new_ticker ConfigReplicationApplyLimit ;;; reconcile_entries op configs.

(** [replicateConfig], given what [ConfigEntry.ListAll] answers. *)
Definition replicateConfig (list_rpc : N → outcome (list ConfigEntry * N)) (lastRemoteIndex : N) : M replication (N * bool) :=
  let* (remote, remoteIndex) := mwrap "failed to retrieve remote config entries" (mlift (list_rpc lastRemoteIndex)) in
  let* stop := ctx_done in
  if stop then mreturn (0%N, true) else
  let* (_, local) := mwrap "failed to retrieve local config entries" (on_repl_store ConfigEntries) in
  let lastRemoteIndex := if (remoteIndex <? lastRemoteIndex)%N then 0%N else lastRemoteIndex in
  let '(deletions, updates) := diffConfigEntries local remote lastRemoteIndex in
  let* exit :=
    (match deletions with
     | [] => mreturn false
     | _ => mwrap "failed to delete local config entries" (reconcileLocalConfig ConfigEntryDelete deletions)
     end) in
  if exit : bool then mreturn (0%N, true) else
  let* exit :=
    (match updates with
     | [] => mreturn false
     | _ => mwrap "failed to update local config entries" (reconcileLocalConfig ConfigEntryUpsert updates)
     end) in
  if exit : bool then mreturn (0%N, true) else mreturn (remoteIndex, false).

(** ** The status, and the replicators *)

(** [Round(time.Second)]. *)
Definition round_second (now : Z) : Z := (now + 500000000) / 1000000000 * 1000000000.
Definition on_status (f : ACLReplicationStatus → ACLReplicationStatus) : M replication unit :=
  mmodify (λ s, mkReplication (rp_store s) (f (rp_status s)) (rp_writes s) (rp_waits s)).
Definition initReplicationStatus (ACLDatacenter : string) : M replication unit :=
  on_status (λ t, mkReplStatus true true ACLDatacenter (rst_ReplicationType t) (rst_ReplicatedIndex t)
    (rst_ReplicatedRoleIndex t) (rst_ReplicatedTokenIndex t) (rst_LastSuccess t) (rst_LastError t)).
Definition updateACLReplicationStatusError (now : Z) : M replication unit :=
  on_status (λ t, mkReplStatus (rst_Enabled t) (rst_Running t) (rst_SourceDatacenter t) (rst_ReplicationType t) (rst_ReplicatedIndex t)
    (rst_ReplicatedRoleIndex t) (rst_ReplicatedTokenIndex t) (rst_LastSuccess t) (round_second now)).
Definition set_replicated (type : string) (now : Z) (index : N) (t : ACLReplicationStatus) : ACLReplicationStatus :=
  let mine ty (old : N) := if decide (type = ty) then index else old in
  mkReplStatus (rst_Enabled t) (rst_Running t) (rst_SourceDatacenter t) (rst_ReplicationType t)
    (if decide (type = ACLReplicateLegacy ∨ type = ACLReplicatePolicies) then index else rst_ReplicatedIndex t)
    (mine ACLReplicateRoles (rst_ReplicatedRoleIndex t)) (mine ACLReplicateTokens (rst_ReplicatedTokenIndex t))
    (round_second now) (rst_LastError t).
Definition updateACLReplicationStatusIndex (type : string) (now : Z) (index : N) : M replication unit :=
  on_status (set_replicated type now index) ;;;
  if decide (type ∈ [ACLReplicateLegacy; ACLReplicateTokens; ACLReplicatePolicies; ACLReplicateRoles]) then mreturn tt
  else mpanic "unknown replication type".
Definition updateACLReplicationStatusStopped : M replication unit :=
  on_status (λ t, mkReplStatus (rst_Enabled t) false (rst_SourceDatacenter t) (rst_ReplicationType t) (rst_ReplicatedIndex t)
    (rst_ReplicatedRoleIndex t) (rst_ReplicatedTokenIndex t) (rst_LastSuccess t) (rst_LastError t)).
Definition updateACLReplicationStatusRunning (type : string) : M replication unit :=
  let type := if decide (type = ACLReplicateRoles) then ACLReplicatePolicies else type in
  on_status (λ t, mkReplStatus (rst_Enabled t) true (rst_SourceDatacenter t) type (rst_ReplicatedIndex t)
    (rst_ReplicatedRoleIndex t) (rst_ReplicatedTokenIndex t) (rst_LastSuccess t) (rst_LastError t)).

(** An iteration of the loop of [startACLReplicator]: whether the limiter lets
    it run, the replication token, what a round does, the clock, and whether
    the context ends during the back-off. *)
Record iteration := mkIteration {
  it_allowed : bool;
  it_token : string;
  it_replicate : N → M replication (N * bool);
  it_now : Z;
  it_cancelled : bool
}.
(** The last remote index and the failed attempts; [None] when it returned. *)
Fixpoint acl_replicator (type : string) (its : list iteration) (lastRemoteIndex : N) (failedAttempts : Z) :
    M replication (option (N * Z)) :=
  match its with
  | [] => mreturn (Some (lastRemoteIndex, failedAttempts))
  | it :: its =>
      if negb (it_allowed it) then mreturn None
      else if decide (it_token it = "") then acl_replicator type its lastRemoteIndex failedAttempts
      else
        let* r := mtry (it_replicate it lastRemoteIndex) in
        match r with
        | Ok (_, true) => mreturn None
        | Ok (index, false) =>
            updateACLReplicationStatusIndex type (it_now it) index ;;; acl_replicator type its index 0
        | _ =>
            updateACLReplicationStatusError (it_now it) ;;;
            let failedAttempts :=
              if (Z.shiftl 1 failedAttempts <? aclReplicationMaxRetryBackoff)%Z then (failedAttempts + 1)%Z else failedAttempts in
            if it_cancelled it then mreturn None else acl_replicator type its 0 failedAttempts
        end
  end.

(** [Replicator.run], without its limiter's and its waiter's delays. *)
Fixpoint Replicator_run (its : list iteration) (lastRemoteIndex : N) : M replication (option N) :=
  match its with
  | [] => mreturn (Some lastRemoteIndex)
  | it :: its =>
      if negb (it_allowed it) then mreturn None
      else
        let* r := mtry (it_replicate it lastRemoteIndex) in
        match r with
        | Ok (_, true) => mreturn None
        | r =>
            let last := match r with Ok (index, _) => index | _ => 0%N end in
            if it_cancelled it then mreturn None else Replicator_run its last
        end
  end.
End replication.
