(* ===== verification/LocalState.v ===== *)
(** * The local state of an agent and its synchronization (agent/local/state.go,
      agent/ae/ae.go)

    An agent keeps the services and checks it was told to register, and makes
    the catalog of the servers agree with them: changes are pushed when they
    happen, and from time to time the whole state is compared with the catalog
    (anti-entropy).  The servers are reached through [rpc], an interface; a
    timer of the Go library has an identity of its own; the order in which the
    runtime ranges over a map is a parameter. *)

From S2P Require Import Prelude Memdb ProxyConfig Structs ConnectTables AclTables ConfigEntries Delay TombstoneGC Store.
From S2P Require Import Txn Fsm Radix Acl Authorizer Filter CatalogRead Endpoint.

(** [strings.Contains(err.Error(), sub)], on the parts the text is made of. *)
Definition contains (sub s : string) : bool := match String.index 0 sub s with Some _ => true | None => false end.
Fixpoint error_contains (sub : string) (e : error) : bool :=
  match e with
  | ErrMissingNode => contains sub "Missing node registration"
  | ErrMissingService => contains sub "Missing service registration"
  | ErrMissingSessionID => contains sub "Missing session ID"
  | ErrMissingQueryID => contains sub "Missing Query ID"
  | ErrNotFound => contains sub "not found"
  | EMsg fmt args => contains sub fmt || existsb (contains sub) args
  | EWrap fmt args cause => contains sub fmt || existsb (contains sub) args || error_contains sub cause
  | EAnyOf errs => existsb (error_contains sub) errs
  end.
(** [acl.IsErrPermissionDenied], [acl.IsErrNotFound]. *)
Definition IsErrPermissionDenied : error → bool := error_contains "Permission denied".
Definition IsErrNotFound : error → bool := error_contains "ACL not found".

(** ** State *)

(** [Config], with the tokens of the token store that the state uses. *)
Record Config := mkConfig {
  cf_AdvertiseAddr : string;
  cf_CheckUpdateInterval : Z;
  cf_Datacenter : string;
  cf_NodeID : string;
  cf_NodeName : string;
  cf_TaggedAddresses : option (gmap string string);
  cf_userToken : string;
  cf_agentToken : string
}.
(** [token.Store.UserToken] and [AgentToken]. *)
Definition UserToken (c : Config) : string := cf_userToken c.
Definition AgentToken (c : Config) : string := if decide (cf_agentToken c ≠ "") then cf_agentToken c else cf_userToken c.

Record ServiceState := mkServiceState {
  ss_Service : option NodeService;
  ss_Token : string;
  ss_InSync : bool;
  ss_Deleted : bool;
  ss_WatchCh : option positive
}.
Record CheckState := mkCheckState {
  cs_Check : option HealthCheck;
  cs_Token : string;
  cs_CriticalTime : Z;
  cs_DeferCheck : option positive;
  cs_InSync : bool;
  cs_Deleted : bool
}.
Definition Critical (c : CheckState) : bool := bool_decide (cs_CriticalTime c ≠ zero_time).

(** The watch channels that exist ([true]: closed), the armed timers with the
    check each will mark, how often the syncer was triggered, how often the
    handlers were notified, and the channels of alias checks that were sent
    to. *)
Record State := mkState {
  ls_nodeInfoInSync : bool;
  ls_services : gmap string ServiceState;
  ls_checks : gmap string CheckState;
  ls_checkAliases : gmap string (gmap string positive);
  ls_metadata : gmap string string;
  ls_discardCheckOutput : bool;
  ls_channels : gmap positive bool;
  ls_timers : gmap positive string;
  ls_triggers : nat;
  ls_broadcasts : nat;
  ls_notified : list positive
}.
Definition NewState (discard : bool) : State := mkState false ∅ ∅ ∅ ∅ discard ∅ ∅ 0 0 [].

Definition set_services (m : gmap string ServiceState) (l : State) : State :=
  mkState (ls_nodeInfoInSync l) m (ls_checks l) (ls_checkAliases l) (ls_metadata l) (ls_discardCheckOutput l) (ls_channels l)
    (ls_timers l) (ls_triggers l) (ls_broadcasts l) (ls_notified l).
Definition set_checks (m : gmap string CheckState) (l : State) : State :=
  mkState (ls_nodeInfoInSync l) (ls_services l) m (ls_checkAliases l) (ls_metadata l) (ls_discardCheckOutput l) (ls_channels l)
    (ls_timers l) (ls_triggers l) (ls_broadcasts l) (ls_notified l).
Definition set_nodeInfo (b : bool) (l : State) : State :=
  mkState b (ls_services l) (ls_checks l) (ls_checkAliases l) (ls_metadata l) (ls_discardCheckOutput l) (ls_channels l)
    (ls_timers l) (ls_triggers l) (ls_broadcasts l) (ls_notified l).
Definition set_aliases (m : gmap string (gmap string positive)) (l : State) : State :=
  mkState (ls_nodeInfoInSync l) (ls_services l) (ls_checks l) m (ls_metadata l) (ls_discardCheckOutput l) (ls_channels l)
    (ls_timers l) (ls_triggers l) (ls_broadcasts l) (ls_notified l).
Definition set_metadata (m : gmap string string) (l : State) : State :=
  mkState (ls_nodeInfoInSync l) (ls_services l) (ls_checks l) (ls_checkAliases l) m (ls_discardCheckOutput l) (ls_channels l)
    (ls_timers l) (ls_triggers l) (ls_broadcasts l) (ls_notified l).
Definition SetDiscardCheckOutput (b : bool) (l : State) : State :=
  mkState (ls_nodeInfoInSync l) (ls_services l) (ls_checks l) (ls_checkAliases l) (ls_metadata l) b (ls_channels l)
    (ls_timers l) (ls_triggers l) (ls_broadcasts l) (ls_notified l).
Definition set_channels (m : gmap positive bool) (l : State) : State :=
  mkState (ls_nodeInfoInSync l) (ls_services l) (ls_checks l) (ls_checkAliases l) (ls_metadata l) (ls_discardCheckOutput l) m
    (ls_timers l) (ls_triggers l) (ls_broadcasts l) (ls_notified l).
Definition set_timers (m : gmap positive string) (l : State) : State :=
  mkState (ls_nodeInfoInSync l) (ls_services l) (ls_checks l) (ls_checkAliases l) (ls_metadata l) (ls_discardCheckOutput l) (ls_channels l)
    m (ls_triggers l) (ls_broadcasts l) (ls_notified l).
Definition TriggerSyncChanges (l : State) : State :=
  mkState (ls_nodeInfoInSync l) (ls_services l) (ls_checks l) (ls_checkAliases l) (ls_metadata l) (ls_discardCheckOutput l) (ls_channels l)
    (ls_timers l) (S (ls_triggers l)) (ls_broadcasts l) (ls_notified l).
Definition broadcastUpdateLocked (l : State) : State :=
  mkState (ls_nodeInfoInSync l) (ls_services l) (ls_checks l) (ls_checkAliases l) (ls_metadata l) (ls_discardCheckOutput l) (ls_channels l)
    (ls_timers l) (ls_triggers l) (S (ls_broadcasts l)) (ls_notified l).
Definition add_notified (chs : list positive) (l : State) : State :=
  mkState (ls_nodeInfoInSync l) (ls_services l) (ls_checks l) (ls_checkAliases l) (ls_metadata l) (ls_discardCheckOutput l) (ls_channels l)
    (ls_timers l) (ls_triggers l) (ls_broadcasts l) (ls_notified l ++ chs).

Definition ss_set_flags (insync deleted : bool) (s : ServiceState) : ServiceState :=
  mkServiceState (ss_Service s) (ss_Token s) insync deleted (ss_WatchCh s).
Definition ss_set_service (svc : NodeService) (s : ServiceState) : ServiceState :=
  mkServiceState (Some svc) (ss_Token s) (ss_InSync s) (ss_Deleted s) (ss_WatchCh s).
Definition ss_set_watch (ch : option positive) (s : ServiceState) : ServiceState :=
  mkServiceState (ss_Service s) (ss_Token s) (ss_InSync s) (ss_Deleted s) ch.
Definition cs_set_flags (insync deleted : bool) (c : CheckState) : CheckState :=
  mkCheckState (cs_Check c) (cs_Token c) (cs_CriticalTime c) (cs_DeferCheck c) insync deleted.
Definition cs_set_check (hc : HealthCheck) (c : CheckState) : CheckState :=
  mkCheckState (Some hc) (cs_Token c) (cs_CriticalTime c) (cs_DeferCheck c) (cs_InSync c) (cs_Deleted c).
Definition cs_set_critical (t : Z) (c : CheckState) : CheckState :=
  mkCheckState (cs_Check c) (cs_Token c) t (cs_DeferCheck c) (cs_InSync c) (cs_Deleted c).
Definition cs_set_defer (d : option positive) (c : CheckState) : CheckState :=
  mkCheckState (cs_Check c) (cs_Token c) (cs_CriticalTime c) d (cs_InSync c) (cs_Deleted c).
Definition hc_set_output (status output : string) (c : HealthCheck) : HealthCheck :=
  mkHealthCheck (hc_Node c) (hc_CheckID c) (hc_Name c) status (hc_Notes c) output
    (hc_ServiceID c) (hc_ServiceName c) (hc_ServiceTags c) (hc_Type c) (hc_Definition c) (hc_CreateIndex c) (hc_ModifyIndex c).
Definition hc_set_node (node : string) (c : HealthCheck) : HealthCheck :=
  mkHealthCheck node (hc_CheckID c) (hc_Name c) (hc_Status c) (hc_Notes c) (hc_Output c)
    (hc_ServiceID c) (hc_ServiceName c) (hc_ServiceTags c) (hc_Type c) (hc_Definition c) (hc_CreateIndex c) (hc_ModifyIndex c).
Definition ns_set_id (id : string) (s : NodeService) : NodeService :=
  mkNodeService (ns_Kind s) id (ns_Service s) (ns_Tags s) (ns_Address s) (ns_TaggedAddresses s) (ns_Meta s) (ns_Port s) (ns_Weights s)
    (ns_EnableTagOverride s) (ns_Proxy s) (ns_Connect s) (ns_CreateIndex s) (ns_ModifyIndex s).
Definition ns_set_tags (tags : option (list string)) (s : NodeService) : NodeService :=
  mkNodeService (ns_Kind s) (ns_ID s) (ns_Service s) tags (ns_Address s) (ns_TaggedAddresses s) (ns_Meta s) (ns_Port s) (ns_Weights s)
    (ns_EnableTagOverride s) (ns_Proxy s) (ns_Connect s) (ns_CreateIndex s) (ns_ModifyIndex s).

(** ** Tokens *)

Definition serviceToken (cfg : Config) (id : string) (l : State) : string :=
  let token := match ls_services l !! id with Some s => ss_Token s | None => "" end in
  if decide (token = "") then UserToken cfg else token.
Definition checkToken (cfg : Config) (id : string) (l : State) : string :=
  let token := match ls_checks l !! id with Some c => cs_Token c | None => "" end in
  if decide (token = "") then UserToken cfg else token.

(** ** Services *)

Definition close_chan (ch : positive) : M State unit := λ l,
  match ls_channels l !! ch with
  | Some true => (Panic "close of closed channel", l)
  | _ => (Ok tt, set_channels (<[ch := true]> (ls_channels l)) l)
  end.
Definition close_opt (ch : option positive) : M State unit :=
  match ch with None => mreturn tt | Some ch => close_chan ch end.
Definition make_chan : M State positive := λ l,
  let ch := fresh (dom (ls_channels l)) in (Ok ch, set_channels (<[ch := false]> (ls_channels l)) l).

(** [setServiceStateLocked]; the new state has a service. *)
Definition setServiceStateLocked (s : ServiceState) : M State unit :=
  let* ch := make_chan in
  let* svc := deref (ss_Service s) in
  let* old := mget (λ l, ls_services l !! ns_ID svc) in
  mmodify (λ l, set_services (<[ns_ID svc := ss_set_watch (Some ch) s]> (ls_services l)) l) ;;;
  close_opt (old ≫= ss_WatchCh) ;;;
  mmodify (λ l, broadcastUpdateLocked (TriggerSyncChanges l)).
(** [addServiceLocked]. *)
Definition addServiceLocked (service : option NodeService) (token : string) : M State unit :=
  match service with
  | None => mthrow (EMsg "no service" [])
  | Some service =>
      let service := if decide (ns_ID service = "") then ns_set_id (ns_Service service) service else service in
      setServiceStateLocked (mkServiceState (Some service) token false false None)
  end.
Definition removeServiceLocked (id : string) : M State unit :=
  let* s := mget (λ l, ls_services l !! id) in
  match s with
  | None => mthrow (EMsg "Service %q does not exist" [id])
  | Some s =>
      if ss_Deleted s then mthrow (EMsg "Service %q does not exist" [id])
      else
        mmodify (λ l, set_services (<[id := ss_set_watch None (ss_set_flags false true s)]> (ls_services l)) l) ;;;
        close_opt (ss_WatchCh s) ;;;
        mmodify (λ l, broadcastUpdateLocked (TriggerSyncChanges l))
  end.
Definition AddService : option NodeService → string → M State unit := addServiceLocked.
Definition RemoveService : string → M State unit := removeServiceLocked.
Definition Local_ServiceState (id : string) (l : State) : option ServiceState :=
  ls_services l !! id ≫= λ s, if ss_Deleted s then None else Some s.
Definition Local_Service (id : string) (l : State) : option NodeService := Local_ServiceState id l ≫= ss_Service.
Definition ServiceStates (l : State) : gmap string ServiceState := filter (λ kx, ss_Deleted kx.2 = false) (ls_services l).
Definition Local_Services (l : State) : gmap string (option NodeService) := ss_Service <$> ServiceStates l.

(** ** Checks *)

(** [notifyIfAliased]. *)
Definition notifyIfAliased (serviceID : string) (l : State) : State :=
  match ls_checkAliases l !! serviceID with
  | Some aliases => add_notified (snd <$> map_to_list aliases) l
  | None => l
  end.
Definition setCheckStateLocked (c : CheckState) : M State unit :=
  let* hc := deref (cs_Check c) in
  mmodify (λ l, TriggerSyncChanges (notifyIfAliased (hc_ServiceID hc) (set_checks (<[hc_CheckID hc := c]> (ls_checks l)) l))).
Definition addCheckLocked (cfg : Config) (check : option HealthCheck) (token : string) : M State unit :=
  match check with
  | None => mthrow (EMsg "no check" [])
  | Some check =>
      let* discard := mget ls_discardCheckOutput in
      let check := if discard : bool then hc_set_output (hc_Status check) "" check else check in
      let* found := mget (λ l, ls_services l !! hc_ServiceID check) in
      if decide (hc_ServiceID check ≠ "" ∧ found = None)
      then mthrow (EMsg "Check %q refers to non-existent service %q" [hc_CheckID check; hc_ServiceID check])
      else setCheckStateLocked (mkCheckState (Some (hc_set_node (cf_NodeName cfg) check)) token zero_time None false false)
  end.
Definition removeCheckLocked (id : string) : M State unit :=
  let* c := mget (λ l, ls_checks l !! id) in
  match c with
  | None => mthrow (EMsg "Check %q does not exist" [id])
  | Some c =>
      if cs_Deleted c then mthrow (EMsg "Check %q does not exist" [id])
      else
        let* hc := deref (cs_Check c) in
        mmodify (λ l, TriggerSyncChanges (set_checks (<[id := cs_set_flags false true c]> (ls_checks l)) (notifyIfAliased (hc_ServiceID hc) l)))
  end.
Definition AddCheck : Config → option HealthCheck → string → M State unit := addCheckLocked.
Definition RemoveCheck : string → M State unit := removeCheckLocked.
Definition AddServiceWithChecks (cfg : Config) (service : option NodeService) (checks : list (option HealthCheck)) (token : string) :
    M State unit :=
  addServiceLocked service token ;;;
  for check in checks do addCheckLocked cfg check token.
Definition RemoveServiceWithChecks (serviceID : string) (checkIDs : list string) : M State unit :=
  removeServiceLocked serviceID ;;;
  for id in checkIDs do removeCheckLocked id.
Definition AddAliasCheck (checkID srcServiceID : string) (notifyCh : positive) (l : State) : State :=
  set_aliases (<[srcServiceID := <[checkID := notifyCh]> (default ∅ (ls_checkAliases l !! srcServiceID))]> (ls_checkAliases l)) l.
Definition RemoveAliasCheck (checkID srcServiceID : string) (l : State) : State :=
  match ls_checkAliases l !! srcServiceID with
  | Some m =>
      let m := delete checkID m in
      if decide (size m = 0) then set_aliases (delete srcServiceID (ls_checkAliases l)) l
      else set_aliases (<[srcServiceID := m]> (ls_checkAliases l)) l
  | None => l
  end.

(** [UpdateCheck] at the time [now]. *)
Definition put_check (id : string) (c : CheckState) : M State unit := mmodify (λ l, set_checks (<[id := c]> (ls_checks l)) l).
Definition UpdateCheck (cfg : Config) (now : Z) (id status output : string) : M State unit :=
  let* c := mget (λ l, ls_checks l !! id) in
  match c with
  | None => mreturn tt
  | Some c =>
      if cs_Deleted c then mreturn tt
      else
        let* discard := mget ls_discardCheckOutput in
        let output := if discard : bool then "" else output in
        let c := cs_set_critical (if decide (status = HealthCritical) then (if Critical c then cs_CriticalTime c else now)
                                  else zero_time) c in
        put_check id c ;;;
        let* hc := deref (cs_Check c) in
        if decide (hc_Status hc = status ∧ hc_Output hc = output) then mreturn tt
        else if decide (0 < cf_CheckUpdateInterval cfg ∧ hc_Status hc = status)%Z then
          let c := cs_set_check (hc_set_output status output hc) c in
          match cs_DeferCheck c with
          | Some _ => put_check id c
          | None =>
              let* tm := mget (λ l, fresh (dom (ls_timers l))) in
              mmodify (λ l, set_timers (<[tm := id]> (ls_timers l)) l) ;;;
              put_check id (cs_set_defer (Some tm) c)
          end
        else
          mmodify (λ l, TriggerSyncChanges (notifyIfAliased (hc_ServiceID hc) l)) ;;;
          put_check id (cs_set_flags false (cs_Deleted c) (cs_set_check (hc_set_output status output hc) c))
  end.
(** The function of a deferred-sync timer that fires. *)
Definition defer_fired (tm : positive) (l : State) : State :=
  match ls_timers l !! tm with
  | None => l
  | Some id =>
      let l := set_timers (delete tm (ls_timers l)) l in
      match ls_checks l !! id with
      | None => l
      | Some c =>
          let c := cs_set_defer None c in
          if cs_Deleted c then set_checks (<[id := c]> (ls_checks l)) l
          else TriggerSyncChanges (set_checks (<[id := cs_set_flags false (cs_Deleted c) c]> (ls_checks l)) l)
      end
  end.
(** [DeferCheck.Stop()]. *)
Definition stop_defer (d : option positive) (l : State) : State :=
  match d with None => l | Some tm => set_timers (delete tm (ls_timers l)) l end.

Definition Local_CheckState (id : string) (l : State) : option CheckState :=
  ls_checks l !! id ≫= λ c, if cs_Deleted c then None else Some c.
Definition Local_Check (id : string) (l : State) : option HealthCheck := Local_CheckState id l ≫= cs_Check.
Definition CheckStates (l : State) : gmap string CheckState := filter (λ kx, cs_Deleted kx.2 = false) (ls_checks l).
Definition Local_Checks (l : State) : gmap string (option HealthCheck) := cs_Check <$> CheckStates l.
Definition CriticalCheckStates (l : State) : gmap string CheckState :=
  filter (λ kx, cs_Deleted kx.2 = false ∧ Critical kx.2 = true) (ls_checks l).

(** ** Metadata and statistics *)

Definition LoadMetadata (data : gmap string string) (l : State) : State :=
  TriggerSyncChanges (set_metadata (data ∪ ls_metadata l) l).
Definition UnloadMetadata : State → State := set_metadata ∅.
Definition Stats (l : State) : nat * nat := (size (ServiceStates l), size (CheckStates l)).

(** ** Synchronization *)

(** [rpc]: the calls to the servers, which change the world [W] outside of the
    agent; each carries a token. *)
Record rpc (W : Type) := mkRpc {
  Catalog_NodeServices_rpc : string → M W (option NodeServices);
  Health_NodeChecks_rpc : string → M W (list HealthCheck);
  Catalog_Register_rpc : string → RegisterRequest → M W unit;
  Catalog_Deregister_rpc : string → DeregisterRequest → M W unit
}.
Arguments mkRpc {_}.
Arguments Catalog_NodeServices_rpc {_}.
Arguments Health_NodeChecks_rpc {_}.
Arguments Catalog_Register_rpc {_}.
Arguments Catalog_Deregister_rpc {_}.

(** The agent and the world. *)
Record agent (W : Type) := mkAgent { ag_state : State; ag_world : W }.
Arguments mkAgent {_}.
Arguments ag_state {_}.
Arguments ag_world {_}.

Section sync.
Context {W : Type} (Delegate : rpc W) (cfg : Config).
(** The order in which a map is ranged over. *)
Context (range : list string → list string).

Definition on_world {A} (m : M W A) : M (agent W) A := λ a,
  let '(r, w) := m (ag_world a) in (r, mkAgent (ag_state a) w).
Definition on_local {A} (m : M State A) : M (agent W) A := λ a,
  let '(r, l) := m (ag_state a) in (r, mkAgent l (ag_world a)).
Definition local (f : State → State) : M (agent W) unit := on_local (mmodify f).
Definition look {A} (f : State → A) : M (agent W) A := on_local (mget f).
Definition keys {A} (m : gmap string A) : list string := range (map_to_list m).*1.

(** The services and the checks that the comparison leaves. *)
Definition compare_service (rs : NodeService) (s : ServiceState) : option ServiceState :=
  if ss_Deleted s then Some s
  else
    match ss_Service s with
    | None => None
    | Some svc =>
        let svc := if ns_EnableTagOverride svc then ns_set_tags (Some (default [] (ns_Tags rs))) svc else svc in
        Some (ss_set_flags (NodeService_IsSame svc rs) (ss_Deleted s) (ss_set_service svc s))
    end.
Definition update_service (remote : gmap string NodeService) (id : string) : M State unit :=
  let* ls := mget (λ l, ls_services l !! id) in
  match remote !! id with
  | None => mreturn tt
  | Some rs =>
      match ls with
      | None =>
          if decide (id = ConsulServiceID) then mreturn tt
          else mmodify (λ l, set_services (<[id := mkServiceState None "" false true None]> (ls_services l)) l)
      | Some s =>
          let* s := deref (compare_service rs s) in
          mmodify (λ l, set_services (<[id := s]> (ls_services l)) l)
      end
  end.
Definition compare_check (rc : HealthCheck) (c : CheckState) : option CheckState :=
  if cs_Deleted c then Some c
  else
    match cs_Check c with
    | None => None
    | Some lc =>
        let same :=
          if decide (cf_CheckUpdateInterval cfg = 0%Z) then HealthCheck_IsSame lc rc
          else
            match cs_DeferCheck c with
            | Some _ => HealthCheck_IsSame (hc_set_output (hc_Status lc) "" lc) (hc_set_output (hc_Status rc) "" rc)
            | None => HealthCheck_IsSame lc rc
            end in
        Some (cs_set_flags same (cs_Deleted c) c)
    end.
Definition update_check (remote : gmap string HealthCheck) (id : string) : M State unit :=
  let* lc := mget (λ l, ls_checks l !! id) in
  match remote !! id with
  | None => mreturn tt
  | Some rc =>
      match lc with
      | None =>
          if decide (id = SerfCheckID) then mreturn tt
          else mmodify (λ l, set_checks (<[id := mkCheckState None "" zero_time None false true]> (ls_checks l)) l)
      | Some c =>
          let* c := deref (compare_check rc c) in
          mmodify (λ l, set_checks (<[id := c]> (ls_checks l)) l)
      end
  end.
(** What the server says about the node is out of date. *)
Definition node_info_stale (out1 : option NodeServices) (l : State) : bool :=
  match out1 with
  | None => true
  | Some ns =>
      let node := nss_Node ns in
      bool_decide (node_ID node ≠ cf_NodeID cfg) || bool_decide (node_TaggedAddresses node ≠ cf_TaggedAddresses cfg) ||
      bool_decide (node_Meta node ≠ Some (ls_metadata l))
  end.
Definition missing_services (remote : gmap string NodeService) (l : State) : State :=
  set_services (map_imap (λ id s, Some (match remote !! id with None => ss_set_flags false (ss_Deleted s) s | Some _ => s end))
                  (ls_services l)) l.
Definition missing_checks (remote : gmap string HealthCheck) (l : State) : State :=
  set_checks (map_imap (λ id c, Some (match remote !! id with None => cs_set_flags false (cs_Deleted c) c | Some _ => c end))
                (ls_checks l)) l.
Definition updateSyncState : M (agent W) unit :=
  let* out1 := on_world (Catalog_NodeServices_rpc Delegate (AgentToken cfg)) in
  let* out2 := on_world (Health_NodeChecks_rpc Delegate (AgentToken cfg)) in
  let remoteServices := match out1 with Some ns => nss_Services ns | None => ∅ end in
  let remoteChecks : gmap string HealthCheck := foldl (λ m rc, <[hc_CheckID rc := rc]> m) ∅ out2 in
  local (λ l, if node_info_stale out1 l then set_nodeInfo false l else l) ;;;
  local (missing_services remoteServices) ;;;
  (for id in keys remoteServices do on_local (update_service remoteServices id)) ;;;
  local (missing_checks remoteChecks) ;;;
  for id in keys remoteChecks do on_local (update_check remoteChecks id).

(** *** Pushing *)

Definition blocked (e : error) : bool := IsErrPermissionDenied e || IsErrNotFound e.
(** Assigning through the pointer in a map: a missing entry is a nil pointer. *)
Definition mark_service (id : string) : M (agent W) unit :=
  let* s := look (λ l, ls_services l !! id) in
  let* s := deref s in
  local (λ l, set_services (<[id := ss_set_flags true (ss_Deleted s) s]> (ls_services l)) l).
Definition mark_check (id : string) : M (agent W) unit :=
  let* c := look (λ l, ls_checks l !! id) in
  let* c := deref c in
  local (λ l, set_checks (<[id := cs_set_flags true (cs_Deleted c) c]> (ls_checks l)) l).

Definition deleteService (id : string) : M (agent W) unit :=
  if decide (id = "") then mthrow (EMsg "ServiceID missing" [])
  else
    let* token := look (serviceToken cfg id) in
    let* r := mtry (on_world (Catalog_Deregister_rpc Delegate token
                 (mkDeregisterRequest (cf_Datacenter cfg) (cf_NodeName cfg) id ""))) in
    let gone := local (λ l, set_services (delete id (ls_services l)) l) in
    match r with
    | Ok _ => gone
    | Err e =>
        if error_contains "Unknown service" e then gone
        else if blocked e then mark_service id
        else mthrow e
    | Panic w => mpanic w
    end.
Definition deleteCheck (id : string) : M (agent W) unit :=
  if decide (id = "") then mthrow (EMsg "CheckID missing" [])
  else
    let* token := look (checkToken cfg id) in
    let* r := mtry (on_world (Catalog_Deregister_rpc Delegate token
                 (mkDeregisterRequest (cf_Datacenter cfg) (cf_NodeName cfg) "" id))) in
    let gone := local (λ l, set_checks (delete id (ls_checks l)) (stop_defer (ls_checks l !! id ≫= cs_DeferCheck) l)) in
    match r with
    | Ok _ => gone
    | Err e =>
        if error_contains "Unknown check" e then gone
        else if blocked e then mark_check id
        else mthrow e
    | Panic w => mpanic w
    end.

(** The checks that ride on the registration of a service. *)
Definition rides (l : State) (id checkID : string) : bool :=
  match ls_checks l !! checkID with
  | None => false
  | Some c =>
      negb (cs_Deleted c) && negb (cs_InSync c) && bool_decide ((hc_ServiceID <$> cs_Check c) = Some id) &&
      bool_decide (serviceToken cfg id l = checkToken cfg checkID l)
  end.
Definition riding_checks (l : State) (id : string) : list HealthCheck :=
  omap (λ checkID, if rides l id checkID then ls_checks l !! checkID ≫= cs_Check else None) (keys (ls_checks l)).
Definition register_node (service : option NodeService) (check : option HealthCheck) (checks : list HealthCheck) (l : State) :
    RegisterRequest :=
  mkRegisterRequest (cf_Datacenter cfg) (cf_NodeID cfg) (cf_NodeName cfg) (cf_AdvertiseAddr cfg) (cf_TaggedAddresses cfg)
    (Some (ls_metadata l)) service check checks false.
Definition syncService (id : string) : M (agent W) unit :=
  let* checks := look (λ l, riding_checks l id) in
  let* s := look (λ l, ls_services l !! id) in
  let* s := deref s in
  let* token := look (serviceToken cfg id) in
  let* req := look (match checks with
                    | [c] => register_node (ss_Service s) (Some c) []
                    | _ => register_node (ss_Service s) None checks
                    end) in
  let* r := mtry (on_world (Catalog_Register_rpc Delegate token req)) in
  let marked := mark_service id ;;; for c in checks do mark_check (hc_CheckID c) in
  match r with
  | Ok _ => mark_service id ;;; local (set_nodeInfo true) ;;; for c in checks do mark_check (hc_CheckID c)
  | Err e => if blocked e then marked else mthrow e
  | Panic w => mpanic w
  end.
Definition syncCheck (id : string) : M (agent W) unit :=
  let* c := look (λ l, ls_checks l !! id) in
  let* c := deref c in
  let* token := look (checkToken cfg id) in
  let* hc := deref (cs_Check c) in
  let* s := look (λ l, ls_services l !! hc_ServiceID hc) in
  let service := s ≫= λ s, if ss_Deleted s then None else ss_Service s in
  let* req := look (register_node service (Some hc) []) in
  let* r := mtry (on_world (Catalog_Register_rpc Delegate token req)) in
  match r with
  | Ok _ => mark_check id ;;; local (set_nodeInfo true)
  | Err e => if blocked e then mark_check id else mthrow e
  | Panic w => mpanic w
  end.
Definition syncNodeInfo : M (agent W) unit :=
  let* req := look (register_node None None []) in
  let* r := mtry (on_world (Catalog_Register_rpc Delegate (AgentToken cfg) req)) in
  match r with
  | Ok _ => local (set_nodeInfo true)
  | Err e => if blocked e then local (set_nodeInfo true) else mthrow e
  | Panic w => mpanic w
  end.

Definition push_service (id : string) : M (agent W) unit :=
  let* s := look (λ l, ls_services l !! id) in
  match s with
  | None => mreturn tt
  | Some s => if ss_Deleted s then deleteService id else if ss_InSync s then mreturn tt else syncService id
  end.
Definition push_check (id : string) : M (agent W) unit :=
  let* c := look (λ l, ls_checks l !! id) in
  match c with
  | None => mreturn tt
  | Some c =>
      if cs_Deleted c then deleteCheck id
      else if cs_InSync c then mreturn tt
      else
        local (λ l, set_checks (<[id := cs_set_defer None c]> (ls_checks l)) (stop_defer (cs_DeferCheck c) l)) ;;;
        syncCheck id
  end.
Definition SyncChanges : M (agent W) unit :=
  let* ids := look (λ l, keys (ls_services l)) in
  (for id in ids do push_service id) ;;;
  let* ids := look (λ l, keys (ls_checks l)) in
  (for id in ids do push_check id) ;;;
  let* done := look ls_nodeInfoInSync in
  if done : bool then mreturn tt else syncNodeInfo.
Definition SyncFull : M (agent W) unit := updateSyncState ;;; SyncChanges.
End sync.

(** ** The state syncer (agent/ae/ae.go) *)

(** [scaleFactor]: one and the number of doublings beyond 128 nodes, rounded
    up.  ([math.Log2] is exact enough for every number of nodes that an int32
    holds.) *)
Definition scaleThreshold : Z := 128.
Definition scaleFactor (nodes : Z) : Z :=
  if (nodes <=? scaleThreshold)%Z then 1%Z else (Z.log2_up nodes - Z.log2 scaleThreshold + 1)%Z.

Inductive fsmState := doneState | fullSyncState | partialSyncState | retryFullSyncState.
Inductive ae_event := shutdownEvent | syncFullNotifEvent | syncFullTimerEvent | syncChangesNotifEvent.

(** The state to synchronize, how often the syncer is paused, and whether a
    partial sync has been triggered ([Trigger]: a channel with one place). *)
Record StateSyncer (S : Type) := mkSyncer { sy_State : S; sy_paused : Z; sy_SyncChanges : bool }.
Arguments mkSyncer {_}.
Arguments sy_State {_}.
Arguments sy_paused {_}.
Arguments sy_SyncChanges {_}.

Section syncer.
Context {S : Type} (sync_full sync_changes : M S unit).

Definition on_synced {A} (m : M S A) : M (StateSyncer S) A := λ s,
  let '(r, st) := m (sy_State s) in (r, mkSyncer st (sy_paused s) (sy_SyncChanges s)).
Definition Trigger (s : StateSyncer S) : StateSyncer S := mkSyncer (sy_State s) (sy_paused s) true.
Definition Pause (s : StateSyncer S) : StateSyncer S := mkSyncer (sy_State s) (sy_paused s + 1) (sy_SyncChanges s).
Definition Paused (s : StateSyncer S) : bool := bool_decide (sy_paused s ≠ 0%Z).
(** [Resume]: whether it was the last one. *)
Definition Resume : M (StateSyncer S) bool := λ s,
  let s := mkSyncer (sy_State s) (sy_paused s - 1) (sy_SyncChanges s) in
  if (sy_paused s <? 0)%Z then (Panic "unbalanced pause/resume", s)
  else if decide (sy_paused s = 0%Z) then (Ok true, Trigger s) else (Ok false, s).

(** [nextFSMState]; [e] is the event it waits for, if it does. *)
Definition nextFSMState (fs : fsmState) (e : ae_event) : M (StateSyncer S) fsmState :=
  match fs with
  | fullSyncState =>
      let* paused := mget Paused in
      if paused : bool then mreturn retryFullSyncState
      else
        let* r := mtry (on_synced sync_full) in
        match r with Ok _ => mreturn partialSyncState | _ => mreturn retryFullSyncState end
  | retryFullSyncState =>
      match e with
      | syncFullNotifEvent | syncFullTimerEvent => mreturn fullSyncState
      | shutdownEvent => mreturn doneState
      | syncChangesNotifEvent => mpanic "invalid event"
      end
  | partialSyncState =>
      match e with
      | syncFullNotifEvent | syncFullTimerEvent => mreturn fullSyncState
      | syncChangesNotifEvent =>
          mmodify (λ s, mkSyncer (sy_State s) (sy_paused s) false) ;;;
          let* paused := mget Paused in
          if paused : bool then mreturn partialSyncState
          else mtry (on_synced sync_changes) ;;; mreturn partialSyncState
      | shutdownEvent => mreturn doneState
      end
  | doneState => mpanic "invalid state"
  end.
(** [runFSM], over the events that arrive; a full sync does not wait for one. *)
Fixpoint runFSM (fs : fsmState) (events : list ae_event) : M (StateSyncer S) fsmState :=
  let* fs := match fs with fullSyncState => nextFSMState fs shutdownEvent | _ => mreturn fs end in
  match events with
  | [] => mreturn fs
  | e :: events =>
      let* fs := nextFSMState fs e in
      match fs with doneState => mreturn doneState | _ => runFSM fs events end
  end.
End syncer.
