(* ===== verification/AclEndpoint.v ===== *)
(** * The ACL endpoint (agent/consul: acl_endpoint.go, acl_authmethod.go,
      acl_server.go, authmethod/authmethods.go, dedupeServiceIdentities of
      acl.go)

    What a server does with the requests that read and write tokens, policies,
    roles, binding rules and auth methods, and with a login.  As in [Endpoint],
    the resolved rules of the token that a request carries and what becomes of
    its Raft entry are arguments; a request that this server forwards is not
    its business, but for the answer of the primary datacenter where a handler
    passes it on.  Validators of auth methods (Kubernetes), selectors (go-bexpr)
    and templates (HIL) are interfaces.  The readings of the clock of one
    request are taken as one. *)

From stdpp Require Import pretty.
From S2P Require Import Prelude Memdb ProxyConfig Structs ConnectTables AclTables ConfigEntries Delay TombstoneGC Store PreparedQuery Catalog.
From S2P Require Import AclState Txn Fsm Radix Acl Authorizer AclCache Filter Endpoint Replication.

Definition ErrACLDisabled : error := EMsg "ACL support disabled" [].
Definition ErrACLNotFound : error := EMsg "ACL not found" [].
Definition errAuthMethodsRequireTokenReplication : error := EMsg "Token replication is required for auth methods to function" [].

Definition ACLReservedPrefix : string := "00000000-0000-0000-0000-0000000000".
Definition ACLIDReserved (id : string) : bool := String.prefix ACLReservedPrefix id.

(** ** Names *)

Definition char_between (lo hi c : ascii) : bool := (N_of_ascii lo <=? N_of_ascii c)%N && (N_of_ascii c <=? N_of_ascii hi)%N.
Definition lower_or_digit (c : ascii) : bool := char_between "a" "z" c || char_between "0" "9" c.
Definition dash_or_underscore (c : ascii) : bool := Ascii.eqb c "-" || Ascii.eqb c "_".
Definition name_char (c : ascii) : bool := lower_or_digit c || char_between "A" "Z" c || dash_or_underscore c.
Fixpoint all_chars (p : ascii → bool) (s : string) : bool := match s with "" => true | String c s => p c && all_chars p s end.
Definition last_char (s : string) : option ascii := String.get (String.length s - 1) s.
Definition name_matches (max : nat) (s : string) : bool := all_chars name_char s && (1 <=? String.length s)%nat && (String.length s <=? max)%nat.
(** The regular expressions of the file. *)
Definition validPolicyName : string → bool := name_matches 128.
Definition validRoleName : string → bool := name_matches 256.
Definition validAuthMethod : string → bool := name_matches 128.
Definition validServiceIdentityName (s : string) : bool :=
  all_chars (λ c, lower_or_digit c || dash_or_underscore c) s &&
  match String.get 0 s, last_char s with Some a, Some b => lower_or_digit a && lower_or_digit b | _, _ => false end.
Definition serviceIdentityNameMaxLength : nat := 256.
Definition isValidServiceIdentityName (name : string) : bool :=
  if ((String.length name <? 1) || (serviceIdentityNameMaxLength <? String.length name))%nat then false
  else validServiceIdentityName name.

(** ** Service identities (acl.go) *)

(** The loop of [dedupeStringSlice] and of [dedupeServiceIdentities]: the last
    item kept takes in the items that equal it. *)
Fixpoint compact {A} (same : A → A → bool) (join : A → A → A) (kept : A) (l : list A) : list A :=
  match l with
  | [] => [kept]
  | x :: l => if same kept x then compact same join (join kept x) l else kept :: compact same join x l
  end.
Definition dedupeStringSlice (l : list string) : list string :=
  if (length l <=? 1)%nat then l
  else match merge_sort String.le l with [] => [] | x :: l => compact String.eqb (λ kept _, kept) x l end.
Definition mergeStringSlice (a b : list string) : list string := dedupeStringSlice (a ++ b).
Definition identity_le (a b : ACLServiceIdentity) : Prop := String.le (asi_ServiceName a) (asi_ServiceName b).
#[export] Instance identity_le_dec : RelDecision identity_le.
Proof. intros a b. unfold identity_le. apply _. Defined.
Definition join_identities (kept x : ACLServiceIdentity) : ACLServiceIdentity :=
  mkServiceIdentity (asi_ServiceName kept)
    (if decide (asi_Datacenters kept = [] ∨ asi_Datacenters x = []) then []
     else mergeStringSlice (asi_Datacenters kept) (asi_Datacenters x)).
Definition same_service (a b : ACLServiceIdentity) : bool := String.eqb (asi_ServiceName a) (asi_ServiceName b).
Definition dedupeServiceIdentities (l : list ACLServiceIdentity) : list ACLServiceIdentity :=
  if (length l <=? 1)%nat then l
  else match merge_sort identity_le l with [] => [] | x :: l => compact same_service join_identities x l end.

(** ** The server *)

Record acl_config := mkAclConfig {
  ac_ACLsEnabled : bool;
  ac_UseLegacyACLs : bool;
  ac_Datacenter : string;
  ac_ACLDatacenter : string;
  ac_ACLTokenReplication : bool;
  ac_ReplicationToken : string;
  ac_ACLTokenMinExpirationTTL : Z;
  ac_ACLTokenMaxExpirationTTL : Z
}.
Definition InACLDatacenter (cfg : acl_config) : bool :=
  bool_decide (ac_ACLDatacenter cfg = "") || bool_decide (ac_Datacenter cfg = ac_ACLDatacenter cfg).
Definition LocalTokensEnabled (cfg : acl_config) : bool :=
  if InACLDatacenter cfg then true
  else negb (negb (ac_ACLTokenReplication cfg) || bool_decide (ac_ReplicationToken cfg = "")).
Definition aclPreCheck (cfg : acl_config) : outcome unit :=
  if negb (ac_ACLsEnabled cfg) then Err ErrACLDisabled
  else if ac_UseLegacyACLs cfg then Err (EMsg "The ACL system is currently in legacy mode." []) else Ok tt.
Definition require_auth_methods (cfg : acl_config) : outcome unit :=
  if LocalTokensEnabled cfg then Ok tt else Err errAuthMethodsRequireTokenReplication.

(** [authmethod.Validator]; [v_selector_ok] and [v_selects] are go-bexpr on the
    structure that [MakeFieldMapSelectable] makes of the fields. *)
Record Validator := mkValidator {
  v_Name : string;
  v_ValidateLogin : string → outcome (gmap string string);
  v_AvailableFields : list string;
  v_selector_ok : string → outcome unit;
  v_selects : gmap string string → string → outcome bool
}.

(** The store, the keys of the cached identities, policies and roles, and the
    cached validators with the index each is as of. *)
Record acl_server := mkAclServer {
  as_store : Store;
  as_identities : gset string;
  as_policies : gset string;
  as_roles : gset string;
  as_validators : gmap string (N * Validator)
}.
Definition as_on_store {A} (m : M Store A) : M acl_server A := λ s,
  let '(r, st) := m (as_store s) in (r, mkAclServer st (as_identities s) (as_policies s) (as_roles s) (as_validators s)).
Definition as_read {A} (f : Store → outcome A) : M acl_server A := as_on_store (mread f).
Definition RemoveIdentity (id : string) : M acl_server unit :=
  mmodify (λ s, mkAclServer (as_store s) (as_identities s ∖ {[id]}) (as_policies s) (as_roles s) (as_validators s)).
Definition RemovePolicy (id : string) : M acl_server unit :=
  mmodify (λ s, mkAclServer (as_store s) (as_identities s) (as_policies s ∖ {[id]}) (as_roles s) (as_validators s)).
Definition RemoveRole (id : string) : M acl_server unit :=
  mmodify (λ s, mkAclServer (as_store s) (as_identities s) (as_policies s) (as_roles s ∖ {[id]}) (as_validators s)).
Definition purgeAuthMethodValidators : M acl_server unit :=
  mmodify (λ s, mkAclServer (as_store s) (as_identities s) (as_policies s) (as_roles s) ∅).

(** *** Fresh IDs *)

Definition checkTokenUUID (id : string) (st : Store) : outcome bool :=
  obind (ACLTokenGetByAccessor id st) (λ r,
  match r.2 with
  | Some _ => Ok false
  | None =>
      obind (ACLTokenGetBySecret id st) (λ r,
      match r.2 with Some _ => Ok false | None => Ok (negb (ACLIDReserved id)) end)
  end).
Definition checkPolicyUUID (id : string) (st : Store) : outcome bool :=
  obind (ACLPolicyGetByID id st) (λ r, match r.2 with Some _ => Ok false | None => Ok (negb (ACLIDReserved id)) end).
Definition checkRoleUUID (id : string) (st : Store) : outcome bool :=
  obind (ACLRoleGetByID id st) (λ r, match r.2 with Some _ => Ok false | None => Ok (negb (ACLIDReserved id)) end).
Definition checkBindingRuleUUID (id : string) (st : Store) : outcome bool :=
  obind (ACLBindingRuleGetByID id st) (λ r, match r.2 with Some _ => Ok false | None => Ok (negb (ACLIDReserved id)) end).
(** [lib.GenerateUUID]; [draws] are the draws of [uuid.GenerateUUID]
    (third-party). *)
Fixpoint GenerateUUID (check : string → Store → outcome bool) (draws : list (outcome string)) (st : Store) : outcome string :=
  match draws with
  | [] => Panic "out of fuel"
  | d :: draws => obind d (λ id, obind (check id st) (λ ok, if (ok : bool) then Ok id else GenerateUUID check draws st))
  end.

(** ** Tokens *)

(** [ACLTokenSetRequest]. *)
Record ACLTokenSetRequest := mkTokenSetRequest { tsr_ACLToken : ACLToken; tsr_Create : bool }.
Definition act_set_ids (accessor secret : string) (t : ACLToken) : ACLToken :=
  mkACLToken accessor secret (act_Description t) (act_Policies t) (act_Roles t) (act_ServiceIdentities t) (act_Type t) (act_Rules t)
    (act_Local t) (act_AuthMethod t) (act_ExpirationTime t) (act_ExpirationTTL t) (act_CreateTime t) (act_Hash t)
    (act_CreateIndex t) (act_ModifyIndex t).
Definition act_set_times (method : string) (expires : option Z) (ttl create : Z) (t : ACLToken) : ACLToken :=
  mkACLToken (act_AccessorID t) (act_SecretID t) (act_Description t) (act_Policies t) (act_Roles t) (act_ServiceIdentities t)
    (act_Type t) (act_Rules t) (act_Local t) method expires ttl create (act_Hash t) (act_CreateIndex t) (act_ModifyIndex t).
Definition act_set_privileges (ps : list ACLTokenPolicyLink) (rs : list ACLTokenRoleLink) (ids : list ACLServiceIdentity) (t : ACLToken) : ACLToken :=
  mkACLToken (act_AccessorID t) (act_SecretID t) (act_Description t) ps rs ids (act_Type t) (act_Rules t) (act_Local t)
    (act_AuthMethod t) (act_ExpirationTime t) (act_ExpirationTTL t) (act_CreateTime t) (act_Hash t) (act_CreateIndex t) (act_ModifyIndex t).

Section server.
Context {T : Type → Type} `{RadixOps T}.
Context (ext : externals) (cfg : acl_config) (sum256 : string → string).
(** What the request meets: the time, its token, resolved, the fate of its Raft
    entry, and the UUIDs that are drawn for its n-th new ID. *)
Context (now : Z) (resolved : outcome (option (Authorizer T))) (raft : raft_run) (uuids : nat → list (outcome string)).

(** [if rule == nil || !rule.ACLWrite() { return acl.ErrPermissionDenied }]. *)
Definition acl_permission (allowed : Authorizer T → bool) (rule : option (Authorizer T)) : outcome unit :=
  match rule with Some a => permit (allowed a) | None => Err ErrPermissionDenied end.
Definition require_write : outcome unit := obind resolved (acl_permission ACLWrite).
Definition require_read : outcome unit := obind resolved (acl_permission ACLRead).

(** The IDs of a token that is created. *)
Definition new_id (what : string) (id : string) (n : nat) (match_ : option ACLToken) (other : string → Store → outcome (N * option ACLToken))
    (st : Store) : outcome string :=
  if decide (id = "") then GenerateUUID checkTokenUUID (uuids n) st
  else
    match ParseUUID id with
    | Err _ => Err (EMsg ("Invalid Token: " +:+ what +:+ " is not a valid UUID") [])
    | Panic w => Panic w
    | Ok _ =>
        if decide (match_ ≠ None) then Err (EMsg ("Invalid Token: " +:+ what +:+ " is already in use") [])
        else
          obind (owrap "Failed to lookup the acl token: %v" (other id st)) (λ r,
          if decide (r.2 ≠ None) then Err (EMsg ("Invalid Token: " +:+ what +:+ " is already in use") [])
          else if ACLIDReserved id then Err (EMsg "Invalid Token: UUIDs with the prefix %q are reserved" [ACLReservedPrefix])
          else Ok id)
    end.
(** The expiration time of a token that is created. *)
Definition check_expiration (t : ACLToken) : outcome ACLToken :=
  obind (if decide (act_ExpirationTTL t = 0%Z) then Ok t
         else if (act_ExpirationTTL t <? 0)%Z then Err (EMsg "Token Expiration TTL '%s' should be > 0" [])
         else if HasExpirationTime t then Err (EMsg "Token Expiration TTL and Expiration Time cannot both be set" [])
         else Ok (act_set_times (act_AuthMethod t) (Some (act_CreateTime t + act_ExpirationTTL t)%Z) 0 (act_CreateTime t) t)) (λ t,
  match act_ExpirationTime t with
  | Some e =>
      if negb (HasExpirationTime t) then Ok t
      else if (e <? act_CreateTime t)%Z then Err (EMsg "ExpirationTime cannot be before CreateTime" [])
      else
        let expiresIn := (e - act_CreateTime t)%Z in
        if (ac_ACLTokenMaxExpirationTTL cfg <? expiresIn)%Z then Err (EMsg "ExpirationTime cannot be more than %s in the future (was %s)" [])
        else if (expiresIn <? ac_ACLTokenMinExpirationTTL cfg)%Z then Err (EMsg "ExpirationTime cannot be less than %s in the future (was %s)" [])
        else Ok t
  | None => Ok t
  end).
Definition create_token (fromLogin : bool) (accessorMatch secretMatch : option ACLToken) (t : ACLToken) (st : Store) : outcome ACLToken :=
  obind (new_id "AccessorID" (act_AccessorID t) 0 accessorMatch ACLTokenGetBySecret st) (λ accessor,
  obind (new_id "SecretID" (act_SecretID t) 1 secretMatch ACLTokenGetByAccessor st) (λ secret,
  let t := act_set_times (act_AuthMethod t) (act_ExpirationTime t) (act_ExpirationTTL t) now (act_set_ids accessor secret t) in
  obind (if fromLogin
         then if decide (act_AuthMethod t = "") then Err (EMsg "AuthMethod field is required during Login" [])
              else if negb (act_Local t) then Err (EMsg "Cannot create Global token via Login" []) else Ok tt
         else if decide (act_AuthMethod t ≠ "") then Err (EMsg "AuthMethod field is disallowed outside of Login" []) else Ok tt) (λ _,
  check_expiration t))).
Definition update_token (accessorMatch : option ACLToken) (t : ACLToken) : outcome ACLToken :=
  match ParseUUID (act_AccessorID t) with
  | Err _ => Err (EMsg "AccessorID is not a valid UUID" [])
  | Panic w => Panic w
  | Ok _ =>
      if decide (is_Some (@RootAuthorizer T (act_SecretID t))) then Err (EMsg "Permission denied: Cannot modify root ACL" [])
      else
        match accessorMatch with
        | None => Err (EMsg "Cannot find token %q" [act_AccessorID t])
        | Some m =>
            let cannot := Err (EMsg "Cannot change expiration time of %s" [act_AccessorID t]) in
            if IsExpired m now then Err (EMsg "Cannot find token %q" [act_AccessorID t])
            else if decide (act_SecretID t ≠ "" ∧ act_SecretID m ≠ act_SecretID t) then Err (EMsg "Changing a tokens SecretID is not permitted" [])
            else if decide (act_Local t ≠ act_Local m) then Err (EMsg "cannot toggle local mode of %s" [act_AccessorID t])
            else if decide (act_AuthMethod t ≠ "" ∧ act_AuthMethod t ≠ act_AuthMethod m) then Err (EMsg "Cannot change AuthMethod of %s" [act_AccessorID t])
            else if decide (act_ExpirationTTL t ≠ 0%Z) then cannot
            else if HasExpirationTime t && (negb (HasExpirationTime m) || bool_decide (act_ExpirationTime t ≠ act_ExpirationTime m)) then cannot
            else
              Ok (act_set_times (if decide (act_AuthMethod t = "") then act_AuthMethod m else act_AuthMethod t)
                    (if HasExpirationTime t then act_ExpirationTime t else act_ExpirationTime m) 0 (act_CreateTime m)
                    (act_set_ids (act_AccessorID t) (if decide (act_SecretID t = "") then act_SecretID m else act_SecretID t) t))
        end
  end.

(** The links of a token or a role, by ID and without duplicates; [seen] are
    the IDs before. *)
Section links.
Context {L : Type} (link_ID link_Name : L → string) (mk : string → L) (what : string) (by_name : string → Store → outcome (option string)).
Fixpoint convert_links (seen : gset string) (links : list L) (st : Store) : outcome (list L) :=
  match links with
  | [] => Ok []
  | link :: links =>
      obind (if decide (link_ID link = "")
             then obind (owrap ("Error looking up " +:+ what +:+ " for name %q: %v") (by_name (link_Name link) st)) (λ id,
                  match id with
                  | None => Err (EMsg ("No such ACL " +:+ what +:+ " with name %q") [link_Name link])
                  | Some id => Ok id
                  end)
             else Ok (link_ID link)) (λ id,
      if decide (id ∈ seen) then convert_links seen links st
      else obind (convert_links ({[id]} ∪ seen) links st) (λ rest, Ok (mk id :: rest)))
  end.
End links.
Definition policy_id_by_name (name : string) (st : Store) : outcome (option string) :=
  obind (ACLPolicyGetByName name st) (λ r, Ok (acp_ID <$> r.2)).
Definition role_id_by_name (name : string) (st : Store) : outcome (option string) :=
  obind (ACLRoleGetByName name st) (λ r, Ok (acr_ID <$> r.2)).
Definition token_policy_links : list ACLTokenPolicyLink → Store → outcome (list ACLTokenPolicyLink) :=
  convert_links tpl_ID tpl_Name (λ id, mkTokenPolicyLink id "") "policy" policy_id_by_name ∅.
Definition token_role_links : list ACLTokenRoleLink → Store → outcome (list ACLTokenRoleLink) :=
  convert_links trl_ID trl_Name (λ id, mkTokenRoleLink id "") "role" role_id_by_name ∅.
Definition role_policy_links : list ACLRolePolicyLink → Store → outcome (list ACLRolePolicyLink) :=
  convert_links rpl_ID rpl_Name (λ id, mkRolePolicyLink id "") "policy" policy_id_by_name ∅.
(** The service identities of a token ([local] if it is) or of a role. *)
Fixpoint check_identities (owner : string) (local : bool) (l : list ACLServiceIdentity) : outcome unit :=
  match l with
  | [] => Ok tt
  | svcid :: l =>
      let name := asi_ServiceName svcid in
      if decide (name = "") then Err (EMsg ("Service identity is missing the service name field on this " +:+ owner) [])
      else if local && bool_decide (asi_Datacenters svcid ≠ [])
      then Err (EMsg "Service identity %q cannot specify a list of datacenters on a local token" [name])
      else if negb (isValidServiceIdentityName name)
      then Err (EMsg "Service identity %q has an invalid name. Only alphanumeric characters, '-' and '_' are allowed" [name])
      else check_identities owner local l
  end.

(** The token that [tokenSetInternal] hands to Raft. *)
Definition token_to_set (args : ACLTokenSetRequest) (fromLogin : bool) (st : Store) : outcome ACLToken :=
  let t := tsr_ACLToken args in
  if negb (LocalTokensEnabled cfg) then Err (EMsg "Cannot upsert tokens within this datacenter" [])
  else if negb (InACLDatacenter cfg) && negb (act_Local t) then Err (EMsg "Cannot upsert global tokens within this datacenter" [])
  else
    obind (if decide (act_AccessorID t = "") then Ok None
           else obind (owrap "Failed acl token lookup by accessor: %v" (ACLTokenGetByAccessor (act_AccessorID t) st)) (λ r, Ok r.2)) (λ accessorMatch,
    obind (if decide (act_SecretID t = "") then Ok None
           else obind (owrap "Failed acl token lookup by secret: %v" (ACLTokenGetBySecret (act_SecretID t) st)) (λ r, Ok r.2)) (λ secretMatch,
    obind (if decide (act_AccessorID t = "" ∨ tsr_Create args = true) then create_token fromLogin accessorMatch secretMatch t st
           else update_token accessorMatch t) (λ t,
    obind (token_policy_links (act_Policies t) st) (λ policies,
    obind (token_role_links (act_Roles t) st) (λ roles,
    obind (check_identities "token" (act_Local t) (act_ServiceIdentities t)) (λ _,
    let t := act_set_privileges policies roles (dedupeServiceIdentities (act_ServiceIdentities t)) t in
    if decide (act_Rules t ≠ "") then Err (EMsg "Rules cannot be specified for this token" [])
    else if decide (act_Type t ≠ "") then Err (EMsg "Type cannot be specified for this token" [])
    else Ok (ACLToken_SetHash sum256 true t))))))).
(** [tokenSetInternal]. *)
Definition tokenSetInternal (args : ACLTokenSetRequest) (fromLogin : bool) : M acl_server ACLToken :=
  let* token := as_read (token_to_set args fromLogin) in
  let* resp := mwrap "Failed to apply token write request: %v"
    (as_on_store (raftApply ext raft (ACLTokenSetRequestType (mkTokenBatchSet [token] false fromLogin fromLogin)))) in
  RemoveIdentity (act_SecretID token) ;;;
  mlift resp ;;;
  let* r := mtry (as_read (ACLTokenGetByAccessor (act_AccessorID token))) in
  match r with
  | Ok (_, Some updated) => mreturn updated
  | _ => mthrow (EMsg "Failed to retrieve the token after insertion" [])
  end.
(** [ACL.TokenSet]. *)
Definition TokenSet (args : ACLTokenSetRequest) : M acl_server ACLToken :=
  mlift (aclPreCheck cfg) ;;;
  if act_Local (tsr_ACLToken args) && negb (LocalTokensEnabled cfg) then mthrow (EMsg "Local tokens are disabled" [])
  else mlift require_write ;;; tokenSetInternal args false.
(** [ACL.TokenClone] of the token with this accessor ID; [primary] is the
    answer of the primary datacenter for a global token in a secondary one. *)
Definition clone_of (t : ACLToken) (description : string) : ACLToken :=
  mkACLToken "" "" (if decide (description ≠ "") then description else act_Description t) (act_Policies t) [] (act_ServiceIdentities t)
    "" "" (act_Local t) "" (act_ExpirationTime t) 0 zero_time None 0 0.
Definition TokenClone (primary : outcome ACLToken) (accessor description : string) : M acl_server ACLToken :=
  mlift (aclPreCheck cfg) ;;;
  mlift require_write ;;;
  let* (_, token) := as_read (ACLTokenGetByAccessor accessor) in
  match token with
  | None => mthrow ErrACLNotFound
  | Some token =>
      if IsExpired token now then mthrow ErrACLNotFound
      else if negb (InACLDatacenter cfg) && negb (act_Local token) then mlift primary
      else if decide (act_AuthMethod token ≠ "") then mthrow (EMsg "Cannot clone a token created from an auth method" [])
      else if decide (act_Rules token ≠ "") then mthrow (EMsg "Cannot clone a legacy ACL with this endpoint" [])
      else tokenSetInternal (mkTokenSetRequest (clone_of token description) false) false
  end.

(** [ACL.TokenDelete]; [token] is the token of the request. *)
Definition TokenDelete (primary : outcome string) (token accessor : string) : M acl_server string :=
  mlift (aclPreCheck cfg) ;;;
  mlift require_write ;;;
  match ParseUUID accessor with
  | Panic w => mpanic w
  | Err _ => mthrow (EMsg "Accessor ID is missing or an invalid UUID" [])
  | Ok _ =>
      if decide (accessor = ACLTokenAnonymousID) then mthrow (EMsg "Delete operation not permitted on the anonymous token" [])
      else
        let* (_, found) := as_read (ACLTokenGetByAccessor accessor) in
        let delete :=
          let* resp := mwrap "Failed to apply token delete request: %v" (as_on_store (raftApply ext raft (ACLTokenDeleteRequestType [accessor]))) in
          (match found with Some t => RemoveIdentity (act_SecretID t) | None => mreturn tt end) ;;;
          mlift resp ;;;
          mreturn (match found with Some t => act_AccessorID t | None => "" end) in
        match found with
        | Some t =>
            if decide (token = act_SecretID t) then mthrow (EMsg "Deletion of the request's authorization token is not permitted" [])
            else if negb (InACLDatacenter cfg) && negb (act_Local t) then mlift primary
            else delete
        | None => delete
        end
  end.
(** [ACL.TokenRead], by accessor ID, with the rules of the request's token, or
    by secret ID; the last component of the reply: whether it is redacted. *)
Definition unexpired (t : option ACLToken) : option ACLToken := t ≫= λ t, if IsExpired t now then None else Some t.
Definition TokenRead (by_accessor : bool) (id : string) (st : Store) : outcome (N * option ACLToken * bool) :=
  obind (aclPreCheck cfg) (λ _,
  if by_accessor then
    obind resolved (λ rule,
    match rule with
    | None => Err ErrPermissionDenied
    | Some a =>
        obind (permit (ACLRead a)) (λ _,
        obind (ACLTokenGetByAccessor id st) (λ '(index, token),
        obind (match token with
               | Some _ => obind (filterACLWithAuthorizer true rule (SubjACLToken token)) (λ subj,
                   Ok (match subj with SubjACLToken t => t | _ => None end, negb (ACLWrite a)))
               | None => Ok (None, false)
               end) (λ '(token, redacted),
        Ok (index, unexpired token, redacted))))
    end)
  else obind (ACLTokenGetBySecret id st) (λ '(index, token), Ok (index, unexpired token, false))).
(** [ACL.TokenList]. *)
Definition TokenList (local global : bool) (policy role method : string) (st : Store) : outcome (N * list ACLTokenListStub) :=
  obind (aclPreCheck cfg) (λ _,
  obind require_read (λ _,
  obind (ACLTokenList local global policy role method st) (λ '(index, tokens),
  Ok (index, ACLToken_Stub <$> filter (λ t, IsExpired t now = false) tokens)))).
(** [ACL.TokenBatchRead]. *)
Definition TokenBatchRead (accessors : list string) (st : Store) : outcome (N * list (option ACLToken) * bool) :=
  obind (aclPreCheck cfg) (λ _,
  obind resolved (λ rule,
  match rule with
  | None => Err ErrPermissionDenied
  | Some a =>
      obind (permit (ACLRead a)) (λ _,
      obind (ACLTokenBatchGet accessors st) (λ '(index, tokens),
      obind (filterACLWithAuthorizer true rule (SubjACLTokens (Some <$> tokens))) (λ subj,
      Ok (index, match subj with SubjACLTokens l => l | _ => [] end, negb (ACLWrite a)))))
  end)).

(** [ACL.BootstrapTokens]; [fileIndex] is what [fileBootstrapResetIndex] reads
    from the file that is then removed. *)
Definition bootstrap_token (accessor secret : string) : ACLToken :=
  ACLToken_SetHash sum256 true
    (mkACLToken accessor secret "Bootstrap Token (Global Management)" [mkTokenPolicyLink ACLPolicyGlobalManagementID ""] [] []
       "management" "" false "" None 0 now None 0 0).
Definition BootstrapTokens (fileIndex : N) : M acl_server ACLToken :=
  mlift (aclPreCheck cfg) ;;;
  if negb (InACLDatacenter cfg) then mthrow ErrACLDisabled
  else
    let* (allowed, resetIdx) := as_read CanBootstrapACLToken in
    let* specifiedIndex :=
      if (allowed : bool) then mreturn 0%N
      else if decide (fileIndex = 0%N) then mthrow (EMsg "ACL bootstrap no longer allowed (reset index: %d)" [pretty resetIdx])
      else if decide (fileIndex ≠ resetIdx)
      then mthrow (EMsg "Invalid bootstrap reset index (specified %d, reset index: %d)" [pretty fileIndex; pretty resetIdx])
      else mreturn fileIndex in
    let* accessor := as_read (GenerateUUID checkTokenUUID (uuids 0)) in
    let* secret := as_read (GenerateUUID checkTokenUUID (uuids 1)) in
    let* resp := as_on_store (raftApply ext raft (ACLBootstrapRequestType (mkTokenBootstrap (bootstrap_token accessor secret) specifiedIndex))) in
    mlift resp ;;;
    let* r := mtry (as_read (ACLTokenGetByAccessor accessor)) in
    match r with
    | Ok (_, Some token) => mreturn token
    | Ok (_, None) => mpanic "invalid memory address or nil pointer dereference"
    | _ => mreturn (mkACLToken "" "" "" [] [] [] "" "" false "" None 0 zero_time None 0 0)
    end.

(** ** Policies *)

Definition acp_set (id : string) (hash : option string) (p : ACLPolicy) : ACLPolicy :=
  mkACLPolicy id (acp_Name p) (acp_Description p) (acp_Rules p) (acp_Syntax p) (acp_Datacenters p) hash (acp_CreateIndex p) (acp_ModifyIndex p).
(** [ACLPolicy.SetHash(true)]. *)
Definition rehash_policy (p : ACLPolicy) : ACLPolicy := acp_set (acp_ID p) (Some (ACLPolicy_SetHash sum256 (acp_set (acp_ID p) None p))) p.
(** The policy that [PolicySet] hands to Raft; [parse] is
    [acl.NewPolicyFromSource] on its rules, of which only the error matters. *)
Definition policy_to_set (parse : string → Z → outcome unit) (p : ACLPolicy) (st : Store) : outcome ACLPolicy :=
  if decide (acp_Name p = "") then Err (EMsg "Invalid Policy: no Name is set" [])
  else if negb (validPolicyName (acp_Name p)) then Err (EMsg "Invalid Policy: invalid Name. Only alphanumeric characters, '-' and '_' are allowed" [])
  else
    obind (if decide (acp_ID p = "") then Ok None
           else match ParseUUID (acp_ID p) with
                | Ok _ => obind (owrap "acl policy lookup by id failed: %v" (ACLPolicyGetByID (acp_ID p) st)) (λ r, Ok r.2)
                | Err _ => Err (EMsg "Policy ID invalid UUID" [])
                | Panic w => Panic w
                end) (λ idMatch,
    obind (owrap "acl policy lookup by name failed: %v" (ACLPolicyGetByName (acp_Name p) st)) (λ '(_, nameMatch),
    obind (if decide (acp_ID p = "") then
             obind (GenerateUUID checkPolicyUUID (uuids 0) st) (λ id,
             if decide (nameMatch ≠ None) then Err (EMsg "Invalid Policy: A Policy with Name %q already exists" [acp_Name p]) else Ok id)
           else
             match idMatch with
             | None => Err (EMsg "cannot find policy %s" [acp_ID p])
             | Some m =>
                 if decide (acp_Name m ≠ acp_Name p ∧ nameMatch ≠ None) then Err (EMsg "Invalid Policy: A policy with name %q already exists" [acp_Name p])
                 else if decide (acp_ID p = ACLPolicyGlobalManagementID) then
                   if decide (acp_Datacenters p ≠ [])
                   then Err (EMsg "Changing the Datacenters of the builtin global-management policy is not permitted" [])
                   else if decide (acp_Rules p ≠ acp_Rules m)
                   then Err (EMsg "Changing the Rules for the builtin global-management policy is not permitted" [])
                   else Ok (acp_ID p)
                 else Ok (acp_ID p)
             end) (λ id,
    obind (parse (acp_Rules p) (acp_Syntax p)) (λ _,
    Ok (rehash_policy (acp_set id (acp_Hash p) p)))))).
(** [ACL.PolicySet]: the policy as it is stored afterwards. *)
Definition PolicySet (parse : string → Z → outcome unit) (p : ACLPolicy) : M acl_server (option ACLPolicy) :=
  mlift (aclPreCheck cfg) ;;;
  mlift require_write ;;;
  let* p := as_read (policy_to_set parse p) in
  let* resp := mwrap "Failed to apply policy upsert request: %v" (as_on_store (raftApply ext raft (ACLPolicySetRequestType [p]))) in
  RemovePolicy (acp_ID p) ;;;
  mlift resp ;;;
  let* r := mtry (as_read (ACLPolicyGetByID (acp_ID p))) in
  mreturn (match r with Ok (_, stored) => stored | _ => None end).
(** [ACL.PolicyDelete]: the name of the policy that is deleted. *)
Definition PolicyDelete (id : string) : M acl_server string :=
  mlift (aclPreCheck cfg) ;;;
  mlift require_write ;;;
  let* (_, policy) := as_read (ACLPolicyGetByID id) in
  match policy with
  | None => mreturn ""
  | Some p =>
      if decide (acp_ID p = ACLPolicyGlobalManagementID) then mthrow (EMsg "Delete operation not permitted on the builtin global-management policy" [])
      else
        let* resp := mwrap "Failed to apply policy delete request: %v" (as_on_store (raftApply ext raft (ACLPolicyDeleteRequestType [id]))) in
        RemovePolicy (acp_ID p) ;;;
        mlift resp ;;;
        mreturn (acp_Name p)
  end.
Definition PolicyRead (id : string) (st : Store) : outcome (N * option ACLPolicy) :=
  obind (aclPreCheck cfg) (λ _, obind require_read (λ _, ACLPolicyGetByID id st)).
Definition PolicyBatchRead (ids : list string) (st : Store) : outcome (N * list ACLPolicy) :=
  obind (aclPreCheck cfg) (λ _, obind require_read (λ _, ACLPolicyBatchGet ids st)).
Definition PolicyList (st : Store) : outcome (N * list ACLPolicyListStub) :=
  obind (aclPreCheck cfg) (λ _, obind require_read (λ _, obind (ACLPolicyList st) (λ '(index, l), Ok (index, ACLPolicy_Stub <$> l)))).
(** The last part of [PolicyResolve] and [RoleResolve]: of the items linked to
    an identity, those that the request names, or nothing if it names another. *)
Definition resolve_subset {A} (linked : list string) (found : list (string * A)) (wanted : list string) : outcome (list A) :=
  let idMap : gmap string (option A) := foldl (λ m x, <[x.1 := Some x.2]> m) (foldl (λ m id, <[id := None]> m) ∅ linked) found in
  foldr (λ id rest, match idMap !! id with
                    | Some (Some x) => obind rest (λ l, Ok (x :: l))
                    | Some None => rest
                    | None => Err ErrPermissionDenied
                    end) (Ok []) wanted.

(** ** Roles *)

Definition acr_set (id : string) (ps : list ACLRolePolicyLink) (ids : list ACLServiceIdentity) (r : ACLRole) : ACLRole :=
  mkACLRole id (acr_Name r) (acr_Description r) ps ids (acr_Hash r) (acr_CreateIndex r) (acr_ModifyIndex r).
Definition role_name_taken (name : string) (st : Store) : outcome bool :=
  obind (owrap "acl role lookup by name failed: %v" (ACLRoleGetByName name st)) (λ r, Ok (bool_decide (r.2 ≠ None))).
(** The role that [RoleSet] hands to Raft. *)
Definition role_to_set (r : ACLRole) (st : Store) : outcome ACLRole :=
  if decide (acr_Name r = "") then Err (EMsg "Invalid Role: no Name is set" [])
  else if negb (validRoleName (acr_Name r)) then Err (EMsg "Invalid Role: invalid Name. Only alphanumeric characters, '-' and '_' are allowed" [])
  else
    obind (if decide (acr_ID r = "") then
             obind (GenerateUUID checkRoleUUID (uuids 0) st) (λ id,
             obind (role_name_taken (acr_Name r) st) (λ taken,
             if (taken : bool) then Err (EMsg "Invalid Role: A Role with Name %q already exists" [acr_Name r]) else Ok id))
           else
             match ParseUUID (acr_ID r) with
             | Err _ => Err (EMsg "Role ID invalid UUID" [])
             | Panic w => Panic w
             | Ok _ =>
                 obind (owrap "acl role lookup failed: %v" (ACLRoleGetByID (acr_ID r) st)) (λ '(_, existing),
                 match existing with
                 | None => Err (EMsg "cannot find role %s" [acr_ID r])
                 | Some m =>
                     obind (if decide (acr_Name m ≠ acr_Name r) then role_name_taken (acr_Name r) st else Ok false) (λ taken,
                     if (taken : bool) then Err (EMsg "Invalid Role: A role with name %q already exists" [acr_Name r]) else Ok (acr_ID r))
                 end)
             end) (λ id,
    obind (role_policy_links (acr_Policies r) st) (λ policies,
    obind (check_identities "role" false (acr_ServiceIdentities r)) (λ _,
    Ok (ACLRole_SetHash sum256 true (acr_set id policies (dedupeServiceIdentities (acr_ServiceIdentities r)) r))))).
(** [ACL.RoleSet]. *)
Definition RoleSet (r : ACLRole) : M acl_server (option ACLRole) :=
  mlift (aclPreCheck cfg) ;;;
  mlift require_write ;;;
  let* r := as_read (role_to_set r) in
  let* resp := mwrap "Failed to apply role upsert request: %v"
    (as_on_store (raftApply ext raft (ACLRoleSetRequestType (mkRoleBatchSet [r] false)))) in
  RemoveRole (acr_ID r) ;;;
  mlift resp ;;;
  let* res := mtry (as_read (ACLRoleGetByID (acr_ID r))) in
  mreturn (match res with Ok (_, stored) => stored | _ => None end).
(** [ACL.RoleDelete]: the name of the role that is deleted. *)
Definition RoleDelete (id : string) : M acl_server string :=
  mlift (aclPreCheck cfg) ;;;
  mlift require_write ;;;
  let* (_, role) := as_read (ACLRoleGetByID id) in
  match role with
  | None => mreturn ""
  | Some r =>
      let* resp := mwrap "Failed to apply role delete request: %v" (as_on_store (raftApply ext raft (ACLRoleDeleteRequestType [id]))) in
      RemoveRole (acr_ID r) ;;;
      mlift resp ;;;
      mreturn (acr_Name r)
  end.
Definition RoleRead (id name : string) (st : Store) : outcome (N * option ACLRole) :=
  obind (aclPreCheck cfg) (λ _, obind require_read (λ _,
  if decide (id ≠ "") then ACLRoleGetByID id st else ACLRoleGetByName name st)).
Definition RoleBatchRead (ids : list string) (st : Store) : outcome (N * list ACLRole) :=
  obind (aclPreCheck cfg) (λ _, obind require_read (λ _, ACLRoleBatchGet ids st)).
Definition RoleList (policy : string) (st : Store) : outcome (N * list ACLRole) :=
  obind (aclPreCheck cfg) (λ _, obind require_read (λ _, ACLRoleList policy st)).

(** ** Binding rules and auth methods *)

(** [InterpolateHIL]: HIL is third-party; a string without [${] is as it is. *)
Context (hil : string → gmap string string → outcome string).
Fixpoint has_template (s : string) : bool :=
  match s with "" => false | String c s' => String.prefix "${" s || has_template s' end.
Definition InterpolateHIL (s : string) (vars : gmap string string) : outcome string := if has_template s then hil s vars else Ok s.
Definition BindingRuleBindTypeService : string := "service".
Definition BindingRuleBindTypeRole : string := "role".
Definition computeBindingRuleBindName (bindType bindName : string) (verifiedFields : gmap string string) : outcome (string * bool) :=
  obind (InterpolateHIL bindName verifiedFields) (λ bindName,
  if decide (bindType = BindingRuleBindTypeService) then Ok (bindName, isValidServiceIdentityName bindName)
  else if decide (bindType = BindingRuleBindTypeRole) then Ok (bindName, validRoleName bindName)
  else Err (EMsg "unknown binding rule bind type: %s" [bindType])).
Definition validateBindingRuleBindName (bindType bindName : string) (availableFields : list string) : outcome bool :=
  if decide (bindType = "" ∨ bindName = "") then Ok false
  else obind (computeBindingRuleBindName bindType bindName (foldl (λ m v, <[v := "fake"]> m) ∅ availableFields)) (λ r, Ok r.2).

(** [authmethod.NewValidator] and the registered types. *)
Context (NewValidator : ACLAuthMethod → outcome Validator) (registered : list string).
(** [loadAuthMethodValidator], [getOrReplaceAuthMethodValidator]. *)
Definition getCachedAuthMethodValidator (name : string) (s : acl_server) : option (N * Validator) := as_validators s !! name.
Definition getOrReplaceAuthMethodValidator (name : string) (idx : N) (v : Validator) : M acl_server Validator :=
  let* prev := mget (getCachedAuthMethodValidator name) in
  let replace :=
    mmodify (λ s, mkAclServer (as_store s) (as_identities s) (as_policies s) (as_roles s) (<[name := (idx, v)]> (as_validators s))) ;;; mreturn v in
  match prev with
  | Some (i, old) => if (idx <=? i)%N then mreturn old else replace
  | None => replace
  end.
Definition loadAuthMethodValidator (idx : N) (method : ACLAuthMethod) : M acl_server Validator :=
  let* prev := mget (getCachedAuthMethodValidator (aam_Name method)) in
  let load :=
    let* v := mwrap "auth method validator for %q could not be initialized: %v" (mlift (NewValidator method)) in
    getOrReplaceAuthMethodValidator (aam_Name method) idx v in
  match prev with
  | Some (i, v) => if (idx <=? i)%N then mreturn v else load
  | None => load
  end.

Definition abr_set (id method : string) (r : ACLBindingRule) : ACLBindingRule :=
  mkACLBindingRule id (abr_Description r) method (abr_Selector r) (abr_BindType r) (abr_BindName r) (abr_CreateIndex r) (abr_ModifyIndex r).
(** The ID and the auth method of the rule. *)
Definition rule_identity (r : ACLBindingRule) (st : Store) : outcome ACLBindingRule :=
  if decide (abr_ID r = "") then obind (GenerateUUID checkBindingRuleUUID (uuids 0) st) (λ id, Ok (abr_set id (abr_AuthMethod r) r))
  else
    match ParseUUID (abr_ID r) with
    | Err _ => Err (EMsg "Binding Rule ID invalid UUID" [])
    | Panic w => Panic w
    | Ok _ =>
        obind (owrap "acl binding rule lookup failed: %v" (ACLBindingRuleGetByID (abr_ID r) st)) (λ '(_, existing),
        match existing with
        | None => Err (EMsg "cannot find binding rule %s" [abr_ID r])
        | Some m =>
            if decide (abr_AuthMethod r = "") then Ok (abr_set (abr_ID r) (abr_AuthMethod m) r)
            else if decide (abr_AuthMethod m ≠ abr_AuthMethod r) then Err (EMsg "the AuthMethod field of an Binding Rule is immutable" [])
            else Ok r
        end)
    end.
(** The checks against the validator. *)
Definition check_rule (v : Validator) (r : ACLBindingRule) : outcome unit :=
  obind (if decide (abr_Selector r = "") then Ok tt
         else owrap "invalid Binding Rule: Selector is invalid: %v" (v_selector_ok v (abr_Selector r))) (λ _,
  if decide (abr_BindType r = "") then Err (EMsg "Invalid Binding Rule: no BindType is set" [])
  else if decide (abr_BindName r = "") then Err (EMsg "Invalid Binding Rule: no BindName is set" [])
  else if decide (abr_BindType r ≠ BindingRuleBindTypeService ∧ abr_BindType r ≠ BindingRuleBindTypeRole)
  then Err (EMsg "Invalid Binding Rule: unknown BindType %q" [abr_BindType r])
  else
    obind (owrap "Invalid Binding Rule: invalid BindName: %v"
             (validateBindingRuleBindName (abr_BindType r) (abr_BindName r) (v_AvailableFields v))) (λ valid,
    if (valid : bool) then Ok tt else Err (EMsg "Invalid Binding Rule: invalid BindName" []))).
(** [ACL.BindingRuleSet]. *)
Definition BindingRuleSet (r : ACLBindingRule) : M acl_server (option ACLBindingRule) :=
  mlift (aclPreCheck cfg) ;;;
  mlift (require_auth_methods cfg) ;;;
  mlift require_write ;;;
  let* r := as_read (rule_identity r) in
  if decide (abr_AuthMethod r = "") then mthrow (EMsg "Invalid Binding Rule: no AuthMethod is set" [])
  else
    let* (methodIdx, method) := mwrap "acl auth method lookup failed: %v" (as_read (ACLAuthMethodGetByName (abr_AuthMethod r))) in
    match method with
    | None => mthrow (EMsg "cannot find auth method with name %q" [abr_AuthMethod r])
    | Some method =>
        let* v := loadAuthMethodValidator methodIdx method in
        mlift (check_rule v r) ;;;
        let* resp := mwrap "Failed to apply binding rule upsert request: %v" (as_on_store (raftApply ext raft (ACLBindingRuleSetRequestType [r]))) in
        mlift resp ;;;
        let* res := mtry (as_read (ACLBindingRuleGetByID (abr_ID r))) in
        mreturn (match res with Ok (_, stored) => stored | _ => None end)
    end.
(** [ACL.BindingRuleDelete]: whether a rule was deleted. *)
Definition BindingRuleDelete (id : string) : M acl_server bool :=
  mlift (aclPreCheck cfg) ;;;
  mlift (require_auth_methods cfg) ;;;
  mlift require_write ;;;
  let* (_, rule) := as_read (ACLBindingRuleGetByID id) in
  match rule with
  | None => mreturn false
  | Some _ =>
      let* resp := mwrap "Failed to apply binding rule delete request: %v" (as_on_store (raftApply ext raft (ACLBindingRuleDeleteRequestType [id]))) in
      mlift resp ;;;
      mreturn true
  end.
Definition BindingRuleRead (id : string) (st : Store) : outcome (N * option ACLBindingRule) :=
  obind (aclPreCheck cfg) (λ _, obind (require_auth_methods cfg) (λ _, obind require_read (λ _, ACLBindingRuleGetByID id st))).
Definition BindingRuleList (method : string) (st : Store) : outcome (N * list ACLBindingRule) :=
  obind (aclPreCheck cfg) (λ _, obind (require_auth_methods cfg) (λ _, obind require_read (λ _, ACLBindingRuleList method st))).

Definition IsRegisteredType (typeName : string) : bool := bool_decide (typeName ∈ registered).
Definition aam_set_type (type : string) (m : ACLAuthMethod) : ACLAuthMethod :=
  mkACLAuthMethod (aam_Name m) type (aam_Description m) (aam_Config m) (aam_CreateIndex m) (aam_ModifyIndex m).
(** The auth method that [AuthMethodSet] hands to Raft. *)
Definition method_to_set (m : ACLAuthMethod) (st : Store) : outcome ACLAuthMethod :=
  if decide (aam_Name m = "") then Err (EMsg "Invalid Auth Method: no Name is set" [])
  else if negb (validAuthMethod (aam_Name m)) then Err (EMsg "Invalid Auth Method: invalid Name. Only alphanumeric characters, '-' and '_' are allowed" [])
  else
    obind (owrap "acl auth method lookup failed: %v" (ACLAuthMethodGetByName (aam_Name m) st)) (λ '(_, existing),
    obind (match existing with
           | None => Ok m
           | Some e => if decide (aam_Type m = "") then Ok (aam_set_type (aam_Type e) m)
                       else if decide (aam_Type e ≠ aam_Type m) then Err (EMsg "the Type field of an Auth Method is immutable" []) else Ok m
           end) (λ m,
    if negb (IsRegisteredType (aam_Type m)) then Err (EMsg "Invalid Auth Method: Type should be one of: %v" registered)
    else obind (owrap "Invalid Auth Method: %v" (NewValidator m)) (λ _, Ok m))).
(** [ACL.AuthMethodSet]. *)
Definition AuthMethodSet (m : ACLAuthMethod) : M acl_server (option ACLAuthMethod) :=
  mlift (aclPreCheck cfg) ;;;
  mlift (require_auth_methods cfg) ;;;
  mlift require_write ;;;
  let* m := as_read (method_to_set m) in
  let* resp := mwrap "Failed to apply auth method upsert request: %v" (as_on_store (raftApply ext raft (ACLAuthMethodSetRequestType [m]))) in
  mlift resp ;;;
  let* res := mtry (as_read (ACLAuthMethodGetByName (aam_Name m))) in
  mreturn (match res with Ok (_, stored) => stored | _ => None end).
(** [ACL.AuthMethodDelete]: whether an auth method was deleted. *)
Definition AuthMethodDelete (name : string) : M acl_server bool :=
  mlift (aclPreCheck cfg) ;;;
  mlift (require_auth_methods cfg) ;;;
  mlift require_write ;;;
  let* (_, method) := as_read (ACLAuthMethodGetByName name) in
  match method with
  | None => mreturn false
  | Some _ =>
      let* resp := mwrap "Failed to apply auth method delete request: %v" (as_on_store (raftApply ext raft (ACLAuthMethodDeleteRequestType [name]))) in
      mlift resp ;;;
      mreturn true
  end.
Definition AuthMethodRead (name : string) (st : Store) : outcome (N * option ACLAuthMethod) :=
  obind (aclPreCheck cfg) (λ _, obind (require_auth_methods cfg) (λ _, obind require_read (λ _, ACLAuthMethodGetByName name st))).
(** [ACLAuthMethod.Stub]: the method without its configuration. *)
Definition ACLAuthMethod_Stub (m : ACLAuthMethod) : string * string * string * N * N :=
  (aam_Name m, aam_Description m, aam_Type m, aam_CreateIndex m, aam_ModifyIndex m).
Definition AuthMethodList (st : Store) : outcome (N * list (string * string * string * N * N)) :=
  obind (aclPreCheck cfg) (λ _, obind (require_auth_methods cfg) (λ _, obind require_read (λ _,
  obind (ACLAuthMethodList st) (λ '(index, l), Ok (index, ACLAuthMethod_Stub <$> l))))).

(** ** Login *)

(** [doesBindingRuleMatch]: a selector that fails does not match. *)
Definition doesBindingRuleMatch (v : Validator) (fields : gmap string string) (r : ACLBindingRule) : bool :=
  if decide (abr_Selector r = "") then true else match v_selects v fields (abr_Selector r) with Ok b => b | _ => false end.
(** The loop over the matching rules. *)
Fixpoint bind_rules (fields : gmap string string) (rules : list ACLBindingRule) (st : Store) :
    outcome (list ACLServiceIdentity * list ACLTokenRoleLink) :=
  match rules with
  | [] => Ok ([], [])
  | r :: rules =>
      obind (owrap "cannot compute %q bind name for bind target: %v" (computeBindingRuleBindName (abr_BindType r) (abr_BindName r) fields)) (λ '(bindName, valid),
      if negb valid then Err (EMsg "computed %q bind name for bind target is invalid: %q" [abr_BindType r; bindName])
      else
        obind (if decide (abr_BindType r = BindingRuleBindTypeService) then Ok ([mkServiceIdentity bindName []], [])
               else if decide (abr_BindType r = BindingRuleBindTypeRole) then
                 obind (ACLRoleGetByName bindName st) (λ '(_, role),
                 Ok ([], match role with Some role => [mkTokenRoleLink (acr_ID role) ""] | None => [] end))
               else Ok ([], [])) (λ '(ids, links),
        obind (bind_rules fields rules st) (λ '(ids', links'), Ok (ids ++ ids', links ++ links'))))
  end.
Definition evaluateRoleBindings (v : Validator) (fields : gmap string string) (st : Store) :
    outcome (list ACLServiceIdentity * list ACLTokenRoleLink) :=
  obind (ACLBindingRuleList (v_Name v) st) (λ '(_, rules), bind_rules fields (filter (λ r, doesBindingRuleMatch v fields r = true) rules) st).
(** The token that a login asks for; [meta] is the encoded metadata. *)
Definition login_token (method meta : string) (ids : list ACLServiceIdentity) (links : list ACLTokenRoleLink) : ACLToken :=
  mkACLToken "" "" ("token created via login" +:+ (if decide (meta = "") then "" else ": " +:+ meta)) [] links ids "" "" true method None 0 zero_time None 0 0.
(** [err.Error() == state.ErrTokenHasNoPrivileges.Error()]. *)
Definition no_privileges (e : error) : bool := match e with EMsg text _ => String.eqb text "Token has no privileges" | _ => false end.
(** [ACL.Login], with the token of the request, which should have none. *)
Definition Login (token method bearer meta : string) : M acl_server ACLToken :=
  mlift (aclPreCheck cfg) ;;;
  mlift (require_auth_methods cfg) ;;;
  if decide (token ≠ "") then mthrow (EMsg "do not provide a token when logging in" [])
  else
    let* (idx, found) := as_read (ACLAuthMethodGetByName method) in
    match found with
    | None => mthrow ErrACLNotFound
    | Some m =>
        let* v := loadAuthMethodValidator idx m in
        let* fields := mlift (v_ValidateLogin v bearer) in
        let* (ids, links) := as_read (evaluateRoleBindings v fields) in
        if decide (ids = [] ∧ links = []) then mthrow ErrPermissionDenied
        else
          let* r := mtry (tokenSetInternal (mkTokenSetRequest (login_token method meta ids links) false) true) in
          match r with
          | Err e => mthrow (if no_privileges e then ErrPermissionDenied else e)
          | r => mlift r
          end
    end.
(** [ACL.Logout]; [token] is the token of the request. *)
Definition Logout (primary : outcome bool) (token : string) : M acl_server bool :=
  mlift (aclPreCheck cfg) ;;;
  mlift (require_auth_methods cfg) ;;;
  if decide (token = "") then mthrow ErrACLNotFound
  else
    let* (_, found) := as_read (ACLTokenGetBySecret token) in
    match found with
    | None => mthrow ErrACLNotFound
    | Some t =>
        if decide (act_AuthMethod t = "") then mthrow ErrPermissionDenied
        else if negb (InACLDatacenter cfg) && negb (act_Local t) then mlift primary
        else
          let* resp := mwrap "Failed to apply token delete request: %v" (as_on_store (raftApply ext raft (ACLTokenDeleteRequestType [act_AccessorID t]))) in
          RemoveIdentity (act_SecretID t) ;;;
          mlift resp ;;;
          mreturn true
    end.
End server.
