(* ===== verification/StoreFacts.v ===== *)
(** * Runs of the primitive transaction operations

    What an insert, a delete and a loop of deletes do to a write transaction,
    for any table that obeys the laws of [TableLaws]. *)

From S2P Require Import Prelude Memdb ProxyConfig Structs ConnectTables AclTables ConfigEntries Delay TombstoneGC Store Logic MemdbFacts.

(** Reading back a table that was written. *)
Class TableLaws (A : Type) `{TableOf A} := {
  tbl_set : ∀ t d, tbl (set_tbl t d) = t;
  set_tbl_set : ∀ t t' d, set_tbl t (set_tbl t' d) = set_tbl t d;
  set_tbl_same : ∀ d, set_tbl (tbl d) d = d
}.
#[export] Instance kvs_laws : TableLaws DirEntry.
Proof. by split; intros; repeat destruct d. Qed.
#[export] Instance tombstones_laws : TableLaws Tombstone.
Proof. by split; intros; repeat destruct d. Qed.
#[export] Instance index_laws : TableLaws IndexEntry.
Proof. by split; intros; repeat destruct d. Qed.
#[export] Instance sessions_laws : TableLaws Session.
Proof. by split; intros; repeat destruct d. Qed.
#[export] Instance session_checks_laws : TableLaws sessionCheck.
Proof. by split; intros; repeat destruct d. Qed.
#[export] Instance nodes_laws : TableLaws Node.
Proof. by split; intros; repeat destruct d. Qed.
#[export] Instance services_laws : TableLaws ServiceNode.
Proof. by split; intros; repeat destruct d. Qed.
#[export] Instance checks_laws : TableLaws HealthCheck.
Proof. by split; intros; repeat destruct d. Qed.
#[export] Instance coordinates_laws : TableLaws Coordinate.
Proof. by split; intros; repeat destruct d. Qed.
#[export] Instance prepared_queries_laws : TableLaws PreparedQuery.
Proof. by split; intros; repeat destruct d. Qed.
#[export] Instance intentions_laws : TableLaws Intention.
Proof. by split; intros; repeat destruct d as [?????????? [] []]. Qed.
#[export] Instance ca_roots_laws : TableLaws CARoot.
Proof. by split; intros; repeat destruct d as [?????????? [] []]. Qed.
#[export] Instance ca_config_laws : TableLaws CAConfiguration.
Proof. by split; intros; repeat destruct d as [?????????? [] []]. Qed.
#[export] Instance ca_builtin_laws : TableLaws CAConsulProviderState.
Proof. by split; intros; repeat destruct d as [?????????? [] []]. Qed.
#[export] Instance autopilot_config_laws : TableLaws AutopilotConfig.
Proof. by split; intros; repeat destruct d as [?????????? [] []]. Qed.
#[export] Instance config_entries_laws : TableLaws ConfigEntry.
Proof. by split; intros; repeat destruct d as [?????????? [] []]. Qed.
#[export] Instance acl_tokens_laws : TableLaws ACLToken.
Proof. by split; intros; repeat destruct d as [?????????? [] []]. Qed.
#[export] Instance acl_policies_laws : TableLaws ACLPolicy.
Proof. by split; intros; repeat destruct d as [?????????? [] []]. Qed.
#[export] Instance acl_roles_laws : TableLaws ACLRole.
Proof. by split; intros; repeat destruct d as [?????????? [] []]. Qed.
#[export] Instance acl_binding_rules_laws : TableLaws ACLBindingRule.
Proof. by split; intros; repeat destruct d as [?????????? [] []]. Qed.
#[export] Instance acl_auth_methods_laws : TableLaws ACLAuthMethod.
Proof. by split; intros; repeat destruct d as [?????????? [] []]. Qed.

(** ** What the primitive writes do to a write transaction *)

Definition put {A} `{TableSchema A} `{TableOf A} (k : string) (x : A) (s : txn) : txn :=
  tx_set_db (set_tbl (<[k := x]> (tbl (tx_db s))) (tx_db s)) s.
Definition put_index (name : string) (idx : N) (s : txn) : txn :=
  put (string_args true name) (mkIndexEntry name idx) s.

Lemma tx_Insert_ok {A} `{TableSchema A} `{TableOf A} (x : A) k s :
  tx_write s = true → primary_key x = Some k → check_indexes table_indexes x = Ok tt →
  tx_Insert x s = (Ok tt, put k x s).
Proof. intros Hw Hk Hc. unfold tx_Insert. by rewrite Hw, (table_insert_ok _ _ k Hk Hc). Qed.

Lemma tx_Insert_inv {A} `{TableSchema A} `{TableOf A} (x : A) s :
  tx_write s = true →
  (∃ k, primary_key x = Some k ∧ check_indexes table_indexes x = Ok tt ∧ tx_Insert x s = (Ok tt, put k x s)) ∨
  (¬ indexable x ∧ ∃ e, tx_Insert x s = (Err e, s)).
Proof.
  intros Hw. unfold tx_Insert. rewrite Hw.
  destruct (table_insert_cases (tbl (tx_db s)) x) as [(k&Hk&Hc&->)|[Hn [e ->]]]; eauto 10.
Qed.

Lemma tx_Delete_ok {A} `{TableSchema A} `{TableOf A} (x : A) k s :
  tx_write s = true → primary_key x = Some k → is_Some (tbl (tx_db s) !! k) →
  tx_Delete x s = (Ok tt, tx_set_db (set_tbl (delete k (tbl (tx_db s))) (tx_db s)) s).
Proof. intros Hw Hk Hl. unfold tx_Delete. by rewrite Hw, (table_delete_ok _ _ k Hk Hl). Qed.

Lemma string_index_key lc x : x ≠ "" → string_index lc x = FoVals [string_args lc x].
Proof. intros Hx. unfold string_index. by rewrite decide_False. Qed.

Lemma uuid_index_key id b : uuid_parse id = Ok b → uuid_index id = FoVals [b].
Proof. intros H. unfold uuid_index. rewrite H. destruct (decide (id = "")) as [->|]; done. Qed.

Lemma index_insert_run name idx s :
  tx_write s = true → name ≠ "" → index_insert name idx s = (Ok tt, put_index name idx s).
Proof.
  intros Hw Hn. unfold index_insert, mwrap.
  by rewrite (tx_Insert_ok _ (string_args true name)); [|done| |];
    unfold primary_key; simpl; rewrite ?string_index_key.
Qed.

Lemma FirstUUID_ok_inv {A} `{TableSchema A} `{TableOf A} fmt id s (r : option A) :
  (mwrap fmt (tx_FirstUUID id) s).1 = Ok r → ∃ b, uuid_parse id = Ok b ∧ r = tbl (tx_db s) !! b.
Proof.
  unfold mwrap, tx_FirstUUID, mbind', mlift, owrap. destruct (uuid_parse id) as [b| |]; simpl; [|done..].
  intros [= <-]. eauto.
Qed.
(** What a search of a unique index says. *)
Lemma FirstUnique_spec {A} `{TableOf A} ix key s (r : option A) :
  (tx_FirstUnique ix key s).1 = Ok r →
  match r with
  | Some x => ∃ k, tbl (tx_db s) !! k = Some x ∧ key ∈ index_keys ix k x
  | None => ∀ k x, tbl (tx_db s) !! k = Some x → key ∉ index_keys ix k x
  end.
Proof.
  unfold tx_FirstUnique, mget. simpl. intros [= <-].
  destruct (filter _ _) as [|[k x] l] eqn:Hf; simpl.
  - intros k x Hk Hin. assert ((k, x) ∈ @nil (string * A)) as Hn; [|by apply elem_of_nil in Hn].
    rewrite <-Hf. apply list_elem_of_filter. split; [by rewrite bool_decide_true|by apply elem_of_map_to_list].
  - assert ((k, x) ∈ (k, x) :: l) as Hn by left. rewrite <-Hf in Hn.
    apply list_elem_of_filter in Hn as [Hk Hin%elem_of_map_to_list]. exists k. split; [done|].
    by apply bool_decide_unpack in Hk.
Qed.

(** ** A loop that deletes stored objects *)

Section delete_loop.
Context {A : Type} `{TableSchema A} `{TableLaws A} `{EqDecision A}.

(** The objects of [l] are gone. *)
Definition without (l : list A) (t : gmap string A) : gmap string A := filter (λ kx, kx.2 ∉ l) t.

Lemma lookup_without l t k :
  without l t !! k = match t !! k with Some x => if decide (x ∈ l) then None else Some x | None => None end.
Proof.
  unfold without. destruct (t !! k) as [x|] eqn:Hk.
  - case_decide.
    + apply map_lookup_filter_None. right. intros y ?. simplify_eq. simpl. tauto.
    + by apply map_lookup_filter_Some.
  - apply map_lookup_filter_None. by left.
Qed.

Lemma without_nil t : without [] t = t.
Proof.
  apply map_eq. intros k. rewrite lookup_without. destruct (t !! k); [|done].
  rewrite decide_False; [done|]. by intros ?%elem_of_nil.
Qed.

Lemma without_forall (P : string → A → Prop) l t : map_Forall P t → map_Forall P (without l t).
Proof. intros Hp k x [Hx _]%map_lookup_filter_Some. by apply Hp. Qed.

(** Every object of [l] is stored in [t]. *)
Definition stored (l : list A) (t : gmap string A) : Prop :=
  ∀ x, x ∈ l → ∃ k, primary_key x = Some k ∧ t !! k = Some x.

Lemma without_cons x k l t :
  keyed t → primary_key x = Some k → x ∉ l → without l (delete k t) = without (x :: l) t ∨ t !! k ≠ Some x.
Proof.
  intros Ht Hk Hx. destruct (decide (t !! k = Some x)) as [Hkx|]; [left|by right].
  apply map_eq. intros k'. rewrite !lookup_without. destruct (decide (k' = k)) as [->|Hne].
  - rewrite lookup_delete_eq, Hkx. by rewrite decide_True by left.
  - rewrite lookup_delete_ne by done. destruct (t !! k') as [y|] eqn:Hy; [|done].
    assert (y ≠ x) as Hyx by (intros ->; apply Ht in Hy; congruence).
    destruct (decide (y ∈ l)); [by rewrite decide_True by (by right)|].
    rewrite decide_False; [done|]. by intros [->|]%elem_of_cons.
Qed.

Lemma stored_tail x k l t :
  x ∉ l → primary_key x = Some k → stored (x :: l) t → stored l (delete k t).
Proof.
  intros Hx Hk Hst y Hy. destruct (Hst y) as (k'&?&?); [by right|]. exists k'. split; [done|].
  destruct (Hst x) as (k''&?&?); [by left|]. simplify_eq.
  rewrite lookup_delete_ne; [done|]. intros ->. by simplify_eq.
Qed.

Lemma delete_loop_run fmt l s :
  tx_write s = true → NoDup l → keyed (tbl (tx_db s)) → stored l (tbl (tx_db s)) →
  (for x in l do mwrap fmt (tx_Delete x)) s =
    (Ok tt, tx_set_db (set_tbl (without l (tbl (tx_db s))) (tx_db s)) s).
Proof.
  revert s. induction l as [|x l IH]; intros s Hw Hnd Hk Hst.
  - simpl. unfold mreturn. assert (without [] (tbl (tx_db s)) = tbl (tx_db s)) as ->.
    { apply map_eq. intros k. rewrite lookup_without. destruct (_ !! k); [|done].
      rewrite decide_False; [done|]. by intros ?%elem_of_nil. }
    rewrite set_tbl_same. by destruct s.
  - inversion Hnd as [|?? Hx Hnd']; subst. destruct (Hst x) as (k&Hkx&Hlx); [left|].
    simpl. erewrite run_bind_ok by (apply run_wrap_ok; apply tx_Delete_ok; eauto).
    rewrite IH; simpl; rewrite ?tbl_set, ?set_tbl_set; try done.
    + destruct (without_cons x k l _ Hk Hkx Hx) as [->|]; done.
    + by apply keyed_delete.
    + by eapply stored_tail.
Qed.
End delete_loop.

(** ** Frames *)

(** The tables a KV command never touches. *)
Definition kv_frame (d d' : db) : Prop :=
  sessions d' = sessions d ∧ session_checks d' = session_checks d ∧ nodes d' = nodes d ∧
  services d' = services d ∧ checks d' = checks d ∧ coordinates d' = coordinates d ∧
  prepared_queries d' = prepared_queries d.
Lemma kv_frame_refl d : kv_frame d d.
Proof. done. Qed.
#[export] Hint Resolve kv_frame_refl : memdb.
Lemma kv_frame_trans d1 d2 d3 : kv_frame d1 d2 → kv_frame d2 d3 → kv_frame d1 d3.
Proof. intros (?&?&?&?&?&?&?) (?&?&?&?&?&?&?). repeat split; congruence. Qed.
