(* ===== verification/ConfigFacts.v ===== *)
(** * Reading the entries of a chain

    The work lists of [readDiscoveryChainConfigEntriesTxn] collect the services
    reachable from their first names, whatever key is taken first: what is
    read, and so the verdict of a validation, does not depend on the order of
    maps. *)

From S2P Require Import Prelude Memdb ProxyConfig Structs ConnectTables AclTables ConfigEntries DiscoveryChain DiscoveryLoops DiscoveryFacts Delay TombstoneGC Store ConfigState Logic MemdbFacts StoreFacts.

(** Two outcomes that differ at most in the text of an error. *)
Definition same_outcome {A} (o1 o2 : outcome A) : Prop :=
  o1 = o2 ∨ ∃ e1 e2, o1 = Err e1 ∧ o2 = Err e2.

Lemma size_without (X : gset string) x : x ∈ X → size X = S (size (X ∖ {[x]})).
Proof.
  intros Hx. rewrite size_difference by set_solver. rewrite size_singleton.
  assert (size X ≠ 0); [|lia]. intros Hz%size_empty_inv. set_solver.
Qed.
Lemma in_without (X Y : gset string) x b : b ∈ X ∪ Y → b = x ∨ b ∈ (X ∖ {[x]}) ∪ Y.
Proof. destruct (decide (b = x)); set_solver. Qed.

(** ** The work list *)

Section drain.
Context {A : Type} (f : string → outcome (option A)) (related : A → list string).

(** The names that the work list meets. *)
Definition leads (a b : string) : Prop := ∃ e, f a = Ok (Some e) ∧ b ∈ related e.
Definition wanted (todo : gset string) (n : string) : Prop := ∃ m, m ∈ todo ∧ rtc leads m n.

(** What it returns: each wanted name with what was fetched for it, or the
    error of one of them. *)
Definition drained (todo : gset string) (o : outcome (gmap string (option A))) : Prop :=
  match o with
  | Ok m => (∀ n, wanted todo n → is_ok (f n)) ∧
      ∀ n x, m !! n = Some x ↔ wanted todo n ∧ f n = Ok x
  | Err e => ∃ n, wanted todo n ∧ ¬ is_ok (f n)
  | Panic _ => False
  end.
Lemma drained_same todo o1 o2 : drained todo o1 → drained todo o2 → same_outcome o1 o2.
Proof.
  destruct o1 as [m1|e1|], o2 as [m2|e2|]; simpl; try done.
  - intros [_ H1] [_ H2]. left. f_equal. apply map_eq. intros n. apply option_eq. intros x. by rewrite H1, H2.
  - intros [H1 _] (n&Hn&Hx). by destruct (Hx (H1 n Hn)).
  - intros (n&Hn&Hx) [H2 _]. by destruct (Hx (H2 n Hn)).
  - intros _ _. right. eauto.
Qed.

(** From the first names. *)
Lemma wanted_in (U todo : gset string) n :
  todo ⊆ U → (∀ a b, leads a b → b ∈ U) → wanted todo n → n ∈ U.
Proof using Type.
  intros Ht HU (m&Hm&Hr). apply Ht in Hm. induction Hr as [|a b c Hab _ IH]; [done|]. by eapply IH, HU.
Qed.

Context `{CompilerEnvLaws}.
Lemma anyKey_spec n (m : gset string) :
  match anyKey n m with Some k => k ∈ m | None => m = ∅ end.
Proof.
  unfold anyKey. pose proof (range_order_perm n (elements m)) as Hp.
  destruct (range_order n (elements m)) as [|k l]; simpl.
  - by apply Permutation_nil, elements_empty_inv, leibniz_equiv in Hp.
  - rewrite <-elem_of_elements, <-Hp. left.
Qed.

Context (s : txn) (fetch : string → Tx (N * option A)) (ix : string → N).
Context (Hfetch : ∀ n, fetch n s = (obind (f n) (λ x, Ok (ix n, x)), s)).
Context (Hpanic : ∀ n w, f n ≠ Panic w).
Context (U : gset string) (todo0 : gset string) (HU : ∀ n, wanted todo0 n → n ∈ U).

Record draining (todo : gset string) (fetched : gmap string (option A)) : Prop := {
  dr_wanted : ∀ n, n ∈ todo ∪ dom fetched → wanted todo0 n;
  dr_fetched : ∀ n x, fetched !! n = Some x → f n = Ok x;
  dr_closed : ∀ n e b, fetched !! n = Some (Some e) → b ∈ related e → b ∈ todo ∪ dom fetched;
  dr_start : todo0 ⊆ todo ∪ dom fetched
}.

Lemma draining_done fetched : draining ∅ fetched → drained todo0 (Ok fetched).
Proof using Type.
  intros [Hw Hf Hc Hs]. rewrite union_empty_l_L in *.
  assert (∀ n, wanted todo0 n → n ∈ dom fetched) as Hall.
  { intros n (m&Hm&Hr). apply Hs in Hm. induction Hr as [|a b c (e&Ha&Hb) _ IH]; [done|]. apply IH.
    apply elem_of_dom in Hm as [x Hx]. pose proof (Hf a x Hx) as Hj. rewrite Ha in Hj. injection Hj as <-.
    exact (Hc a e b Hx Hb). }
  split.
  - intros n Hn. apply Hall, elem_of_dom in Hn as [x Hx]. by rewrite (Hf n x Hx).
  - intros n x. split.
    + intros Hx. split; [|by apply Hf]. apply Hw. by eapply elem_of_dom_2.
    + intros [Hn Hi]. apply Hall, elem_of_dom in Hn as [y Hy]. pose proof (Hf n y Hy). congruence.
Qed.

Lemma drain_spec fuel todo fetched :
  draining todo fetched → size (U ∖ dom fetched) * S (size U) + size todo < fuel →
  ∃ o, drain fuel fetch related todo fetched s = (o, s) ∧ drained todo0 o.
Proof using Type*.
  revert todo fetched. induction fuel as [|fuel IH]; intros todo fetched HI Hfuel; [lia|]. simpl.
  pose proof (anyKey_spec fuel todo) as Hk. destruct (anyKey fuel todo) as [name|].
  2: { subst todo. exists (Ok fetched). split; [done|]. by apply draining_done. }
  pose proof (size_without todo name Hk) as Hsize.
  assert (wanted todo0 name) as Hwn by (apply (dr_wanted _ _ HI), elem_of_union_l, Hk).
  case_decide as Hdone.
  - apply IH; [|lia]. apply elem_of_dom in Hdone. destruct HI as [Hw Hf Hc Hs].
    assert (∀ b, b ∈ todo ∪ dom fetched → b ∈ (todo ∖ {[name]}) ∪ dom fetched) as Hkeep.
    { intros b [->|?]%(in_without _ _ name); [by apply elem_of_union_r|done]. }
    split; [|done|by eauto|intros b Hb; by apply Hkeep, Hs].
    intros n [[? _]%elem_of_difference|?]%elem_of_union; apply Hw; [by apply elem_of_union_l|by apply elem_of_union_r].
  - unfold mbind'. rewrite Hfetch. destruct (f name) as [entry|e|w] eqn:Hfn; simpl.
    2: { exists (Err e). split; [done|]. exists name. split; [done|]. rewrite Hfn. by intros []. }
    2: { by destruct (Hpanic name w). }
    assert (name ∉ dom fetched) as Hnd by (by rewrite elem_of_dom).
    set (next := match entry with Some e => list_to_set (related e) | None => ∅ end : gset string).
    assert (∀ b, b ∈ next → wanted todo0 b) as Hnext.
    { intros b Hb. unfold next in Hb. destruct entry as [e|]; [|by apply not_elem_of_empty in Hb]. apply elem_of_list_to_set in Hb.
      destruct Hwn as (m&Hm&Hr). exists m. split; [done|]. eapply rtc_r; [done|]. by exists e. }
    apply IH.
    + destruct HI as [Hw Hf Hc Hs].
      assert (∀ b, b ∈ todo ∪ dom fetched → b ∈ (next ∪ todo ∖ {[name]}) ∪ ({[name]} ∪ dom fetched)) as Hkeep.
      { intros b [->|Hb]%(in_without _ _ name); [apply elem_of_union_r, elem_of_union_l, elem_of_singleton; done|].
        apply elem_of_union in Hb as [Hb|Hb]; [by apply elem_of_union_l, elem_of_union_r|by do 2 apply elem_of_union_r]. }
      split; rewrite ?dom_insert_L.
      * intros n [[Hn|[Hn _]%elem_of_difference]%elem_of_union|[->%elem_of_singleton|Hn]%elem_of_union]%elem_of_union;
          [by apply Hnext| |done|]; apply Hw; [by apply elem_of_union_l|by apply elem_of_union_r].
      * intros n x. rewrite lookup_insert. case_decide; [by intros [= <-]; subst|apply Hf].
      * intros n e b. rewrite lookup_insert. case_decide as Hne; [|intros Hn Hb; by eapply Hkeep, Hc].
        intros [= ->] Hb. apply elem_of_union_l, elem_of_union_l. by apply elem_of_list_to_set.
      * intros b Hb. by apply Hkeep, Hs.
    + rewrite dom_insert_L.
      assert (name ∈ U) as HnU by by apply HU.
      assert (size (U ∖ dom fetched) = S (size (U ∖ ({[name]} ∪ dom fetched)))) as Hsz.
      { rewrite (union_comm_L {[name]}), <-difference_difference_l_L. apply size_without.
        by apply elem_of_difference. }
      assert (size (next ∪ todo ∖ {[name]}) ≤ size U); [|rewrite Hsz, Nat.mul_succ_l in Hfuel; lia].
      apply subseteq_size. intros b [Hb|[Hb _]%elem_of_difference]%elem_of_union; apply HU; [by apply Hnext|].
      by apply (dr_wanted _ _ HI), elem_of_union_l.
Qed.
End drain.

(** Only what is fetched for the names it can meet matters. *)
Section drained_on.
Context {A : Type} (U : string → Prop) (related : A → list string).
Definition agree_on (f1 f2 : string → outcome (option A)) : Prop :=
  (∀ n, U n → f1 n = f2 n) ∧ (∀ n e b, U n → f1 n = Ok (Some e) → b ∈ related e → U b).
Lemma agree_sym f1 f2 : agree_on f1 f2 → agree_on f2 f1.
Proof. intros [H1 H2]. split; [intros n Hn; by rewrite H1|]. intros n e b Hn. rewrite <-H1 by done. by apply H2. Qed.
Lemma wanted_on f1 f2 todo n :
  agree_on f1 f2 → (∀ m, m ∈ todo → U m) → wanted f1 related todo n → wanted f2 related todo n ∧ U n.
Proof.
  intros [Hf Hu] Ht (m&Hm&Hr).
  enough (rtc (leads f2 related) m n ∧ U n) as [? ?] by (split; [by exists m|done]).
  apply Ht in Hm as Um. clear Hm. induction Hr as [a|a b c (e&Ha&Hb) _ IH]; [done|].
  destruct IH as [IH1 IH2]; [by eapply Hu|]. split; [|done]. eapply rtc_l; [|exact IH1].
  exists e. by rewrite <-Hf.
Qed.
Lemma drained_on f1 f2 todo o :
  agree_on f1 f2 → (∀ m, m ∈ todo → U m) → drained f1 related todo o →
  drained f2 related todo o ∧ (∀ m n, o = Ok m → n ∈ dom m → U n).
Proof.
  intros Hag Ht Hd.
  assert (∀ n, wanted f1 related todo n ↔ wanted f2 related todo n) as Hw.
  { intros n. split; intros Hn; [by apply (wanted_on f1)|by apply (wanted_on f2); [apply agree_sym| |]]. }
  assert (∀ n, wanted f1 related todo n → f1 n = f2 n) as Hf.
  { intros n Hn. apply Hag. by apply (wanted_on f1 f2 todo). }
  destruct o as [m|e|w]; simpl in *; [|split; [|done]|done].
  - destruct Hd as [H1 H2]. split; [split|].
    + intros n Hn%Hw. rewrite <-Hf by done. by apply H1.
    + intros n x. rewrite H2. split; intros [Hn%Hw Hx]; (split; [done|]); [rewrite <-Hf by by apply Hw|rewrite Hf by done]; done.
    + intros m' n [= <-] [x [Hn _]%H2]%elem_of_dom. by apply (wanted_on f1 f2 todo).
  - destruct Hd as (n&Hn&He). exists n. rewrite <-Hw, <-Hf by done. done.
Qed.
End drained_on.

(** ** The entries of a chain *)

(** What the lookups of a chain see. *)
Definition seen (d : db) (overrides : overrides_map) (kind name : string) : option ConfigEntry :=
  match overrides !! (kind, name) with
  | Some entry => entry
  | None => config_entries (connect d) !! config_key kind name
  end.
Definition assert_kind {A} (cast : ConfigEntry → option A) (entry : option ConfigEntry) : outcome (option A) :=
  match entry with
  | None => Ok None
  | Some c => match cast c with
              | Some e => Ok (Some e)
              | None => Err (EMsg "invalid service config type %T" [go_type c])
              end
  end.
Definition seen_index (d : db) (overrides : overrides_map) (kind name : string) : N :=
  match overrides !! (kind, name) with Some _ => 0%N | None => maxIndex_db d ["config-entries"] end.

Lemma get_entry_run {A} kind (cast : ConfigEntry → option A) name o s :
  get_entry kind cast name o s =
  (obind (assert_kind cast (seen (tx_db s) o kind name)) (λ x, Ok (seen_index (tx_db s) o kind name, x)), s).
Proof.
  unfold get_entry, configEntryWithOverridesTxn, configEntryTxn, seen, seen_index, mbind', maxIndexTxn, tx_First, mget.
  destruct (o !! (kind, name)) as [[c|]|]; simpl; [by destruct (cast c)|done|].
  destruct (config_entries _ !! _) as [c|]; simpl; [by destruct (cast c)|done].
Qed.
Lemma assert_kind_no_panic {A} (cast : ConfigEntry → option A) c w : assert_kind cast c ≠ Panic w.
Proof. unfold assert_kind. destruct c as [c|]; [|done]. by destruct (cast c). Qed.

Lemma related_seen d o name kind n c b :
  seen d o kind n = Some c → b ∈ related_names c → b ∈ chain_names d name o.
Proof.
  unfold seen, chain_names. intros Hc Hb. apply elem_of_cons. right. apply elem_of_app.
  destruct (o !! (kind, n)) as [entry|] eqn:Ho; [subst entry; right|left]; apply list_elem_of_bind; exists c; (split; [done|]).
  - apply list_elem_of_omap. exists (Some c). split; [|done]. apply list_elem_of_fmap.
    exists ((kind, n), Some c). split; [done|]. by apply elem_of_map_to_list.
  - apply list_elem_of_fmap. exists (config_key kind n, c). split; [done|]. by apply elem_of_map_to_list.
Qed.

(** The result of one loop. *)
Section one_loop.
Context `{CompilerEnvLaws} (s : txn) (o : overrides_map) (name : string).
Abbreviation names := (chain_names (tx_db s) name o).
Lemma loop_spec {A} kind (cast : ConfigEntry → option A) related (todo : gset string) :
  (∀ c e, cast c = Some e → related e ⊆ related_names c) → todo ⊆ list_to_set names →
  ∃ r, drain (drain_fuel names) (λ n, get_entry kind cast n o) related todo ∅ s = (r, s) ∧
    drained (λ n, assert_kind cast (seen (tx_db s) o kind n)) related todo r ∧
    (∀ m, r = Ok m → dom m ⊆ list_to_set names).
Proof.
  intros Hrel Htodo.
  assert (∀ n, wanted (λ n, assert_kind cast (seen (tx_db s) o kind n)) related todo n → n ∈ (list_to_set names : gset string)) as HU.
  { intros n. apply wanted_in; [done|]. intros a b (e&Ha&Hb). apply elem_of_list_to_set.
    destruct (seen (tx_db s) o kind a) as [c|] eqn:Hc; [|done]. simpl in Ha. destruct (cast c) as [e'|] eqn:He; simplify_eq.
    eapply related_seen; [done|]. by eapply Hrel. }
  destruct (drain_spec (λ n, assert_kind cast (seen (tx_db s) o kind n)) related s (λ n, get_entry kind cast n o)
    (λ n, seen_index (tx_db s) o kind n) (λ n, get_entry_run kind cast n o s)
    (λ n w, assert_kind_no_panic cast _ w) (list_to_set names) todo HU (drain_fuel names) todo ∅) as (r&Hr&Hd).
  - split; rewrite ?dom_empty_L, ?union_empty_r_L; [|done|done|done]. intros n Hn. exists n. by split.
  - rewrite dom_empty_L, difference_empty_L. unfold drain_fuel.
    assert (size (list_to_set names : gset string) ≤ length names) as Hs by apply size_list_to_set_le.
    assert (size todo ≤ size (list_to_set names : gset string)) by by apply subseteq_size. nia.
  - exists r. split; [done|]. split; [done|]. intros m -> n [x Hx]%elem_of_dom. apply HU.
    destruct Hd as [_ Hd]. by apply Hd in Hx as [? _].
Qed.
End one_loop.

(** ** What a chain reads *)

#[local] Opaque drain.

Definition failed {A} (o : outcome A) : Prop := ∃ e, o = Err e.
Lemma failed_same {A} (o1 o2 : outcome A) : failed o1 → failed o2 → same_outcome o1 o2.
Proof. intros [e1 ->] [e2 ->]. right. eauto. Qed.

Definition todo_splitters (name : string) (router : option ServiceRouterConfigEntry) : gset string :=
  match router with
  | Some router => list_to_set (Router_ListRelatedServices router)
  | None => {[name]}
  end.
(** From the entries [g] that the lookups see, the entries of the chain of
    [name]. *)
Definition chain_read (g : string → string → option ConfigEntry) (name : string)
    (o : outcome DiscoveryChainConfigEntries) : Prop :=
  match assert_kind as_proxy (g ProxyDefaults ProxyConfigGlobal), assert_kind as_router (g ServiceRouter name) with
  | Ok proxy, Ok router => ∃ o1,
      drained (λ n, assert_kind as_splitter (g ServiceSplitter n)) Splitter_ListRelatedServices
        (todo_splitters name router) o1 ∧
      match o1 with
      | Ok splitters => ∃ o2,
          drained (λ n, assert_kind as_resolver (g ServiceResolver n)) Resolver_ListRelatedServices (dom splitters) o2 ∧
          match o2 with
          | Ok resolvers => ∃ o3,
              drained (λ n, assert_kind as_service (g ServiceDefaults n)) (λ _, [])
                ({[name]} ∪ dom splitters ∪ dom resolvers) o3 ∧
              match o3 with
              | Ok services =>
                  o = Ok (mkEntries (match router with Some router => {[name := router]} | None => ∅ end)
                            (omap id splitters) (omap id resolvers) (omap id services) proxy)
              | _ => failed o
              end
          | _ => failed o
          end
      | _ => failed o
      end
  | _, _ => failed o
  end.

Lemma chain_read_same g name o1 o2 : chain_read g name o1 → chain_read g name o2 → same_outcome o1 o2.
Proof.
  unfold chain_read. destruct (assert_kind as_proxy _) as [proxy| |]; [|by apply failed_same..].
  destruct (assert_kind as_router _) as [router| |]; [|by apply failed_same..].
  intros (a1&Ha1&H1) (b1&Hb1&H2). destruct (drained_same _ _ _ _ _ Ha1 Hb1) as [<-|(e1&e2&->&->)]; [|by apply failed_same].
  destruct a1 as [splitters| |]; [|by apply failed_same..].
  destruct H1 as (a2&Ha2&H1), H2 as (b2&Hb2&H2).
  destruct (drained_same _ _ _ _ _ Ha2 Hb2) as [<-|(e1&e2&->&->)]; [|by apply failed_same].
  destruct a2 as [resolvers| |]; [|by apply failed_same..].
  destruct H1 as (a3&Ha3&H1), H2 as (b3&Hb3&H2).
  destruct (drained_same _ _ _ _ _ Ha3 Hb3) as [<-|(e1&e2&->&->)]; [|by apply failed_same].
  destruct a3 as [services| |]; [|by apply failed_same..]. left. congruence.
Qed.
(** Two tables that agree on the names a chain can meet. *)
Record agree_chain (U : string → Prop) (g1 g2 : string → string → option ConfigEntry) : Prop := {
  ag_global : U ProxyConfigGlobal;
  ag_same : ∀ k n, ValidateConfigEntryKind k = true → U n → g1 k n = g2 k n;
  ag_closed : ∀ k n c b, ValidateConfigEntryKind k = true → U n → g1 k n = Some c → b ∈ related_names c → U b
}.
Lemma chain_read_on U g1 g2 name o :
  agree_chain U g1 g2 → U name → chain_read g1 name o → chain_read g2 name o.
Proof.
  intros [Hglobal Hg Hu] Hname.
  assert (∀ A kind (cast : ConfigEntry → option A) rel (todo : gset string) r,
    ValidateConfigEntryKind kind = true → (∀ c e, cast c = Some e → rel e ⊆ related_names c) → (∀ m, m ∈ todo → U m) →
    drained (λ n, assert_kind cast (g1 kind n)) rel todo r →
    drained (λ n, assert_kind cast (g2 kind n)) rel todo r ∧ (∀ m n, r = Ok m → n ∈ dom m → U n)) as Hd.
  { intros A kind cast rel todo r Hk Hrel Ht. apply drained_on; [|done]. split; [intros n Hn; by rewrite Hg|].
    intros n e b Hn He Hb. destruct (g1 kind n) as [c|] eqn:Hc; [|done]. simpl in He.
    destruct (cast c) as [e'|] eqn:Hcast; simplify_eq. eapply Hu; [done|exact Hn|exact Hc|]. by eapply Hrel. }
  unfold chain_read. rewrite <-(Hg ProxyDefaults _ eq_refl Hglobal), <-(Hg ServiceRouter _ eq_refl Hname).
  destruct (assert_kind as_proxy _) as [proxy| |]; [|done..].
  destruct (assert_kind as_router _) as [router| |] eqn:Hrouter; [|done..].
  assert (∀ m, m ∈ todo_splitters name router → U m) as Htodo.
  { destruct router as [r|]; simpl; [|by intros m ->%elem_of_singleton]. intros m Hm%elem_of_list_to_set.
    destruct (g1 ServiceRouter name) as [c|] eqn:Hc; [|done].
    eapply (Hu ServiceRouter); [done|exact Hname|exact Hc|]. by destruct c; simplify_eq/=. }
  intros (a1&Ha1&H1). destruct (Hd _ ServiceSplitter as_splitter Splitter_ListRelatedServices _ _ eq_refl
    ltac:(by intros [] ?; simpl; intros; simplify_eq) Htodo Ha1) as [Hb1 Hu1].
  exists a1. split; [done|]. destruct a1 as [splitters| |]; [|done..].
  destruct H1 as (a2&Ha2&H1). destruct (Hd _ ServiceResolver as_resolver Resolver_ListRelatedServices _ _ eq_refl
    ltac:(by intros [] ?; simpl; intros; simplify_eq) (λ m, Hu1 splitters m eq_refl) Ha2) as [Hb2 Hu2].
  exists a2. split; [done|]. destruct a2 as [resolvers| |]; [|done..].
  destruct H1 as (a3&Ha3&H1). exists a3. split; [|done].
  apply (Hd _ ServiceDefaults as_service (λ _, []) ({[name]} ∪ dom splitters ∪ dom resolvers) _ eq_refl);
    [by intros c e _ x ?%not_elem_of_nil| |done].
  intros m [[->%elem_of_singleton|Hm]%elem_of_union|Hm]%elem_of_union; [done|by eapply Hu1|by eapply Hu2].
Qed.

Section read.
Context `{CompilerEnvLaws} (s : txn) (o : overrides_map) (name : string).
Abbreviation names := (chain_names (tx_db s) name o).

(** The read returns what [chain_read] says, and only reads. *)
Theorem read_chain : ∃ r, readDiscoveryChainConfigEntriesTxn name o s = (r, s) ∧
  chain_read (seen (tx_db s) o) name (obind r (λ p, Ok p.2)).
Proof.
  unfold readDiscoveryChainConfigEntriesTxn, getProxyConfigEntryTxn, getRouterConfigEntryTxn.
  unfold mbind' at 1. rewrite get_entry_run. unfold chain_read.
  destruct (assert_kind as_proxy _) as [proxy|e|w] eqn:Hp; simpl;
    [|eexists; split; [done|by eexists]|by apply assert_kind_no_panic in Hp].
  unfold mbind' at 1. rewrite get_entry_run.
  destruct (assert_kind as_router _) as [router|e|w] eqn:Hr; simpl;
    [|eexists; split; [done|by eexists]|by apply assert_kind_no_panic in Hr].
  assert (todo_splitters name router ⊆ list_to_set names) as Htodo.
  { intros n Hn. apply elem_of_list_to_set. destruct router as [router|]; simpl in Hn.
    - apply elem_of_list_to_set in Hn. destruct (seen (tx_db s) o ServiceRouter name) as [c|] eqn:Hc; [|done].
      eapply related_seen; [done|]. unfold assert_kind in Hr. by destruct c; simplify_eq/=.
    - apply elem_of_singleton in Hn as ->. by apply elem_of_cons; left. }
  destruct (loop_spec s o name ServiceSplitter as_splitter Splitter_ListRelatedServices (todo_splitters name router))
    as (r1&Hr1&Hd1&Hdom1); [by intros [] ?; simpl; intros; simplify_eq|done|].
  unfold todo_splitters in Hr1. rewrite (run_bind_ok (mget _) _ s _ s eq_refl).
  unfold getSplitterConfigEntryTxn. unfold mbind' at 1. rewrite Hr1.
  destruct r1 as [splitters|e|w]; [|eexists; split; [done|]; eexists; split; [done|by eexists]|done].
  destruct (loop_spec s o name ServiceResolver as_resolver Resolver_ListRelatedServices (dom splitters))
    as (r2&Hr2&Hd2&Hdom2); [by intros [] ?; simpl; intros; simplify_eq|by apply Hdom1|].
  unfold getResolverConfigEntryTxn. unfold mbind' at 1. rewrite Hr2.
  destruct r2 as [resolvers|e|w];
    [|eexists; split; [done|]; eexists; split; [done|]; simpl; eexists; split; [done|by eexists]|done].
  destruct (loop_spec s o name ServiceDefaults as_service (λ _, []) ({[name]} ∪ dom splitters ∪ dom resolvers))
    as (r3&Hr3&Hd3&_); [by intros c e _ x ?%not_elem_of_nil| |].
  { intros n [[->%elem_of_singleton|Hn]%elem_of_union|Hn]%elem_of_union; [|by eapply Hdom1|by eapply Hdom2].
    apply elem_of_list_to_set, elem_of_cons. by left. }
  unfold getServiceConfigEntryTxn. unfold mbind' at 1. rewrite Hr3.
  destruct r3 as [services|e|w]; [| |done];
    (eexists; split; [done|]; eexists; split; [done|]; simpl; eexists; split; [done|]; simpl; eexists; split; [done|]);
    simpl; [done|by eexists].
Qed.
End read.

(** ** Validation *)

Lemma for_pure {S A} (body : A → M S unit) (t : A → outcome unit) l s :
  (∀ x, x ∈ l → body x s = (t x, s)) → ∃ r, mfor l body s = (r, s) ∧
    match r with
    | Ok _ => ∀ x, x ∈ l → t x = Ok tt
    | Err _ => ∃ x, x ∈ l ∧ failed (t x)
    | Panic w => ∃ x, x ∈ l ∧ t x = Panic w
    end.
Proof.
  induction l as [|x l IH]; intros Hb; simpl.
  { exists (Ok tt). split; [done|]. by intros x ?%not_elem_of_nil. }
  unfold mbind'. rewrite Hb by left. destruct (t x) as [[]|e|w] eqn:Hx.
  - destruct IH as (r&->&Hr); [intros y Hy; apply Hb; by right|]. exists r. split; [done|].
    destruct r as [|e|w]; [intros y [->|Hy]%elem_of_cons; [done|by apply Hr]| |];
      destruct Hr as (y&Hy&Hr); exists y; (split; [by right|done]).
  - eexists. split; [done|]. exists x. split; [by left|by eexists].
  - eexists. split; [done|]. exists x. split; [by left|done].
Qed.

Section verdicts.
Context `{CompilerEnvLaws}.

(** The verdict on the chain of [name], given what was read. *)
Definition chain_verdict (name : string) (r : outcome DiscoveryChainConfigEntries) : outcome unit :=
  obind r (λ entries, verdict (Compile (test_request name entries))).
Lemma test_run name o s : ∃ r, chain_read (seen (tx_db s) o) name r ∧
  testCompileDiscoveryChain name o s = (chain_verdict name r, s).
Proof.
  destruct (read_chain s o name) as (r&Hr&Hc). eexists. split; [exact Hc|].
  unfold testCompileDiscoveryChain, mbind', chain_verdict, mlift, verdict. rewrite Hr.
  destruct r as [[i entries]|e|w]; simpl; [|done|done]. by destruct (Compile _).
Qed.
Definition kind_entries (d : db) (kind : string) : list ConfigEntry :=
  if decide (kind ≠ "") then table_scan config_kind_index (string_args true kind) (config_entries (connect d))
  else table_prefix "" (config_entries (connect d)).
Lemma kind_entries_run kind s :
  (let* (_, entries) := configEntriesByKindTxn kind in mreturn entries) s = (Ok (kind_entries (tx_db s) kind), s).
Proof.
  unfold configEntriesByKindTxn, kind_entries, mbind', maxIndexTxn, mget. by destruct (decide (kind ≠ "")).
Qed.
Lemma check_chains_run name all s : ∃ l, check_chains name all s = (Ok l, s).
Proof.
  unfold check_chains. destruct all; [|by eexists]. eexists.
  by rewrite (run_bind_ok _ _ _ _ _ (mmap_reads _ _ _ _ (λ kind _, kind_entries_run kind s))).
Qed.

(** Validation only reads, and accepts exactly when every chain it checks
    compiles with the proposed entry in place. *)
Lemma validate_graph_run kind name next all s l :
  check_chains name all s = (Ok l, s) →
  ∃ r, validateProposedConfigEntryInServiceGraph kind name next all s = (r, s) ∧
    let test n t := ∃ c, chain_read (seen (tx_db s) {[(kind, name) := next]}) n c ∧ t = chain_verdict n c in
    match r with
    | Ok _ => ∀ n, n ∈ l → test n (Ok tt)
    | Err _ => ∃ n t, n ∈ l ∧ test n t ∧ failed t
    | Panic w => ∃ n, n ∈ l ∧ test n (Panic w)
    end.
Proof.
  intros Hl. unfold validateProposedConfigEntryInServiceGraph. rewrite (run_bind_ok _ _ _ _ _ Hl).
  set (o := {[(kind, name) := next]}).
  assert (∀ n, n ∈ range_order 0 (remove_dups l) ↔ n ∈ l) as Hin.
  { intros n. by rewrite range_order_perm, elem_of_remove_dups. }
  destruct (for_pure (λ n, testCompileDiscoveryChain n o) (λ n, (testCompileDiscoveryChain n o s).1)
    (range_order 0 (remove_dups l)) s) as (r&Hr&Ht).
  { intros n _. by destruct (test_run n o s) as (c&_&->). }
  exists r. split; [done|]. destruct r as [[]|e|w].
  - intros n Hn. destruct (test_run n o s) as (c&Hc&Hrun). exists c. split; [done|].
    rewrite <-(Ht n) by by apply Hin. by rewrite Hrun.
  - destruct Ht as (n&Hn&Hf). destruct (test_run n o s) as (c&Hc&Hrun). rewrite Hrun in Hf.
    exists n, (chain_verdict n c). split; [by apply Hin|]. split; [by exists c|done].
  - destruct Ht as (n&Hn&Hf). destruct (test_run n o s) as (c&Hc&Hrun). rewrite Hrun in Hf.
    exists n. split; [by apply Hin|]. exists c. by split.
Qed.
End verdicts.

(** ** Two servers with orders of their own *)

(** Equal, or errors with different texts, unless one of them crashed. *)
Definition similar {A} (o1 o2 : outcome A) : Prop :=
  match o1, o2 with
  | Panic _, _ | _, Panic _ | Err _, Err _ => True
  | Ok a, Ok b => a = b
  | _, _ => False
  end.
Definition db_similar {A} (m1 m2 : Tx A) : Prop := ∀ s1 s2, same_tables s1 s2 →
  similar (m1 s1).1 (m2 s2).1 ∧
  (is_ok (m1 s1).1 → is_ok (m2 s2).1 → same_tables (m1 s1).2 (m2 s2).2).

Lemma similar_det {A} (m : Tx A) : db_det m → db_similar m m.
Proof.
  intros Hm s1 s2 Hs. destruct (Hm s1 s2 Hs) as [-> H2]. split; [|done]. by destruct (m s2).1.
Qed.
Lemma similar_bind {A B} (m1 m2 : Tx A) (k1 k2 : A → Tx B) :
  db_similar m1 m2 → (∀ a, db_similar (k1 a) (k2 a)) → db_similar (mbind' m1 k1) (mbind' m2 k2).
Proof.
  intros Hm Hk s1 s2 Hs. unfold mbind'. destruct (Hm s1 s2 Hs) as [H1 H2].
  destruct (m1 s1) as [[a| |] s1'], (m2 s2) as [[b| |] s2']; simpl in *; subst; try done.
  - by apply Hk, H2.
  - by destruct (k1 a s1') as [[]].
Qed.

Section orders.
Context (E : CompilerEnv) (o1 o2 : nat → list string → list string) (H1 : fair o1) (H2 : fair o2).
#[local] Instance order_laws1 : @CompilerEnvLaws (with_order E o1) := H1.
#[local] Instance order_laws2 : @CompilerEnvLaws (with_order E o2) := H2.

Lemma verdict_same g name c1 c2 :
  chain_read g name c1 → chain_read g name c2 →
  similar (@chain_verdict (with_order E o1) name c1) (@chain_verdict (with_order E o2) name c2) ∧
  (∀ w, @chain_verdict (with_order E o1) name c1 = Panic w → @chain_verdict (with_order E o2) name c2 = Panic w).
Proof using H1 H2.
  intros Hc1 Hc2. destruct (chain_read_same _ _ _ _ Hc1 Hc2) as [<-|(e1&e2&->&->)]; [|done].
  destruct c1 as [entries|e|w]; [|done|done]. simpl. rewrite (Compile_order E _ o1 o2 H1 H2).
  by destruct (verdict _).
Qed.
Lemma validate_similar kind name next :
  db_similar (@validateProposedConfigEntryInGraph (with_order E o1) kind name next)
             (@validateProposedConfigEntryInGraph (with_order E o2) kind name next).
Proof using H1 H2.
  unfold validateProposedConfigEntryInGraph.
  assert (∀ all, db_similar
    (@validateProposedConfigEntryInServiceGraph (with_order E o1) kind name next all)
    (@validateProposedConfigEntryInServiceGraph (with_order E o2) kind name next all)) as Hg.
  { intros all s1 s2 Hs. destruct (check_chains_run name all s1) as [l Hl1].
    assert (check_chains name all s2 = (Ok l, s2)) as Hl2.
    { destruct (check_chains_run name all s2) as [l2 Hl2].
      assert (db_det (check_chains name all)) as Hd by (unfold check_chains, configEntriesByKindTxn; det_tac).
      destruct (Hd s1 s2 Hs) as [Heq _]. rewrite Hl1, Hl2 in Heq. simpl in Heq. congruence. }
    destruct (@validate_graph_run (with_order E o1) _ kind name next all s1 l Hl1) as (r1&Hr1&Hv1).
    destruct (@validate_graph_run (with_order E o2) _ kind name next all s2 l Hl2) as (r2&Hr2&Hv2).
    rewrite Hr1, Hr2. split; [|done]. destruct Hs as [Hdb _]. rewrite <-Hdb in Hv2. simpl in *.
    destruct r1 as [[]|e1|w1], r2 as [[]|e2|w2]; try done.
    - destruct Hv2 as (n&t&Hn&(c2&Hc2&Ht)&[e He]). destruct (Hv1 n Hn) as (c1&Hc1&Ht1).
      destruct (verdict_same _ _ _ _ Hc1 Hc2) as [Hsim _]. by rewrite <-Ht1, <-Ht, He in Hsim.
    - destruct Hv1 as (n&t&Hn&(c1&Hc1&Ht)&[e He]). destruct (Hv2 n Hn) as (c2&Hc2&Ht2).
      destruct (verdict_same _ _ _ _ Hc1 Hc2) as [Hsim _]. by rewrite <-Ht2, <-Ht, He in Hsim. }
  repeat case_decide; try apply Hg; apply similar_det; det_tac.
Qed.
Lemma ensure_similar idx c :
  db_similar (@ensureConfigEntryTxn (with_order E o1) idx c) (@ensureConfigEntryTxn (with_order E o2) idx c).
Proof using H1 H2.
  unfold ensureConfigEntryTxn. apply similar_bind; [apply similar_det; det_tac|intros existing].
  cbv zeta. apply similar_bind; [apply validate_similar|intros []]. apply similar_det. unfold indexUpdateMaxTxn. det_tac.
Qed.
Lemma ensure_cas_similar idx i c :
  db_similar (@ensureConfigEntryCASTxn (with_order E o1) idx i c) (@ensureConfigEntryCASTxn (with_order E o2) idx i c).
Proof using H1 H2.
  unfold ensureConfigEntryCASTxn. apply similar_bind; [apply similar_det; det_tac|intros existing].
  match goal with |- context [if ?b then _ else _] => destruct b end; [apply similar_det; det_tac|].
  apply similar_bind; [apply ensure_similar|intros []]. apply similar_det. det_tac.
Qed.
Lemma delete_similar idx kind name :
  db_similar (@deleteConfigEntryTxn (with_order E o1) idx kind name) (@deleteConfigEntryTxn (with_order E o2) idx kind name).
Proof using H1 H2.
  unfold deleteConfigEntryTxn. apply similar_bind; [apply similar_det; det_tac|intros [existing|]];
    [|apply similar_det; det_tac].
  apply similar_bind; [apply validate_similar|intros []]. apply similar_det. det_tac.
Qed.
End orders.
