(* ===== verification/SideFacts.v ===== *)
(** * The operations on the tables of Connect, autopilot and the ACL system

    [aside m]: [m] does not panic and leaves the tables of the key/value store,
    the sessions and the catalog as they are.  All the operations on
    intentions, the certificate authority, autopilot and ACLs are aside, so
    the invariants of the other tables survive them.  At the end, what the
    operations on the ACL tables compute. *)

From S2P Require Import Prelude Memdb ProxyConfig Structs ConnectTables AclTables ConfigEntries Delay TombstoneGC Store Logic MemdbFacts StoreFacts.
From S2P Require Import Intention ConnectCA Autopilot AclState.

Definition same_core_db (d d' : db) : Prop :=
  kvs d' = kvs d ∧ tombstones d' = tombstones d ∧ sessions d' = sessions d ∧
  session_checks d' = session_checks d ∧ nodes d' = nodes d ∧ services d' = services d ∧
  checks d' = checks d ∧ coordinates d' = coordinates d ∧ prepared_queries d' = prepared_queries d.
Definition same_core (s s' : txn) : Prop := tx_write s' = tx_write s ∧ same_core_db (tx_db s) (tx_db s').
Definition aside {A} (m : Tx A) : Prop := ∀ s, wp m (λ _, same_core s) (same_core s) s.

Lemma same_core_refl s : same_core s s.
Proof. by repeat split. Qed.
Lemma same_core_trans s1 s2 s3 : same_core s1 s2 → same_core s2 s3 → same_core s1 s3.
Proof. intros (?&?&?&?&?&?&?&?&?&?) (?&?&?&?&?&?&?&?&?&?). repeat split; congruence. Qed.

Lemma aside_ret {A} (a : A) : aside (mreturn a).
Proof. intros s. apply same_core_refl. Qed.
Lemma aside_throw {A} e : aside (mthrow (A := A) e).
Proof. intros s. apply same_core_refl. Qed.
Lemma aside_get {A} (f : txn → A) : aside (mget f).
Proof. intros s. apply same_core_refl. Qed.
Lemma aside_lift {A} (o : outcome A) : (∀ w, o ≠ Panic w) → aside (mlift o).
Proof. intros Ho s. apply wp_lift. destruct o as [| |w]; [apply same_core_refl..|]. by apply (Ho w). Qed.
Lemma aside_bind {A B} (m : Tx A) (k : A → Tx B) : aside m → (∀ a, aside (k a)) → aside (mbind' m k).
Proof.
  intros Hm Hk s. apply wp_bind. eapply wp_mono; [apply Hm| |done]. intros a s' Hs. cbn beta in Hs.
  eapply wp_mono; [apply Hk| |]; cbn beta; intros; by eapply same_core_trans.
Qed.
Lemma aside_wrap {A} fmt (m : Tx A) : aside m → aside (mwrap fmt m).
Proof. intros Hm s. apply wp_wrap, Hm. Qed.
Lemma aside_try {A} (m : Tx A) : aside m → aside (mtry m).
Proof. intros Hm s. apply wp_try. eapply wp_mono; [apply Hm| |]; auto. Qed.
Lemma aside_for {A} (body : A → Tx unit) l : (∀ x, aside (body x)) → aside (mfor l body).
Proof. intros Hb. induction l; simpl; [apply aside_ret|]. apply aside_bind; auto. Qed.
Lemma aside_mmap {A B} (f : A → Tx B) l : (∀ x, aside (f x)) → aside (mmap f l).
Proof.
  intros Hb. induction l; simpl; [apply aside_ret|]. repeat (apply aside_bind; [done|intros ?]). apply aside_ret.
Qed.

(** Tables beside the core ones. *)
Class Beside (A : Type) `{TableOf A} := beside : ∀ t d, same_core_db d (set_tbl t d).
#[export] Instance index_beside : Beside IndexEntry. Proof. by repeat split. Qed.
#[export] Instance intentions_beside : Beside Intention. Proof. by repeat split. Qed.
#[export] Instance ca_roots_beside : Beside CARoot. Proof. by repeat split. Qed.
#[export] Instance ca_config_beside : Beside CAConfiguration. Proof. by repeat split. Qed.
#[export] Instance ca_builtin_beside : Beside CAConsulProviderState. Proof. by repeat split. Qed.
#[export] Instance autopilot_config_beside : Beside AutopilotConfig. Proof. by repeat split. Qed.
#[export] Instance config_entries_beside : Beside ConfigEntry. Proof. by repeat split. Qed.
#[export] Instance acl_tokens_beside : Beside ACLToken. Proof. by repeat split. Qed.
#[export] Instance acl_policies_beside : Beside ACLPolicy. Proof. by repeat split. Qed.
#[export] Instance acl_roles_beside : Beside ACLRole. Proof. by repeat split. Qed.
#[export] Instance acl_binding_rules_beside : Beside ACLBindingRule. Proof. by repeat split. Qed.
#[export] Instance acl_auth_methods_beside : Beside ACLAuthMethod. Proof. by repeat split. Qed.

Section beside.
Context {A : Type} `{TableSchema A} `{Beside A}.
Lemma aside_set_tbl t s : same_core s (tx_set_db (set_tbl t (tx_db s)) s).
Proof. split; [done|apply beside]. Qed.
Lemma aside_Insert (x : A) : aside (tx_Insert x).
Proof.
  intros s. unfold wp, tx_Insert. destruct (tx_write s); [|apply same_core_refl].
  pose proof (table_insert_inv (tbl (tx_db s)) x _ eq_refl) as Hi.
  destruct (table_insert _ x); [apply aside_set_tbl|apply same_core_refl|done].
Qed.
Lemma aside_Delete (x : A) : aside (tx_Delete x).
Proof.
  intros s. unfold wp, tx_Delete. destruct (tx_write s); [|apply same_core_refl].
  pose proof (table_delete_inv (tbl (tx_db s)) x _ eq_refl) as Hi.
  destruct (table_delete _ x); [apply aside_set_tbl|apply same_core_refl|done].
Qed.
Lemma aside_DeletePrefix p : aside (tx_DeletePrefix (A := A) p).
Proof.
  intros s. unfold wp, tx_DeletePrefix. destruct (tx_write s); [|apply same_core_refl].
  destruct (table_prefix p _); [apply same_core_refl|apply aside_set_tbl].
Qed.
End beside.
Lemma aside_First {A} `{TableOf A} k : aside (tx_First (A := A) k).
Proof. apply aside_get. Qed.
Lemma aside_Get {A} `{TableOf A} ix p : aside (tx_Get (A := A) ix p).
Proof. apply aside_get. Qed.
Lemma aside_GetPrefix {A} `{TableOf A} p : aside (tx_GetPrefix (A := A) p).
Proof. apply aside_get. Qed.
Lemma aside_FirstUnique {A} `{TableOf A} ix k : aside (tx_FirstUnique (A := A) ix k).
Proof. apply aside_get. Qed.
Lemma aside_maxIndexTxn l : aside (maxIndexTxn l).
Proof. apply aside_get. Qed.
Lemma aside_uuid_parse fmt id : aside (mlift (owrap fmt (uuid_parse id))).
Proof.
  apply aside_lift. intros w. pose proof (uuid_parse_no_panic id w) as Hp.
  by destruct (uuid_parse id); simpl; [done..|]; intros [= ->].
Qed.
#[export] Hint Resolve aside_ret aside_throw aside_get aside_wrap aside_Insert aside_Delete aside_DeletePrefix
  aside_First aside_Get aside_GetPrefix aside_FirstUnique aside_maxIndexTxn aside_uuid_parse : aside.
#[export] Hint Extern 1 (Beside _) => apply _ : aside.

Ltac aside_step :=
  first
    [ solve [eauto 6 with aside nocore]
    | apply aside_bind; [|intros ?]
    | apply aside_wrap
    | apply aside_try
    | apply aside_for; intros ?
    | apply aside_mmap; intros ?
    | progress cbn beta iota zeta
    | match goal with |- aside (match ?x with _ => _ end) => destruct x end ].
Ltac aside_tac := repeat aside_step.

Lemma aside_FirstUUID {A} `{TableSchema A} `{TableOf A} id : aside (tx_FirstUUID (A := A) id).
Proof. unfold tx_FirstUUID. aside_tac. Qed.
Lemma aside_index_insert n i : aside (index_insert n i).
Proof. unfold index_insert. aside_tac. Qed.
#[export] Hint Resolve aside_FirstUUID aside_index_insert : aside.

(** ** The operations *)

Lemma aside_indexUpdateMaxTxn idx t : aside (indexUpdateMaxTxn idx t).
Proof. unfold indexUpdateMaxTxn. aside_tac. Qed.
#[export] Hint Resolve aside_indexUpdateMaxTxn : aside.
Lemma aside_update_acl_index idx t : aside (update_acl_index idx t).
Proof. unfold update_acl_index. aside_tac. Qed.
#[export] Hint Resolve aside_update_acl_index : aside.
Lemma aside_intentionSetTxn idx x : aside (intentionSetTxn idx x).
Proof. unfold intentionSetTxn. aside_tac. Qed.
#[export] Hint Resolve aside_intentionSetTxn : aside.
Lemma aside_intentionDeleteTxn idx x : aside (intentionDeleteTxn idx x).
Proof. unfold intentionDeleteTxn. aside_tac. Qed.
#[export] Hint Resolve aside_intentionDeleteTxn : aside.
Lemma aside_caSetConfigTxn idx x : aside (caSetConfigTxn idx x).
Proof. unfold caSetConfigTxn, first_row. aside_tac. Qed.
#[export] Hint Resolve aside_caSetConfigTxn : aside.
Lemma aside_caCheckAndSetConfigTxn idx c x : aside (caCheckAndSetConfigTxn idx c x).
Proof. unfold caCheckAndSetConfigTxn, first_row. aside_tac. Qed.
#[export] Hint Resolve aside_caCheckAndSetConfigTxn : aside.
Lemma aside_stamp_root idx x : aside (stamp_root idx x).
Proof. unfold stamp_root. aside_tac. Qed.
#[export] Hint Resolve aside_stamp_root : aside.
Lemma aside_caRootSetCASTxn idx c x : aside (caRootSetCASTxn idx c x).
Proof. unfold caRootSetCASTxn. aside_tac. Qed.
#[export] Hint Resolve aside_caRootSetCASTxn : aside.
Lemma aside_caSetProviderStateTxn idx x : aside (caSetProviderStateTxn idx x).
Proof. unfold caSetProviderStateTxn. aside_tac. Qed.
#[export] Hint Resolve aside_caSetProviderStateTxn : aside.
Lemma aside_caDeleteProviderStateTxn x : aside (caDeleteProviderStateTxn x).
Proof. unfold caDeleteProviderStateTxn. aside_tac. Qed.
#[export] Hint Resolve aside_caDeleteProviderStateTxn : aside.
Lemma aside_caIncrementProviderSerialNumberTxn : aside (caIncrementProviderSerialNumberTxn).
Proof. unfold caIncrementProviderSerialNumberTxn. aside_tac. Qed.
#[export] Hint Resolve aside_caIncrementProviderSerialNumberTxn : aside.
Lemma aside_autopilotSetConfigTxn idx x : aside (autopilotSetConfigTxn idx x).
Proof. unfold autopilotSetConfigTxn, first_row. aside_tac. Qed.
#[export] Hint Resolve aside_autopilotSetConfigTxn : aside.
Lemma aside_autopilotCASConfigTxn idx c x : aside (autopilotCASConfigTxn idx c x).
Proof. unfold autopilotCASConfigTxn, first_row. aside_tac. Qed.
#[export] Hint Resolve aside_autopilotCASConfigTxn : aside.
Lemma aside_getPolicyWithTxn v i : aside (getPolicyWithTxn v i).
Proof. unfold getPolicyWithTxn, policy_First. aside_tac. Qed.
#[export] Hint Resolve aside_getPolicyWithTxn : aside.
Lemma aside_policy_First v i : aside (policy_First v i).
Proof. unfold policy_First. aside_tac. Qed.
#[export] Hint Resolve aside_policy_First : aside.
Lemma aside_role_First v i : aside (role_First v i).
Proof. unfold role_First. aside_tac. Qed.
#[export] Hint Resolve aside_role_First : aside.
Lemma aside_token_First v i : aside (token_First v i).
Proof. unfold token_First. aside_tac. Qed.
#[export] Hint Resolve aside_token_First : aside.
Lemma aside_getAuthMethodWithTxn v : aside (getAuthMethodWithTxn v).
Proof. unfold getAuthMethodWithTxn. aside_tac. Qed.
#[export] Hint Resolve aside_getAuthMethodWithTxn : aside.
Lemma aside_policy_name v : aside (policy_name v).
Proof. unfold policy_name. aside_tac. Qed.
#[export] Hint Resolve aside_policy_name : aside.
Lemma aside_resolve_links {L} `{Link L} lookup what b (l : list L) :
  (∀ id, aside (lookup id)) → aside (resolve_links lookup what b l).
Proof. intros Hl. induction l as [|x l IH]; simpl; aside_tac. Qed.
Lemma aside_fixup_links {L} `{Link L} lookup what (l : list L) :
  (∀ id, aside (lookup id)) → aside (fixup_links lookup what l).
Proof.
  intros Hl. unfold fixup_links. generalize (@nil L) as copied, (@None (list L)) as owned.
  assert (∀ copied owned, aside (fixup_loop lookup what copied owned l)) by
    (induction l as [|x l IH]; intros copied owned; simpl; aside_tac).
  intros copied owned. aside_tac.
Qed.
#[export] Hint Resolve aside_resolve_links aside_fixup_links : aside.
Lemma aside_fixupRolePolicyLinks v : aside (fixupRolePolicyLinks v).
Proof. unfold fixupRolePolicyLinks. aside_tac. Qed.
#[export] Hint Resolve aside_fixupRolePolicyLinks : aside.
Lemma aside_getRoleWithTxn v i : aside (getRoleWithTxn v i).
Proof. unfold getRoleWithTxn. aside_tac. Qed.
#[export] Hint Resolve aside_getRoleWithTxn : aside.
Lemma aside_role_name v : aside (role_name v).
Proof. unfold role_name. aside_tac. Qed.
#[export] Hint Resolve aside_role_name : aside.
Lemma aside_resolveTokenPolicyLinks t b : aside (resolveTokenPolicyLinks t b).
Proof. unfold resolveTokenPolicyLinks. aside_tac. Qed.
#[export] Hint Resolve aside_resolveTokenPolicyLinks : aside.
Lemma aside_resolveTokenRoleLinks t b : aside (resolveTokenRoleLinks t b).
Proof. unfold resolveTokenRoleLinks. aside_tac. Qed.
#[export] Hint Resolve aside_resolveTokenRoleLinks : aside.
Lemma aside_resolveRolePolicyLinks t b : aside (resolveRolePolicyLinks t b).
Proof. unfold resolveRolePolicyLinks. aside_tac. Qed.
#[export] Hint Resolve aside_resolveRolePolicyLinks : aside.
Lemma aside_fixup_token t : aside (fixup_token t).
Proof. unfold fixup_token, fixupTokenPolicyLinks, fixupTokenRoleLinks. aside_tac. Qed.
#[export] Hint Resolve aside_fixup_token : aside.
Lemma aside_aclTokenGetTxn v i : aside (aclTokenGetTxn v i).
Proof. unfold aclTokenGetTxn. aside_tac. Qed.
#[export] Hint Resolve aside_aclTokenGetTxn : aside.
Lemma aside_aclTokenSetTxn idx t a b c d : aside (aclTokenSetTxn idx t a b c d).
Proof. unfold aclTokenSetTxn. aside_tac. Qed.
#[export] Hint Resolve aside_aclTokenSetTxn : aside.
Lemma aside_aclTokenBatchSetTxn idx t a b c : aside (aclTokenBatchSetTxn idx t a b c).
Proof. unfold aclTokenBatchSetTxn. aside_tac. Qed.
#[export] Hint Resolve aside_aclTokenBatchSetTxn : aside.
Lemma aside_aclBootstrapTxn idx r t l : aside (aclBootstrapTxn idx r t l).
Proof. unfold aclBootstrapTxn. aside_tac. Qed.
#[export] Hint Resolve aside_aclBootstrapTxn : aside.
Lemma aside_aclTokenDeleteTxn idx v i : aside (aclTokenDeleteTxn idx v i).
Proof. unfold aclTokenDeleteTxn. aside_tac. Qed.
#[export] Hint Resolve aside_aclTokenDeleteTxn : aside.
Lemma aside_aclTokenDeleteAllForAuthMethodTxn idx m : aside (aclTokenDeleteAllForAuthMethodTxn idx m).
Proof. unfold aclTokenDeleteAllForAuthMethodTxn. aside_tac. Qed.
#[export] Hint Resolve aside_aclTokenDeleteAllForAuthMethodTxn : aside.
Lemma aside_aclPolicySetTxn idx p : aside (aclPolicySetTxn idx p).
Proof. unfold aclPolicySetTxn. aside_tac. Qed.
#[export] Hint Resolve aside_aclPolicySetTxn : aside.
Lemma aside_aclPolicyBatchSetTxn idx p : aside (aclPolicyBatchSetTxn idx p).
Proof. unfold aclPolicyBatchSetTxn. aside_tac. Qed.
#[export] Hint Resolve aside_aclPolicyBatchSetTxn : aside.
Lemma aside_aclPolicyDeleteTxn v i : aside (aclPolicyDeleteTxn v i).
Proof. unfold aclPolicyDeleteTxn. aside_tac. Qed.
#[export] Hint Resolve aside_aclPolicyDeleteTxn : aside.
Lemma aside_aclPolicyBatchDeleteTxn idx l : aside (aclPolicyBatchDeleteTxn idx l).
Proof. unfold aclPolicyBatchDeleteTxn. aside_tac. Qed.
#[export] Hint Resolve aside_aclPolicyBatchDeleteTxn : aside.
Lemma aside_aclRoleSetTxn idx r b : aside (aclRoleSetTxn idx r b).
Proof. unfold aclRoleSetTxn. aside_tac. Qed.
#[export] Hint Resolve aside_aclRoleSetTxn : aside.
Lemma aside_aclRoleBatchSetTxn idx r b : aside (aclRoleBatchSetTxn idx r b).
Proof. unfold aclRoleBatchSetTxn. aside_tac. Qed.
#[export] Hint Resolve aside_aclRoleBatchSetTxn : aside.
Lemma aside_aclRoleDeleteTxn v i : aside (aclRoleDeleteTxn v i).
Proof. unfold aclRoleDeleteTxn. aside_tac. Qed.
#[export] Hint Resolve aside_aclRoleDeleteTxn : aside.
Lemma aside_aclRoleBatchDeleteTxn idx l : aside (aclRoleBatchDeleteTxn idx l).
Proof. unfold aclRoleBatchDeleteTxn. aside_tac. Qed.
#[export] Hint Resolve aside_aclRoleBatchDeleteTxn : aside.
Lemma aside_aclBindingRuleSetTxn idx r : aside (aclBindingRuleSetTxn idx r).
Proof. unfold aclBindingRuleSetTxn. aside_tac. Qed.
#[export] Hint Resolve aside_aclBindingRuleSetTxn : aside.
Lemma aside_aclBindingRuleBatchSetTxn idx r : aside (aclBindingRuleBatchSetTxn idx r).
Proof. unfold aclBindingRuleBatchSetTxn. aside_tac. Qed.
#[export] Hint Resolve aside_aclBindingRuleBatchSetTxn : aside.
Lemma aside_aclBindingRuleDeleteTxn v : aside (aclBindingRuleDeleteTxn v).
Proof. unfold aclBindingRuleDeleteTxn. aside_tac. Qed.
#[export] Hint Resolve aside_aclBindingRuleDeleteTxn : aside.
Lemma aside_aclBindingRuleBatchDeleteTxn idx l : aside (aclBindingRuleBatchDeleteTxn idx l).
Proof. unfold aclBindingRuleBatchDeleteTxn. aside_tac. Qed.
#[export] Hint Resolve aside_aclBindingRuleBatchDeleteTxn : aside.
Lemma aside_aclBindingRuleDeleteAllForAuthMethodTxn idx m : aside (aclBindingRuleDeleteAllForAuthMethodTxn idx m).
Proof. unfold aclBindingRuleDeleteAllForAuthMethodTxn. aside_tac. Qed.
#[export] Hint Resolve aside_aclBindingRuleDeleteAllForAuthMethodTxn : aside.
Lemma aside_aclAuthMethodSetTxn idx m : aside (aclAuthMethodSetTxn idx m).
Proof. unfold aclAuthMethodSetTxn. aside_tac. Qed.
#[export] Hint Resolve aside_aclAuthMethodSetTxn : aside.
Lemma aside_aclAuthMethodBatchSetTxn idx m : aside (aclAuthMethodBatchSetTxn idx m).
Proof. unfold aclAuthMethodBatchSetTxn. aside_tac. Qed.
#[export] Hint Resolve aside_aclAuthMethodBatchSetTxn : aside.
Lemma aside_aclAuthMethodDeleteTxn idx m : aside (aclAuthMethodDeleteTxn idx m).
Proof. unfold aclAuthMethodDeleteTxn. aside_tac. Qed.
#[export] Hint Resolve aside_aclAuthMethodDeleteTxn : aside.
Lemma aside_aclAuthMethodBatchDeleteTxn idx m : aside (aclAuthMethodBatchDeleteTxn idx m).
Proof. unfold aclAuthMethodBatchDeleteTxn. aside_tac. Qed.
#[export] Hint Resolve aside_aclAuthMethodBatchDeleteTxn : aside.

(** ** They are functions of the tables *)

Lemma det_indexUpdateMaxTxn idx t : db_det (indexUpdateMaxTxn idx t).
Proof. unfold indexUpdateMaxTxn. det_tac. Qed.
#[export] Hint Resolve det_indexUpdateMaxTxn : det.
Lemma det_update_acl_index idx t : db_det (update_acl_index idx t).
Proof. unfold update_acl_index. det_tac. Qed.
#[export] Hint Resolve det_update_acl_index : det.
Lemma det_intentionSetTxn idx x : db_det (intentionSetTxn idx x).
Proof. unfold intentionSetTxn. det_tac. Qed.
#[export] Hint Resolve det_intentionSetTxn : det.
Lemma det_intentionDeleteTxn idx x : db_det (intentionDeleteTxn idx x).
Proof. unfold intentionDeleteTxn. det_tac. Qed.
#[export] Hint Resolve det_intentionDeleteTxn : det.
Lemma det_caSetConfigTxn idx x : db_det (caSetConfigTxn idx x).
Proof. unfold caSetConfigTxn, first_row. det_tac. Qed.
#[export] Hint Resolve det_caSetConfigTxn : det.
Lemma det_caCheckAndSetConfigTxn idx c x : db_det (caCheckAndSetConfigTxn idx c x).
Proof. unfold caCheckAndSetConfigTxn, first_row. det_tac. Qed.
#[export] Hint Resolve det_caCheckAndSetConfigTxn : det.
Lemma det_stamp_root idx x : db_det (stamp_root idx x).
Proof. unfold stamp_root. det_tac. Qed.
#[export] Hint Resolve det_stamp_root : det.
Lemma det_caRootSetCASTxn idx c x : db_det (caRootSetCASTxn idx c x).
Proof. unfold caRootSetCASTxn. det_tac. Qed.
#[export] Hint Resolve det_caRootSetCASTxn : det.
Lemma det_caSetProviderStateTxn idx x : db_det (caSetProviderStateTxn idx x).
Proof. unfold caSetProviderStateTxn. det_tac. Qed.
#[export] Hint Resolve det_caSetProviderStateTxn : det.
Lemma det_caDeleteProviderStateTxn x : db_det (caDeleteProviderStateTxn x).
Proof. unfold caDeleteProviderStateTxn. det_tac. Qed.
#[export] Hint Resolve det_caDeleteProviderStateTxn : det.
Lemma det_caIncrementProviderSerialNumberTxn : db_det (caIncrementProviderSerialNumberTxn).
Proof. unfold caIncrementProviderSerialNumberTxn. det_tac. Qed.
#[export] Hint Resolve det_caIncrementProviderSerialNumberTxn : det.
Lemma det_autopilotSetConfigTxn idx x : db_det (autopilotSetConfigTxn idx x).
Proof. unfold autopilotSetConfigTxn, first_row. det_tac. Qed.
#[export] Hint Resolve det_autopilotSetConfigTxn : det.
Lemma det_autopilotCASConfigTxn idx c x : db_det (autopilotCASConfigTxn idx c x).
Proof. unfold autopilotCASConfigTxn, first_row. det_tac. Qed.
#[export] Hint Resolve det_autopilotCASConfigTxn : det.
Lemma det_getPolicyWithTxn v i : db_det (getPolicyWithTxn v i).
Proof. unfold getPolicyWithTxn, policy_First. det_tac. Qed.
#[export] Hint Resolve det_getPolicyWithTxn : det.
Lemma det_policy_First v i : db_det (policy_First v i).
Proof. unfold policy_First. det_tac. Qed.
#[export] Hint Resolve det_policy_First : det.
Lemma det_role_First v i : db_det (role_First v i).
Proof. unfold role_First. det_tac. Qed.
#[export] Hint Resolve det_role_First : det.
Lemma det_token_First v i : db_det (token_First v i).
Proof. unfold token_First. det_tac. Qed.
#[export] Hint Resolve det_token_First : det.
Lemma det_getAuthMethodWithTxn v : db_det (getAuthMethodWithTxn v).
Proof. unfold getAuthMethodWithTxn. det_tac. Qed.
#[export] Hint Resolve det_getAuthMethodWithTxn : det.
Lemma det_policy_name v : db_det (policy_name v).
Proof. unfold policy_name. det_tac. Qed.
#[export] Hint Resolve det_policy_name : det.
Lemma det_resolve_links {L} `{Link L} lookup what b (l : list L) :
  (∀ id, db_det (lookup id)) → db_det (resolve_links lookup what b l).
Proof. intros Hl. induction l as [|x l IH]; simpl; det_tac. Qed.
Lemma det_fixup_links {L} `{Link L} lookup what (l : list L) :
  (∀ id, db_det (lookup id)) → db_det (fixup_links lookup what l).
Proof.
  intros Hl. unfold fixup_links. generalize (@nil L) as copied, (@None (list L)) as owned.
  assert (∀ copied owned, db_det (fixup_loop lookup what copied owned l)) by
    (induction l as [|x l IH]; intros copied owned; simpl; det_tac).
  intros copied owned. det_tac.
Qed.
#[export] Hint Resolve det_resolve_links det_fixup_links : det.
Lemma det_fixupRolePolicyLinks v : db_det (fixupRolePolicyLinks v).
Proof. unfold fixupRolePolicyLinks. det_tac. Qed.
#[export] Hint Resolve det_fixupRolePolicyLinks : det.
Lemma det_getRoleWithTxn v i : db_det (getRoleWithTxn v i).
Proof. unfold getRoleWithTxn. det_tac. Qed.
#[export] Hint Resolve det_getRoleWithTxn : det.
Lemma det_role_name v : db_det (role_name v).
Proof. unfold role_name. det_tac. Qed.
#[export] Hint Resolve det_role_name : det.
Lemma det_resolveTokenPolicyLinks t b : db_det (resolveTokenPolicyLinks t b).
Proof. unfold resolveTokenPolicyLinks. det_tac. Qed.
#[export] Hint Resolve det_resolveTokenPolicyLinks : det.
Lemma det_resolveTokenRoleLinks t b : db_det (resolveTokenRoleLinks t b).
Proof. unfold resolveTokenRoleLinks. det_tac. Qed.
#[export] Hint Resolve det_resolveTokenRoleLinks : det.
Lemma det_resolveRolePolicyLinks t b : db_det (resolveRolePolicyLinks t b).
Proof. unfold resolveRolePolicyLinks. det_tac. Qed.
#[export] Hint Resolve det_resolveRolePolicyLinks : det.
Lemma det_fixup_token t : db_det (fixup_token t).
Proof. unfold fixup_token, fixupTokenPolicyLinks, fixupTokenRoleLinks. det_tac. Qed.
#[export] Hint Resolve det_fixup_token : det.
Lemma det_aclTokenGetTxn v i : db_det (aclTokenGetTxn v i).
Proof. unfold aclTokenGetTxn. det_tac. Qed.
#[export] Hint Resolve det_aclTokenGetTxn : det.
Lemma det_aclTokenSetTxn idx t a b c d : db_det (aclTokenSetTxn idx t a b c d).
Proof. unfold aclTokenSetTxn. det_tac. Qed.
#[export] Hint Resolve det_aclTokenSetTxn : det.
Lemma det_aclTokenBatchSetTxn idx t a b c : db_det (aclTokenBatchSetTxn idx t a b c).
Proof. unfold aclTokenBatchSetTxn. det_tac. Qed.
#[export] Hint Resolve det_aclTokenBatchSetTxn : det.
Lemma det_aclBootstrapTxn idx r t l : db_det (aclBootstrapTxn idx r t l).
Proof. unfold aclBootstrapTxn. det_tac. Qed.
#[export] Hint Resolve det_aclBootstrapTxn : det.
Lemma det_aclTokenDeleteTxn idx v i : db_det (aclTokenDeleteTxn idx v i).
Proof. unfold aclTokenDeleteTxn. det_tac. Qed.
#[export] Hint Resolve det_aclTokenDeleteTxn : det.
Lemma det_aclTokenDeleteAllForAuthMethodTxn idx m : db_det (aclTokenDeleteAllForAuthMethodTxn idx m).
Proof. unfold aclTokenDeleteAllForAuthMethodTxn. det_tac. Qed.
#[export] Hint Resolve det_aclTokenDeleteAllForAuthMethodTxn : det.
Lemma det_aclPolicySetTxn idx p : db_det (aclPolicySetTxn idx p).
Proof. unfold aclPolicySetTxn. det_tac. Qed.
#[export] Hint Resolve det_aclPolicySetTxn : det.
Lemma det_aclPolicyBatchSetTxn idx p : db_det (aclPolicyBatchSetTxn idx p).
Proof. unfold aclPolicyBatchSetTxn. det_tac. Qed.
#[export] Hint Resolve det_aclPolicyBatchSetTxn : det.
Lemma det_aclPolicyDeleteTxn v i : db_det (aclPolicyDeleteTxn v i).
Proof. unfold aclPolicyDeleteTxn. det_tac. Qed.
#[export] Hint Resolve det_aclPolicyDeleteTxn : det.
Lemma det_aclPolicyBatchDeleteTxn idx l : db_det (aclPolicyBatchDeleteTxn idx l).
Proof. unfold aclPolicyBatchDeleteTxn. det_tac. Qed.
#[export] Hint Resolve det_aclPolicyBatchDeleteTxn : det.
Lemma det_aclRoleSetTxn idx r b : db_det (aclRoleSetTxn idx r b).
Proof. unfold aclRoleSetTxn. det_tac. Qed.
#[export] Hint Resolve det_aclRoleSetTxn : det.
Lemma det_aclRoleBatchSetTxn idx r b : db_det (aclRoleBatchSetTxn idx r b).
Proof. unfold aclRoleBatchSetTxn. det_tac. Qed.
#[export] Hint Resolve det_aclRoleBatchSetTxn : det.
Lemma det_aclRoleDeleteTxn v i : db_det (aclRoleDeleteTxn v i).
Proof. unfold aclRoleDeleteTxn. det_tac. Qed.
#[export] Hint Resolve det_aclRoleDeleteTxn : det.
Lemma det_aclRoleBatchDeleteTxn idx l : db_det (aclRoleBatchDeleteTxn idx l).
Proof. unfold aclRoleBatchDeleteTxn. det_tac. Qed.
#[export] Hint Resolve det_aclRoleBatchDeleteTxn : det.
Lemma det_aclBindingRuleSetTxn idx r : db_det (aclBindingRuleSetTxn idx r).
Proof. unfold aclBindingRuleSetTxn. det_tac. Qed.
#[export] Hint Resolve det_aclBindingRuleSetTxn : det.
Lemma det_aclBindingRuleBatchSetTxn idx r : db_det (aclBindingRuleBatchSetTxn idx r).
Proof. unfold aclBindingRuleBatchSetTxn. det_tac. Qed.
#[export] Hint Resolve det_aclBindingRuleBatchSetTxn : det.
Lemma det_aclBindingRuleDeleteTxn v : db_det (aclBindingRuleDeleteTxn v).
Proof. unfold aclBindingRuleDeleteTxn. det_tac. Qed.
#[export] Hint Resolve det_aclBindingRuleDeleteTxn : det.
Lemma det_aclBindingRuleBatchDeleteTxn idx l : db_det (aclBindingRuleBatchDeleteTxn idx l).
Proof. unfold aclBindingRuleBatchDeleteTxn. det_tac. Qed.
#[export] Hint Resolve det_aclBindingRuleBatchDeleteTxn : det.
Lemma det_aclBindingRuleDeleteAllForAuthMethodTxn idx m : db_det (aclBindingRuleDeleteAllForAuthMethodTxn idx m).
Proof. unfold aclBindingRuleDeleteAllForAuthMethodTxn. det_tac. Qed.
#[export] Hint Resolve det_aclBindingRuleDeleteAllForAuthMethodTxn : det.
Lemma det_aclAuthMethodSetTxn idx m : db_det (aclAuthMethodSetTxn idx m).
Proof. unfold aclAuthMethodSetTxn. det_tac. Qed.
#[export] Hint Resolve det_aclAuthMethodSetTxn : det.
Lemma det_aclAuthMethodBatchSetTxn idx m : db_det (aclAuthMethodBatchSetTxn idx m).
Proof. unfold aclAuthMethodBatchSetTxn. det_tac. Qed.
#[export] Hint Resolve det_aclAuthMethodBatchSetTxn : det.
Lemma det_aclAuthMethodDeleteTxn idx m : db_det (aclAuthMethodDeleteTxn idx m).
Proof. unfold aclAuthMethodDeleteTxn. det_tac. Qed.
#[export] Hint Resolve det_aclAuthMethodDeleteTxn : det.
Lemma det_aclAuthMethodBatchDeleteTxn idx m : db_det (aclAuthMethodBatchDeleteTxn idx m).
Proof. unfold aclAuthMethodBatchDeleteTxn. det_tac. Qed.
#[export] Hint Resolve det_aclAuthMethodBatchDeleteTxn : det.

(** * Runs of the operations on the ACL tables *)

Lemma tx_Insert_ok_inv {A} `{TableSchema A} `{TableOf A} (x : A) s u s' :
  tx_Insert x s = (Ok u, s') →
  ∃ k, primary_key x = Some k ∧ check_indexes table_indexes x = Ok tt ∧ tx_write s = true ∧ s' = put k x s.
Proof.
  intros Hr. destruct (tx_write s) eqn:Hw; [|unfold tx_Insert in Hr; by rewrite Hw in Hr].
  destruct (tx_Insert_inv x s Hw) as [(k&Hk&Hc&E)|[_ [e E]]]; rewrite E in Hr; [|done].
  injection Hr as _ <-. eauto.
Qed.

(** Resolving links only changes the links. *)
Lemma resolveTokenPolicyLinks_inv t b s n t' s' :
  resolveTokenPolicyLinks t b s = (Ok (n, t'), s') → ∃ ps, t' = act_set_links ps (act_Roles t) t.
Proof. unfold resolveTokenPolicyLinks. intros Hr. ok_inv Hr. simplify_eq. eauto. Qed.
Lemma resolveTokenRoleLinks_inv t b s n t' s' :
  resolveTokenRoleLinks t b s = (Ok (n, t'), s') → ∃ rs, t' = act_set_links (act_Policies t) rs t.
Proof. unfold resolveTokenRoleLinks. intros Hr. ok_inv Hr. simplify_eq. eauto. Qed.

Lemma token_key t k : primary_key t = Some k → k = string_args false (act_SecretID t).
Proof. unfold primary_key. simpl. unfold string_index. case_decide; [done|]. by intros [= <-]. Qed.

(** A token that is written, not skipped, is stored under its secret. *)
Lemma aclTokenSetTxn_stored idx t allow prohibit legacy s u s' :
  aclTokenSetTxn idx t false allow prohibit legacy s = (Ok u, s') →
  is_Some (acl_tokens (acls (tx_db s')) !! string_args false (act_SecretID t)).
Proof.
  unfold aclTokenSetTxn. intros Hr. ok_inv Hr; [done|..];
    repeat match goal with
      | H : resolveTokenPolicyLinks _ _ _ = _ |- _ => apply resolveTokenPolicyLinks_inv in H as [? ->]
      | H : resolveTokenRoleLinks _ _ _ = _ |- _ => apply resolveTokenRoleLinks_inv in H as [? ->]
      end;
    apply tx_Insert_ok_inv in Hr as (k&Hk%token_key&_&_&->); simpl in Hk; subst k;
    eexists; apply lookup_insert_eq.
Qed.

(** The tokens survive writes of the index table. *)
Lemma index_insert_tokens name idx s u s' :
  index_insert name idx s = (Ok u, s') → acl_tokens (acls (tx_db s')) = acl_tokens (acls (tx_db s)).
Proof. unfold index_insert. intros Hr. ok_inv Hr. by apply tx_Insert_ok_inv in Hr as (k&_&_&_&->). Qed.
Lemma update_acl_index_tokens idx table s u s' :
  update_acl_index idx table s = (Ok u, s') → acl_tokens (acls (tx_db s')) = acl_tokens (acls (tx_db s)).
Proof.
  unfold update_acl_index, indexUpdateMaxTxn, tx_First. intros Hr. ok_inv Hr; try done;
    by apply tx_Insert_ok_inv in Hr as (k&_&_&_&->).
Qed.

Lemma write_txn_ok_inv {A} now (m : Tx A) st a st' :
  write_txn now (λ _, true) m st = (Ok a, st') →
  ∃ s', m (begin_txn true now st) = (Ok a, s') ∧ st_db st' = tx_db s'.
Proof.
  unfold write_txn. destruct (m (begin_txn true now st)) as [[x| |] s'] eqn:Hm; [|done..].
  intros Hr. injection Hr as -> <-. eauto.
Qed.

(** A bootstrap that succeeded left the token under its secret. *)
Lemma ACLBootstrap_found now idx reset t legacy st st' :
  ACLBootstrap now idx reset t legacy st = (Ok tt, st') →
  match ACLTokenGetBySecret (act_SecretID t) st' with Ok (_, token) => is_Some token | _ => True end.
Proof.
  intros Hr. apply write_txn_ok_inv in Hr as (s'&Hr&Hst).
  assert (is_Some (acl_tokens (acls (st_db st')) !! string_args false (act_SecretID t))) as [x Hx].
  { rewrite Hst. unfold aclBootstrapTxn in Hr. ok_inv Hr;
      match goal with H : aclTokenSetTxn _ _ _ _ _ _ _ = _ |- _ => apply aclTokenSetTxn_stored in H end;
      match goal with H : update_acl_index _ _ _ = _ |- _ => apply update_acl_index_tokens in H end;
      match goal with H : index_insert _ _ _ = _ |- _ => apply index_insert_tokens in H end; congruence. }
  destruct (ACLTokenGetBySecret (act_SecretID t) st') as [[i token]| |] eqn:Hg; [|done..].
  unfold ACLTokenGetBySecret, aclTokenGet, read_txn in Hg.
  destruct (mbind' _ _ _) as [r s2] eqn:Hrun in Hg. simpl in Hg. subst r.
  unfold aclTokenGetTxn, token_First in Hrun. simpl in Hrun. ok_inv Hrun; simplify_eq; [done|].
  match goal with H : tx_First _ _ = _ |- _ => unfold tx_First, mget in H; simpl in H; congruence end.
Qed.
