(* ===== verification/Frames.v ===== *)
(** * What an operation may do to a transaction, by the tables it writes

    [FrameTable R A]: writing the table of [A] stays in the relation [R].  An
    operation that only writes such tables stays in [R]; each group of
    operations is framed once, for any [R].  [store_txn] lists the
    transactions the state machine commits, so that an invariant of the
    database is proved by a case per transaction ([fsm_run_keeps]). *)

From S2P Require Import Prelude Memdb ProxyConfig Structs ConnectTables AclTables ConfigEntries Delay TombstoneGC Store Graveyard Kvs PreparedQuery.
From S2P Require Import Session Catalog Coordinate Intention ConnectCA Autopilot AclState ConfigState Txn Fsm Logic MemdbFacts StoreFacts.

Class FrameTx (R : txn → txn → Prop) := {
  ft_refl :: Reflexive R;
  ft_trans :: Transitive R;
  ft_delay : ∀ (f : txn → Delay) s, R s (tx_set_delay (f s) s);
  ft_push : ∀ i s, R s (tx_push_after i s)
}.
Class FrameTable (R : txn → txn → Prop) (A : Type) `{TableSchema A} `{TableOf A} := {
  fr_insert : ∀ x : A, framed R (tx_Insert x);
  fr_delete : ∀ x : A, framed R (tx_Delete x);
  fr_delete_prefix : ∀ p, framed R (tx_DeletePrefix (A := A) p)
}.

Section primitives.
Context (R : txn → txn → Prop) `{FrameTx R}.
Lemma writes_delay (f : txn → Delay) : framed R (mmodify (λ s, tx_set_delay (f s) s)).
Proof using Type*. intros s. apply ft_delay. Qed.
Lemma writes_push i : framed R (mmodify (tx_push_after i)).
Proof using Type*. intros s. apply ft_push. Qed.
Lemma writes_max l : framed R (maxIndexTxn l).
Proof using Type*. by apply framed_get; apply _. Qed.
Lemma writes_uuid b : framed R (first_node_uuid b).
Proof using Type*. by apply framed_get; apply _. Qed.
Context {A : Type} `{TableSchema A} `{TableOf A}.
Lemma writes_First k : framed R (tx_First (A := A) k).
Proof using Type*. by apply framed_get; apply _. Qed.
Lemma writes_Get ix p : framed R (tx_Get (A := A) ix p).
Proof using Type*. by apply framed_get; apply _. Qed.
Lemma writes_GetPrefix p : framed R (tx_GetPrefix (A := A) p).
Proof using Type*. by apply framed_get; apply _. Qed.
Lemma writes_FirstUnique ix k : framed R (tx_FirstUnique (A := A) ix k).
Proof using Type*. by apply framed_get; apply _. Qed.
End primitives.
#[export] Hint Resolve writes_delay writes_push writes_max writes_uuid writes_First writes_Get writes_GetPrefix
  writes_FirstUnique fr_insert fr_delete fr_delete_prefix : writes.
#[export] Hint Extern 1 (FrameTx _) => apply _ : writes.
#[export] Hint Extern 1 (FrameTable _ _) => apply _ : writes.

Ltac writes_step :=
  first
    [ solve [eauto with writes nocore]
    | apply framed_ret; apply _
    | apply framed_throw; apply _
    | apply framed_panic; apply _
    | apply framed_get; apply _
    | apply framed_lift; apply _
    | apply framed_bind; [apply _| |intros ?]
    | apply framed_wrap
    | apply framed_try
    | apply framed_for; [apply _|apply _|intros ?]
    | apply framed_mmap; [apply _|apply _|intros ?]
    | progress cbn beta iota zeta
    | match goal with
      | |- framed _ (match ?x with _ => _ end) => destruct x
      end ].
Ltac writes_tac := repeat writes_step.

Section index.
Context (R : txn → txn → Prop) `{FrameTx R} `{!FrameTable R IndexEntry}.
Lemma writes_FirstUUID {A} `{TableSchema A} `{TableOf A} id : framed R (tx_FirstUUID (A := A) id).
Proof using Type*. unfold tx_FirstUUID. writes_tac. Qed.
Lemma writes_GetUUID {A} `{TableSchema A} `{TableOf A} ix id : framed R (tx_GetUUID (A := A) ix id).
Proof using Type*. unfold tx_GetUUID. writes_tac. Qed.
Lemma writes_index_insert n i : framed R (index_insert n i).
Proof using Type*. unfold index_insert. writes_tac. Qed.
Lemma writes_indexUpdateMaxTxn i n : framed R (indexUpdateMaxTxn i n).
Proof using Type*. unfold indexUpdateMaxTxn. writes_tac. Qed.
#[local] Hint Resolve writes_indexUpdateMaxTxn : writes.
Lemma writes_update_acl_index i n : framed R (update_acl_index i n).
Proof using Type*. unfold update_acl_index. writes_tac. Qed.
End index.
#[export] Hint Resolve writes_FirstUUID writes_GetUUID writes_index_insert writes_indexUpdateMaxTxn
  writes_update_acl_index : writes.

(** ** The key/value store, the sessions, the catalog *)

Section core.
Context (R : txn → txn → Prop) `{FrameTx R}.
Context `{!FrameTable R IndexEntry, !FrameTable R DirEntry, !FrameTable R Tombstone, !FrameTable R Session, !FrameTable R sessionCheck, !FrameTable R Node, !FrameTable R ServiceNode, !FrameTable R HealthCheck, !FrameTable R Coordinate, !FrameTable R PreparedQuery}.
Lemma writes_Graveyard_InsertTxn k i : framed R (Graveyard_InsertTxn k i).
Proof using Type*. unfold Graveyard_InsertTxn. writes_tac. Qed.
#[local] Hint Resolve writes_Graveyard_InsertTxn : writes.
Lemma writes_Graveyard_ReapTxn i : framed R (Graveyard_ReapTxn i).
Proof using Type*. unfold Graveyard_ReapTxn. writes_tac. Qed.
#[local] Hint Resolve writes_Graveyard_ReapTxn : writes.
Lemma writes_kvsSetTxn idx e b : framed R (kvsSetTxn idx e b).
Proof using Type*. unfold kvsSetTxn, kv_First. writes_tac. Qed.
#[local] Hint Resolve writes_kvsSetTxn : writes.
Lemma writes_kvsDeleteTxn idx k : framed R (kvsDeleteTxn idx k).
Proof using Type*. unfold kvsDeleteTxn, kv_First. writes_tac. Qed.
#[local] Hint Resolve writes_kvsDeleteTxn : writes.
Lemma writes_set_lock_delay d k : framed R (set_lock_delay d k).
Proof using Type*. unfold set_lock_delay. writes_tac. Qed.
#[local] Hint Resolve writes_set_lock_delay : writes.
Lemma writes_preparedQueryDeleteTxn idx k : framed R (preparedQueryDeleteTxn idx k).
Proof using Type*. unfold preparedQueryDeleteTxn. writes_tac. Qed.
#[local] Hint Resolve writes_preparedQueryDeleteTxn : writes.
Lemma writes_deleteSessionTxn idx k : framed R (deleteSessionTxn idx k).
Proof using Type*. unfold deleteSessionTxn, invalidate_locks, release_key, delete_key. writes_tac. Qed.
#[local] Hint Resolve writes_deleteSessionTxn : writes.
Lemma writes_list_index p i l : framed R (list_index p i l).
Proof using Type*. unfold list_index, Graveyard_GetMaxIndexTxn. writes_tac. Qed.
#[local] Hint Resolve writes_list_index : writes.
Lemma writes_kvsGetTxn k : framed R (kvsGetTxn k).
Proof using Type*. unfold kvsGetTxn, kv_First. writes_tac. Qed.
#[local] Hint Resolve writes_kvsGetTxn : writes.
Lemma writes_kvsListTxn k : framed R (kvsListTxn k).
Proof using Type*. unfold kvsListTxn. writes_tac. Qed.
#[local] Hint Resolve writes_kvsListTxn : writes.
Lemma writes_kvsDeleteCASTxn idx c k : framed R (kvsDeleteCASTxn idx c k).
Proof using Type*. unfold kvsDeleteCASTxn, kv_First. writes_tac. Qed.
#[local] Hint Resolve writes_kvsDeleteCASTxn : writes.
Lemma writes_kvsSetCASTxn idx e : framed R (kvsSetCASTxn idx e).
Proof using Type*. unfold kvsSetCASTxn, kv_First. writes_tac. Qed.
#[local] Hint Resolve writes_kvsSetCASTxn : writes.
Lemma writes_kvsDeleteTreeTxn idx p : framed R (kvsDeleteTreeTxn idx p).
Proof using Type*. unfold kvsDeleteTreeTxn. writes_tac. Qed.
#[local] Hint Resolve writes_kvsDeleteTreeTxn : writes.
Lemma writes_kvsLockTxn idx e : framed R (kvsLockTxn idx e).
Proof using Type*. unfold kvsLockTxn, kv_First. writes_tac. Qed.
#[local] Hint Resolve writes_kvsLockTxn : writes.
Lemma writes_kvsUnlockTxn idx e : framed R (kvsUnlockTxn idx e).
Proof using Type*. unfold kvsUnlockTxn, kv_First. writes_tac. Qed.
#[local] Hint Resolve writes_kvsUnlockTxn : writes.
Lemma writes_kvsCheckSessionTxn k x : framed R (kvsCheckSessionTxn k x).
Proof using Type*. unfold kvsCheckSessionTxn, kv_First. writes_tac. Qed.
#[local] Hint Resolve writes_kvsCheckSessionTxn : writes.
Lemma writes_kvsCheckIndexTxn k x : framed R (kvsCheckIndexTxn k x).
Proof using Type*. unfold kvsCheckIndexTxn, kv_First. writes_tac. Qed.
#[local] Hint Resolve writes_kvsCheckIndexTxn : writes.
Lemma writes_sessionCreateTxn idx x : framed R (sessionCreateTxn idx x).
Proof using Type*. unfold sessionCreateTxn, insert_mappings. writes_tac. Qed.
#[local] Hint Resolve writes_sessionCreateTxn : writes.
Lemma writes_preparedQuerySetTxn compile idx q : framed R (preparedQuerySetTxn compile idx q).
Proof using Type*. unfold preparedQuerySetTxn. writes_tac. Qed.
#[local] Hint Resolve writes_preparedQuerySetTxn : writes.
Lemma writes_coordinateBatchTxn idx l : framed R (coordinateBatchTxn idx l).
Proof using Type*. unfold coordinateBatchTxn. writes_tac. Qed.
#[local] Hint Resolve writes_coordinateBatchTxn : writes.
Lemma writes_bump_service idx n k : framed R (bump_service idx n k).
Proof using Type*. unfold bump_service. writes_tac. Qed.
#[local] Hint Resolve writes_bump_service : writes.
Lemma writes_updateAllServiceIndexesOfNode idx n : framed R (updateAllServiceIndexesOfNode idx n).
Proof using Type*. unfold updateAllServiceIndexesOfNode. writes_tac. Qed.
#[local] Hint Resolve writes_updateAllServiceIndexesOfNode : writes.
Lemma writes_delete_check_sessions idx n c : framed R (delete_check_sessions idx n c).
Proof using Type*. unfold delete_check_sessions. writes_tac. Qed.
#[local] Hint Resolve writes_delete_check_sessions : writes.
Lemma writes_getNodeTxn n : framed R (getNodeTxn n).
Proof using Type*. unfold getNodeTxn. writes_tac. Qed.
#[local] Hint Resolve writes_getNodeTxn : writes.
Lemma writes_first_node_uuid b : framed R (first_node_uuid b).
Proof using Type*. unfold first_node_uuid. writes_tac. Qed.
#[local] Hint Resolve writes_first_node_uuid : writes.
Lemma writes_getNodeIDTxn i : framed R (getNodeIDTxn i).
Proof using Type*. unfold getNodeIDTxn. writes_tac. Qed.
#[local] Hint Resolve writes_getNodeIDTxn : writes.
Lemma writes_getNodeServiceTxn n i : framed R (getNodeServiceTxn n i).
Proof using Type*. unfold getNodeServiceTxn. writes_tac. Qed.
#[local] Hint Resolve writes_getNodeServiceTxn : writes.
Lemma writes_getNodeCheckTxn n i : framed R (getNodeCheckTxn n i).
Proof using Type*. unfold getNodeCheckTxn. writes_tac. Qed.
#[local] Hint Resolve writes_getNodeCheckTxn : writes.
Lemma writes_ensureCheckTxn idx c : framed R (ensureCheckTxn idx c).
Proof using Type*. unfold ensureCheckTxn. writes_tac. Qed.
#[local] Hint Resolve writes_ensureCheckTxn : writes.
Lemma writes_ensureCheckCASTxn idx c : framed R (ensureCheckCASTxn idx c).
Proof using Type*. unfold ensureCheckCASTxn. writes_tac. Qed.
#[local] Hint Resolve writes_ensureCheckCASTxn : writes.
Lemma writes_deleteCheckTxn idx n c : framed R (deleteCheckTxn idx n c).
Proof using Type*. unfold deleteCheckTxn. writes_tac. Qed.
#[local] Hint Resolve writes_deleteCheckTxn : writes.
Lemma writes_deleteCheckCASTxn idx i n c : framed R (deleteCheckCASTxn idx i n c).
Proof using Type*. unfold deleteCheckCASTxn. writes_tac. Qed.
#[local] Hint Resolve writes_deleteCheckCASTxn : writes.
Lemma writes_ensureServiceTxn idx n s : framed R (ensureServiceTxn idx n s).
Proof using Type*. unfold ensureServiceTxn. writes_tac. Qed.
#[local] Hint Resolve writes_ensureServiceTxn : writes.
Lemma writes_ensureServiceCASTxn idx n s : framed R (ensureServiceCASTxn idx n s).
Proof using Type*. unfold ensureServiceCASTxn. writes_tac. Qed.
#[local] Hint Resolve writes_ensureServiceCASTxn : writes.
Lemma writes_service_removed idx n : framed R (service_removed idx n).
Proof using Type*. unfold service_removed. writes_tac. Qed.
#[local] Hint Resolve writes_service_removed : writes.
Lemma writes_deleteServiceTxn idx n s : framed R (deleteServiceTxn idx n s).
Proof using Type*. unfold deleteServiceTxn. writes_tac. Qed.
#[local] Hint Resolve writes_deleteServiceTxn : writes.
Lemma writes_deleteServiceCASTxn idx i n s : framed R (deleteServiceCASTxn idx i n s).
Proof using Type*. unfold deleteServiceCASTxn. writes_tac. Qed.
#[local] Hint Resolve writes_deleteServiceCASTxn : writes.
Lemma writes_deleteNodeTxn idx n : framed R (deleteNodeTxn idx n).
Proof using Type*. unfold deleteNodeTxn. writes_tac. Qed.
#[local] Hint Resolve writes_deleteNodeTxn : writes.
Lemma writes_deleteNodeCASTxn idx i n : framed R (deleteNodeCASTxn idx i n).
Proof using Type*. unfold deleteNodeCASTxn. writes_tac. Qed.
#[local] Hint Resolve writes_deleteNodeCASTxn : writes.
Lemma writes_ensureNoNodeWithSimilarNameTxn n b : framed R (ensureNoNodeWithSimilarNameTxn n b).
Proof using Type*. unfold ensureNoNodeWithSimilarNameTxn. writes_tac. Qed.
#[local] Hint Resolve writes_ensureNoNodeWithSimilarNameTxn : writes.
Lemma writes_ensureNodeTxn idx n : framed R (ensureNodeTxn idx n).
Proof using Type*. unfold ensureNodeTxn. writes_tac. Qed.
#[local] Hint Resolve writes_ensureNodeTxn : writes.
Lemma writes_ensureNodeCASTxn idx n : framed R (ensureNodeCASTxn idx n).
Proof using Type*. unfold ensureNodeCASTxn. writes_tac. Qed.
#[local] Hint Resolve writes_ensureNodeCASTxn : writes.
Lemma writes_ensureCheckIfNodeMatches idx n c : framed R (ensureCheckIfNodeMatches idx n c).
Proof using Type*. unfold ensureCheckIfNodeMatches. writes_tac. Qed.
#[local] Hint Resolve writes_ensureCheckIfNodeMatches : writes.
Lemma writes_ensureRegistrationTxn idx r : framed R (ensureRegistrationTxn idx r).
Proof using Type*. unfold ensureRegistrationTxn. writes_tac. Qed.
#[local] Hint Resolve writes_ensureRegistrationTxn : writes.
Lemma writes_txnKVS idx o : framed R (txnKVS idx o).
Proof using Type*. unfold txnKVS, stale, stale_unit. writes_tac. Qed.
#[local] Hint Resolve writes_txnKVS : writes.
Lemma writes_txnNode idx o : framed R (txnNode idx o).
Proof using Type*. unfold txnNode, cas_then_get, stale_unit. writes_tac. Qed.
#[local] Hint Resolve writes_txnNode : writes.
Lemma writes_txnService idx o : framed R (txnService idx o).
Proof using Type*. unfold txnService, cas_then_get, stale_unit. writes_tac. Qed.
#[local] Hint Resolve writes_txnService : writes.
Lemma writes_txnCheck idx o : framed R (txnCheck idx o).
Proof using Type*. unfold txnCheck, cas_then_get, stale_unit. writes_tac. Qed.
#[local] Hint Resolve writes_txnCheck : writes.
End core.
#[export] Hint Resolve writes_Graveyard_ReapTxn writes_kvsSetTxn writes_kvsDeleteTxn writes_kvsDeleteCASTxn
  writes_kvsSetCASTxn writes_kvsDeleteTreeTxn writes_kvsLockTxn writes_kvsUnlockTxn
  writes_preparedQueryDeleteTxn writes_deleteSessionTxn writes_sessionCreateTxn
  writes_preparedQuerySetTxn writes_coordinateBatchTxn writes_ensureRegistrationTxn
  writes_deleteServiceTxn writes_deleteCheckTxn writes_deleteNodeTxn writes_txnKVS writes_txnNode
  writes_txnService writes_txnCheck : writes.

(** ** Connect and autopilot *)

Section intentions.
Context (R : txn → txn → Prop) `{FrameTx R}.
Context `{!FrameTable R IndexEntry, !FrameTable R Intention}.
Lemma writes_intentionSetTxn idx x : framed R (intentionSetTxn idx x).
Proof using Type*. unfold intentionSetTxn. writes_tac. Qed.
#[local] Hint Resolve writes_intentionSetTxn : writes.
Lemma writes_intentionDeleteTxn idx x : framed R (intentionDeleteTxn idx x).
Proof using Type*. unfold intentionDeleteTxn. writes_tac. Qed.
#[local] Hint Resolve writes_intentionDeleteTxn : writes.
End intentions.
Section ca.
Context (R : txn → txn → Prop) `{FrameTx R}.
Context `{!FrameTable R IndexEntry, !FrameTable R CARoot, !FrameTable R CAConfiguration, !FrameTable R CAConsulProviderState, !FrameTable R AutopilotConfig}.
Lemma writes_caSetConfigTxn idx x : framed R (caSetConfigTxn idx x).
Proof using Type*. unfold caSetConfigTxn, first_row. writes_tac. Qed.
#[local] Hint Resolve writes_caSetConfigTxn : writes.
Lemma writes_caCheckAndSetConfigTxn idx c x : framed R (caCheckAndSetConfigTxn idx c x).
Proof using Type*. unfold caCheckAndSetConfigTxn, first_row. writes_tac. Qed.
#[local] Hint Resolve writes_caCheckAndSetConfigTxn : writes.
Lemma writes_stamp_root idx x : framed R (stamp_root idx x).
Proof using Type*. unfold stamp_root. writes_tac. Qed.
#[local] Hint Resolve writes_stamp_root : writes.
Lemma writes_caRootSetCASTxn idx c x : framed R (caRootSetCASTxn idx c x).
Proof using Type*. unfold caRootSetCASTxn. writes_tac. Qed.
#[local] Hint Resolve writes_caRootSetCASTxn : writes.
Lemma writes_caSetProviderStateTxn idx x : framed R (caSetProviderStateTxn idx x).
Proof using Type*. unfold caSetProviderStateTxn. writes_tac. Qed.
#[local] Hint Resolve writes_caSetProviderStateTxn : writes.
Lemma writes_caDeleteProviderStateTxn x : framed R (caDeleteProviderStateTxn x).
Proof using Type*. unfold caDeleteProviderStateTxn. writes_tac. Qed.
#[local] Hint Resolve writes_caDeleteProviderStateTxn : writes.
Lemma writes_caIncrementProviderSerialNumberTxn : framed R caIncrementProviderSerialNumberTxn.
Proof using Type*. unfold caIncrementProviderSerialNumberTxn. writes_tac. Qed.
#[local] Hint Resolve writes_caIncrementProviderSerialNumberTxn : writes.
Lemma writes_autopilotSetConfigTxn idx x : framed R (autopilotSetConfigTxn idx x).
Proof using Type*. unfold autopilotSetConfigTxn, first_row. writes_tac. Qed.
#[local] Hint Resolve writes_autopilotSetConfigTxn : writes.
Lemma writes_autopilotCASConfigTxn idx c x : framed R (autopilotCASConfigTxn idx c x).
Proof using Type*. unfold autopilotCASConfigTxn, first_row. writes_tac. Qed.
#[local] Hint Resolve writes_autopilotCASConfigTxn : writes.
End ca.
#[export] Hint Resolve writes_intentionSetTxn writes_intentionDeleteTxn writes_caSetConfigTxn writes_caCheckAndSetConfigTxn
  writes_caRootSetCASTxn writes_caSetProviderStateTxn writes_caDeleteProviderStateTxn
  writes_caIncrementProviderSerialNumberTxn writes_autopilotSetConfigTxn writes_autopilotCASConfigTxn : writes.

(** ** ACLs *)

Section acl.
Context (R : txn → txn → Prop) `{FrameTx R}.
Context `{!FrameTable R IndexEntry, !FrameTable R ACLToken, !FrameTable R ACLPolicy, !FrameTable R ACLRole, !FrameTable R ACLBindingRule, !FrameTable R ACLAuthMethod}.
Lemma writes_policy_First v i : framed R (policy_First v i).
Proof using Type*. unfold policy_First. writes_tac. Qed.
#[local] Hint Resolve writes_policy_First : writes.
Lemma writes_getPolicyWithTxn v i : framed R (getPolicyWithTxn v i).
Proof using Type*. unfold getPolicyWithTxn, policy_First. writes_tac. Qed.
#[local] Hint Resolve writes_getPolicyWithTxn : writes.
Lemma writes_role_First v i : framed R (role_First v i).
Proof using Type*. unfold role_First. writes_tac. Qed.
#[local] Hint Resolve writes_role_First : writes.
Lemma writes_token_First v i : framed R (token_First v i).
Proof using Type*. unfold token_First. writes_tac. Qed.
#[local] Hint Resolve writes_token_First : writes.
Lemma writes_getAuthMethodWithTxn v : framed R (getAuthMethodWithTxn v).
Proof using Type*. unfold getAuthMethodWithTxn. writes_tac. Qed.
#[local] Hint Resolve writes_getAuthMethodWithTxn : writes.
Lemma writes_policy_name v : framed R (policy_name v).
Proof using Type*. unfold policy_name. writes_tac. Qed.
#[local] Hint Resolve writes_policy_name : writes.
Lemma writes_resolve_links {L} `{Link L} lookup what b (l : list L) :
  (∀ id, framed R (lookup id)) → framed R (resolve_links lookup what b l).
Proof using Type*. intros Hl. induction l as [|x l IH]; simpl; writes_tac. Qed.
Lemma writes_fixup_links {L} `{Link L} lookup what (l : list L) :
  (∀ id, framed R (lookup id)) → framed R (fixup_links lookup what l).
Proof using Type*.
  intros Hl. unfold fixup_links.
  assert (∀ copied owned, framed R (fixup_loop lookup what copied owned l)) by
    (induction l as [|x l IH]; intros copied owned; simpl; writes_tac).
  writes_tac.
Qed.
#[local] Hint Resolve writes_resolve_links writes_fixup_links : writes.
Lemma writes_fixupRolePolicyLinks v : framed R (fixupRolePolicyLinks v).
Proof using Type*. unfold fixupRolePolicyLinks. writes_tac. Qed.
#[local] Hint Resolve writes_fixupRolePolicyLinks : writes.
Lemma writes_getRoleWithTxn v i : framed R (getRoleWithTxn v i).
Proof using Type*. unfold getRoleWithTxn. writes_tac. Qed.
#[local] Hint Resolve writes_getRoleWithTxn : writes.
Lemma writes_role_name v : framed R (role_name v).
Proof using Type*. unfold role_name. writes_tac. Qed.
#[local] Hint Resolve writes_role_name : writes.
Lemma writes_resolveTokenPolicyLinks t b : framed R (resolveTokenPolicyLinks t b).
Proof using Type*. unfold resolveTokenPolicyLinks. writes_tac. Qed.
#[local] Hint Resolve writes_resolveTokenPolicyLinks : writes.
Lemma writes_resolveTokenRoleLinks t b : framed R (resolveTokenRoleLinks t b).
Proof using Type*. unfold resolveTokenRoleLinks. writes_tac. Qed.
#[local] Hint Resolve writes_resolveTokenRoleLinks : writes.
Lemma writes_resolveRolePolicyLinks t b : framed R (resolveRolePolicyLinks t b).
Proof using Type*. unfold resolveRolePolicyLinks. writes_tac. Qed.
#[local] Hint Resolve writes_resolveRolePolicyLinks : writes.
Lemma writes_fixup_token t : framed R (fixup_token t).
Proof using Type*. unfold fixup_token, fixupTokenPolicyLinks, fixupTokenRoleLinks. writes_tac. Qed.
#[local] Hint Resolve writes_fixup_token : writes.
Lemma writes_aclTokenGetTxn v i : framed R (aclTokenGetTxn v i).
Proof using Type*. unfold aclTokenGetTxn. writes_tac. Qed.
#[local] Hint Resolve writes_aclTokenGetTxn : writes.
Lemma writes_aclTokenSetTxn idx t a b c d : framed R (aclTokenSetTxn idx t a b c d).
Proof using Type*. unfold aclTokenSetTxn. writes_tac. Qed.
#[local] Hint Resolve writes_aclTokenSetTxn : writes.
Lemma writes_aclTokenBatchSetTxn idx t a b c : framed R (aclTokenBatchSetTxn idx t a b c).
Proof using Type*. unfold aclTokenBatchSetTxn. writes_tac. Qed.
#[local] Hint Resolve writes_aclTokenBatchSetTxn : writes.
Lemma writes_aclBootstrapTxn idx r t l : framed R (aclBootstrapTxn idx r t l).
Proof using Type*. unfold aclBootstrapTxn. writes_tac. Qed.
#[local] Hint Resolve writes_aclBootstrapTxn : writes.
Lemma writes_aclTokenDeleteTxn idx v i : framed R (aclTokenDeleteTxn idx v i).
Proof using Type*. unfold aclTokenDeleteTxn. writes_tac. Qed.
#[local] Hint Resolve writes_aclTokenDeleteTxn : writes.
Lemma writes_aclTokenDeleteAllForAuthMethodTxn idx m : framed R (aclTokenDeleteAllForAuthMethodTxn idx m).
Proof using Type*. unfold aclTokenDeleteAllForAuthMethodTxn. writes_tac. Qed.
#[local] Hint Resolve writes_aclTokenDeleteAllForAuthMethodTxn : writes.
Lemma writes_aclPolicySetTxn idx p : framed R (aclPolicySetTxn idx p).
Proof using Type*. unfold aclPolicySetTxn. writes_tac. Qed.
#[local] Hint Resolve writes_aclPolicySetTxn : writes.
Lemma writes_aclPolicyBatchSetTxn idx p : framed R (aclPolicyBatchSetTxn idx p).
Proof using Type*. unfold aclPolicyBatchSetTxn. writes_tac. Qed.
#[local] Hint Resolve writes_aclPolicyBatchSetTxn : writes.
Lemma writes_aclPolicyDeleteTxn v i : framed R (aclPolicyDeleteTxn v i).
Proof using Type*. unfold aclPolicyDeleteTxn. writes_tac. Qed.
#[local] Hint Resolve writes_aclPolicyDeleteTxn : writes.
Lemma writes_aclPolicyBatchDeleteTxn idx l : framed R (aclPolicyBatchDeleteTxn idx l).
Proof using Type*. unfold aclPolicyBatchDeleteTxn. writes_tac. Qed.
#[local] Hint Resolve writes_aclPolicyBatchDeleteTxn : writes.
Lemma writes_aclRoleSetTxn idx r b : framed R (aclRoleSetTxn idx r b).
Proof using Type*. unfold aclRoleSetTxn. writes_tac. Qed.
#[local] Hint Resolve writes_aclRoleSetTxn : writes.
Lemma writes_aclRoleBatchSetTxn idx r b : framed R (aclRoleBatchSetTxn idx r b).
Proof using Type*. unfold aclRoleBatchSetTxn. writes_tac. Qed.
#[local] Hint Resolve writes_aclRoleBatchSetTxn : writes.
Lemma writes_aclRoleDeleteTxn v i : framed R (aclRoleDeleteTxn v i).
Proof using Type*. unfold aclRoleDeleteTxn. writes_tac. Qed.
#[local] Hint Resolve writes_aclRoleDeleteTxn : writes.
Lemma writes_aclRoleBatchDeleteTxn idx l : framed R (aclRoleBatchDeleteTxn idx l).
Proof using Type*. unfold aclRoleBatchDeleteTxn. writes_tac. Qed.
#[local] Hint Resolve writes_aclRoleBatchDeleteTxn : writes.
Lemma writes_aclBindingRuleSetTxn idx r : framed R (aclBindingRuleSetTxn idx r).
Proof using Type*. unfold aclBindingRuleSetTxn. writes_tac. Qed.
#[local] Hint Resolve writes_aclBindingRuleSetTxn : writes.
Lemma writes_aclBindingRuleBatchSetTxn idx r : framed R (aclBindingRuleBatchSetTxn idx r).
Proof using Type*. unfold aclBindingRuleBatchSetTxn. writes_tac. Qed.
#[local] Hint Resolve writes_aclBindingRuleBatchSetTxn : writes.
Lemma writes_aclBindingRuleDeleteTxn v : framed R (aclBindingRuleDeleteTxn v).
Proof using Type*. unfold aclBindingRuleDeleteTxn. writes_tac. Qed.
#[local] Hint Resolve writes_aclBindingRuleDeleteTxn : writes.
Lemma writes_aclBindingRuleBatchDeleteTxn idx l : framed R (aclBindingRuleBatchDeleteTxn idx l).
Proof using Type*. unfold aclBindingRuleBatchDeleteTxn. writes_tac. Qed.
#[local] Hint Resolve writes_aclBindingRuleBatchDeleteTxn : writes.
Lemma writes_aclBindingRuleDeleteAllForAuthMethodTxn idx m : framed R (aclBindingRuleDeleteAllForAuthMethodTxn idx m).
Proof using Type*. unfold aclBindingRuleDeleteAllForAuthMethodTxn. writes_tac. Qed.
#[local] Hint Resolve writes_aclBindingRuleDeleteAllForAuthMethodTxn : writes.
Lemma writes_aclAuthMethodSetTxn idx m : framed R (aclAuthMethodSetTxn idx m).
Proof using Type*. unfold aclAuthMethodSetTxn. writes_tac. Qed.
#[local] Hint Resolve writes_aclAuthMethodSetTxn : writes.
Lemma writes_aclAuthMethodBatchSetTxn idx m : framed R (aclAuthMethodBatchSetTxn idx m).
Proof using Type*. unfold aclAuthMethodBatchSetTxn. writes_tac. Qed.
#[local] Hint Resolve writes_aclAuthMethodBatchSetTxn : writes.
Lemma writes_aclAuthMethodDeleteTxn idx m : framed R (aclAuthMethodDeleteTxn idx m).
Proof using Type*. unfold aclAuthMethodDeleteTxn. writes_tac. Qed.
#[local] Hint Resolve writes_aclAuthMethodDeleteTxn : writes.
Lemma writes_aclAuthMethodBatchDeleteTxn idx m : framed R (aclAuthMethodBatchDeleteTxn idx m).
Proof using Type*. unfold aclAuthMethodBatchDeleteTxn. writes_tac. Qed.
#[local] Hint Resolve writes_aclAuthMethodBatchDeleteTxn : writes.
End acl.
#[export] Hint Resolve writes_aclTokenBatchSetTxn writes_aclBootstrapTxn writes_aclTokenSetTxn writes_aclTokenDeleteTxn
  writes_aclPolicyBatchSetTxn writes_aclPolicyBatchDeleteTxn writes_aclRoleBatchSetTxn
  writes_aclRoleBatchDeleteTxn writes_aclBindingRuleBatchSetTxn writes_aclBindingRuleBatchDeleteTxn
  writes_aclAuthMethodBatchSetTxn writes_aclAuthMethodBatchDeleteTxn : writes.

(** ** Config entries *)

Section config.
Context (R : txn → txn → Prop) `{FrameTx R}.
Context `{CompilerEnv}.
Lemma writes_get_entry {A} kind (cast : ConfigEntry → option A) name o : framed R (get_entry kind cast name o).
Proof using Type*. unfold get_entry, configEntryWithOverridesTxn, configEntryTxn. writes_tac. Qed.
#[local] Hint Resolve writes_get_entry : writes.
Lemma writes_drain {A} (fetch : string → Tx (N * option A)) related :
  (∀ name, framed R (fetch name)) → ∀ fuel todo fetched, framed R (drain fuel fetch related todo fetched).
Proof using Type*. intros Hf. induction fuel as [|fuel IH]; intros todo fetched; simpl; writes_tac. Qed.
#[local] Hint Resolve writes_drain : writes.
Lemma writes_readDiscoveryChainConfigEntriesTxn name o : framed R (readDiscoveryChainConfigEntriesTxn name o).
Proof using Type*.
  unfold readDiscoveryChainConfigEntriesTxn, getProxyConfigEntryTxn, getRouterConfigEntryTxn,
    getSplitterConfigEntryTxn, getResolverConfigEntryTxn, getServiceConfigEntryTxn. writes_tac.
Qed.
#[local] Hint Resolve writes_readDiscoveryChainConfigEntriesTxn : writes.
Lemma writes_testCompileDiscoveryChain name o : framed R (testCompileDiscoveryChain name o).
Proof using Type*. unfold testCompileDiscoveryChain. writes_tac. Qed.
#[local] Hint Resolve writes_testCompileDiscoveryChain : writes.
Lemma writes_check_chains name all : framed R (check_chains name all).
Proof using Type*. unfold check_chains, configEntriesByKindTxn. writes_tac. Qed.
#[local] Hint Resolve writes_check_chains : writes.
Lemma writes_validateProposedConfigEntryInGraph kind name next :
  framed R (validateProposedConfigEntryInGraph kind name next).
Proof using Type*.
  unfold validateProposedConfigEntryInGraph, validateProposedConfigEntryInServiceGraph. writes_tac.
Qed.
#[local] Hint Resolve writes_validateProposedConfigEntryInGraph : writes.
Context `{!FrameTable R IndexEntry, !FrameTable R ConfigEntry}.
Lemma writes_ensureConfigEntryTxn idx c : framed R (ensureConfigEntryTxn idx c).
Proof using Type*. unfold ensureConfigEntryTxn. writes_tac. Qed.
#[local] Hint Resolve writes_ensureConfigEntryTxn : writes.
Lemma writes_ensureConfigEntryCASTxn idx i c : framed R (ensureConfigEntryCASTxn idx i c).
Proof using Type*. unfold ensureConfigEntryCASTxn. writes_tac. Qed.
Lemma writes_deleteConfigEntryTxn idx kind name : framed R (deleteConfigEntryTxn idx kind name).
Proof using Type*. unfold deleteConfigEntryTxn. writes_tac. Qed.
End config.
#[export] Hint Resolve writes_get_entry writes_validateProposedConfigEntryInGraph writes_ensureConfigEntryTxn
  writes_ensureConfigEntryCASTxn writes_deleteConfigEntryTxn : writes.

(** ** Transactions *)

Section txn.
Context (R : txn → txn → Prop) `{FrameTx R}.
Lemma writes_deref {A} (p : option A) : framed R (deref p).
Proof using Type*. destruct p; simpl; writes_tac. Qed.
#[local] Hint Resolve writes_deref : writes.
Hypothesis Hset : ∀ idx x, framed R (intentionSetTxn idx x).
Hypothesis Hdelete : ∀ idx x, framed R (intentionDeleteTxn idx x).
Context `{!FrameTable R IndexEntry, !FrameTable R DirEntry, !FrameTable R Tombstone, !FrameTable R Session, !FrameTable R sessionCheck, !FrameTable R Node, !FrameTable R ServiceNode, !FrameTable R HealthCheck, !FrameTable R Coordinate, !FrameTable R PreparedQuery}.
Lemma writes_txnIntention idx o : framed R (txnIntention idx o).
Proof using Type*. unfold txnIntention. writes_tac. Qed.
#[local] Hint Resolve writes_txnIntention : writes.
Lemma writes_txnOp idx o : framed R (txnOp idx o).
Proof using Type*. unfold txnOp. writes_tac. Qed.
#[local] Hint Resolve writes_txnOp : writes.
Lemma writes_txn_loop idx i ops : framed R (txn_loop idx i ops).
Proof using Type*. revert i. induction ops as [|op ops IH]; intros i; simpl; writes_tac. Qed.
#[local] Hint Resolve writes_txn_loop : writes.
Lemma writes_txnDispatch idx ops : framed R (txnDispatch idx ops).
Proof using Type*. unfold txnDispatch. writes_tac. Qed.
End txn.

(** ** The transactions of the state machine *)

Inductive store_txn (ext : externals) : ∀ {A}, Tx A → Prop :=
| st_kvsSet idx e : store_txn ext (kvsSetTxn idx e false)
| st_kvsDelete idx k : store_txn ext (kvsDeleteTxn idx k)
| st_kvsDeleteCAS idx c k : store_txn ext (kvsDeleteCASTxn idx c k)
| st_kvsDeleteTree idx k : store_txn ext (kvsDeleteTreeTxn idx k)
| st_kvsSetCAS idx e : store_txn ext (kvsSetCASTxn idx e)
| st_kvsLock idx e : store_txn ext (kvsLockTxn idx e)
| st_kvsUnlock idx e : store_txn ext (kvsUnlockTxn idx e)
| st_reap idx : store_txn ext (Graveyard_ReapTxn idx)
| st_sessionCreate idx x : store_txn ext (sessionCreateTxn idx x)
| st_sessionDestroy idx x : store_txn ext (deleteSessionTxn idx x)
| st_coordinates idx l : store_txn ext (coordinateBatchTxn idx l)
| st_querySet idx q : store_txn ext (preparedQuerySetTxn ext idx q)
| st_queryDelete idx q : store_txn ext (mwrap "failed prepared query delete" (preparedQueryDeleteTxn idx q))
| st_registration idx r : store_txn ext (ensureRegistrationTxn idx r)
| st_deleteService idx n s : store_txn ext (deleteServiceTxn idx n s)
| st_deleteCheck idx n c : store_txn ext (deleteCheckTxn idx n c)
| st_deleteNode idx n : store_txn ext (deleteNodeTxn idx n)
| st_txn idx ops : store_txn ext (txnDispatch idx ops)
| st_autopilotSet idx c : store_txn ext (autopilotSetConfigTxn idx c)
| st_autopilotCAS idx i c : store_txn ext (autopilotCASConfigTxn idx i c)
| st_intentionSet idx x : store_txn ext (intentionSetTxn idx x)
| st_intentionDelete idx x : store_txn ext (mwrap "failed intention delete" (intentionDeleteTxn idx x))
| st_caSetConfig idx c : store_txn ext (caSetConfigTxn idx c)
| st_caCASConfig idx i c : store_txn ext (caCheckAndSetConfigTxn idx i c)
| st_caRoots idx i rs : store_txn ext (caRootSetCASTxn idx i rs)
| st_caSetProvider idx x : store_txn ext (caSetProviderStateTxn idx x)
| st_caDeleteProvider x : store_txn ext (caDeleteProviderStateTxn x)
| st_caSerial : store_txn ext caIncrementProviderSerialNumberTxn
| st_tokenSet idx t legacy :
    store_txn ext (aclTokenSetTxn idx t false false false legacy ;;; update_acl_index idx "acl-tokens")
| st_tokenBatchSet idx ts a b c : store_txn ext (aclTokenBatchSetTxn idx ts a b c)
| st_tokenDelete idx v i : store_txn ext (aclTokenDeleteTxn idx v i)
| st_tokenBatchDelete idx l : store_txn ext (for x in l do aclTokenDeleteTxn idx x "accessor")
| st_bootstrap idx i t l : store_txn ext (aclBootstrapTxn idx i t l)
| st_policySet idx l : store_txn ext (aclPolicyBatchSetTxn idx l)
| st_policyDelete idx l : store_txn ext (aclPolicyBatchDeleteTxn idx l)
| st_roleSet idx l b : store_txn ext (aclRoleBatchSetTxn idx l b)
| st_roleDelete idx l : store_txn ext (aclRoleBatchDeleteTxn idx l)
| st_ruleSet idx l : store_txn ext (aclBindingRuleBatchSetTxn idx l)
| st_ruleDelete idx l : store_txn ext (aclBindingRuleBatchDeleteTxn idx l)
| st_methodSet idx l : store_txn ext (aclAuthMethodBatchSetTxn idx l)
| st_methodDelete idx l : store_txn ext (aclAuthMethodBatchDeleteTxn idx l)
| st_configEnsure idx c : store_txn ext (@ensureConfigEntryTxn (ext_config ext) idx c)
| st_configCAS idx i c : store_txn ext (@ensureConfigEntryCASTxn (ext_config ext) idx i c)
| st_configDelete idx kind name : store_txn ext (@deleteConfigEntryTxn (ext_config ext) idx kind name).
#[export] Hint Constructors store_txn : writes.

(** The relation that carries an invariant of the database through a write
    transaction. *)
Definition keeps (Inv : db → Prop) (s s' : txn) : Prop :=
  tx_write s = true → Inv (tx_db s) → tx_write s' = true ∧ Inv (tx_db s').
#[export] Instance keeps_frame Inv : FrameTx (keeps Inv).
Proof.
  split; [by intros s ??| |done|done].
  intros s1 s2 s3 H1 H2 Hw Hi. destruct (H1 Hw Hi). by apply H2.
Qed.
(** A table the invariant does not read. *)
Lemma keeps_table Inv {A} `{TableSchema A} `{TableOf A} :
  (∀ t d, Inv d → Inv (set_tbl t d)) → FrameTable (keeps Inv) A.
Proof.
  intros Hi. split; intros x s Hw Hs.
  - unfold tx_Insert. rewrite Hw. destruct (table_insert _ x); simpl; auto.
  - unfold tx_Delete. rewrite Hw. destruct (table_delete _ x); simpl; auto.
  - unfold tx_DeletePrefix. rewrite Hw. destruct (table_prefix x _); simpl; auto.
Qed.

Section invariant.
Context (ext : externals) (Inv : db → Prop).
Hypothesis Hkeeps : ∀ A (m : Tx A), store_txn ext m → framed (keeps Inv) m.

Definition store_keeps {A} (m : M Store A) : Prop := ∀ st, Inv (st_db st) → Inv (st_db (m st).2).
Lemma store_keeps_write {A} now c (m : Tx A) : store_txn ext m → store_keeps (write_txn now c m).
Proof using Hkeeps.
  intros Hm st Hi. unfold write_txn. destruct (Hkeeps A m Hm (begin_txn true now st)) as [_ H]; [done|done|].
  destruct (m (begin_txn true now st)) as [[a| |] tx]; simpl in *; [destruct (c a)|..]; done.
Qed.
Lemma store_keeps_abort {A} now (m : Tx A) : store_keeps (write_txn now (λ _, false) m).
Proof using Type. intros st Hi. unfold write_txn. by destruct (m _) as [[] tx]. Qed.
Lemma store_keeps_bind {A B} (m : M Store A) (k : A → M Store B) :
  store_keeps m → (∀ a, store_keeps (k a)) → store_keeps (mbind' m k).
Proof using Type.
  intros Hm Hk st Hi. unfold mbind'. specialize (Hm st Hi).
  destruct (m st) as [[a| |] st']; simpl in *; [by apply Hk|done..].
Qed.
Lemma store_keeps_same {A} (m : M Store A) : (∀ st, (m st).2 = st) → store_keeps m.
Proof using Type. intros Hm st Hi. by rewrite Hm. Qed.
Lemma deref_same {S A} (p : option A) (s : S) : (deref p s).2 = s.
Proof using Type. by destruct p. Qed.

Ltac store_keeps_step :=
  first
    [ apply store_keeps_write; solve [auto with writes nocore]
    | apply store_keeps_abort
    | apply store_keeps_same; solve [done | apply deref_same]
    | apply store_keeps_bind; [|intros ?]
    | progress cbn beta iota zeta
    | match goal with |- store_keeps (match ?x with _ => _ end) => destruct x end ].

Lemma fsm_apply_keeps now idx c : store_keeps (fsm_apply ext now idx c).
Proof using Hkeeps. destruct c; simpl; unfold_apply; repeat store_keeps_step. Qed.

Lemma fsm_run_keeps log : ∀ st, Inv (st_db st) → Inv (st_db (fsm_run ext log st).2).
Proof using Hkeeps.
  induction log as [|[[now idx] c] log IH]; intros st Hi; simpl; [done|].
  pose proof (fsm_apply_keeps now idx c st Hi) as H.
  destruct (fsm_apply ext now idx c st) as [r st']. simpl in H. specialize (IH st' H).
  destruct r; [|..]; destruct (fsm_run ext log st') as [rs st'']; done.
Qed.
End invariant.

(** A store that a server can reach from the empty one. *)
Definition reachable (st : Store) : Prop := ∃ ext log gc, st = (fsm_run ext log (NewStateStore gc)).2.
Lemma reachable_keeps (Inv : db → Prop) st :
  (∀ ext A (m : Tx A), store_txn ext m → framed (keeps Inv) m) → Inv empty_db → reachable st → Inv (st_db st).
Proof. intros Hk H0 (ext&log&gc&->). by apply (fsm_run_keeps ext Inv (Hk ext)). Qed.
