(* ===== verification/SnapshotFacts.v ===== *)
(** * Every stored object is filed under its own key

    go-memdb stores an object only when every index accepts it, so in a store
    that a server can reach each table holds objects that can be stored again,
    under the keys they give: what a snapshot needs.  Loading such a table into
    an empty one gives it back. *)

From S2P Require Import Prelude Memdb ProxyConfig Structs ConnectTables AclTables ConfigEntries Delay TombstoneGC Store Graveyard Kvs PreparedQuery.
From S2P Require Import Session Catalog Coordinate Intention ConnectCA Autopilot AclState ConfigState Txn Fsm Logic MemdbFacts StoreFacts Frames.
From S2P Require Import Snapshot.

Definition storable_row {A} `{TableSchema A} (k : string) (x : A) : Prop :=
  primary_key x = Some k ∧ check_indexes table_indexes x = Ok tt.
Definition stored_ok {A} `{TableSchema A} (t : gmap string A) : Prop := map_Forall storable_row t.

Definition table_ok (A : Type) `{TableSchema A} `{TableOf A} (d : db) : Prop := stored_ok (tbl (A := A) d).
Record well_stored (d : db) : Prop := {
  ws_DirEntry : table_ok DirEntry d;
  ws_Tombstone : table_ok Tombstone d;
  ws_IndexEntry : table_ok IndexEntry d;
  ws_Session : table_ok Session d;
  ws_sessionCheck : table_ok sessionCheck d;
  ws_Node : table_ok Node d;
  ws_ServiceNode : table_ok ServiceNode d;
  ws_HealthCheck : table_ok HealthCheck d;
  ws_Coordinate : table_ok Coordinate d;
  ws_PreparedQuery : table_ok PreparedQuery d;
  ws_Intention : table_ok Intention d;
  ws_CARoot : table_ok CARoot d;
  ws_CAConfiguration : table_ok CAConfiguration d;
  ws_CAConsulProviderState : table_ok CAConsulProviderState d;
  ws_AutopilotConfig : table_ok AutopilotConfig d;
  ws_ConfigEntry : table_ok ConfigEntry d;
  ws_ACLToken : table_ok ACLToken d;
  ws_ACLPolicy : table_ok ACLPolicy d;
  ws_ACLRole : table_ok ACLRole d;
  ws_ACLBindingRule : table_ok ACLBindingRule d;
  ws_ACLAuthMethod : table_ok ACLAuthMethod d
}.

Lemma stored_ok_insert {A} `{TableSchema A} (t : gmap string A) k x :
  stored_ok t → storable_row k x → stored_ok (<[k := x]> t).
Proof. intros. by apply map_Forall_insert_2. Qed.
Lemma stored_ok_delete {A} `{TableSchema A} (t : gmap string A) k : stored_ok t → stored_ok (delete k t).
Proof. intros. by apply map_Forall_delete. Qed.
Lemma stored_ok_keyed {A} `{TableSchema A} (t : gmap string A) : stored_ok t → keyed t.
Proof. intros Ht k x Hx. apply (Ht k x Hx). Qed.

Class WellTable (A : Type) `{TableSchema A} `{TableOf A} := {
  wt_get : ∀ d, well_stored d → stored_ok (tbl d);
  wt_set : ∀ t d, well_stored d → stored_ok t → well_stored (set_tbl t d)
}.
Ltac well_table := split; [by intros d []|intros t d [] ?; by split].
#[export] Instance well_DirEntry : WellTable DirEntry. Proof. well_table. Qed.
#[export] Instance well_Tombstone : WellTable Tombstone. Proof. well_table. Qed.
#[export] Instance well_IndexEntry : WellTable IndexEntry. Proof. well_table. Qed.
#[export] Instance well_Session : WellTable Session. Proof. well_table. Qed.
#[export] Instance well_sessionCheck : WellTable sessionCheck. Proof. well_table. Qed.
#[export] Instance well_Node : WellTable Node. Proof. well_table. Qed.
#[export] Instance well_ServiceNode : WellTable ServiceNode. Proof. well_table. Qed.
#[export] Instance well_HealthCheck : WellTable HealthCheck. Proof. well_table. Qed.
#[export] Instance well_Coordinate : WellTable Coordinate. Proof. well_table. Qed.
#[export] Instance well_PreparedQuery : WellTable PreparedQuery. Proof. well_table. Qed.
#[export] Instance well_Intention : WellTable Intention. Proof. well_table. Qed.
#[export] Instance well_CARoot : WellTable CARoot. Proof. well_table. Qed.
#[export] Instance well_CAConfiguration : WellTable CAConfiguration. Proof. well_table. Qed.
#[export] Instance well_CAConsulProviderState : WellTable CAConsulProviderState. Proof. well_table. Qed.
#[export] Instance well_AutopilotConfig : WellTable AutopilotConfig. Proof. well_table. Qed.
#[export] Instance well_ConfigEntry : WellTable ConfigEntry. Proof. well_table. Qed.
#[export] Instance well_ACLToken : WellTable ACLToken. Proof. well_table. Qed.
#[export] Instance well_ACLPolicy : WellTable ACLPolicy. Proof. well_table. Qed.
#[export] Instance well_ACLRole : WellTable ACLRole. Proof. well_table. Qed.
#[export] Instance well_ACLBindingRule : WellTable ACLBindingRule. Proof. well_table. Qed.
#[export] Instance well_ACLAuthMethod : WellTable ACLAuthMethod. Proof. well_table. Qed.

#[export] Instance keeps_well {A} `{WellTable A} : FrameTable (keeps well_stored) A.
Proof.
  split; intros x s Hw Hs.
  - destruct (tx_Insert_inv x s Hw) as [(k&?&?&->)|[_ [e ->]]]; [|done].
    split; [done|]. simpl. apply wt_set; [done|]. apply stored_ok_insert; [by apply wt_get|done].
  - unfold tx_Delete. rewrite Hw. pose proof (table_delete_inv (tbl (tx_db s)) x _ eq_refl) as Hi.
    destruct (table_delete _ x); [|done..]. destruct Hi as (k&_&_&->). split; [done|].
    simpl. apply wt_set; [done|]. by apply stored_ok_delete, wt_get.
  - unfold tx_DeletePrefix. rewrite Hw. destruct (table_prefix x _); [done|]. split; [done|]. simpl.
    apply wt_set; [done|]. intros k y Hk. rewrite lookup_delete_prefix in Hk.
    destruct (String.prefix x k); [done|]. by apply wt_get in Hk.
Qed.
Lemma keeps_well_stored ext A (m : Tx A) : store_txn ext m → framed (keeps well_stored) m.
Proof.
  destruct 1; try (apply writes_txnDispatch; [apply _|intros; by writes_tac|intros; by writes_tac|apply _..]);
    writes_tac.
Qed.
Lemma reachable_well_stored st : reachable st → well_stored (st_db st).
Proof. apply reachable_keeps; [apply keeps_well_stored|]. split; by intros ???. Qed.

(** * Loading a table from a snapshot

    [rows s D]: the transaction [s] holds the rows of [D], whatever its table
    of indexes.  A restore never fails on the rows of a well stored table, and
    loading them all into an empty table gives the table back. *)

Lemma is_ok_unit (o : outcome unit) : is_ok o → o = Ok tt.
Proof. by destruct o as [[]| |]. Qed.

(** ** Inserting a list of rows *)

Definition insert_all {A} `{TableSchema A} (l : list A) (t : gmap string A) : gmap string A :=
  fold_left (λ t x, match primary_key x with Some k => <[k := x]> t | None => t end) l t.

Lemma insert_all_lookup {A} `{TableSchema A} (l : list A) t k :
  (∃ x, x ∈ l ∧ primary_key x = Some k ∧ insert_all l t !! k = Some x) ∨
  ((∀ x, x ∈ l → primary_key x ≠ Some k) ∧ insert_all l t !! k = t !! k).
Proof.
  revert t. induction l as [|x l IH]; intros t; simpl; [right; split; [|done]; by intros ? ?%elem_of_nil|].
  destruct (IH (match primary_key x with Some k => <[k := x]> t | None => t end)) as [(y&?&?&?)|[Hn ->]].
  - left. exists y. split; [by right|done].
  - destruct (primary_key x) as [k'|] eqn:Hk.
    + destruct (decide (k' = k)) as [->|Hne].
      * left. exists x. split_and!; [by left|done|apply lookup_insert_eq].
      * right. rewrite lookup_insert_ne by done. split; [|done]. intros y [->|Hy]%elem_of_cons; [congruence|by apply Hn].
    + right. split; [|done]. intros y [->|Hy]%elem_of_cons; [congruence|by apply Hn].
Qed.
(** A table is what its rows, in any order and any number of times, make it. *)
Lemma insert_all_eq {A} `{TableSchema A} (l : list A) (t : gmap string A) :
  keyed t → (∀ x, x ∈ l ↔ ∃ k, t !! k = Some x) → insert_all l ∅ = t.
Proof.
  intros Ht Hl. apply map_eq. intros k. destruct (insert_all_lookup l ∅ k) as [(x&Hx&Hk&->)|[Hn ->]].
  - apply Hl in Hx as [k' Hx]. apply Ht in Hx as Hk'. simpl in Hk'. congruence.
  - rewrite lookup_empty. destruct (t !! k) as [x|] eqn:Hk; [|done].
    destruct (Hn x); [apply Hl; by exists k|by apply Ht in Hk].
Qed.
Lemma insert_all_prefix {A} `{TableSchema A} (t : gmap string A) :
  keyed t → insert_all (table_prefix "" t) ∅ = t.
Proof.
  intros Ht. apply insert_all_eq; [done|]. intros x. rewrite elem_of_table_prefix.
  setoid_rewrite prefix_empty. naive_solver.
Qed.

(** ** The rows of a transaction *)

Definition strip (d : db) : db := set_tbl (∅ : gmap string IndexEntry) d.
Definition rows (s : txn) (D : db) : Prop := tx_write s = true ∧ strip (tx_db s) = D.

(** The tables other than that of the indexes. *)
Class RowTable (A : Type) `{TableOf A} := {
  row_tbl : ∀ d, tbl (A := A) (strip d) = tbl d;
  row_set : ∀ (t : gmap string A) d, strip (set_tbl t d) = set_tbl t (strip d)
}.
#[export] Instance row_DirEntry : RowTable DirEntry. Proof. done. Qed.
#[export] Instance row_Tombstone : RowTable Tombstone. Proof. done. Qed.
#[export] Instance row_Session : RowTable Session. Proof. done. Qed.
#[export] Instance row_sessionCheck : RowTable sessionCheck. Proof. done. Qed.
#[export] Instance row_Node : RowTable Node. Proof. done. Qed.
#[export] Instance row_ServiceNode : RowTable ServiceNode. Proof. done. Qed.
#[export] Instance row_HealthCheck : RowTable HealthCheck. Proof. done. Qed.
#[export] Instance row_Coordinate : RowTable Coordinate. Proof. done. Qed.
#[export] Instance row_PreparedQuery : RowTable PreparedQuery. Proof. done. Qed.
#[export] Instance row_Intention : RowTable Intention. Proof. done. Qed.
#[export] Instance row_CARoot : RowTable CARoot. Proof. done. Qed.
#[export] Instance row_CAConfiguration : RowTable CAConfiguration. Proof. done. Qed.
#[export] Instance row_CAConsulProviderState : RowTable CAConsulProviderState. Proof. done. Qed.
#[export] Instance row_AutopilotConfig : RowTable AutopilotConfig. Proof. done. Qed.
#[export] Instance row_ConfigEntry : RowTable ConfigEntry. Proof. done. Qed.
#[export] Instance row_ACLToken : RowTable ACLToken. Proof. done. Qed.
#[export] Instance row_ACLPolicy : RowTable ACLPolicy. Proof. done. Qed.
#[export] Instance row_ACLRole : RowTable ACLRole. Proof. done. Qed.
#[export] Instance row_ACLBindingRule : RowTable ACLBindingRule. Proof. done. Qed.
#[export] Instance row_ACLAuthMethod : RowTable ACLAuthMethod. Proof. done. Qed.

Lemma rows_tbl {A} `{RowTable A} s D : rows s D → tbl (A := A) (tx_db s) = tbl D.
Proof. intros [_ <-]. by rewrite row_tbl. Qed.
Lemma rows_put {A} `{TableSchema A} `{RowTable A} k (x : A) s D :
  rows s D → rows (put k x s) (set_tbl (<[k := x]> (tbl D)) D).
Proof.
  intros Hr. rewrite <-(rows_tbl _ _ Hr). destruct Hr as [Hw <-]. split; [done|]. simpl. by rewrite row_set.
Qed.

(** Runs that cannot fail. *)
Definition succeeds {A} (m : Tx A) (Q : A → txn → Prop) (s : txn) : Prop := wp m Q (λ _, False) s.
Lemma succeeds_run {A} (m : Tx A) Q s : succeeds m Q s → ∃ a s', m s = (Ok a, s') ∧ Q a s'.
Proof. unfold succeeds, wp. destruct (m s) as [[a| |] s']; [eauto|done..]. Qed.

Lemma wp_bind_run {S A B} (m : M S A) (k : A → M S B) Q E s a s' :
  m s = (Ok a, s') → wp (k a) Q E s' → wp (mbind' m k) Q E s.
Proof. intros Hm Hk. unfold wp. by rewrite (run_bind_ok _ _ _ _ _ Hm). Qed.
(** Reads of the rows. *)
Lemma First_rows {A} `{RowTable A} k s D : rows s D → tx_First (A := A) k s = (Ok (tbl D !! k), s).
Proof. intros Hr. unfold tx_First, mget. by rewrite (rows_tbl _ _ Hr). Qed.
Lemma Get_rows {A} `{RowTable A} ix p s D : rows s D → tx_Get (A := A) ix p s = (Ok (table_scan ix p (tbl D)), s).
Proof. intros Hr. unfold tx_Get, mget. by rewrite (rows_tbl _ _ Hr). Qed.
Lemma GetPrefix_rows {A} `{RowTable A} p s D : rows s D → tx_GetPrefix (A := A) p s = (Ok (table_prefix p (tbl D)), s).
Proof. intros Hr. unfold tx_GetPrefix, mget. by rewrite (rows_tbl _ _ Hr). Qed.

(** What only writes indexes. *)
Definition side (m : Tx unit) : Prop := ∀ s D, rows s D → succeeds m (λ _ s', rows s' D) s.
Lemma side_ret : side (mreturn tt).
Proof. by intros s D Hr. Qed.
Lemma side_bind m1 m2 : side m1 → side m2 → side (m1 ;;; m2).
Proof.
  intros H1 H2 s D Hr. apply wp_bind. eapply wp_mono; [by apply H1| |done]. intros ? s' Hr'. by apply H2.
Qed.
Lemma side_read {A} (f : txn → A) k : (∀ a, side (k a)) → side (mbind' (mget f) k).
Proof. intros Hk s D Hr. apply wp_bind, wp_get. by apply Hk. Qed.
Lemma side_wrap fmt m : side m → side (mwrap fmt m).
Proof. intros Hm s D Hr. apply wp_wrap. by apply Hm. Qed.
Lemma side_for {A} (body : A → Tx unit) l : (∀ x, side (body x)) → side (mfor l body).
Proof. intros Hb. induction l as [|x l IH]; simpl; [apply side_ret|by apply side_bind]. Qed.
Lemma side_index_insert n i : n ≠ "" → side (index_insert n i).
Proof.
  intros Hn s D [Hw Hr]. unfold succeeds, wp. by rewrite (index_insert_run n i s Hw Hn).
Qed.
Lemma side_indexUpdateMaxTxn i n : n ≠ "" → side (indexUpdateMaxTxn i n).
Proof.
  intros Hn. apply side_read. intros ti.
  destruct ti as [e|]; [destruct (_ <? _)%N; [|apply side_ret]|]; by apply side_index_insert.
Qed.
Lemma side_update_acl_index i n : n ≠ "" → side (update_acl_index i n).
Proof. intros. by apply side_wrap, side_indexUpdateMaxTxn. Qed.
Lemma side_bump_service i n k : side (bump_service i n k).
Proof.
  apply side_bind; apply side_index_insert; [done|]. unfold serviceKindIndexName. by case_decide.
Qed.
Lemma side_updateAllServiceIndexesOfNode i n : side (updateAllServiceIndexesOfNode i n).
Proof. apply side_read. intros l. apply side_for. intros x. apply side_bump_service. Qed.

(** ** Loading rows *)

Lemma wp_for_app {S A} (body : A → M S unit) l1 l2 Q E s :
  wp (mfor l1 body) (λ _, wp (mfor l2 body) Q E) E s → wp (mfor (l1 ++ l2) body) Q E s.
Proof.
  revert s. induction l1 as [|x l1 IH]; intros s; simpl; [done|]. unfold wp, mbind'.
  destruct (body x s) as [[]s']; simpl; [apply IH|done..].
Qed.
Lemma mfor_fmap {S A B} (f : A → B) (body : B → M S unit) l : mfor (f <$> l) body = mfor l (λ x, body (f x)).
Proof. induction l as [|x l IH]; csimpl; [done|by rewrite IH]. Qed.

Section load.
Context {A : Type} `{TableSchema A} `{TableLaws A} `{!RowTable A}.

Definition loads (body : A → Tx unit) (x : A) : Prop := ∀ k s D,
  storable_row k x → rows s D → succeeds (body x) (λ _ s', rows s' (set_tbl (<[k := x]> (tbl D)) D)) s.

Lemma succeeds_Insert fmt k (x : A) s D :
  storable_row k x → rows s D →
  succeeds (mwrap fmt (tx_Insert x)) (λ _ s', rows s' (set_tbl (<[k := x]> (tbl D)) D)) s.
Proof using Type*.
  intros [Hk Hc] Hr. apply wp_wrap. unfold wp.
  rewrite (tx_Insert_ok x k s (proj1 Hr) Hk Hc). by apply rows_put.
Qed.
Lemma loads_insert fmt (rest : A → Tx unit) x :
  side (rest x) → loads (λ x, mwrap fmt (tx_Insert x) ;;; rest x) x.
Proof using Type*.
  intros Hg k s D Hx Hr. apply wp_bind. eapply wp_mono; [by apply succeeds_Insert| |done].
  intros ? s' Hr'. by apply Hg.
Qed.
Lemma loads_insert_only fmt x : loads (λ x, mwrap fmt (tx_Insert x)) x.
Proof using Type*. intros k s D Hx Hr. by apply succeeds_Insert. Qed.

Lemma succeeds_load (body : A → Tx unit) l s D :
  Forall (λ x, loads body x ∧ ∃ k, storable_row k x) l → rows s D →
  succeeds (mfor l body) (λ _ s', rows s' (set_tbl (insert_all l (tbl D)) D)) s.
Proof using Type*.
  intros Hl. revert s D. induction Hl as [|x l [Hb [k Hx]] _ IH]; intros s D Hr.
  - simpl. by rewrite set_tbl_same.
  - apply wp_bind. eapply wp_mono; [by apply (Hb k)| |done]. intros ? s' Hr'.
    eapply wp_mono; [apply IH; exact Hr'| |done]. intros ? s'' Hr''. destruct Hx as [Hk _].
    simpl. rewrite Hk. by rewrite tbl_set, set_tbl_set in Hr''.
Qed.

(** A whole table, into an empty one. *)
Lemma succeeds_load_table (body : A → Tx unit) t s D :
  map_Forall (λ _ x, loads body x) t → stored_ok t → rows s D → tbl D = ∅ →
  succeeds (mfor (table_prefix "" t) body) (λ _ s', rows s' (set_tbl t D)) s.
Proof using Type*.
  intros Hb Ht Hr HD. eapply wp_mono; [apply succeeds_load; [|done]| |done].
  - apply list.Forall_forall. intros x (k&Hx&_)%elem_of_table_prefix. split; [by apply (Hb k)|].
    exists k. by apply Ht.
  - intros ? s' Hr'. cbn beta in *. by rewrite HD, (insert_all_prefix t (stored_ok_keyed t Ht)) in Hr'.
Qed.
End load.

(** The indexes, which nothing else reads. *)
Lemma succeeds_restore_indexes t s D :
  stored_ok t → rows s D →
  succeeds (mfor (table_prefix "" t) IndexRestore) (λ _ s', rows s' D ∧ t ⊆ index (tx_db s')) s.
Proof.
  intros Ht Hr.
  assert (∀ l, (∀ x, x ∈ l → ∃ k, storable_row k x) → ∀ s, rows s D →
    succeeds (mfor l IndexRestore) (λ _ s', rows s' D ∧ index (tx_db s') = insert_all l (index (tx_db s))) s) as Hrun.
  { clear s Hr. induction l as [|e l IH]; intros Hl s Hr; [done|].
    destruct (Hl e ltac:(by left)) as [k [Hk Hc]].
    eapply wp_bind_run; [apply run_wrap_ok, (tx_Insert_ok e k s); [apply Hr|done|done]|].
    eapply wp_mono; [apply IH; [by intros y Hy; apply Hl; right|exact Hr]| |done].
    intros ? s' [? ->]. split; [done|]. simpl. by rewrite Hk. }
  eapply wp_mono; [apply Hrun; [|done]| |done].
  - intros x (k&Hx&_)%elem_of_table_prefix. exists k. by apply Ht.
  - intros ? s' [Hr' ->]. split; [done|]. apply map_subseteq_spec. intros k e Hk.
    destruct (insert_all_lookup (table_prefix "" t) (index (tx_db s)) k) as [(x&Hx&Hxk&->)|[Hn _]].
    + apply elem_of_table_prefix in Hx as (k'&Hx&_). destruct (Ht _ _ Hx) as [Hx' _]. congruence.
    + destruct (Hn e); [|by apply Ht]. apply elem_of_table_prefix. exists k. by rewrite prefix_empty.
Qed.
