(* ===== verification/KvSpec.v ===== *)
(** * Abstract specification of the key/value store

    The contract of the KV commands, without memdb: a map from keys to
    entries, a map from deleted keys (or prefixes) to the index of the
    deletion, and the two table indexes.  [None] is a command that fails and
    changes nothing. *)

From S2P Require Import Prelude Memdb ProxyConfig Structs Delay TombstoneGC Store Kvs PreparedQuery Session Catalog Coordinate Txn.
From S2P Require Import Fsm.

Record kv_abs := mkKvAbs {
  a_kv : gmap string DirEntry;
  a_tomb : gmap string N;
  a_kvs_index : option N;
  a_tomb_index : option N
}.

(** An entry can be stored when its key is not empty and its session, if any,
    is a UUID. *)
Definition storable (e : DirEntry) : bool :=
  bool_decide (de_Key e ≠ "") &&
  (bool_decide (de_Session e = "") || is_ok (uuid_parse (de_Session e))).

(** The entry that a set stores: creation index and, unless the command is a
    lock operation, session come from the entry being replaced. *)
Definition prepared (existing : option DirEntry) (idx : N) (e : DirEntry) (updateSession : bool) : DirEntry :=
  let e := de_set_indexes (match existing with Some x => de_CreateIndex x | None => idx end) idx e in
  if updateSession then e
  else de_set_session (match existing with Some x => de_Session x | None => "" end) e.

Definition unchanged (existing : option DirEntry) (e : DirEntry) : bool :=
  match existing with Some x => DirEntry_Equal x e | None => false end.

Definition spec_set (idx : N) (e : DirEntry) (updateSession : bool) (a : kv_abs) : option kv_abs :=
  let existing := a_kv a !! de_Key e in
  let e' := prepared existing idx e updateSession in
  if unchanged existing e' then Some a
  else if storable e' then
    Some (mkKvAbs (<[de_Key e := e']> (a_kv a)) (a_tomb a) (Some idx) (a_tomb_index a))
  else None.

Definition spec_delete (idx : N) (key : string) (a : kv_abs) : kv_abs :=
  match a_kv a !! key with
  | None => a
  | Some _ => mkKvAbs (delete key (a_kv a)) (<[key := idx]> (a_tomb a)) (Some idx) (Some idx)
  end.

(** [p] covers [k] when the index bytes of [k] start with [p]: for a [p]
    without NUL, when [k] starts with [p] ([covers_prefix]). *)
Definition covers (p k : string) : bool := String.prefix p (k +:+ nul).

Definition spec_delete_tree (idx : N) (p : string) (a : kv_abs) : kv_abs :=
  if decide (map_Exists (λ k _, covers p k) (a_kv a)) then
    mkKvAbs (filter (λ kx, ¬ covers p kx.1) (a_kv a))
      (if decide (p = "") then a_tomb a else <[p := idx]> (a_tomb a))
      (Some idx) (if decide (p = "") then a_tomb_index a else Some idx)
  else a.

Definition spec_cas_match (existing : option DirEntry) (mi : N) : bool :=
  match existing with
  | None => (mi =? 0)%N
  | Some x => negb (mi =? 0)%N && (mi =? de_ModifyIndex x)%N
  end.

(** [live s]: is [s] the ID of a live session?  Fails when [s] is no UUID. *)
Definition spec_lock (live : string → option bool) (idx : N) (e : DirEntry) (a : kv_abs) :
    option (bool * kv_abs) :=
  if decide (de_Session e = "") then None
  else match live (de_Session e) with
  | Some true =>
      let take (create lock : N) :=
        (λ a, (true, a)) <$> spec_set idx (de_set_indexes create idx (de_set_lock lock e)) true a in
      match a_kv a !! de_Key e with
      | None => take idx 1%N
      | Some x =>
          if decide (de_Session x = de_Session e) then take (de_CreateIndex x) (de_LockIndex x)
          else if decide (de_Session x = "") then take (de_CreateIndex x) (u64_add (de_LockIndex x) 1)
          else Some (false, a)
      end
  | _ => None
  end.

Definition spec_unlock (idx : N) (e : DirEntry) (a : kv_abs) : option (bool * kv_abs) :=
  if decide (de_Session e = "") then None
  else match a_kv a !! de_Key e with
       | Some x =>
           if decide (de_Session x = de_Session e)
           then (λ a, (true, a)) <$>
                  spec_set idx (de_set_lock (de_LockIndex x) (de_set_session "" e)) true a
           else Some (false, a)
       | None => Some (false, a)
       end.

(** The whole command, as [applyKVSOperation] dispatches it. *)
Definition spec_kv (live : string → option bool) (idx : N) (req : KVSRequest) (a : kv_abs) :
    option (response * kv_abs) :=
  let d := kr_DirEnt req in
  let key := de_Key d in
  let op := kr_Op req in
  let mi := de_ModifyIndex d in
  if decide (op = "set") then (λ a, (RNil, a)) <$> spec_set idx d false a
  else if decide (op = "delete") then Some (RNil, spec_delete idx key a)
  else if decide (op = "delete-cas") then
    match a_kv a !! key with
    | None => Some (RBool true, a)
    | Some x => if (de_ModifyIndex x =? mi)%N then Some (RBool true, spec_delete idx key a)
                else Some (RBool false, a)
    end
  else if decide (op = "delete-tree") then Some (RNil, spec_delete_tree idx key a)
  else if decide (op = "cas") then
    if spec_cas_match (a_kv a !! key) mi then (λ a, (RBool true, a)) <$> spec_set idx d false a
    else Some (RBool false, a)
  else if decide (op = "lock") then (λ '(b, a), (RBool b, a)) <$> spec_lock live idx d a
  else if decide (op = "unlock") then (λ '(b, a), (RBool b, a)) <$> spec_unlock idx d a
  else None.

(** The specification of a log of KV commands. *)
Fixpoint spec_run (live : string → option bool) (log : list (Z * N * KVSRequest)) (a : kv_abs) :
    list (option response) * kv_abs :=
  match log with
  | [] => ([], a)
  | (_, idx, req) :: log =>
      match spec_kv live idx req a with
      | Some (r, a) => let '(rs, a) := spec_run live log a in (Some r :: rs, a)
      | None => let '(rs, a) := spec_run live log a in (None :: rs, a)
      end
  end.

(** A response answers its specification. *)
Definition answers (r : outcome response) (o : option response) : Prop :=
  match o with Some resp => r = Ok resp | None => ∃ e, r = Err e end.

(** The tables that represent an abstract state. *)
Definition session_live (d : db) (s : string) : option bool :=
  match uuid_parse s with
  | Ok b => Some (bool_decide (is_Some (sessions d !! b)))
  | _ => None
  end.

Record kv_rel (d : db) (a : kv_abs) : Prop := {
  rel_kv : ∀ k, a_kv a !! k = kvs d !! string_args false k;
  rel_kv_keyed : ∀ kb e, kvs d !! kb = Some e → kb = string_args false (de_Key e) ∧ storable e;
  rel_tomb : ∀ k, a_tomb a !! k = ts_Index <$> tombstones d !! string_args false k;
  rel_kvs_index : a_kvs_index a = index_value d "kvs";
  rel_tomb_index : a_tomb_index a = index_value d "tombstones"
}.

(** The abstract state of the tables: their entries under the keys without
    the terminator of the index bytes. *)
Fixpoint strip_nul (s : string) : option string :=
  match s with
  | EmptyString => None
  | String c EmptyString => if Ascii.eqb c "000" then Some EmptyString else None
  | String c s => String c <$> strip_nul s
  end.
Definition by_key {A} (t : gmap string A) : gmap string A :=
  list_to_map (omap (λ '(kb, x), (λ k, (k, x)) <$> strip_nul kb) (map_to_list t)).
Definition kv_abs_of (d : db) : kv_abs :=
  mkKvAbs (by_key (kvs d)) (ts_Index <$> by_key (tombstones d)) (index_value d "kvs") (index_value d "tombstones").
