(* ===== verification/KvRefine.v ===== *)
(** * The key/value operations compute their specification

    First each operation, then the commands of the log and a whole log. *)

From S2P Require Import Prelude Memdb ProxyConfig Structs Delay TombstoneGC Store Graveyard Kvs PreparedQuery Session Catalog Coordinate.
From S2P Require Import Txn Fsm Logic MemdbFacts StoreFacts KvSpec.

Lemma DirEntry_key e : de_Key e ≠ "" → primary_key e = Some (string_args false (de_Key e)).
Proof. intros He. unfold primary_key. simpl. by rewrite string_index_key. Qed.

Lemma storable_spec e :
  storable e ↔ primary_key e = Some (string_args false (de_Key e)) ∧
               check_indexes table_indexes e = Ok tt.
Proof.
  unfold storable, primary_key. simpl. unfold string_index, uuid_index, is_ok.
  rewrite andb_True, orb_True. split.
  - intros [Hk Hs]. apply bool_decide_unpack in Hk. rewrite decide_False by done. split; [done|].
    case_decide; [done|]. destruct Hs as [Hs|Hs]; [by apply bool_decide_unpack in Hs|].
    by destruct (uuid_parse (de_Session e)).
  - intros [Hk Hs]. destruct (decide (de_Key e = "")); [done|]. split; [by apply bool_decide_pack|].
    destruct (decide (de_Session e = "")); [left; by apply bool_decide_pack|].
    right. by destruct (uuid_parse (de_Session e)).
Qed.
Lemma storable_key e : storable e → de_Key e ≠ "".
Proof. unfold storable. rewrite andb_True. intros [H _]. by apply bool_decide_unpack in H. Qed.
Lemma storable_indexable e : storable e ↔ indexable e.
Proof.
  rewrite storable_spec. unfold indexable. split; [intros [-> ?]; eauto|].
  intros [[k Hk] Hc]. split; [|done]. unfold primary_key in *. simpl in *.
  unfold string_index in *. by case_decide.
Qed.

Lemma insert_entry_run e s :
  tx_write s = true →
  if storable e then tx_Insert e s = (Ok tt, put (string_args false (de_Key e)) e s)
  else ∃ err, tx_Insert e s = (Err err, s).
Proof.
  intros Hw. destruct (storable e) eqn:Hs.
  - apply Is_true_true, storable_spec in Hs as [??]. by apply tx_Insert_ok.
  - destruct (tx_Insert_inv e s Hw) as [(k&Hk&Hc&_)|[_ ?]]; [|done].
    assert (storable e) as H by (apply storable_indexable; split; eauto).
    by rewrite Hs in H.
Qed.

(** ** Tables by key *)

Lemma strip_nul_spec kb k : strip_nul kb = Some k ↔ kb = k +:+ nul.
Proof.
  unfold nul. revert k. induction kb as [|c kb IH]; intros k.
  { split; [done|]. destruct k; done. }
  change (strip_nul (String c kb)) with
    (match kb with EmptyString => if Ascii.eqb c "000" then Some "" else None | _ => String c <$> strip_nul kb end).
  destruct kb as [|c' kb'].
  - destruct (Ascii.eqb_spec c "000") as [->|Hc].
    + split; [by intros [= <-]|]. destruct k as [|c' k]; [done|]. rewrite str_app_cons. intros [= -> Hk].
      by destruct k.
    + split; [done|]. destruct k as [|c' k]; [intros [= ->]; done|]. rewrite str_app_cons. intros [= -> Hk].
      by destruct k.
  - rewrite fmap_Some. split.
    + intros (k'&Hk'&->). apply IH in Hk'. by rewrite str_app_cons, Hk'.
    + destruct k as [|d k]; [done|]. rewrite str_app_cons. intros [= -> Hk]. exists k. split; [|done].
      by apply IH.
Qed.
Lemma lookup_by_key {A} (t : gmap string A) k : by_key t !! k = t !! (k +:+ nul).
Proof.
  unfold by_key. apply option_eq. intros x.
  rewrite <-elem_of_list_to_map.
  - rewrite list_elem_of_omap. split.
    + intros ([kb y]&Hin%elem_of_map_to_list&Hs). destruct (strip_nul kb) as [k'|] eqn:Hk; simplify_eq/=.
      by apply strip_nul_spec in Hk as ->.
    + intros Hx. exists (k +:+ nul, x). split; [by apply elem_of_map_to_list|].
      by rewrite (proj2 (strip_nul_spec (k +:+ nul) k) eq_refl).
  - pose proof (NoDup_fst_map_to_list t) as Hnd. revert Hnd. generalize (map_to_list t) as l.
    induction l as [|[kb y] l IH]; intros Hnd; [constructor|].
    inversion Hnd as [|?? Hn Hnd']; subst. simpl. destruct (strip_nul kb) as [k'|] eqn:Hk; [|by apply IH].
    simpl. constructor; [|by apply IH]. intros ([k2 y2]&->&Hin)%list_elem_of_fmap.
    apply list_elem_of_omap in Hin as ([kb2 y3]&Hin&Hs). destruct (strip_nul kb2) as [k3|] eqn:Hk3; simplify_eq/=.
    apply strip_nul_spec in Hk as ->. apply strip_nul_spec in Hk3 as ->.
    apply Hn. apply list_elem_of_fmap. by exists (k2 +:+ nul, y2).
Qed.

Definition kvs_keyed (t : gmap string DirEntry) : Prop :=
  map_Forall (λ kb e, kb = string_args false (de_Key e) ∧ storable e) t.
Lemma kv_rel_abs_of d : kvs_keyed (kvs d) → kv_rel d (kv_abs_of d).
Proof.
  intros Hk. split; simpl; try done.
  - intros k. by rewrite lookup_by_key.
  - intros k. by rewrite lookup_fmap, lookup_by_key.
Qed.

(** ** The inner methods, as equations *)

Definition kv_at (s : txn) (key : string) : option DirEntry := kvs (tx_db s) !! string_args false key.

Lemma kvsSetTxn_run idx e upd s :
  tx_write s = true →
  let existing := kv_at s (de_Key e) in
  let e' := prepared existing idx e upd in
  if unchanged existing e' then kvsSetTxn idx e upd s = (Ok e', s)
  else if storable e' then
    kvsSetTxn idx e upd s = (Ok e', put_index "kvs" idx (put (string_args false (de_Key e)) e' s))
  else ∃ err, kvsSetTxn idx e upd s = (Err err, s).
Proof.
  intros Hw existing e'.
  assert (kvsSetTxn idx e upd s =
          (if unchanged existing e' then mreturn e'
           else mwrap "failed inserting kvs entry" (tx_Insert e') ;;;
                index_insert "kvs" idx ;;; mreturn e') s) as -> by done.
  destruct (unchanged existing e'); [done|].
  assert (de_Key e' = de_Key e) as HK by (unfold e', prepared; by destruct upd).
  pose proof (insert_entry_run e' s Hw) as Hi. unfold mbind', mwrap.
  destruct (storable e').
  - rewrite Hi, HK. by rewrite (index_insert_run "kvs" idx).
  - destruct Hi as [err Hi]. rewrite Hi. eauto.
Qed.

Lemma Graveyard_InsertTxn_run key idx s :
  tx_write s = true → key ≠ "" →
  Graveyard_InsertTxn key idx s =
    (Ok tt, tx_push_after idx (put_index "tombstones" idx
              (put (string_args false key) (mkTombstone key idx) s))).
Proof.
  intros Hw Hk. unfold Graveyard_InsertTxn, mbind', mwrap.
  rewrite (tx_Insert_ok _ (string_args false key)); [|done| |done].
  - by rewrite index_insert_run.
  - unfold primary_key. simpl. by rewrite string_index_key.
Qed.

Lemma kvsDeleteTxn_run idx key s :
  tx_write s = true → (∀ e, kv_at s key = Some e → de_Key e = key ∧ storable e) →
  kvsDeleteTxn idx key s =
    match kv_at s key with
    | None => (Ok tt, s)
    | Some _ =>
        let s1 := tx_push_after idx (put_index "tombstones" idx
                    (put (string_args false key) (mkTombstone key idx) s)) in
        (Ok tt, put_index "kvs" idx
           (tx_set_db (set_tbl (delete (string_args false key) (kvs (tx_db s))) (tx_db s1)) s1))
    end.
Proof.
  intros Hw Hk.
  assert (kvsDeleteTxn idx key s =
    match kv_at s key with
    | None => mreturn tt
    | Some entry =>
      mwrap "failed adding to graveyard" (Graveyard_InsertTxn key idx) ;;;
      mwrap "failed deleting kvs entry" (tx_Delete entry) ;;; index_insert "kvs" idx
    end s) as -> by done.
  destruct (kv_at s key) as [e|] eqn:He; [|done].
  destruct (Hk e eq_refl) as [HK Hs]. pose proof (storable_key e Hs) as Hne. rewrite HK in Hne.
  unfold mbind', mwrap. rewrite Graveyard_InsertTxn_run by done.
  rewrite (tx_Delete_ok e (string_args false key)); [| done | | by exists e].
  - by rewrite index_insert_run.
  - apply storable_spec in Hs as [-> _]. by rewrite HK.
Qed.

(** * The KV commands refine their abstract specification

    [applyKVSOperation_refines]: on a store that represents an abstract state,
    a KV command answers what the specification answers and leads to a store
    that represents the specified state; where the specification fails the
    command fails and the tables are unchanged. *)

(** A run [r] from tables [d] implements the specified outcome [spec]. *)
Definition implements {A} (d : db) (r : outcome A * txn) (spec : option (A * kv_abs)) : Prop :=
  match spec with
  | Some (a, abs) => r.1 = Ok a ∧ kv_rel (tx_db r.2) abs ∧ kv_frame d (tx_db r.2)
  | None => ∃ e, r.1 = Err e
  end.

Section rel.
Context (d : db) (a : kv_abs) (Hrel : kv_rel d a).

Lemma rel_entry key e : kvs d !! string_args false key = Some e → de_Key e = key ∧ storable e.
Proof using Hrel.
  intros [Hk Hs]%(rel_kv_keyed d a Hrel). by apply str_nul_inj in Hk as ->.
Qed.

Lemma rel_put_entry e idx :
  storable e →
  kv_rel (mkDb (<[string_args false (de_Key e) := e]> (kvs d)) (tombstones d)
            (<[string_args true "kvs" := mkIndexEntry "kvs" idx]> (index d))
            (sessions d) (session_checks d) (nodes d) (services d) (checks d) (coordinates d)
            (prepared_queries d) (connect d) (acls d))
    (mkKvAbs (<[de_Key e := e]> (a_kv a)) (a_tomb a) (Some idx) (a_tomb_index a)).
Proof using Hrel.
  intros Hs. destruct Hrel as [H1 H2 H3 H5 H6]. split; simpl.
  - intros k. destruct (decide (k = de_Key e)) as [->|Hne]; [by rewrite !lookup_insert_eq|].
    rewrite !lookup_insert_ne; [apply H1| |done]. by intros ?%str_nul_inj.
  - intros kb e'. rewrite lookup_insert_Some. intros [[<- <-]|[_ ?]]; auto.
  - done.
  - unfold index_value. simpl. by rewrite lookup_insert_eq.
  - unfold index_value in *. simpl. by rewrite lookup_insert_ne.
Qed.

Lemma rel_delete_entry key idx :
  key ≠ "" →
  kv_rel (mkDb (delete (string_args false key) (kvs d))
            (<[string_args false key := mkTombstone key idx]> (tombstones d))
            (<[string_args true "kvs" := mkIndexEntry "kvs" idx]>
              (<[string_args true "tombstones" := mkIndexEntry "tombstones" idx]> (index d)))
            (sessions d) (session_checks d) (nodes d) (services d) (checks d) (coordinates d)
            (prepared_queries d) (connect d) (acls d))
    (mkKvAbs (delete key (a_kv a)) (<[key := idx]> (a_tomb a)) (Some idx) (Some idx)).
Proof using Hrel.
  intros Hne. destruct Hrel as [H1 H2 H3 H5 H6]. split; simpl.
  - intros k. destruct (decide (k = key)) as [->|Hk]; [by rewrite !lookup_delete_eq|].
    rewrite !lookup_delete_ne; [apply H1| |done]. by intros ?%str_nul_inj.
  - intros kb e' [_ ?]%lookup_delete_Some. auto.
  - intros k. destruct (decide (k = key)) as [->|Hk]; [by rewrite !lookup_insert_eq|].
    rewrite !lookup_insert_ne; [apply H3| |done]. by intros ?%str_nul_inj.
  - unfold index_value. simpl. by rewrite lookup_insert_eq.
  - unfold index_value. simpl. rewrite lookup_insert_ne by done. by rewrite lookup_insert_eq.
Qed.

Lemma rel_delete_tree idx p :
  kv_rel (mkDb (table_delete_prefix p (kvs d))
            (if decide (p = "") then tombstones d
             else <[string_args false p := mkTombstone p idx]> (tombstones d))
            (<[string_args true "kvs" := mkIndexEntry "kvs" idx]>
              (if decide (p = "") then index d
               else <[string_args true "tombstones" := mkIndexEntry "tombstones" idx]> (index d)))
            (sessions d) (session_checks d) (nodes d) (services d) (checks d) (coordinates d)
            (prepared_queries d) (connect d) (acls d))
    (mkKvAbs (filter (λ kx, ¬ covers p kx.1) (a_kv a))
       (if decide (p = "") then a_tomb a else <[p := idx]> (a_tomb a))
       (Some idx) (if decide (p = "") then a_tomb_index a else Some idx)).
Proof using Hrel.
  destruct Hrel as [H1 H2 H3 H5 H6]. split; simpl.
  - intros k. rewrite lookup_delete_prefix, <-H1. unfold string_args.
    change (String.prefix p (k +:+ nul)) with (covers p k).
    destruct (a_kv a !! k) as [e|] eqn:He; destruct (covers p k) eqn:Hc; try done.
    + apply map_lookup_filter_None. right. intros ??. simpl. rewrite Hc. simpl. tauto.
    + apply map_lookup_filter_Some. simpl. rewrite Hc. split; [done|]. simpl. tauto.
    + apply map_lookup_filter_None. by left.
    + apply map_lookup_filter_None. by left.
  - intros kb e. rewrite lookup_delete_prefix. destruct (String.prefix p kb); [done|]. apply H2.
  - intros k. case_decide as Hp; [done|].
    destruct (decide (k = p)) as [->|Hk]; [by rewrite !lookup_insert_eq|].
    rewrite !lookup_insert_ne; [apply H3| |done]. by intros ?%str_nul_inj.
  - unfold index_value. simpl. by rewrite lookup_insert_eq.
  - unfold index_value in *. simpl. rewrite lookup_insert_ne by done. case_decide; [done|].
    by rewrite lookup_insert_eq.
Qed.
End rel.

(** ** The inner methods *)

Section methods.
Context (s : txn) (a : kv_abs) (Hw : tx_write s = true) (Hrel : kv_rel (tx_db s) a).

Lemma rel_at key : kv_at s key = a_kv a !! key.
Proof using Hrel. symmetry. apply (rel_kv _ _ Hrel). Qed.

Lemma set_refines idx e upd :
  match spec_set idx e upd a with
  | Some a' => ∃ e' s', kvsSetTxn idx e upd s = (Ok e', s') ∧ kv_rel (tx_db s') a' ∧ kv_frame (tx_db s) (tx_db s')
  | None => ∃ err s', kvsSetTxn idx e upd s = (Err err, s')
  end.
Proof using Hw Hrel.
  pose proof (kvsSetTxn_run idx e upd s Hw) as Hrun. cbv zeta in Hrun.
  rewrite rel_at in Hrun. unfold spec_set.
  set (e' := prepared _ idx e upd) in *.
  assert (de_Key e' = de_Key e) as HK by (unfold e', prepared; by destruct upd).
  destruct (unchanged _ e'); [rewrite Hrun; eauto with memdb|].
  destruct (storable e') eqn:Hs; [|destruct Hrun as [err Hrun]; eauto].
  rewrite Hrun, <-HK. do 2 eexists. split; [done|]. split; [|done].
  apply (rel_put_entry _ _ Hrel). by apply Is_true_true.
Qed.

Lemma delete_refines idx key :
  ∃ s', kvsDeleteTxn idx key s = (Ok tt, s') ∧ kv_rel (tx_db s') (spec_delete idx key a) ∧
        kv_frame (tx_db s) (tx_db s').
Proof using Hw Hrel.
  rewrite kvsDeleteTxn_run; [|done|apply (rel_entry _ a Hrel)].
  unfold spec_delete. rewrite <-rel_at. destruct (kv_at s key) as [e|] eqn:He; [|eauto with memdb].
  pose proof (rel_entry _ _ Hrel _ _ He) as [<- Hs].
  eexists. split; [done|]. split; [|done].
  apply (rel_delete_entry _ _ Hrel). by apply storable_key.
Qed.

Lemma covered_iff p :
  map_Exists (λ k _, covers p k) (a_kv a) ↔ table_prefix p (kvs (tx_db s)) ≠ [].
Proof using Hrel.
  split.
  - intros (k&e&Hk&Hc) Hnil. rewrite (rel_kv _ _ Hrel) in Hk.
    apply (proj1 (table_prefix_nil _ _) Hnil) in Hk. unfold covers in Hc.
    change (string_args false k) with (k +:+ nul) in Hk. by rewrite Hk in Hc.
  - intros Hne. destruct (table_prefix p _) as [|e l] eqn:Hl; [done|].
    assert (e ∈ table_prefix p (kvs (tx_db s))) as He by (rewrite Hl; left).
    apply elem_of_table_prefix in He as (kb&Hkb&Hp).
    pose proof (rel_kv_keyed _ _ Hrel _ _ Hkb) as [-> _].
    exists (de_Key e), e. split; [by rewrite (rel_kv _ _ Hrel)|]. by apply Is_true_true.
Qed.

Lemma delete_tree_refines idx p :
  ∃ s', kvsDeleteTreeTxn idx p s = (Ok tt, s') ∧ kv_rel (tx_db s') (spec_delete_tree idx p a) ∧
        kv_frame (tx_db s) (tx_db s').
Proof using Hw Hrel.
  unfold spec_delete_tree, kvsDeleteTreeTxn, tx_DeletePrefix, mbind' at 1. rewrite Hw.
  change (tbl (tx_db s)) with (kvs (tx_db s)).
  destruct (table_prefix p (kvs (tx_db s))) as [|e l] eqn:Hl.
  { rewrite decide_False by (rewrite covered_iff, Hl; tauto). exists s. split; [done|]. auto using kv_frame_refl. }
  destruct (decide (map_Exists _ (a_kv a))) as [_|Hn]; [|destruct Hn; by rewrite covered_iff, Hl].
  set (s1 := tx_set_db _ s). unfold mbind'.
  destruct (decide (p = "")) as [->|Hp].
  - unfold mreturn. rewrite index_insert_run by done. eexists. split; [done|]. split; [|done].
    apply (rel_delete_tree _ _ Hrel idx "").
  - unfold mwrap. rewrite Graveyard_InsertTxn_run by done. rewrite index_insert_run by done.
    eexists. split; [done|]. split; [|done].
    pose proof (rel_delete_tree _ _ Hrel idx p) as H. by rewrite !decide_False in H by done.
Qed.

Lemma session_lookup_run fmt id :
  match session_live (tx_db s) id with
  | Some true => ∃ x, mwrap fmt (tx_FirstUUID (A := Session) id) s = (Ok (Some x), s)
  | Some false => mwrap fmt (tx_FirstUUID (A := Session) id) s = (Ok None, s)
  | None => ∃ e, mwrap fmt (tx_FirstUUID (A := Session) id) s = (Err e, s)
  end.
Proof using.
  unfold session_live, tx_FirstUUID, mwrap, mbind', mlift, owrap.
  pose proof (uuid_parse_no_panic id) as Hp.
  destruct (uuid_parse id) as [b|e|w]; [|by eauto|by destruct (Hp w)].
  case_bool_decide as Hb.
  - destruct Hb as [x Hx]. exists x. unfold tx_First, mget. by rewrite <-Hx.
  - apply eq_None_not_Some in Hb. unfold tx_First, mget. by rewrite <-Hb.
Qed.

(** A set inside a lock operation, which reports that it succeeded. *)
Lemma take_refines idx e :
  match (λ a, (true, a)) <$> spec_set idx e true a with
  | Some (b, a') => ∃ e' s', (let* entry := kvsSetTxn idx e true in mreturn (true, entry)) s = (Ok (b, e'), s')
      ∧ kv_rel (tx_db s') a' ∧ kv_frame (tx_db s) (tx_db s')
  | None => ∃ err s', (let* entry := kvsSetTxn idx e true in mreturn (true, entry)) s = (Err err, s')
  end.
Proof using Hw Hrel.
  pose proof (set_refines idx e true) as H. unfold mbind'.
  destruct (spec_set idx e true a); simpl.
  - destruct H as (e'&s'&->&?&?). eauto 10.
  - destruct H as (err&s'&->). eauto.
Qed.

Lemma lock_refines idx e :
  match spec_lock (session_live (tx_db s)) idx e a with
  | Some (b, a') => ∃ e' s', kvsLockTxn idx e s = (Ok (b, e'), s') ∧
      kv_rel (tx_db s') a' ∧ kv_frame (tx_db s) (tx_db s')
  | None => ∃ err s', kvsLockTxn idx e s = (Err err, s')
  end.
Proof using Hw Hrel.
  unfold spec_lock, kvsLockTxn. destruct (decide (de_Session e = "")); [by unfold mthrow; eauto|].
  pose proof (session_lookup_run "failed session lookup" (de_Session e)) as Hl.
  destruct (session_live (tx_db s) (de_Session e)) as [[]|].
  - destruct Hl as [x Hx]. rewrite (run_bind_ok _ _ _ _ _ Hx). cbn beta iota.
    rewrite (run_bind_ok (kv_First (de_Key e)) _ s (kv_at s (de_Key e)) s) by done.
    rewrite rel_at. cbn beta iota zeta. destruct (a_kv a !! de_Key e) as [x'|]; [|apply take_refines].
    destruct (decide (de_Session x' = de_Session e)) as [|Hne]; [apply take_refines|].
    destruct (decide (de_Session x' = "")) as [Hs|Hs].
    + rewrite decide_False by tauto. apply take_refines.
    + rewrite decide_True by done. unfold mreturn. eauto 10 with memdb.
  - rewrite (run_bind_ok _ _ _ _ _ Hl). unfold mthrow. eauto.
  - destruct Hl as [err Hl]. rewrite (run_bind_err _ _ _ _ _ Hl). eauto.
Qed.

Lemma unlock_refines idx e :
  match spec_unlock idx e a with
  | Some (b, a') => ∃ e' s', kvsUnlockTxn idx e s = (Ok (b, e'), s') ∧
      kv_rel (tx_db s') a' ∧ kv_frame (tx_db s) (tx_db s')
  | None => ∃ err s', kvsUnlockTxn idx e s = (Err err, s')
  end.
Proof using Hw Hrel.
  unfold spec_unlock, kvsUnlockTxn. destruct (decide (de_Session e = "")); [by unfold mthrow; eauto|].
  rewrite (run_bind_ok (kv_First (de_Key e)) _ s (kv_at s (de_Key e)) s) by done.
  rewrite rel_at. cbn beta iota zeta.
  destruct (a_kv a !! de_Key e) as [x'|]; [|unfold mreturn; eauto 10 with memdb].
  destruct (decide (de_Session x' = de_Session e)) as [|Hne]; [|unfold mreturn; eauto 10 with memdb].
  apply (take_refines idx (de_set_indexes (de_CreateIndex x') idx
                       (de_set_lock (de_LockIndex x') (de_set_session "" e)))).
Qed.
End methods.

(** ** The exported methods *)

Lemma write_txn_ok {A} now c (m : Tx A) st a tx :
  m (begin_txn true now st) = (Ok a, tx) →
  write_txn now c m st = (Ok a, if c a then commit_txn tx st else abort_txn tx st).
Proof. intros H. unfold write_txn. by rewrite H. Qed.
Lemma write_txn_err {A} now c (m : Tx A) st e tx :
  m (begin_txn true now st) = (Err e, tx) →
  write_txn now c m st = (Err e, abort_txn tx st).
Proof. intros H. unfold write_txn. by rewrite H. Qed.

(** What a KV command must do on [st] to implement [spec]. *)
Definition command_refines (st : Store) (r : outcome response * Store) (spec : option (response * kv_abs)) : Prop :=
  match spec with
  | Some (resp, a') => r.1 = Ok resp ∧ kv_rel (st_db r.2) a' ∧ kv_frame (st_db st) (st_db r.2)
  | None => (∃ e, r.1 = Err e) ∧ st_db r.2 = st_db st
  end.

Section commands.
Context (now : Z) (idx : N) (st : Store) (a : kv_abs) (Hrel : kv_rel (st_db st) a).

Lemma rnil_set_refines e :
  command_refines st (rnil (KVSSet now idx e) st) ((λ a, (RNil, a)) <$> spec_set idx e false a).
Proof using Hrel.
  pose proof (set_refines (begin_txn true now st) a eq_refl Hrel idx e false) as H.
  unfold rnil, KVSSet. destruct (spec_set idx e false a); simpl.
  - destruct H as (e'&s'&H&?&?). by rewrite (run_bind_ok _ _ _ _ _ (write_txn_ok _ _ _ _ _ _ H)).
  - destruct H as (err&s'&H). rewrite (run_bind_err _ _ _ _ _ (write_txn_err _ _ _ _ _ _ H)).
    simpl. eauto.
Qed.

Lemma rnil_delete_refines key :
  command_refines st (rnil (KVSDelete now idx key) st) (Some (RNil, spec_delete idx key a)).
Proof using Hrel.
  destruct (delete_refines (begin_txn true now st) a eq_refl Hrel idx key) as (s'&H&?&?).
  unfold rnil, KVSDelete. by rewrite (run_bind_ok _ _ _ _ _ (write_txn_ok _ _ _ _ _ _ H)).
Qed.

Lemma rnil_delete_tree_refines p :
  command_refines st (rnil (KVSDeleteTree now idx p) st) (Some (RNil, spec_delete_tree idx p a)).
Proof using Hrel.
  destruct (delete_tree_refines (begin_txn true now st) a eq_refl Hrel idx p) as (s'&H&?&?).
  unfold rnil, KVSDeleteTree. by rewrite (run_bind_ok _ _ _ _ _ (write_txn_ok _ _ _ _ _ _ H)).
Qed.

Lemma delete_cas_refines cidx key :
  command_refines st (rbool (KVSDeleteCAS now idx cidx key) st)
    (match a_kv a !! key with
     | None => Some (RBool true, a)
     | Some x => if (de_ModifyIndex x =? cidx)%N then Some (RBool true, spec_delete idx key a)
                 else Some (RBool false, a)
     end).
Proof using Hrel.
  unfold rbool, KVSDeleteCAS, mbind', write_txn, kvsDeleteCASTxn.
  set (s := begin_txn true now st).
  rewrite (run_bind_ok (kv_First key) _ s (kv_at s key) s) by done.
  rewrite (rel_at s a Hrel). destruct (a_kv a !! key) as [x|] eqn:Hx; [|by simpl].
  destruct (N.eqb_spec (de_ModifyIndex x) cidx); [|by simpl].
  destruct (delete_refines s a eq_refl Hrel idx key) as (s'&H&?&?).
  by rewrite (run_bind_ok _ _ _ _ _ H).
Qed.

Lemma set_cas_refines e :
  command_refines st (rbool_fst (KVSSetCAS now idx e) st)
    (if spec_cas_match (a_kv a !! de_Key e) (de_ModifyIndex e)
     then (λ a, (RBool true, a)) <$> spec_set idx e false a else Some (RBool false, a)).
Proof using Hrel.
  unfold rbool_fst, KVSSetCAS, mbind', write_txn, kvsSetCASTxn.
  set (s := begin_txn true now st).
  rewrite (run_bind_ok (kv_First (de_Key e)) _ s (kv_at s (de_Key e)) s) by done.
  rewrite (rel_at s a Hrel). unfold spec_cas_match.
  pose proof (set_refines s a eq_refl Hrel idx e false) as H.
  destruct (a_kv a !! de_Key e) as [x|] eqn:Hx, (N.eqb_spec (de_ModifyIndex e) 0); simpl; try done;
    [destruct (N.eqb_spec (de_ModifyIndex e) (de_ModifyIndex x)); simpl; [|done]|];
    destruct (spec_set idx e false a); simpl;
    (destruct H as (e'&s'&H&?&?) || destruct H as (err&s'&H));
    rewrite ?(run_bind_ok _ _ _ _ _ H), ?(run_bind_err _ _ _ _ _ H); simpl; eauto.
Qed.

(** Lock and unlock commit exactly when they succeed. *)
Lemma lock_cmd_refines (m : Tx (bool * DirEntry)) (spec : option (bool * kv_abs)) :
  (∀ b a', spec = Some (b, a') → b = false → a' = a) →
  match spec with
  | Some (b, a') => ∃ e' s', m (begin_txn true now st) = (Ok (b, e'), s') ∧
      kv_rel (tx_db s') a' ∧ kv_frame (st_db st) (tx_db s')
  | None => ∃ err s', m (begin_txn true now st) = (Err err, s')
  end →
  command_refines st (rbool_fst (write_txn now fst m) st) ((λ '(b, a), (RBool b, a)) <$> spec).
Proof using Hrel.
  intros Hf H. unfold rbool_fst. destruct spec as [[b a']|]; simpl.
  - destruct H as (e'&s'&H&?&?). rewrite (run_bind_ok _ _ _ _ _ (write_txn_ok _ _ _ _ _ _ H)).
    simpl. destruct b; [done|]. by rewrite (Hf false a').
  - destruct H as (err&s'&H). rewrite (run_bind_err _ _ _ _ _ (write_txn_err _ _ _ _ _ _ H)).
    simpl. eauto.
Qed.
End commands.

Lemma spec_lock_refused live idx e a b a' :
  spec_lock live idx e a = Some (b, a') → b = false → a' = a.
Proof.
  unfold spec_lock. intros H ->. repeat case_match; simplify_eq; try done;
  destruct (spec_set _ _ _ _); simplify_eq/=.
Qed.
Lemma spec_unlock_refused idx e a b a' :
  spec_unlock idx e a = Some (b, a') → b = false → a' = a.
Proof.
  unfold spec_unlock. intros H ->. repeat case_match; simplify_eq; try done;
  destruct (spec_set _ _ _ _); simplify_eq/=.
Qed.

Lemma kv_command_refines now idx req st a :
  kv_rel (st_db st) a →
  command_refines st (applyKVSOperation now idx req st)
    (spec_kv (session_live (st_db st)) idx req a).
Proof.
  intros Hrel. unfold applyKVSOperation, spec_kv. destruct req as [op d]. simpl.
  case_decide; [by apply rnil_set_refines|].
  case_decide; [by apply rnil_delete_refines|].
  case_decide; [by apply delete_cas_refines|].
  case_decide; [by apply rnil_delete_tree_refines|].
  case_decide; [by apply set_cas_refines|].
  case_decide.
  { apply (lock_cmd_refines _ _ a Hrel); [apply spec_lock_refused|].
    apply (lock_refines (begin_txn true now st) a eq_refl Hrel). }
  case_decide.
  { apply (lock_cmd_refines _ _ a Hrel); [apply spec_unlock_refused|].
    apply (unlock_refines (begin_txn true now st) a eq_refl Hrel). }
  simpl. eauto.
Qed.

Lemma kv_frame_live d d' : kv_frame d d' → session_live d' = session_live d.
Proof. intros (H&_). unfold session_live. by rewrite H. Qed.

(** C1. Refinement: from tables that represent an abstract state, any log of KV
    commands (set, delete, delete-cas, delete-tree, cas, lock, unlock, or
    anything else) is answered entry by entry as the specification says, an
    entry failing exactly where the specification fails, and ends in tables
    that represent the specified final state. *)
Theorem applyKVSOperation_refines ext log st a :
  kv_rel (st_db st) a →
  let '(rs, st') := fsm_run ext ((λ '(now, idx, req), (now, idx, KVSRequestType req)) <$> log) st in
  let '(os, a') := spec_run (session_live (st_db st)) log a in
  Forall2 answers rs os ∧ kv_rel (st_db st') a'.
Proof.
  revert st a. induction log as [|[[now idx] req] log IH]; intros st a Hrel; simpl; [done|].
  pose proof (kv_command_refines now idx req st a Hrel) as H.
  destruct (applyKVSOperation now idx req st) as [r st']. unfold command_refines in H. simpl in H.
  destruct (spec_kv _ idx req a) as [[resp a']|].
  - destruct H as (->&Hrel'&Hf). specialize (IH st' a' Hrel').
    rewrite (kv_frame_live _ _ Hf) in IH.
    destruct (fsm_run ext _ st') as [rs st''], (spec_run _ log a') as [os a''].
    destruct IH. split; [|done]. by constructor.
  - destruct H as ([e ->]&Hd). specialize (IH st' a). rewrite Hd in IH. specialize (IH Hrel).
    destruct (fsm_run ext _ st') as [rs st''], (spec_run _ log a) as [os a''].
    destruct IH. split; [|done]. constructor; [|done]. by exists e.
Qed.

Definition kv_empty : kv_abs := mkKvAbs ∅ ∅ None None.
Lemma kv_rel_empty gc : kv_rel (st_db (NewStateStore gc)) kv_empty.
Proof. split; simpl; intros; rewrite ?lookup_empty in *; done. Qed.

Definition demo_entry (key value : string) : DirEntry := mkDirEntry 0 key 0 value "" 0 0.
Definition demo_log : list (Z * N * KVSRequest) :=
  [(0%Z, 5%N, mkKVSRequest "set" (demo_entry "a/b" "1"));
   (0%Z, 6%N, mkKVSRequest "set" (demo_entry "a/c" "2"));
   (0%Z, 7%N, mkKVSRequest "delete-tree" (demo_entry "a/" ""));
   (0%Z, 8%N, mkKVSRequest "frob" (demo_entry "a/b" ""))].
Lemma applyKVSOperation_refines_witness :
  kv_rel (st_db (NewStateStore None)) kv_empty ∧
  let '(rs, st') := fsm_run sample_externals ((λ '(now, idx, req), (now, idx, KVSRequestType req)) <$> demo_log)
                      (NewStateStore None) in
  let '(os, a') := spec_run (session_live empty_db) demo_log kv_empty in
  Forall2 answers rs os ∧ kv_rel (st_db st') a'.
Proof.
  split; [apply kv_rel_empty|].
  exact (applyKVSOperation_refines sample_externals demo_log (NewStateStore None) kv_empty (kv_rel_empty None)).
Defined.
