(* ===== verification/FsmFacts.v ===== *)
(** * The state machine is deterministic

    Every operation of the store reads and writes the tables without looking
    at the clock, the lock delays or the tombstone collector, which differ from
    one server to the next. *)

From S2P Require Import Prelude Memdb ProxyConfig Structs ConnectTables AclTables Delay TombstoneGC Store Graveyard Kvs PreparedQuery Session Catalog Coordinate ConfigEntries DiscoveryFacts.
From S2P Require Import Intention ConnectCA Autopilot AclState ConfigState Txn Fsm Logic MemdbFacts StoreFacts SideFacts ConfigFacts.

Lemma det_Graveyard_InsertTxn key idx : db_det (Graveyard_InsertTxn key idx).
Proof. unfold Graveyard_InsertTxn. det_tac. Qed.
#[export] Hint Resolve det_Graveyard_InsertTxn : det.
Lemma det_kvsSetTxn idx e b : db_det (kvsSetTxn idx e b).
Proof. unfold kvsSetTxn, kv_First. det_tac. Qed.
#[export] Hint Resolve det_kvsSetTxn : det.
Lemma det_kvsDeleteTxn idx k : db_det (kvsDeleteTxn idx k).
Proof. unfold kvsDeleteTxn, kv_First. det_tac. Qed.
#[export] Hint Resolve det_kvsDeleteTxn : det.
Lemma det_set_lock_delay d k : db_det (set_lock_delay d k).
Proof. unfold set_lock_delay. det_tac. Qed.
#[export] Hint Resolve det_set_lock_delay : det.
Lemma det_preparedQueryDeleteTxn idx k : db_det (preparedQueryDeleteTxn idx k).
Proof. unfold preparedQueryDeleteTxn. det_tac. Qed.
#[export] Hint Resolve det_preparedQueryDeleteTxn : det.
Lemma det_deleteSessionTxn idx k : db_det (deleteSessionTxn idx k).
Proof. unfold deleteSessionTxn, invalidate_locks, release_key, delete_key. det_tac. Qed.
#[export] Hint Resolve det_deleteSessionTxn : det.
Lemma det_list_index p i l : db_det (list_index p i l).
Proof. unfold list_index, Graveyard_GetMaxIndexTxn. det_tac. Qed.
#[export] Hint Resolve det_list_index : det.
Lemma det_kvsGetTxn k : db_det (kvsGetTxn k).
Proof. unfold kvsGetTxn, kv_First. det_tac. Qed.
#[export] Hint Resolve det_kvsGetTxn : det.
Lemma det_kvsListTxn p : db_det (kvsListTxn p).
Proof. unfold kvsListTxn. det_tac. Qed.
#[export] Hint Resolve det_kvsListTxn : det.
Lemma det_kvsDeleteCASTxn idx c k : db_det (kvsDeleteCASTxn idx c k).
Proof. unfold kvsDeleteCASTxn, kv_First. det_tac. Qed.
#[export] Hint Resolve det_kvsDeleteCASTxn : det.
Lemma det_kvsSetCASTxn idx e : db_det (kvsSetCASTxn idx e).
Proof. unfold kvsSetCASTxn, kv_First. det_tac. Qed.
#[export] Hint Resolve det_kvsSetCASTxn : det.
Lemma det_kvsDeleteTreeTxn idx p : db_det (kvsDeleteTreeTxn idx p).
Proof. unfold kvsDeleteTreeTxn. det_tac. Qed.
#[export] Hint Resolve det_kvsDeleteTreeTxn : det.
Lemma det_kvsLockTxn idx e : db_det (kvsLockTxn idx e).
Proof. unfold kvsLockTxn, kv_First. det_tac. Qed.
#[export] Hint Resolve det_kvsLockTxn : det.
Lemma det_kvsUnlockTxn idx e : db_det (kvsUnlockTxn idx e).
Proof. unfold kvsUnlockTxn, kv_First. det_tac. Qed.
#[export] Hint Resolve det_kvsUnlockTxn : det.
Lemma det_kvsCheckSessionTxn k se : db_det (kvsCheckSessionTxn k se).
Proof. unfold kvsCheckSessionTxn, kv_First. det_tac. Qed.
#[export] Hint Resolve det_kvsCheckSessionTxn : det.
Lemma det_kvsCheckIndexTxn k i : db_det (kvsCheckIndexTxn k i).
Proof. unfold kvsCheckIndexTxn, kv_First. det_tac. Qed.
#[export] Hint Resolve det_kvsCheckIndexTxn : det.
Lemma det_Graveyard_ReapTxn i : db_det (Graveyard_ReapTxn i).
Proof. unfold Graveyard_ReapTxn. det_tac. Qed.
#[export] Hint Resolve det_Graveyard_ReapTxn : det.
Lemma det_sessionCreateTxn idx se : db_det (sessionCreateTxn idx se).
Proof. unfold sessionCreateTxn, insert_mappings. det_tac. Qed.
#[export] Hint Resolve det_sessionCreateTxn : det.
Lemma det_bump_service idx n k : db_det (bump_service idx n k).
Proof. unfold bump_service. det_tac. Qed.
#[export] Hint Resolve det_bump_service : det.
Lemma det_updateAllServiceIndexesOfNode idx n : db_det (updateAllServiceIndexesOfNode idx n).
Proof. unfold updateAllServiceIndexesOfNode. det_tac. Qed.
#[export] Hint Resolve det_updateAllServiceIndexesOfNode : det.
Lemma det_delete_check_sessions idx n c : db_det (delete_check_sessions idx n c).
Proof. unfold delete_check_sessions. det_tac. Qed.
#[export] Hint Resolve det_delete_check_sessions : det.
Lemma det_getNodeTxn n : db_det (getNodeTxn n).
Proof. unfold getNodeTxn. det_tac. Qed.
#[export] Hint Resolve det_getNodeTxn : det.
Lemma det_first_node_uuid b : db_det (first_node_uuid b).
Proof. apply (det_get (λ d, snd <$> head (filter (λ kx, bool_decide (b ∈ index_keys nodes_uuid_index kx.1 kx.2)) (map_to_list (nodes d))))). Qed.
#[export] Hint Resolve det_first_node_uuid : det.
Lemma det_getNodeIDTxn i : db_det (getNodeIDTxn i).
Proof. unfold getNodeIDTxn. det_tac. Qed.
#[export] Hint Resolve det_getNodeIDTxn : det.
Lemma det_getNodeServiceTxn n i : db_det (getNodeServiceTxn n i).
Proof. unfold getNodeServiceTxn. det_tac. Qed.
#[export] Hint Resolve det_getNodeServiceTxn : det.
Lemma det_getNodeCheckTxn n i : db_det (getNodeCheckTxn n i).
Proof. unfold getNodeCheckTxn. det_tac. Qed.
#[export] Hint Resolve det_getNodeCheckTxn : det.
Lemma det_ensureCheckTxn idx hc : db_det (ensureCheckTxn idx hc).
Proof. unfold ensureCheckTxn. det_tac. Qed.
#[export] Hint Resolve det_ensureCheckTxn : det.
Lemma det_ensureCheckCASTxn idx hc : db_det (ensureCheckCASTxn idx hc).
Proof. unfold ensureCheckCASTxn. det_tac. Qed.
#[export] Hint Resolve det_ensureCheckCASTxn : det.
Lemma det_deleteCheckTxn idx n c : db_det (deleteCheckTxn idx n c).
Proof. unfold deleteCheckTxn. det_tac. Qed.
#[export] Hint Resolve det_deleteCheckTxn : det.
Lemma det_deleteCheckCASTxn idx ci n c : db_det (deleteCheckCASTxn idx ci n c).
Proof. unfold deleteCheckCASTxn. det_tac. Qed.
#[export] Hint Resolve det_deleteCheckCASTxn : det.
Lemma det_ensureServiceTxn idx n s : db_det (ensureServiceTxn idx n s).
Proof. unfold ensureServiceTxn. det_tac. Qed.
#[export] Hint Resolve det_ensureServiceTxn : det.
Lemma det_ensureServiceCASTxn idx n s : db_det (ensureServiceCASTxn idx n s).
Proof. unfold ensureServiceCASTxn. det_tac. Qed.
#[export] Hint Resolve det_ensureServiceCASTxn : det.
Lemma det_service_removed idx n : db_det (service_removed idx n).
Proof. unfold service_removed. det_tac. Qed.
#[export] Hint Resolve det_service_removed : det.
Lemma det_deleteServiceTxn idx n s : db_det (deleteServiceTxn idx n s).
Proof. unfold deleteServiceTxn. det_tac. Qed.
#[export] Hint Resolve det_deleteServiceTxn : det.
Lemma det_deleteServiceCASTxn idx ci n s : db_det (deleteServiceCASTxn idx ci n s).
Proof. unfold deleteServiceCASTxn. det_tac. Qed.
#[export] Hint Resolve det_deleteServiceCASTxn : det.
Lemma det_deleteNodeTxn idx n : db_det (deleteNodeTxn idx n).
Proof. unfold deleteNodeTxn. det_tac. Qed.
#[export] Hint Resolve det_deleteNodeTxn : det.
Lemma det_deleteNodeCASTxn idx ci n : db_det (deleteNodeCASTxn idx ci n).
Proof. unfold deleteNodeCASTxn. det_tac. Qed.
#[export] Hint Resolve det_deleteNodeCASTxn : det.
Lemma det_ensureNoNodeWithSimilarNameTxn n b : db_det (ensureNoNodeWithSimilarNameTxn n b).
Proof. unfold ensureNoNodeWithSimilarNameTxn. det_tac. Qed.
#[export] Hint Resolve det_ensureNoNodeWithSimilarNameTxn : det.
Lemma det_ensureNodeTxn idx n : db_det (ensureNodeTxn idx n).
Proof. unfold ensureNodeTxn. det_tac. Qed.
#[export] Hint Resolve det_ensureNodeTxn : det.
Lemma det_ensureNodeCASTxn idx n : db_det (ensureNodeCASTxn idx n).
Proof. unfold ensureNodeCASTxn. det_tac. Qed.
#[export] Hint Resolve det_ensureNodeCASTxn : det.
Lemma det_ensureCheckIfNodeMatches idx n c : db_det (ensureCheckIfNodeMatches idx n c).
Proof. unfold ensureCheckIfNodeMatches. det_tac. Qed.
#[export] Hint Resolve det_ensureCheckIfNodeMatches : det.
Lemma det_ensureRegistrationTxn idx r : db_det (ensureRegistrationTxn idx r).
Proof. unfold ensureRegistrationTxn. det_tac. Qed.
#[export] Hint Resolve det_ensureRegistrationTxn : det.
Lemma det_coordinateBatchTxn idx l : db_det (coordinateBatchTxn idx l).
Proof. unfold coordinateBatchTxn. det_tac. Qed.
#[export] Hint Resolve det_coordinateBatchTxn : det.
Lemma det_preparedQuerySetTxn compile idx q : db_det (preparedQuerySetTxn compile idx q).
Proof. unfold preparedQuerySetTxn. det_tac. Qed.
#[export] Hint Resolve det_preparedQuerySetTxn : det.
Lemma det_txnKVS idx o : db_det (txnKVS idx o).
Proof. unfold txnKVS, stale, stale_unit. det_tac. Qed.
#[export] Hint Resolve det_txnKVS : det.
Lemma det_txnNode idx o : db_det (txnNode idx o).
Proof. unfold txnNode, cas_then_get, stale_unit. det_tac. Qed.
#[export] Hint Resolve det_txnNode : det.
Lemma det_txnService idx o : db_det (txnService idx o).
Proof. unfold txnService, cas_then_get, stale_unit. det_tac. Qed.
#[export] Hint Resolve det_txnService : det.
Lemma det_txnCheck idx o : db_det (txnCheck idx o).
Proof. unfold txnCheck, cas_then_get, stale_unit. det_tac. Qed.
#[export] Hint Resolve det_txnCheck : det.
Lemma det_deref {A} (p : option A) : db_det (deref p).
Proof. destruct p; simpl; det_tac. Qed.
#[export] Hint Resolve det_deref : det.
Lemma det_txnIntention idx o : db_det (txnIntention idx o).
Proof. unfold txnIntention. det_tac. Qed.
#[export] Hint Resolve det_txnIntention : det.
Lemma det_txnOp idx o : db_det (txnOp idx o).
Proof. unfold txnOp. det_tac. Qed.
#[export] Hint Resolve det_txnOp : det.
Lemma det_txn_loop idx i ops : db_det (txn_loop idx i ops).
Proof. revert i. induction ops; intros i; simpl; det_tac. Qed.
#[export] Hint Resolve det_txn_loop : det.
Lemma det_txnDispatch idx ops : db_det (txnDispatch idx ops).
Proof. unfold txnDispatch. det_tac. Qed.
#[export] Hint Resolve det_txnDispatch : det.

(** ** Commands of two replicas *)

(** The same command on two replicas, each at its own time. *)
Definition replicas_agree {A} (m1 m2 : M Store A) : Prop := ∀ st1 st2,
  st_db st1 = st_db st2 → (m1 st1).1 = (m2 st2).1 ∧ st_db (m1 st1).2 = st_db (m2 st2).2.

Lemma agree_write {A} now1 now2 c (m : Tx A) : db_det m → replicas_agree (write_txn now1 c m) (write_txn now2 c m).
Proof.
  intros Hm st1 st2 Hst. unfold write_txn.
  destruct (Hm (begin_txn true now1 st1) (begin_txn true now2 st2)) as [H1 H2]; [by split|].
  destruct (m (begin_txn true now1 st1)) as [r1 tx1], (m (begin_txn true now2 st2)) as [r2 tx2].
  simpl in *. subst r2. destruct H2 as [H2 _]. destruct r1; simpl; [destruct (c a)|..]; done.
Qed.
Lemma agree_bind {A B} (m1 m2 : M Store A) (k1 k2 : A → M Store B) :
  replicas_agree m1 m2 → (∀ a, replicas_agree (k1 a) (k2 a)) →
  replicas_agree (mbind' m1 k1) (mbind' m2 k2).
Proof.
  intros Hm Hk st1 st2 Hst. unfold mbind'. destruct (Hm st1 st2 Hst) as [H1 H2].
  destruct (m1 st1) as [[a| |] st1'], (m2 st2) as [[b| |] st2']; simplify_eq/=; auto.
  by apply Hk.
Qed.
Lemma agree_ret {A} (a : A) : replicas_agree (mreturn a) (mreturn a).
Proof. by intros st1 st2 ?. Qed.
Lemma agree_throw {A} e : replicas_agree (mthrow (A := A) e) (mthrow e).
Proof. by intros st1 st2 ?. Qed.
Lemma agree_lift {A} (o : outcome A) : replicas_agree (mlift o) (mlift o).
Proof. by intros st1 st2 ?. Qed.
Lemma agree_deref {A} (p : option A) : replicas_agree (deref p) (deref p).
Proof. by intros st1 st2 ?; destruct p. Qed.
Lemma agree_read {A} (m : Tx A) : db_det m → replicas_agree (mread (read_txn m)) (mread (read_txn m)).
Proof.
  intros Hm st1 st2 Hst. split; [|done]. simpl. unfold read_txn.
  by destruct (Hm (begin_txn false 0 st1) (begin_txn false 0 st2)).
Qed.
#[export] Hint Resolve agree_ret agree_throw agree_lift agree_deref : det.

Ltac agree_step :=
  first
    [ solve [auto with det nocore]
    | apply agree_write; solve [det_tac]
    | apply agree_read; solve [det_tac]
    | apply agree_bind; [|intros ?]
    | progress cbn beta iota zeta
    | match goal with
      | |- replicas_agree (match ?x with _ => _ end) _ => destruct x
      end ].
Ltac agree_tac := repeat agree_step.

(** Config entries are validated in an order that differs from one server to
    the next. *)
Definition replicas_similar {A} (m1 m2 : M Store A) : Prop := ∀ st1 st2,
  st_db st1 = st_db st2 → similar (m1 st1).1 (m2 st2).1 ∧
  ((∀ w, (m1 st1).1 ≠ Panic w) → (∀ w, (m2 st2).1 ≠ Panic w) → st_db (m1 st1).2 = st_db (m2 st2).2).
Lemma replicas_similar_write {A} now1 now2 c (m1 m2 : Tx A) :
  db_similar m1 m2 → replicas_similar (write_txn now1 c m1) (write_txn now2 c m2).
Proof.
  intros Hm st1 st2 Hst. unfold write_txn.
  destruct (Hm (begin_txn true now1 st1) (begin_txn true now2 st2)) as [H1 H2]; [by split|].
  destruct (m1 (begin_txn true now1 st1)) as [[a|e|w] tx1], (m2 (begin_txn true now2 st2)) as [[b|e'|w'] tx2];
    simpl in *; try done; try (split; [done|intros Hp Hq; by (destruct (Hp w) || destruct (Hq w'))]).
  subst b. split; [done|]. intros _ _. destruct (H2 I I) as [Hdb _]. by destruct (c a).
Qed.
Lemma replicas_similar_map {A B} (m1 m2 : M Store A) (f : A → B) :
  replicas_similar m1 m2 → replicas_similar (let* a := m1 in mreturn (f a)) (let* a := m2 in mreturn (f a)).
Proof.
  intros Hm st1 st2 Hst. destruct (Hm st1 st2 Hst) as [H1 H2]. unfold mbind'.
  destruct (m1 st1) as [[a|e|w] st1'], (m2 st2) as [[b|e'|w'] st2']; simpl in *; try done;
    try (split; [done|intros Hp Hq; by (destruct (Hp w) || destruct (Hq w'))]).
  - subst b. split; [done|]. intros _ _. by apply H2.
  - split; [done|]. intros _ _. by apply H2.
Qed.

Definition reorder (ext : externals) (o : nat → list string → list string) : externals :=
  mkExternals (ext_template ext) (with_order (ext_config ext) o).
Definition is_config (c : command) : Prop := match c with ConfigEntryRequestType _ => True | _ => False end.

Section replicas.
Context (ext : externals) (o1 o2 : nat → list string → list string) (H1 : fair o1) (H2 : fair o2).
Lemma agree_fsm_apply now1 now2 idx c :
  ¬ is_config c → replicas_agree (fsm_apply (reorder ext o1) now1 idx c) (fsm_apply (reorder ext o2) now2 idx c).
Proof using Type. intros Hc. destruct c; simpl in *; try done; unfold_apply; agree_tac. Qed.
Lemma similar_fsm_apply now1 now2 idx req :
  replicas_similar (applyConfigEntryOperation (reorder ext o1) now1 idx req)
                   (applyConfigEntryOperation (reorder ext o2) now2 idx req).
Proof using H1 H2.
  unfold_apply. repeat case_decide.
  - by apply replicas_similar_map, replicas_similar_write, ensure_cas_similar.
  - by apply (replicas_similar_map _ _ (λ _, RBool true)), replicas_similar_write, ensure_similar.
  - by apply (replicas_similar_map _ _ (λ _, RNil)), replicas_similar_write, delete_similar.
  - intros st1 st2 Hst. by split.
Qed.

(** The answers of two servers to a command. *)
Definition alike (c : command) (r1 r2 : outcome response) : Prop :=
  r1 = r2 ∨ (is_config c ∧ ∃ e1 e2, r1 = Err e1 ∧ r2 = Err e2).
Lemma alike_fsm_apply now1 now2 idx c st1 st2 :
  st_db st1 = st_db st2 →
  let run1 := fsm_apply (reorder ext o1) now1 idx c st1 in
  let run2 := fsm_apply (reorder ext o2) now2 idx c st2 in
  (∀ w, run1.1 ≠ Panic w) → (∀ w, run2.1 ≠ Panic w) → alike c run1.1 run2.1 ∧ st_db run1.2 = st_db run2.2.
Proof using H1 H2.
  intros Hst run1 run2 Hp1 Hp2. assert (is_config c ∨ ¬ is_config c) as [Hc|Hc] by (destruct c; simpl; auto).
  - destruct c; try done. destruct (similar_fsm_apply now1 now2 idx req st1 st2 Hst) as [Hs Hdb].
    split; [|by apply Hdb]. change run1.1 with (applyConfigEntryOperation (reorder ext o1) now1 idx req st1).1 in *.
    change run2.1 with (applyConfigEntryOperation (reorder ext o2) now2 idx req st2).1 in *.
    destruct (applyConfigEntryOperation _ now1 idx req st1).1 as [a|e|w] eqn:Ha,
      (applyConfigEntryOperation _ now2 idx req st2).1 as [b|e'|w'] eqn:Hb; simpl in Hs; try done.
    all: try (by destruct (Hp1 w)); try (by destruct (Hp2 w')).
    + left. by subst.
    + right. eauto.
  - destruct (agree_fsm_apply now1 now2 idx c Hc st1 st2 Hst). split; [by left|done].
Qed.
End replicas.

(** The loop of [ValidateMetadata] over the pairs in any order [l] succeeds
    exactly when the model does, and otherwise ends with one of the errors of
    the model; each of them is that of some order. *)
Lemma validate_pairs_bad b l :
  validate_pairs b l = match bad_pairs b l with [] => Ok tt | e :: _ => Err e end.
Proof.
  induction l as [|[k v] l IH]; [done|]. unfold bad_pairs in *. cbn [omap list_omap validate_pairs].
  assert (Hp : ∀ w, validateMetaPair k v b ≠ Panic w) by (intros w; unfold validateMetaPair; by repeat case_match).
  destruct (validateMetaPair k v b); [done..|by destruct (Hp what)].
Qed.
Lemma ValidateMetadata_any_order m b : size (default ∅ m) ≤ 64 →
  let go l := validate_pairs b l in
  (ValidateMetadata m b = Ok tt → ∀ l, l ≡ₚ map_to_list (default ∅ m) → go l = Ok tt) ∧
  (∀ errs, ValidateMetadata m b = Err (EAnyOf errs) →
    (∀ l, l ≡ₚ map_to_list (default ∅ m) → ∃ e, e ∈ errs ∧ go l = Err e) ∧
    (∀ e, e ∈ errs → ∃ l, l ≡ₚ map_to_list (default ∅ m) ∧ go l = Err e)).
Proof.
  intros Hsz go. unfold ValidateMetadata, go. destruct (Nat.ltb_spec 64 (size (default ∅ m))) as [Hlt|_]; [lia|].
  set (l0 := map_to_list (default ∅ m)).
  assert (Hp : ∀ l, l ≡ₚ l0 → bad_pairs b l ≡ₚ bad_pairs b l0) by (intros l Hl; unfold bad_pairs; by rewrite Hl).
  split.
  - intros Hok l Hl. rewrite validate_pairs_bad. specialize (Hp l Hl). destruct (bad_pairs b l0); [|done].
    by apply Permutation_nil_r in Hp as ->.
  - intros errs Herr. assert (errs = bad_pairs b l0 ∧ bad_pairs b l0 ≠ []) as [-> Hne] by (destruct (bad_pairs b l0); by simplify_eq).
    split.
    + intros l Hl. rewrite validate_pairs_bad. specialize (Hp l Hl). destruct (bad_pairs b l) as [|e es].
      { by apply symmetry, Permutation_nil_r in Hp. }
      exists e. split; [|done]. rewrite <- Hp. by left.
    + intros e He. unfold bad_pairs in He. apply list_elem_of_omap in He as (kv&Hkv&Hf).
      apply elem_of_Permutation in Hkv as [l Hl]. exists (kv :: l). split; [by rewrite Hl|].
      rewrite validate_pairs_bad. unfold bad_pairs. cbn [omap list_omap]. by rewrite Hf.
Qed.

(** C2. Replicas agree: two servers whose tables are equal and that apply the
    same log answer every entry alike and end with equal tables, whatever
    their clocks, lock delays and tombstone collectors are, and in whatever
    orders they range over maps while they validate config entries.  The
    times at which each applies an entry are arbitrary.  Answers are equal but
    for the text of two kinds of refusals: that of a config entry may name
    another of the chains that do not compile, and that of service metadata
    another of the bad pairs: the model answers with the set of all of them
    ([EAnyOf]), on which the servers agree, and the text of a server is that
    of any member ([ValidateMetadata_any_order]).  No run that panics is
    considered. *)
Theorem fsm_run_deterministic ext o1 o2 (log : list (Z * Z * N * command)) st1 st2 :
  fair o1 → fair o2 → st_db st1 = st_db st2 →
  let run1 := fsm_run (reorder ext o1) ((λ '(t1, _, idx, c), (t1, idx, c)) <$> log) st1 in
  let run2 := fsm_run (reorder ext o2) ((λ '(_, t2, idx, c), (t2, idx, c)) <$> log) st2 in
  (∀ w, Panic w ∉ run1.1) → (∀ w, Panic w ∉ run2.1) →
  Forall3 (λ entry, alike entry.2) log run1.1 run2.1 ∧ st_db run1.2 = st_db run2.2.
Proof.
  intros H1 H2. revert st1 st2. induction log as [|[[[t1 t2] idx] c] log IH]; intros st1 st2 Hst; csimpl.
  { intros _ _. split; [constructor|done]. }
  pose proof (alike_fsm_apply ext o1 o2 H1 H2 t1 t2 idx c st1 st2 Hst) as Ha. simpl in Ha.
  destruct (fsm_apply (reorder ext o1) t1 idx c st1) as [r1 st1'], (fsm_apply (reorder ext o2) t2 idx c st2) as [r2 st2'].
  simpl in Ha. specialize (IH st1' st2'). cbv zeta in IH. revert IH.
  destruct (fsm_run (reorder ext o1) _ st1') as [rs1 st1''] eqn:Hr1, (fsm_run (reorder ext o2) _ st2') as [rs2 st2''] eqn:Hr2.
  intros IH Hp1 Hp2.
  assert (∀ w, r1 ≠ Panic w) as Hq1 by (intros w ->; apply (Hp1 w); by left).
  assert (∀ w, r2 ≠ Panic w) as Hq2 by (intros w ->; apply (Hp2 w); by left).
  destruct (Ha Hq1 Hq2) as [Hal Hdb]. specialize (IH Hdb). simpl in IH.
  destruct r1 as [a|e|w], r2 as [b|e'|w'];
    try (by destruct (Hq1 w)); try (by destruct (Hq2 w')); simpl in *;
    (destruct IH as [IH1 IH2];
      [intros w Hw; apply (Hp1 w); by right|intros w Hw; apply (Hp2 w); by right|];
     split; [by constructor|done]).
Qed.

Definition demo_gc : TombstoneGC := mkTombstoneGC 900 30 true {[ 930%Z := 3%N ]} [].
Definition demo_replica_log : list (Z * Z * N * command) :=
  [(10%Z, 500%Z, 4%N, RegisterRequestType
      (mkRegisterRequest "dc1" "" "web" "10.0.0.1" None None None None [] false));
   (20%Z, 510%Z, 5%N, KVSRequestType (mkKVSRequest "set" (mkDirEntry 0 "k" 0 "v" "" 0 0)));
   (30%Z, 520%Z, 6%N, DeregisterRequestType (mkDeregisterRequest "dc1" "web" "" ""))].
Definition demo_entry_log : list (Z * Z * N * command) :=
  demo_replica_log ++ [(40%Z, 530%Z, 7%N, ConfigEntryRequestType (mkConfigEntryRequest "upsert"
    (CEResolver (mkResolver ServiceResolver "web" "v1" ∅ None ∅ 0 no_raft))))].
Lemma fsm_run_deterministic_witness :
  let run1 := fsm_run (reorder sample_externals (λ _ l, l))
                ((λ '(t1, _, idx, c), (t1, idx, c)) <$> demo_entry_log) (NewStateStore None) in
  let run2 := fsm_run (reorder sample_externals (λ _, rev (A := string)))
                ((λ '(_, t2, idx, c), (t2, idx, c)) <$> demo_entry_log)
                (mkStore empty_db (SetExpiration NewDelay "k" 0 15) (Some demo_gc)) in
  Forall3 (λ entry, alike entry.2) demo_entry_log run1.1 run2.1 ∧ st_db run1.2 = st_db run2.2.
Proof.
  assert (∀ rs : list (outcome response), forallb (λ r, match r with Panic _ => false | _ => true end) rs = true →
    ∀ w, Panic w ∉ rs) as Hnp.
  { intros rs Hrs w Hw. rewrite forallb_forall in Hrs. by specialize (Hrs _ (proj1 (list_elem_of_In _ _) Hw)). }
  apply (fsm_run_deterministic sample_externals (λ _ l, l) (λ _, rev (A := string)) demo_entry_log).
  - intros n l. reflexivity.
  - intros n l. symmetry. apply Permutation_rev.
  - reflexivity.
  - apply Hnp. vm_compute. reflexivity.
  - apply Hnp. vm_compute. reflexivity.
Defined.
