(* ===== verification/CatalogInv.v ===== *)
(** * The catalog stays consistent and the state machine never panics

    [catalog_inv]: services and checks belong to registered nodes, and the
    check of a service to a registered service.  It is what keeps
    [deleteCheckTxn] from the type assertion on a missing service.  [quiet]
    operations leave the catalog tables alone; [sound] ones preserve the
    invariant on success and on error; neither panics. *)

From S2P Require Import Prelude Memdb ProxyConfig Structs ConnectTables AclTables Delay TombstoneGC Store Graveyard Kvs PreparedQuery Session Catalog.
From S2P Require Import Coordinate Txn Fsm Logic MemdbFacts StoreFacts SideFacts.

(** ** Definitions *)

Record catalog_inv (d : db) : Prop := {
  ci_nodes : keyed (nodes d);
  ci_services : keyed (services d);
  ci_checks : keyed (checks d);
  ci_nul_free : map_Forall (λ _ n, nul_free (node_Node n)) (nodes d);
  ci_service_node : map_Forall (λ _ s, is_Some (nodes d !! node_key (sn_Node s))) (services d);
  ci_check_node : map_Forall (λ _ c, is_Some (nodes d !! node_key (hc_Node c))) (checks d);
  ci_check_service : map_Forall (λ _ c, hc_ServiceID c ≠ "" →
    is_Some (services d !! service_key (hc_Node c) (hc_ServiceID c))) (checks d)
}.
Definition cat_ok (s : txn) : Prop := tx_write s = true ∧ catalog_inv (tx_db s).

Definition same_cat (s s' : txn) : Prop :=
  tx_write s' = tx_write s ∧ nodes (tx_db s') = nodes (tx_db s) ∧
  services (tx_db s') = services (tx_db s) ∧ checks (tx_db s') = checks (tx_db s).
Definition quiet {A} (m : Tx A) : Prop := ∀ s, wp m (λ _, same_cat s) (same_cat s) s.
Definition sound {A} (m : Tx A) : Prop := ∀ s, cat_ok s → wp m (λ _, cat_ok) cat_ok s.

Lemma same_cat_refl s : same_cat s s.
Proof. by repeat split. Qed.
Lemma same_cat_trans s1 s2 s3 : same_cat s1 s2 → same_cat s2 s3 → same_cat s1 s3.
Proof. intros (?&?&?&?) (?&?&?&?). repeat split; congruence. Qed.
Lemma same_cat_ok s s' : same_cat s s' → cat_ok s → cat_ok s'.
Proof.
  intros (Hw&Hn&Hs&Hc) [Hw' [H1 H2 H3 H4 H5 H6 H7]]. split; [congruence|].
  by split; rewrite ?Hn, ?Hs, ?Hc.
Qed.

(** ** Rules *)

Lemma quiet_ret {A} (a : A) : quiet (mreturn a).
Proof. intros s. apply same_cat_refl. Qed.
Lemma quiet_throw {A} e : quiet (mthrow (A := A) e).
Proof. intros s. apply same_cat_refl. Qed.
Lemma quiet_get {A} (f : txn → A) : quiet (mget f).
Proof. intros s. apply same_cat_refl. Qed.
Lemma quiet_lift {A} (o : outcome A) : (∀ w, o ≠ Panic w) → quiet (mlift o).
Proof. intros Ho s. apply wp_lift. destruct o as [| |w]; [apply same_cat_refl..|]. by apply (Ho w). Qed.
Lemma quiet_bind {A B} (m : Tx A) (k : A → Tx B) : quiet m → (∀ a, quiet (k a)) → quiet (mbind' m k).
Proof.
  intros Hm Hk s. apply wp_bind. eapply wp_mono; [apply Hm| |done]. intros a s' Hs. cbn beta in Hs.
  eapply wp_mono; [apply Hk| |]; cbn beta; intros; by eapply same_cat_trans.
Qed.
Lemma quiet_wrap {A} fmt (m : Tx A) : quiet m → quiet (mwrap fmt m).
Proof. intros Hm s. apply wp_wrap, Hm. Qed.
Lemma quiet_for {A} (body : A → Tx unit) l : (∀ x, quiet (body x)) → quiet (mfor l body).
Proof. intros Hb. induction l; simpl; [apply quiet_ret|]. apply quiet_bind; auto. Qed.
Lemma quiet_sound {A} (m : Tx A) : quiet m → sound m.
Proof. intros Hm s Hs. eapply wp_mono; [apply Hm| |]; cbn beta; intros; by eapply same_cat_ok. Qed.

Lemma sound_bind {A B} (m : Tx A) (k : A → Tx B) : sound m → (∀ a, sound (k a)) → sound (mbind' m k).
Proof.
  intros Hm Hk s Hs. apply wp_bind. eapply wp_mono; [by apply Hm| |done]. intros a s' Hs'. by apply Hk.
Qed.
Lemma sound_wrap {A} fmt (m : Tx A) : sound m → sound (mwrap fmt m).
Proof. intros Hm s Hs. by apply wp_wrap, Hm. Qed.
Lemma sound_try {A} (m : Tx A) : sound m → sound (mtry m).
Proof. intros Hm s Hs. apply wp_try. eapply wp_mono; [by apply Hm| |]; auto. Qed.
Lemma sound_for {A} (body : A → Tx unit) l : (∀ x, sound (body x)) → sound (mfor l body).
Proof. intros Hb. induction l; simpl; [by apply quiet_sound, quiet_ret|]. apply sound_bind; auto. Qed.

(** A quiet first half: the rest starts in the same catalog. *)
Lemma wp_quiet {A B} (m : Tx A) (k : A → Tx B) Q E s :
  quiet m → (∀ s', same_cat s s' → E s') → (∀ a s', same_cat s s' → wp (k a) Q E s') → wp (mbind' m k) Q E s.
Proof. intros Hm He Hk. apply wp_bind. eapply wp_mono; [apply Hm|exact Hk|exact He]. Qed.

(** Tables outside the catalog. *)
Class Uncataloged (A : Type) `{TableOf A} := uncataloged : ∀ t d,
  nodes (set_tbl t d) = nodes d ∧ services (set_tbl t d) = services d ∧ checks (set_tbl t d) = checks d.
#[export] Instance kvs_uncataloged : Uncataloged DirEntry. Proof. done. Qed.
#[export] Instance tombstones_uncataloged : Uncataloged Tombstone. Proof. done. Qed.
#[export] Instance index_uncataloged : Uncataloged IndexEntry. Proof. done. Qed.
#[export] Instance sessions_uncataloged : Uncataloged Session. Proof. done. Qed.
#[export] Instance session_checks_uncataloged : Uncataloged sessionCheck. Proof. done. Qed.
#[export] Instance coordinates_uncataloged : Uncataloged Coordinate. Proof. done. Qed.
#[export] Instance queries_uncataloged : Uncataloged PreparedQuery. Proof. done. Qed.

Section uncataloged.
Context {A : Type} `{TableSchema A} `{Uncataloged A}.
Lemma quiet_set_tbl t s : same_cat s (tx_set_db (set_tbl t (tx_db s)) s).
Proof. by destruct (uncataloged t (tx_db s)) as (?&?&?). Qed.
Lemma quiet_Insert (x : A) : quiet (tx_Insert x).
Proof.
  intros s. unfold wp, tx_Insert. destruct (tx_write s); [|apply same_cat_refl].
  pose proof (table_insert_inv (tbl (tx_db s)) x _ eq_refl) as Hi.
  destruct (table_insert _ x); [apply quiet_set_tbl|apply same_cat_refl|done].
Qed.
Lemma quiet_Delete (x : A) : quiet (tx_Delete x).
Proof.
  intros s. unfold wp, tx_Delete. destruct (tx_write s); [|apply same_cat_refl].
  pose proof (table_delete_inv (tbl (tx_db s)) x _ eq_refl) as Hi.
  destruct (table_delete _ x); [apply quiet_set_tbl|apply same_cat_refl|done].
Qed.
Lemma quiet_DeletePrefix p : quiet (tx_DeletePrefix (A := A) p).
Proof.
  intros s. unfold wp, tx_DeletePrefix. destruct (tx_write s); [|apply same_cat_refl].
  destruct (table_prefix p _); [apply same_cat_refl|apply quiet_set_tbl].
Qed.
End uncataloged.
Lemma quiet_First {A} `{TableOf A} k : quiet (tx_First (A := A) k).
Proof. apply quiet_get. Qed.
Lemma quiet_Get {A} `{TableOf A} ix p : quiet (tx_Get (A := A) ix p).
Proof. apply quiet_get. Qed.
Lemma quiet_GetPrefix {A} `{TableOf A} p : quiet (tx_GetPrefix (A := A) p).
Proof. apply quiet_get. Qed.
Lemma quiet_FirstUnique {A} `{TableOf A} ix k : quiet (tx_FirstUnique (A := A) ix k).
Proof. apply quiet_get. Qed.
Lemma quiet_first_node_uuid b : quiet (first_node_uuid b).
Proof. apply quiet_get. Qed.
Lemma quiet_maxIndexTxn l : quiet (maxIndexTxn l).
Proof. apply quiet_get. Qed.
Lemma quiet_delay (f : txn → Delay) : quiet (mmodify (λ s, tx_set_delay (f s) s)).
Proof. intros s. by repeat split. Qed.
Lemma quiet_push i : quiet (mmodify (tx_push_after i)).
Proof. intros s. by repeat split. Qed.

(** Outcomes that are no panic. *)
Lemma owrap_no_panic {A} fmt (o : outcome A) : (∀ w, o ≠ Panic w) → ∀ w, owrap fmt o ≠ Panic w.
Proof. intros Ho w. destruct o; simpl; [done..|]. intros [= ->]. by apply (Ho w). Qed.
Lemma session_behavior_no_panic b w : session_behavior b ≠ Panic w.
Proof. unfold session_behavior. by repeat case_decide. Qed.
Lemma ParseUUID_no_panic s w : ParseUUID s ≠ Panic w.
Proof. unfold ParseUUID. by repeat case_match. Qed.
Lemma ValidateMetadata_no_panic m b w : ValidateMetadata m b ≠ Panic w.
Proof.
  unfold ValidateMetadata. by repeat case_match.
Qed.
#[export] Hint Resolve owrap_no_panic session_behavior_no_panic ParseUUID_no_panic ValidateMetadata_no_panic
  uuid_parse_no_panic : quiet.
#[export] Hint Resolve quiet_ret quiet_throw quiet_get quiet_lift quiet_wrap quiet_Insert quiet_Delete
  quiet_DeletePrefix quiet_First quiet_Get quiet_GetPrefix quiet_FirstUnique quiet_first_node_uuid
  quiet_maxIndexTxn quiet_delay quiet_push : quiet.
#[export] Hint Extern 1 (Uncataloged _) => apply _ : quiet.

Ltac quiet_step :=
  first
    [ solve [eauto 6 with quiet nocore]
    | apply quiet_bind; [|intros ?]
    | apply quiet_wrap
    | apply quiet_for; intros ?
    | progress cbn beta iota zeta
    | match goal with |- quiet (match ?x with _ => _ end) => destruct x end ].
Ltac quiet_tac := repeat quiet_step.

(** ** Quiet operations *)

Lemma quiet_FirstUUID {A} `{TableSchema A} `{TableOf A} id : quiet (tx_FirstUUID (A := A) id).
Proof. unfold tx_FirstUUID. quiet_tac. Qed.
Lemma quiet_GetUUID {A} `{TableSchema A} `{TableOf A} ix id : quiet (tx_GetUUID (A := A) ix id).
Proof. unfold tx_GetUUID. quiet_tac. Qed.
#[export] Hint Resolve quiet_FirstUUID quiet_GetUUID : quiet.
Lemma quiet_index_insert n i : quiet (index_insert n i).
Proof. unfold index_insert. quiet_tac. Qed.
#[export] Hint Resolve quiet_index_insert : quiet.
Lemma quiet_Graveyard_InsertTxn k i : quiet (Graveyard_InsertTxn k i).
Proof. unfold Graveyard_InsertTxn. quiet_tac. Qed.
#[export] Hint Resolve quiet_Graveyard_InsertTxn : quiet.
Lemma quiet_kvsSetTxn idx e b : quiet (kvsSetTxn idx e b).
Proof. unfold kvsSetTxn, kv_First. quiet_tac. Qed.
#[export] Hint Resolve quiet_kvsSetTxn : quiet.
Lemma quiet_kvsDeleteTxn idx k : quiet (kvsDeleteTxn idx k).
Proof. unfold kvsDeleteTxn, kv_First. quiet_tac. Qed.
#[export] Hint Resolve quiet_kvsDeleteTxn : quiet.
Lemma quiet_set_lock_delay d k : quiet (set_lock_delay d k).
Proof. unfold set_lock_delay. quiet_tac. Qed.
#[export] Hint Resolve quiet_set_lock_delay : quiet.
Lemma quiet_preparedQueryDeleteTxn idx k : quiet (preparedQueryDeleteTxn idx k).
Proof. unfold preparedQueryDeleteTxn. quiet_tac. Qed.
#[export] Hint Resolve quiet_preparedQueryDeleteTxn : quiet.
Lemma quiet_deleteSessionTxn idx k : quiet (deleteSessionTxn idx k).
Proof. unfold deleteSessionTxn, invalidate_locks, release_key, delete_key. quiet_tac. Qed.
#[export] Hint Resolve quiet_deleteSessionTxn : quiet.
Lemma quiet_list_index p i l : quiet (list_index p i l).
Proof. unfold list_index, Graveyard_GetMaxIndexTxn. quiet_tac. Qed.
#[export] Hint Resolve quiet_list_index : quiet.
Lemma quiet_kvsGetTxn k : quiet (kvsGetTxn k).
Proof. unfold kvsGetTxn, kv_First. quiet_tac. Qed.
#[export] Hint Resolve quiet_kvsGetTxn : quiet.
Lemma quiet_kvsListTxn p : quiet (kvsListTxn p).
Proof. unfold kvsListTxn. quiet_tac. Qed.
#[export] Hint Resolve quiet_kvsListTxn : quiet.
Lemma quiet_kvsDeleteCASTxn idx c k : quiet (kvsDeleteCASTxn idx c k).
Proof. unfold kvsDeleteCASTxn, kv_First. quiet_tac. Qed.
#[export] Hint Resolve quiet_kvsDeleteCASTxn : quiet.
Lemma quiet_kvsSetCASTxn idx e : quiet (kvsSetCASTxn idx e).
Proof. unfold kvsSetCASTxn, kv_First. quiet_tac. Qed.
#[export] Hint Resolve quiet_kvsSetCASTxn : quiet.
Lemma quiet_kvsDeleteTreeTxn idx p : quiet (kvsDeleteTreeTxn idx p).
Proof. unfold kvsDeleteTreeTxn. quiet_tac. Qed.
#[export] Hint Resolve quiet_kvsDeleteTreeTxn : quiet.
Lemma quiet_kvsLockTxn idx e : quiet (kvsLockTxn idx e).
Proof. unfold kvsLockTxn, kv_First. quiet_tac. Qed.
#[export] Hint Resolve quiet_kvsLockTxn : quiet.
Lemma quiet_kvsUnlockTxn idx e : quiet (kvsUnlockTxn idx e).
Proof. unfold kvsUnlockTxn, kv_First. quiet_tac. Qed.
#[export] Hint Resolve quiet_kvsUnlockTxn : quiet.
Lemma quiet_kvsCheckSessionTxn k x : quiet (kvsCheckSessionTxn k x).
Proof. unfold kvsCheckSessionTxn, kv_First. quiet_tac. Qed.
#[export] Hint Resolve quiet_kvsCheckSessionTxn : quiet.
Lemma quiet_kvsCheckIndexTxn k x : quiet (kvsCheckIndexTxn k x).
Proof. unfold kvsCheckIndexTxn, kv_First. quiet_tac. Qed.
#[export] Hint Resolve quiet_kvsCheckIndexTxn : quiet.
Lemma quiet_Graveyard_ReapTxn i : quiet (Graveyard_ReapTxn i).
Proof. unfold Graveyard_ReapTxn. quiet_tac. Qed.
#[export] Hint Resolve quiet_Graveyard_ReapTxn : quiet.
Lemma quiet_sessionCreateTxn idx x : quiet (sessionCreateTxn idx x).
Proof. unfold sessionCreateTxn, insert_mappings. quiet_tac. Qed.
#[export] Hint Resolve quiet_sessionCreateTxn : quiet.
Lemma quiet_coordinateBatchTxn idx l : quiet (coordinateBatchTxn idx l).
Proof. unfold coordinateBatchTxn. quiet_tac. Qed.
#[export] Hint Resolve quiet_coordinateBatchTxn : quiet.
Lemma quiet_bump_service idx n k : quiet (bump_service idx n k).
Proof. unfold bump_service. quiet_tac. Qed.
#[export] Hint Resolve quiet_bump_service : quiet.
Lemma quiet_updateAllServiceIndexesOfNode idx n : quiet (updateAllServiceIndexesOfNode idx n).
Proof. unfold updateAllServiceIndexesOfNode. quiet_tac. Qed.
#[export] Hint Resolve quiet_updateAllServiceIndexesOfNode : quiet.
Lemma quiet_delete_check_sessions idx n c : quiet (delete_check_sessions idx n c).
Proof. unfold delete_check_sessions. quiet_tac. Qed.
#[export] Hint Resolve quiet_delete_check_sessions : quiet.
Lemma quiet_service_removed idx n : quiet (service_removed idx n).
Proof. unfold service_removed. quiet_tac. Qed.
#[export] Hint Resolve quiet_service_removed : quiet.
Lemma quiet_getNodeTxn n : quiet (getNodeTxn n).
Proof. unfold getNodeTxn. quiet_tac. Qed.
#[export] Hint Resolve quiet_getNodeTxn : quiet.
Lemma quiet_getNodeIDTxn i : quiet (getNodeIDTxn i).
Proof. unfold getNodeIDTxn. quiet_tac. Qed.
#[export] Hint Resolve quiet_getNodeIDTxn : quiet.
Lemma quiet_getNodeServiceTxn n i : quiet (getNodeServiceTxn n i).
Proof. unfold getNodeServiceTxn. quiet_tac. Qed.
#[export] Hint Resolve quiet_getNodeServiceTxn : quiet.
Lemma quiet_getNodeCheckTxn n i : quiet (getNodeCheckTxn n i).
Proof. unfold getNodeCheckTxn. quiet_tac. Qed.
#[export] Hint Resolve quiet_getNodeCheckTxn : quiet.
Lemma quiet_ensureNoNodeWithSimilarNameTxn n b : quiet (ensureNoNodeWithSimilarNameTxn n b).
Proof. unfold ensureNoNodeWithSimilarNameTxn. quiet_tac. Qed.
#[export] Hint Resolve quiet_ensureNoNodeWithSimilarNameTxn : quiet.
Lemma quiet_txnKVS idx o : quiet (txnKVS idx o).
Proof. unfold txnKVS, stale, stale_unit. quiet_tac. Qed.
#[export] Hint Resolve quiet_txnKVS : quiet.
Lemma quiet_preparedQuerySetTxn compile idx q :
  (∀ q w, compile q ≠ Panic w) → quiet (preparedQuerySetTxn compile idx q).
Proof. intros Hc. unfold preparedQuerySetTxn. quiet_tac. Qed.

(** What is beside the core tables is beside the catalog. *)
Lemma quiet_aside {A} (m : Tx A) : aside m → quiet m.
Proof.
  intros Hm s. eapply wp_mono; [apply Hm|intros a s'|intros s']; cbn beta;
    by intros (?&_&_&_&_&?&?&?&_).
Qed.
#[export] Hint Extern 2 (quiet _) => apply quiet_aside; solve [auto with aside nocore] : quiet.
