(* ===== verification/ConfigSound.v ===== *)
(** * The table of config entries never crashes a validation

    [routers_ok]: every route of every stored router has a destination.  In
    such a store, and with such an entry proposed, the compilations of a
    validation return, so that writing and deleting config entries does not
    panic, and keeps the store that way. *)

From S2P Require Import Prelude Memdb ProxyConfig Structs ConnectTables AclTables ConfigEntries DiscoveryChain DiscoveryAssemble DiscoveryLoops DiscoveryFacts DiscoveryMarkers Delay TombstoneGC Store Graveyard Kvs PreparedQuery.
From S2P Require Import Session Catalog Coordinate Intention ConnectCA Autopilot AclState ConfigState Txn Fsm Logic MemdbFacts StoreFacts ConfigFacts Frames CatalogInv.

Definition routed_entry (c : ConfigEntry) : Prop :=
  match as_router c with
  | Some r => Forall (λ r, is_Some (route_Destination r)) (rtr_Routes r)
  | None => True
  end.
Definition routers_ok (d : db) : Prop := map_Forall (λ _ c, routed_entry c) (config_entries (connect d)).

Abbreviation keeps_routers := (Logic.framed (keeps routers_ok)).

Lemma routed_stamp idx existing c : routed_entry c → routed_entry (stamp_entry idx existing c).
Proof. by destruct c. Qed.

(** ** Compilations *)

(** The chain starts from the router that the lookups see. *)
Lemma chain_read_routed g name entries :
  chain_read g name (Ok entries) → (∀ c, g ServiceRouter name = Some c → routed_entry c) →
  routed (test_request name entries) entries.
Proof.
  unfold chain_read. destruct (assert_kind as_proxy _) as [proxy|e|w]; [|by intros [? ?]..].
  destruct (assert_kind as_router _) as [router|e|w] eqn:Hr; [|by intros [? ?]..].
  intros ([splitters| |]&_&H1); [|by destruct H1..]. destruct H1 as ([resolvers| |]&_&H2); [|by destruct H2..].
  destruct H2 as ([services| |]&_&H3); [|by destruct H3..]. injection H3 as ->. intros Hg rtr. simpl.
  unfold GetRouter. simpl. destruct router as [r|]; [|by rewrite lookup_empty].
  rewrite lookup_singleton_eq. intros [= ->]. destruct (g ServiceRouter name) as [c|]; [|done].
  specialize (Hg c eq_refl). unfold routed_entry in Hg. simpl in Hr.
  destruct (as_router c); by simplify_eq.
Qed.

Section verdicts.
Context `{CompilerEnvLaws}.

Lemma test_plain name entries : plain (test_request name entries).
Proof. done. Qed.
Lemma chain_verdict_no_panic g name c w :
  chain_read g name c → (∀ r, g ServiceRouter name = Some r → routed_entry r) → chain_verdict name c ≠ Panic w.
Proof.
  intros Hc Hg. destruct c as [entries|e|w']; [|done|].
  - pose proof (chain_read_routed _ _ _ Hc Hg) as Hr. simpl.
    pose proof (plain_no_panic _ _ entries (test_plain name entries) w eq_refl Hr) as Hp.
    destruct (Compile _); simpl; congruence.
  - exfalso. unfold chain_read in Hc. destruct (assert_kind as_proxy _); [|by destruct Hc..].
    destruct (assert_kind as_router _); [|by destruct Hc..].
    destruct Hc as ([]&_&Hc); [|by destruct Hc..]. destruct Hc as ([]&_&Hc); [|by destruct Hc..].
    destruct Hc as ([]&_&Hc); [done|by destruct Hc..].
Qed.

(** ** Validation *)

Lemma seen_routed d kind name next n c :
  routers_ok d → (∀ e, next = Some e → routed_entry e) →
  seen d {[(kind, name) := next]} ServiceRouter n = Some c → routed_entry c.
Proof.
  intros Hd Hnext. unfold seen. destruct (_ !! (ServiceRouter, n)) as [o|] eqn:Ho.
  - apply lookup_singleton_Some in Ho as [_ <-]. apply Hnext.
  - apply Hd.
Qed.
Lemma validate_runs kind name next s :
  routers_ok (tx_db s) → (∀ e, next = Some e → routed_entry e) →
  ∃ r, validateProposedConfigEntryInGraph kind name next s = (r, s) ∧ ∀ w, r ≠ Panic w.
Proof.
  intros Hd Hnext. unfold validateProposedConfigEntryInGraph.
  assert (∀ all, ∃ r, validateProposedConfigEntryInServiceGraph kind name next all s = (r, s) ∧ ∀ w, r ≠ Panic w) as Hg.
  { intros all. destruct (check_chains_run name all s) as [l Hl].
    destruct (validate_graph_run kind name next all s l Hl) as (r&Hr&Hv). exists r. split; [done|].
    intros w ->. destruct Hv as (n&_&c&Hc&Hw). symmetry in Hw. revert Hw.
    apply (chain_verdict_no_panic _ _ _ _ Hc). intros e He. by eapply seen_routed. }
  repeat case_decide; first [apply Hg|by eexists].
Qed.

(** ** Writes *)

(** Operations that do not panic in such a store and leave the catalog
    alone. *)
Definition calm {A} (m : Tx A) : Prop := ∀ s, routers_ok (tx_db s) → Logic.wp m (λ _, same_cat s) (same_cat s) s.
Lemma calm_quiet {A} (m : Tx A) : quiet m → calm m.
Proof using Type. by intros Hm s _. Qed.
Lemma calm_read {A B} (m : Tx A) (k : A → Tx B) :
  Logic.framed eq m → calm m → (∀ a, calm (k a)) → calm (mbind' m k).
Proof using Type.
  intros Hf Hm Hk s Hd. unfold Logic.wp, mbind'. specialize (Hm s Hd). unfold Logic.wp in Hm. specialize (Hf s).
  destruct (m s) as [[a|e|w'] s']; simpl in *; subst; [by apply Hk|done..].
Qed.
Lemma validate_reads kind name next : Logic.framed eq (validateProposedConfigEntryInGraph kind name next).
Proof.
  intros s. unfold validateProposedConfigEntryInGraph.
  assert (∀ all, s = (validateProposedConfigEntryInServiceGraph kind name next all s).2) as Hg.
  { intros all. destruct (check_chains_run name all s) as [l Hl].
    by destruct (validate_graph_run kind name next all s l Hl) as (r&->&_). }
  repeat case_decide; first [apply Hg|done].
Qed.
Lemma calm_validate kind name next :
  (∀ e, next = Some e → routed_entry e) → calm (validateProposedConfigEntryInGraph kind name next).
Proof.
  intros Hnext s Hd. destruct (validate_runs kind name next s Hd Hnext) as (r&Hr&Hp). unfold Logic.wp. rewrite Hr.
  destruct r as [a|e|w]; [apply same_cat_refl..|]. by apply (Hp w).
Qed.
#[local] Instance config_uncataloged : Uncataloged ConfigEntry. Proof. done. Qed.

Lemma calm_ensureConfigEntryTxn idx c : routed_entry c → calm (ensureConfigEntryTxn idx c).
Proof.
  intros Hc. unfold ensureConfigEntryTxn. apply calm_read; [done|by apply calm_quiet, quiet_First|].
  intros existing. apply calm_read; [apply validate_reads| |intros []].
  - apply calm_validate. intros e [= <-]. by apply routed_stamp.
  - apply calm_quiet. unfold indexUpdateMaxTxn, index_insert. quiet_tac.
Qed.
Lemma calm_ensureConfigEntryCASTxn idx i c : routed_entry c → calm (ensureConfigEntryCASTxn idx i c).
Proof.
  intros Hc. unfold ensureConfigEntryCASTxn. apply calm_read; [done|by apply calm_quiet, quiet_First|].
  intros existing. match goal with |- context [if ?b then _ else _] => destruct b end; [apply calm_quiet; quiet_tac|].
  intros s Hd. apply Logic.wp_bind. eapply Logic.wp_mono; [by apply calm_ensureConfigEntryTxn| |done]. by intros [] s' ?.
Qed.
Lemma calm_deleteConfigEntryTxn idx kind name : calm (deleteConfigEntryTxn idx kind name).
Proof.
  unfold deleteConfigEntryTxn. apply calm_read; [done|by apply calm_quiet, quiet_First|].
  intros [existing|]; [|apply calm_quiet; quiet_tac]. apply calm_read; [apply validate_reads|by apply calm_validate|intros []].
  apply calm_quiet. unfold index_insert. quiet_tac.
Qed.

(** ** Routers keep their destinations *)

Lemma routers_insert c : routed_entry c → keeps_routers (tx_Insert c).
Proof using Type.
  intros Hc s Hw Hs. destruct (tx_Insert_inv c s Hw) as [(k&Hk&_&->)|[_ [e ->]]]; [|done].
  split; [done|]. unfold routers_ok. simpl. by apply map_Forall_insert_2.
Qed.
Lemma routers_delete (c : ConfigEntry) : keeps_routers (tx_Delete c).
Proof using Type.
  intros s Hw Hs. unfold tx_Delete. rewrite Hw. pose proof (table_delete_inv (tbl (tx_db s)) c _ eq_refl) as Hi.
  destruct (table_delete _ c) as [t| |]; [|done..]. destruct Hi as (k&_&_&->).
  split; [done|]. unfold routers_ok. simpl. by apply map_Forall_delete.
Qed.
#[local] Instance routers_index : FrameTable (keeps routers_ok) IndexEntry.
Proof. by apply keeps_table. Qed.
Lemma keeps_ensureConfigEntryTxn idx c : routed_entry c → keeps_routers (ensureConfigEntryTxn idx c).
Proof.
  intros Hc. unfold ensureConfigEntryTxn. pose proof (λ e, routers_insert _ (routed_stamp idx e c Hc)) as Hi. writes_tac.
Qed.
Lemma keeps_ensureConfigEntryCASTxn idx i c : routed_entry c → keeps_routers (ensureConfigEntryCASTxn idx i c).
Proof.
  intros Hc. unfold ensureConfigEntryCASTxn. pose proof (keeps_ensureConfigEntryTxn idx c Hc). writes_tac.
Qed.
Lemma keeps_deleteConfigEntryTxn idx kind name : keeps_routers (deleteConfigEntryTxn idx kind name).
Proof. unfold deleteConfigEntryTxn. pose proof routers_delete. writes_tac. Qed.
End verdicts.
Create HintDb config.
#[export] Hint Resolve calm_ensureConfigEntryTxn calm_ensureConfigEntryCASTxn calm_deleteConfigEntryTxn
  keeps_ensureConfigEntryTxn keeps_ensureConfigEntryCASTxn keeps_deleteConfigEntryTxn : config.

(** The other tables hold no routers. *)
#[export] Hint Extern 1 (FrameTable (keeps routers_ok) _) => apply keeps_table; intros ? d H; exact H : typeclass_instances.
