(* ===== verification/ConfigProps.v ===== *)
(** * What a write of a config entry promises

    An entry is stored exactly when the chains that it can affect directly
    compile in the store that holds it, and an entry is deleted exactly when
    they compile in the store without it, as long as the names are in lower
    case.  Names that differ in case get past the validation, and so do the
    chains that reach the entry through other services. *)

From S2P Require Import Prelude Memdb ProxyConfig Structs ConnectTables AclTables ConfigEntries DiscoveryChain DiscoveryAssemble DiscoveryLoops DiscoveryFacts Delay TombstoneGC Store.
From S2P Require Import ConfigState Fsm Logic MemdbFacts StoreFacts ConfigFacts Frames ConfigSound.

Definition lower (s : string) : Prop := to_lower s = s.

(** Entries as the endpoint submits them, in lower case. *)
Record proper_entry (c : ConfigEntry) : Prop := {
  pe_kind : Kind c = GetKind c;
  pe_name : GetName c ≠ "";
  pe_lower : lower (GetName c);
  pe_related : Forall lower (related_names c);
  pe_routed : routed_entry c
}.
#[export] Instance lower_dec s : Decision (lower s).
Proof. unfold lower. apply _. Defined.
#[export] Instance routed_entry_dec c : Decision (routed_entry c).
Proof. unfold routed_entry. destruct (as_router c); apply _. Defined.
#[export] Instance proper_entry_dec c : Decision (proper_entry c).
Proof.
  refine (cast_if (decide (Kind c = GetKind c ∧ GetName c ≠ "" ∧ lower (GetName c) ∧
    Forall lower (related_names c) ∧ routed_entry c))); [by destruct_and!; split|by intros []; apply n].
Defined.
Definition proper_db (d : db) : Prop :=
  map_Forall (λ k c, k = config_key (GetKind c) (GetName c) ∧ proper_entry c) (config_entries (connect d)).

(** The store with the entry in place, and without it. *)
Definition entry_at (kind name : string) (next : option ConfigEntry) (d : db) : db :=
  set_tbl (partial_alter (λ _, next) (config_key kind name) (config_entries (connect d))) d.
(** The index of a table, raised. *)
Definition raised (table : string) (idx : N) (d : db) : db :=
  let put := set_tbl (<[string_args true table := mkIndexEntry table idx]> (index d)) d in
  match index d !! string_args true table with
  | None => put
  | Some cur => if (ie_Value cur <? idx)%N then put else d
  end.

(** The services whose chains a write checks: those of the entry and of the
    entries that link to it, or all, for the global proxy defaults. *)
Definition checked (d : db) (kind name : string) : list string :=
  if decide (kind = ProxyDefaults) then
    if decide (name = ProxyConfigGlobal)
    then GetName <$> concat (kind_entries d <$> serviceGraphKinds) else []
  else name :: (GetName <$> table_scan config_link_index (name +:+ nul) (config_entries (connect d))).

Section config.
Context `{CompilerEnvLaws}.

(** The chain of a service compiles in a store. *)
Definition compiles (d : db) (n : string) : Prop :=
  read_txn (testCompileDiscoveryChain n ∅) (mkStore d NewDelay None) = Ok tt.

(** ** Reading through overrides *)

Lemma valid_kind_nul_free kind : ValidateConfigEntryKind kind = true → nul_free kind ∧ to_lower kind = kind.
Proof.
  unfold ValidateConfigEntryKind. rewrite bool_decide_eq_true. rewrite !elem_of_cons, elem_of_nil.
  by intros [->|[->|[->|[->|[->|[]]]]]].
Qed.
Lemma GetKind_valid c : ValidateConfigEntryKind (GetKind c) = true.
Proof. by destruct c. Qed.
Lemma config_key_inj k1 k2 n1 n2 :
  ValidateConfigEntryKind k1 = true → ValidateConfigEntryKind k2 = true → lower n1 → lower n2 →
  config_key k1 n1 = config_key k2 n2 → k1 = k2 ∧ n1 = n2.
Proof.
  intros [Hf1 Hl1]%valid_kind_nul_free [Hf2 Hl2]%valid_kind_nul_free Hn1 Hn2.
  unfold config_key, string_args. rewrite Hl1, Hl2, Hn1, Hn2, !str_app_assoc.
  intros [-> Hn]%terminated_inj; [|done..]. split; [done|]. by apply str_nul_inj.
Qed.
Lemma entry_at_agree d kind name next :
  proper_db d → ValidateConfigEntryKind kind = true → lower name →
  (∀ c b, next = Some c → b ∈ related_names c → lower b) →
  agree_chain lower (seen d {[(kind, name) := next]}) (seen (entry_at kind name next d) ∅).
Proof.
  intros Hd Hkind Hname Hnext. split; [done| |].
  - intros k n Hk Hn. unfold seen. rewrite lookup_empty. simpl.
    destruct (decide ((k, n) = (kind, name))) as [[= -> ->]|Hne].
    + by rewrite lookup_singleton_eq, lookup_partial_alter_eq.
    + rewrite lookup_singleton_ne by done. rewrite lookup_partial_alter_ne; [done|].
      intros Heq. apply config_key_inj in Heq as [-> ->]; done.
  - intros k n c b Hk Hn. unfold seen. destruct (_ !! (k, n)) as [o|] eqn:Ho.
    + apply lookup_singleton_Some in Ho as [_ <-]. by apply Hnext.
    + intros Hc Hb. destruct (Hd _ _ Hc) as [_ Hp]. by eapply list.Forall_forall, Hb; apply (pe_related _ Hp).
Qed.

(** The verdicts of the two stores agree. *)
Lemma compiles_at d kind name next n c :
  proper_db d → ValidateConfigEntryKind kind = true → lower name →
  (∀ c b, next = Some c → b ∈ related_names c → lower b) → lower n →
  chain_read (seen d {[(kind, name) := next]}) n c →
  compiles (entry_at kind name next d) n ↔ chain_verdict n c = Ok tt.
Proof.
  intros Hd Hkind Hname Hnext Hn Hc. pose proof (entry_at_agree d kind name next Hd Hkind Hname Hnext) as Hag.
  apply (chain_read_on _ _ _ _ _ Hag Hn) in Hc. unfold compiles, read_txn.
  destruct (test_run n ∅ (begin_txn false 0 (mkStore (entry_at kind name next d) NewDelay None))) as (c'&Hc'&->).
  simpl in *. destruct (chain_read_same _ _ _ _ Hc Hc') as [<-|(e1&e2&->&->)]; done.
Qed.

(** ** Validation *)

Lemma checked_lower d kind name n : proper_db d → lower name → n ∈ checked d kind name → lower n.
Proof.
  intros Hd Hname. unfold checked.
  assert (∀ k c, config_entries (connect d) !! k = Some c → lower (GetName c)) as Hin.
  { intros k c Hc. apply (pe_lower _ (proj2 (Hd k c Hc))). }
  repeat case_decide.
  - intros (c&->&Hc)%list_elem_of_fmap. apply list_elem_of_In, in_concat in Hc as (l&Hl&Hc).
    apply list_elem_of_In, list_elem_of_fmap in Hl as (kd&->&_). apply list_elem_of_In in Hc.
    unfold kind_entries in Hc. case_decide;
      [apply elem_of_table_scan in Hc as (k&b&Hc&_)|apply elem_of_table_prefix in Hc as (k&Hc&_)]; by eapply Hin.
  - by intros ?%not_elem_of_nil.
  - intros [->|Hc]%elem_of_cons; [done|]. apply list_elem_of_fmap in Hc as (c&->&Hc).
    apply elem_of_table_scan in Hc as (k&b&Hc&_). by eapply Hin.
Qed.

(** Validating is compiling in the store to come. *)
Lemma validate_spec kind name next s :
  proper_db (tx_db s) → ValidateConfigEntryKind kind = true → lower name →
  (∀ c, next = Some c → routed_entry c ∧ ∀ b, b ∈ related_names c → lower b) →
  ∃ r, validateProposedConfigEntryInGraph kind name next s = (r, s) ∧
    match r with
    | Ok _ => ∀ n, n ∈ checked (tx_db s) kind name → compiles (entry_at kind name next (tx_db s)) n
    | Err _ => ∃ n, n ∈ checked (tx_db s) kind name ∧ ¬ compiles (entry_at kind name next (tx_db s)) n
    | Panic _ => False
    end.
Proof.
  intros Hd Hkind Hname Hnext.
  assert (routers_ok (tx_db s)) as Hr by (intros k c Hc; apply (pe_routed _ (proj2 (Hd k c Hc)))).
  destruct (validate_runs kind name next s Hr (λ c Hc, proj1 (Hnext c Hc))) as (r&Hrun&Hp). exists r. split; [done|].
  assert (∀ all l, check_chains name all s = (Ok l, s) → checked (tx_db s) kind name = l →
    validateProposedConfigEntryInServiceGraph kind name next all s = (r, s) →
    match r with
    | Ok _ => ∀ n, n ∈ l → compiles (entry_at kind name next (tx_db s)) n
    | Err _ => ∃ n, n ∈ l ∧ ¬ compiles (entry_at kind name next (tx_db s)) n
    | Panic _ => False
    end) as Hg.
  { intros all l Hl Hch Hall. destruct (validate_graph_run kind name next all s l Hl) as (r'&Hr'&Hv).
    rewrite Hr' in Hall. injection Hall as ->.
    assert (∀ n c, n ∈ l → chain_read (seen (tx_db s) {[(kind, name) := next]}) n c →
      compiles (entry_at kind name next (tx_db s)) n ↔ chain_verdict n c = Ok tt) as Hiff.
    { intros n c Hn. apply compiles_at; [done..|by intros c' b Hc'; apply (proj2 (Hnext c' Hc'))|].
      eapply checked_lower; [done..|]. by rewrite Hch. }
    destruct r as [[]|e|w]; [| |by destruct (Hp w)].
    - intros n Hn. destruct (Hv n Hn) as (c&Hc&Ht). by apply (Hiff n c).
    - destruct Hv as (n&t&Hn&(c&Hc&Ht)&[e' He]). exists n. split; [done|]. rewrite (Hiff n c) by done.
      rewrite <-Ht, He. done. }
  unfold checked in *. unfold validateProposedConfigEntryInGraph in Hrun.
  destruct (decide (kind = ProxyDefaults)) as [->|Hk]; [destruct (decide (name = ProxyConfigGlobal)) as [->|Hn]|].
  - rewrite decide_False in Hrun by tauto. eapply Hg; [|reflexivity|exact Hrun]. unfold check_chains.
    by rewrite (run_bind_ok _ _ _ _ _ (mmap_reads _ _ _ _ (λ kind _, kind_entries_run kind s))).
  - rewrite decide_True in Hrun by done. injection Hrun as <-. by intros n ?%not_elem_of_nil.
  - rewrite decide_True in Hrun.
    + by eapply Hg; [|reflexivity|exact Hrun].
    + unfold ValidateConfigEntryKind in Hkind. apply bool_decide_eq_true in Hkind.
      clear -Hkind Hk. rewrite !elem_of_cons in Hkind. rewrite !elem_of_cons. naive_solver.
Qed.

(** ** Writing *)

Lemma ConfigEntry_key c : Kind c = GetKind c → GetName c ≠ "" → primary_key c = Some (config_key (GetKind c) (GetName c)).
Proof.
  intros Hk Hn. unfold primary_key. cbn [table_id configTableSchema]. rewrite Hk. unfold string_index.
  rewrite decide_False by (by destruct c). by rewrite decide_False.
Qed.
Lemma ConfigEntry_indexable c : Kind c = GetKind c → check_indexes table_indexes c = Ok tt.
Proof.
  intros Hk. cbn. rewrite Hk. unfold string_index. rewrite decide_False by (by destruct c). cbn.
  unfold ConfigEntryLinkIndex_FromObject. by destruct (ListRelatedServices c) as [[]|].
Qed.
Lemma indexUpdateMax_run table idx s :
  tx_write s = true → table ≠ "" →
  indexUpdateMaxTxn idx table s = (Ok tt, tx_set_db (raised table idx (tx_db s)) s).
Proof.
  intros Hw Ht. unfold indexUpdateMaxTxn, mbind', tx_First, mget, raised. simpl.
  assert (mwrap "failed updating index" (tx_Insert (mkIndexEntry table idx)) s = (Ok tt, put_index table idx s)) as Hins
    by exact (index_insert_run table idx s Hw Ht).
  destruct (index (tx_db s) !! _) as [cur|]; [destruct (ie_Value cur <? idx)%N|]; [done| |done]. by destruct s.
Qed.
Lemma stamp_fields idx e c :
  Kind (stamp_entry idx e c) = Kind c ∧ GetKind (stamp_entry idx e c) = GetKind c ∧
  GetName (stamp_entry idx e c) = GetName c ∧ related_names (stamp_entry idx e c) = related_names c.
Proof. by destruct c. Qed.
Lemma proper_stamp idx e c : proper_entry c → proper_entry (stamp_entry idx e c).
Proof.
  destruct (stamp_fields idx e c) as (E1&E2&E3&E4). intros [H1 H2 H3 H4 H5].
  split; rewrite ?E1, ?E2, ?E3, ?E4; [done..|by apply routed_stamp].
Qed.

(** The entry that is stored for another. *)
Definition stored_entry (d : db) (idx : N) (conf : ConfigEntry) : ConfigEntry :=
  stamp_entry idx (config_entries (connect d) !! config_key (GetKind conf) (GetName conf)) conf.
Definition after_upsert (d : db) (idx : N) (conf : ConfigEntry) : db :=
  entry_at (GetKind conf) (GetName conf) (Some (stored_entry d idx conf)) d.
Definition after_delete (d : db) (kind name : string) : db := entry_at kind name None d.

Lemma ensure_run idx conf s :
  tx_write s = true → proper_db (tx_db s) → proper_entry conf →
  ∃ r s', ensureConfigEntryTxn idx conf s = (r, s') ∧
    match r with
    | Ok _ => tx_db s' = raised "config-entries" idx (after_upsert (tx_db s) idx conf) ∧
        ∀ n, n ∈ checked (tx_db s) (GetKind conf) (GetName conf) → compiles (after_upsert (tx_db s) idx conf) n
    | Err _ => s' = s ∧
        ∃ n, n ∈ checked (tx_db s) (GetKind conf) (GetName conf) ∧ ¬ compiles (after_upsert (tx_db s) idx conf) n
    | Panic _ => False
    end.
Proof.
  intros Hw Hd Hc. unfold ensureConfigEntryTxn. rewrite (run_bind_ok (tx_First _) _ s _ s eq_refl).
  change (tbl (tx_db s)) with (config_entries (connect (tx_db s))).
  set (c := stamp_entry idx (config_entries (connect (tx_db s)) !! config_key (GetKind conf) (GetName conf)) conf).
  assert (after_upsert (tx_db s) idx conf = entry_at (GetKind conf) (GetName conf) (Some c) (tx_db s)) as -> by done.
  cbv zeta. fold c. assert (proper_entry c) as Hpc by by apply proper_stamp.
  assert (GetKind c = GetKind conf ∧ GetName c = GetName conf) as [EK EN] by (by split; apply stamp_fields).
  clearbody c. rewrite EK, EN.
  destruct (validate_spec (GetKind conf) (GetName conf) (Some c) s Hd (GetKind_valid conf) (pe_lower _ Hc))
    as (r&Hr&Hv).
  { intros c' [= <-]. split; [apply (pe_routed _ Hpc)|apply list.Forall_forall, (pe_related _ Hpc)]. }
  destruct r as [[]|e|w]; [| |done].
  2: { rewrite (run_bind_err _ _ _ _ _ Hr). by do 2 eexists. }
  rewrite (run_bind_ok _ _ _ _ _ Hr).
  pose proof (ConfigEntry_key c (pe_kind _ Hpc) (pe_name _ Hpc)) as Hkey. rewrite EK, EN in Hkey.
  rewrite (run_bind_ok _ _ _ _ _ (run_wrap_ok _ _ _ _ _
    (tx_Insert_ok c _ s Hw Hkey (ConfigEntry_indexable c (pe_kind _ Hpc))))).
  rewrite (run_wrap_ok _ _ _ _ _ (indexUpdateMax_run "config-entries" idx (put _ c s) Hw ltac:(done))).
  do 2 eexists. split; [done|]. split; [done|exact Hv].
Qed.

(** Only the config entries decide whether a chain compiles. *)
Lemma compiles_entries d d' n :
  config_entries (connect d') = config_entries (connect d) → compiles d n → compiles d' n.
Proof.
  intros Hc. unfold compiles, read_txn.
  destruct (test_run n ∅ (begin_txn false 0 (mkStore d NewDelay None))) as (c&Hr&->).
  destruct (test_run n ∅ (begin_txn false 0 (mkStore d' NewDelay None))) as (c'&Hr'&->). simpl in *.
  assert (chain_read (seen d' ∅) n c) as Hr2.
  { revert Hr. apply (chain_read_on (λ _, True)); [|done]. split; [done| |done]. intros k m _ _. unfold seen. by rewrite Hc. }
  by destruct (chain_read_same _ _ _ _ Hr2 Hr') as [<-|(e1&e2&->&->)].
Qed.
Lemma raised_entries table idx d : config_entries (connect (raised table idx d)) = config_entries (connect d).
Proof. unfold raised. destruct (index d !! _); [case_match|]; done. Qed.

(** C18. A config entry is stored exactly when it does not break the chains
    it checks.  When the names in the stored entries and in the new one are in
    lower case and every route has a destination ([proper_db], [proper_entry];
    [mixed_case_breaks_chain] and [router_without_destination_panics] show that
    both are needed), [EnsureConfigEntry] answers an error
    and changes nothing when the chain of one of the services it checks does
    not compile in the store with the entry in place; otherwise it commits
    that store, with the entry at the given index and its old create index,
    and each of those chains compiles in it.  It does not panic. *)
Theorem EnsureConfigEntry_spec now idx conf st :
  proper_db (st_db st) → proper_entry conf →
  let next := after_upsert (st_db st) idx conf in
  let affected := checked (st_db st) (GetKind conf) (GetName conf) in
  match EnsureConfigEntry now idx conf st with
  | (Ok _, st') => st_db st' = raised "config-entries" idx next ∧ ∀ n, n ∈ affected → compiles (st_db st') n
  | (Err _, st') => st_db st' = st_db st ∧ ∃ n, n ∈ affected ∧ ¬ compiles next n
  | (Panic _, _) => False
  end.
Proof.
  intros Hd Hc next affected. unfold EnsureConfigEntry, write_txn.
  destruct (ensure_run idx conf (begin_txn true now st) eq_refl Hd Hc) as (r&s'&->&Hr).
  destruct r as [[]|e|w]; [|destruct Hr as [_ Hn]; by split|done].
  destruct Hr as [Hdb Hall]. split; [exact Hdb|]. intros n Hn. apply Hall in Hn.
  revert Hn. apply compiles_entries. simpl. rewrite Hdb. by rewrite raised_entries.
Qed.

Lemma delete_run idx kind name s :
  tx_write s = true → proper_db (tx_db s) → ValidateConfigEntryKind kind = true → lower name →
  ∃ r s', deleteConfigEntryTxn idx kind name s = (r, s') ∧
    match r with
    | Ok found => found = bool_decide (is_Some (config_entries (connect (tx_db s)) !! config_key kind name)) ∧
        (found = true →
         tx_db s' = set_tbl (<[string_args true "config-entries" := mkIndexEntry "config-entries" idx]> (index (tx_db s)))
                      (after_delete (tx_db s) kind name) ∧
         ∀ n, n ∈ checked (tx_db s) kind name → compiles (after_delete (tx_db s) kind name) n)
    | Err _ => ∃ n, n ∈ checked (tx_db s) kind name ∧ ¬ compiles (after_delete (tx_db s) kind name) n
    | Panic _ => False
    end.
Proof.
  intros Hw Hd Hkind Hname. unfold deleteConfigEntryTxn. rewrite (run_bind_ok (tx_First _) _ s _ s eq_refl).
  change (tbl (tx_db s)) with (config_entries (connect (tx_db s))).
  destruct (config_entries (connect (tx_db s)) !! config_key kind name) as [e|] eqn:He; [|by do 2 eexists].
  destruct (Hd _ _ He) as [Hkey Hp].
  destruct (validate_spec kind name None s Hd Hkind Hname) as (r&Hr&Hv); [done|].
  destruct r as [[]|err|w]; [|by rewrite (run_bind_err _ _ _ _ _ Hr); do 2 eexists|done].
  rewrite (run_bind_ok _ _ _ _ _ Hr).
  pose proof (ConfigEntry_key e (pe_kind _ Hp) (pe_name _ Hp)) as Hprim. rewrite <-Hkey in Hprim.
  assert (is_Some (tbl (A := ConfigEntry) (tx_db s) !! config_key kind name)) as Hin by by exists e.
  rewrite (run_bind_ok _ _ _ _ _ (run_wrap_ok _ _ _ _ _ (tx_Delete_ok e _ s Hw Hprim Hin))).
  rewrite (run_bind_ok _ _ _ _ _ (index_insert_run "config-entries" idx (tx_set_db _ s) Hw ltac:(done))).
  do 2 eexists. split; [done|]. split; [done|]. by intros _.
Qed.

(** Deleting a config entry: the same for the store without it. *)
Theorem DeleteConfigEntry_spec now idx kind name st :
  proper_db (st_db st) → ValidateConfigEntryKind kind = true → lower name →
  let next := after_delete (st_db st) kind name in
  match DeleteConfigEntry now idx kind name st with
  | (Ok found, st') => found = bool_decide (is_Some (config_entries (connect (st_db st)) !! config_key kind name)) ∧
      st_db st' = (if found
        then set_tbl (<[string_args true "config-entries" := mkIndexEntry "config-entries" idx]> (index (st_db st))) next
        else st_db st) ∧
      (found = true → ∀ n, n ∈ checked (st_db st) kind name → compiles (st_db st') n)
  | (Err _, st') => st_db st' = st_db st ∧ ∃ n, n ∈ checked (st_db st) kind name ∧ ¬ compiles next n
  | (Panic _, _) => False
  end.
Proof.
  intros Hd Hkind Hname next. unfold DeleteConfigEntry, write_txn.
  destruct (delete_run idx kind name (begin_txn true now st) eq_refl Hd Hkind Hname) as (r&s'&->&Hr).
  destruct r as [[]|e|w]; [| |by split|done].
  - destruct Hr as [Hf Hr]. destruct (Hr eq_refl) as [Hdb Hall]. simpl. split; [exact Hf|]. split; [exact Hdb|].
    intros _ n Hn. apply Hall in Hn. revert Hn. apply compiles_entries. by rewrite Hdb.
  - by destruct Hr.
Qed.
End config.

(** ** What gets past the validation *)

Module ConfigSample.
Definition service (protocol name : string) : ConfigEntry :=
  CEService (mkServiceConfig ServiceDefaults name protocol (mkMeshGateway "") no_expose "" no_raft).
Definition splitter (name : string) (splits : list ServiceSplit) : ConfigEntry :=
  CESplitter (mkSplitter ServiceSplitter name splits no_raft).
(** A subset that fails over to another service. *)
Definition resolver (name subset other : string) : ConfigEntry :=
  CEResolver (mkResolver ServiceResolver name "" {[subset := mkSubset "" false]} None
    {[subset := mkFailover other "" "" []]} 0 no_raft).
Definition put (c : ConfigEntry) : M Store unit := @EnsureConfigEntry (sample_env id) 0 7 c.
Definition puts (l : list ConfigEntry) (st : Store) : Store := fold_left (λ st c, (put c st).2) l st.

(** "a" sends everything to the subset v2 of "b", which fails over to "d". *)
Definition split_a : ConfigEntry := splitter "a" [mkSplit (f32_of_Z 100) "b" "v2" ""].
Definition st : Store := puts [service "http" "a"; service "http" "b"; service "http" "d"; resolver "b" "v2" "d"]
  (NewStateStore None).
(** "a" shares its traffic with "b". *)
Definition shared : Store := puts [service "http" "a"; service "http" "b";
  splitter "a" [mkSplit (f32_of_Z 50) "" "" ""; mkSplit (f32_of_Z 50) "b" "" ""]] (NewStateStore None).
End ConfigSample.

Import ConfigSample.
Lemma EnsureConfigEntry_spec_witness :
  (put split_a st).1 = Ok tt ∧ @compiles (sample_env id) (st_db (put split_a st).2) "a".
Proof.
  assert (proper_db (st_db st)) as Hd by (apply (bool_decide_unpack _); vm_compute; exact I).
  assert (proper_entry split_a) as Hc by (apply (bool_decide_unpack _); vm_compute; exact I).
  pose proof (@EnsureConfigEntry_spec (sample_env id) (λ n l, Permutation_refl l) 0 7 split_a st Hd Hc) as Hs.
  cbv zeta in Hs. assert ((put split_a st).1 = Ok tt) as Hok by (vm_compute; reflexivity).
  unfold put in *. destruct (@EnsureConfigEntry (sample_env id) 0 7 split_a st) as [[[]|e|w] st'].
  - split; [done|]. apply Hs. by left.
  - discriminate Hok.
  - destruct Hs.
Defined.

(** Only the chains of the services that link to an entry are checked,
    not those that reach it through another service: "a" splits to the subset
    "v2" of "b", which fails over to "d"; setting the protocol of "d" to tcp is
    accepted, because "b" alone still compiles, and leaves the chain of "a"
    broken. *)
Lemma write_breaks_far_chain :
  let before := (put split_a st).2 in
  let '(r, after) := put (service "tcp" "d") before in
  r = Ok tt ∧ @compiles (sample_env id) (st_db before) "a" ∧ ¬ @compiles (sample_env id) (st_db after) "a".
Proof. vm_compute. split_and!; [done|done|]. intros H. discriminate H. Qed.

(** Kinds and names are stored without regard to case, but overrides and links
    are compared byte by byte: writing the defaults of "B" replaces those of
    "b", and no chain that goes through "b" is checked. *)
Lemma mixed_case_breaks_chain :
  let '(r, after) := put (service "tcp" "B") shared in
  r = Ok tt ∧ @compiles (sample_env id) (st_db shared) "a" ∧ ¬ @compiles (sample_env id) (st_db after) "a".
Proof. vm_compute. split_and!; [done|done|]. intros H. discriminate H. Qed.

(** A route without a destination passes the validation of the endpoint, and
    applying it ends every server. *)
Lemma router_without_destination_panics :
  (fsm_run sample_externals [(0%Z, 1%N, ConfigEntryRequestType (mkConfigEntryRequest "upsert"
     (CERouter (mkRouter ServiceRouter "web" [mkRoute None None] no_raft))))] (NewStateStore None)).1 =
  [Panic nil_dereference].
Proof. vm_compute. reflexivity. Qed.
