(* ===== verification/CatalogSound.v ===== *)
(** * The catalog operations preserve the catalog invariant *)

From S2P Require Import Prelude Memdb ProxyConfig Structs Delay TombstoneGC Store Graveyard Kvs PreparedQuery Session Catalog.
From S2P Require Import Intention ConnectCA AclState Coordinate Txn Fsm Logic MemdbFacts StoreFacts SideFacts CatalogInv ConfigSound.

(** ** Keys *)

Lemma node_key_lower a b : node_key a = node_key b → to_lower a = to_lower b.
Proof. apply str_nul_inj. Qed.
Lemma check_key_node a b c : node_key a = node_key b → check_key a c = check_key b c.
Proof. unfold check_key, node_key. by intros ->. Qed.
Lemma service_key_node a b c : node_key a = node_key b → service_key a c = service_key b c.
Proof. unfold service_key, node_key. by intros ->. Qed.
Lemma node_key_nul_free a b : node_key a = node_key b → nul_free a → nul_free b.
Proof. intros H%node_key_lower. by rewrite <-(nul_free_lower a), H, nul_free_lower. Qed.
Lemma service_key_inj a b x y :
  nul_free a → nul_free b → service_key a x = service_key b y → node_key a = node_key b.
Proof.
  unfold service_key, string_args. rewrite !str_app_assoc. intros Ha Hb Heq.
  apply terminated_inj in Heq as [Heq _]; [|by rewrite nul_free_lower..].
  unfold node_key, string_args. by rewrite Heq.
Qed.

Lemma Node_key n k : primary_key n = Some k → k = node_key (node_Node n).
Proof. unfold primary_key. simpl. unfold string_index. case_decide; [done|]. by intros [= <-]. Qed.
Lemma ServiceNode_key x k : primary_key x = Some k → k = service_key (sn_Node x) (sn_ServiceID x) ∧ sn_Node x ≠ "".
Proof.
  unfold primary_key. simpl. unfold string_index. repeat case_decide; simpl; try done. by intros [= <-].
Qed.
Lemma HealthCheck_key x k : primary_key x = Some k → k = check_key (hc_Node x) (hc_CheckID x) ∧ hc_Node x ≠ "".
Proof.
  unfold primary_key. simpl. unfold string_index. repeat case_decide; simpl; try done. by intros [= <-].
Qed.

(** Names of registered nodes have no NUL, whatever the case they are asked in. *)
Lemma node_nul_free d a n : catalog_inv d → nodes d !! node_key a = Some n → nul_free a.
Proof.
  intros Hi Hn. pose proof (ci_nodes _ Hi _ _ Hn) as Hk%Node_key. pose proof (ci_nul_free _ Hi _ _ Hn) as Hf.
  simpl in Hf. by apply (node_key_nul_free (node_Node n)).
Qed.
Lemma check_nul_free d k c : catalog_inv d → checks d !! k = Some c → nul_free (hc_Node c).
Proof. intros Hi Hc. destruct (ci_check_node _ Hi _ _ Hc) as [n Hn]. by eapply node_nul_free. Qed.

(** ** Writing the catalog tables *)

Lemma inv_put_check d c k :
  catalog_inv d → primary_key c = Some k → is_Some (nodes d !! node_key (hc_Node c)) →
  (hc_ServiceID c ≠ "" → is_Some (services d !! service_key (hc_Node c) (hc_ServiceID c))) →
  catalog_inv (set_tbl (<[k := c]> (checks d)) d).
Proof.
  intros [H1 H2 H3 H4 H5 H6 H7] Hk Hn Hs. split; simpl; try done; first [by apply keyed_insert|by apply map_Forall_insert_2].
Qed.
Lemma inv_delete_check d k : catalog_inv d → catalog_inv (set_tbl (delete k (checks d)) d).
Proof.
  intros [H1 H2 H3 H4 H5 H6 H7]. split; simpl; try done; first [by apply keyed_delete|by apply map_Forall_delete].
Qed.
Lemma inv_put_service d x k :
  catalog_inv d → primary_key x = Some k → is_Some (nodes d !! node_key (sn_Node x)) →
  catalog_inv (set_tbl (<[k := x]> (services d)) d).
Proof.
  intros [H1 H2 H3 H4 H5 H6 H7] Hk Hn. split; simpl; try done.
  - by apply keyed_insert.
  - by apply map_Forall_insert_2.
  - intros k' c Hc Hne. destruct (H7 k' c Hc Hne) as [y Hy].
    destruct (decide (service_key (hc_Node c) (hc_ServiceID c) = k)) as [->|Hk'];
      [rewrite lookup_insert_eq|rewrite lookup_insert_ne by done]; by eexists.
Qed.
Lemma inv_delete_service d k :
  catalog_inv d → (∀ k' c, checks d !! k' = Some c → hc_ServiceID c ≠ "" →
                    service_key (hc_Node c) (hc_ServiceID c) ≠ k) →
  catalog_inv (set_tbl (delete k (services d)) d).
Proof.
  intros [H1 H2 H3 H4 H5 H6 H7] Hc. split; simpl; try done.
  - by apply keyed_delete.
  - by apply map_Forall_delete.
  - intros k' c Hk Hne. rewrite lookup_delete_ne; [by eapply H7|]. intros Heq. by eapply Hc.
Qed.
Lemma inv_put_node d n k :
  catalog_inv d → primary_key n = Some k → nul_free (node_Node n) →
  catalog_inv (set_tbl (<[k := n]> (nodes d)) d).
Proof.
  intros [H1 H2 H3 H4 H5 H6 H7] Hk Hn.
  assert (∀ k', is_Some (nodes d !! k') → is_Some (<[k:=n]> (nodes d) !! k')) as Hmono.
  { intros k' [y Hy]. destruct (decide (k' = k)) as [->|];
      [rewrite lookup_insert_eq|rewrite lookup_insert_ne by done]; by eexists. }
  split; simpl; try done.
  - by apply keyed_insert.
  - by apply map_Forall_insert_2.
  - eapply map_Forall_impl; [exact H5|]. simpl. auto.
  - eapply map_Forall_impl; [exact H6|]. simpl. auto.
Qed.
Lemma inv_delete_node d k :
  catalog_inv d → (∀ k' x, services d !! k' = Some x → node_key (sn_Node x) ≠ k) →
  (∀ k' c, checks d !! k' = Some c → node_key (hc_Node c) ≠ k) →
  catalog_inv (set_tbl (delete k (nodes d)) d).
Proof.
  intros [H1 H2 H3 H4 H5 H6 H7] Hs Hc. split; simpl; try done.
  - by apply keyed_delete.
  - by apply map_Forall_delete.
  - intros k' x Hx. rewrite lookup_delete_ne; [by eapply H5|]. intros Heq. by eapply Hs.
  - intros k' x Hx. rewrite lookup_delete_ne; [by eapply H6|]. intros Heq. by eapply Hc.
Qed.

(** ** Checks *)

Lemma same_cat_sym s s' : same_cat s s' → same_cat s' s.
Proof. by intros (?&?&?&?). Qed.

Lemma wp_insert {A} `{TableSchema A} `{TableOf A} (x : A) (Q : txn → Prop) (E : txn → Prop) s :
  tx_write s = true → E s →
  (∀ k, primary_key x = Some k → check_indexes table_indexes x = Ok tt → Q (put k x s)) →
  wp (tx_Insert x) (λ _, Q) E s.
Proof.
  intros Hw HE HQ. unfold wp. destruct (tx_Insert_inv x s Hw) as [(k&Hk&Hc&->)|[_ [e ->]]]; [|done].
  by apply HQ.
Qed.

(** A check that may be stored is. *)
Lemma insert_check_sound {B} c (m : Tx B) s :
  cat_ok s → is_Some (nodes (tx_db s) !! node_key (hc_Node c)) →
  (hc_ServiceID c ≠ "" → is_Some (services (tx_db s) !! service_key (hc_Node c) (hc_ServiceID c))) →
  quiet m → wp (mwrap "failed inserting check" (tx_Insert c) ;;; m) (λ _, cat_ok) cat_ok s.
Proof.
  intros [Hw Hi] Hn Hs Hm. apply wp_bind, wp_wrap. apply wp_insert; [done|done|].
  intros k Hk _. apply (quiet_sound _ Hm). split; [done|]. by apply inv_put_check.
Qed.

Lemma sound_ensureCheckTxn idx hc : sound (ensureCheckTxn idx hc).
Proof.
  intros s Hs. unfold ensureCheckTxn.
  apply wp_quiet; [auto with quiet|intros; by eapply same_cat_ok|]. intros existing s1 Hc1. cbv zeta.
  pose proof (same_cat_ok _ _ Hc1 Hs) as Hs1.
  set (hc1 := match existing with Some e => _ | None => _ end).
  set (hc2 := if decide (hc_Status hc1 = "") then _ else _).
  assert (hc_Node hc2 = hc_Node hc ∧ hc_ServiceID hc2 = hc_ServiceID hc) as [En Es].
  { unfold hc2, hc1. by destruct existing, (decide _). }
  clearbody hc2. clear hc1.
  apply wp_bind, wp_get. destruct (tbl (tx_db s1) !! node_key (hc_Node hc2)) as [n|] eqn:Hn; [|by apply wp_throw].
  apply wp_bind. eapply (wp_mono _ (λ r s', same_cat s1 s' ∧ hc_Node r.1 = hc_Node hc ∧ hc_ServiceID r.1 = hc_ServiceID hc ∧
      (hc_ServiceID hc ≠ "" → is_Some (services (tx_db s') !! service_key (hc_Node hc) (hc_ServiceID hc)))) _ (same_cat s1)).
  - destruct (decide (hc_ServiceID hc2 ≠ "")) as [Hid|Hid].
    + apply wp_bind, wp_get.
      destruct (tbl (tx_db s1) !! service_key (hc_Node hc2) (hc_ServiceID hc2)) as [svc|] eqn:Hsv;
        [|apply wp_throw, same_cat_refl].
      cbv zeta. match goal with |- wp (if ?b then _ else _) _ _ _ => destruct b end.
      * apply wp_ret. split; [apply same_cat_refl|]. simpl. split_and!; [done..|]. intros _.
        rewrite <-En, <-Es. by exists svc.
      * apply wp_quiet; [auto with quiet|done|]. intros ? s2 Hc2. apply wp_ret. split; [done|].
        simpl. split_and!; [done..|]. intros _. destruct Hc2 as (_&_&->&_). rewrite <-En, <-Es. by exists svc.
    + match goal with |- wp (if ?b then _ else _) _ _ _ => destruct b end.
      * apply wp_ret. split; [apply same_cat_refl|]. simpl. split_and!; [done..|]. intros Hne. destruct Hid. congruence.
      * apply wp_quiet; [auto with quiet|done|]. intros ? s2 Hc2. apply wp_ret. split; [done|].
        simpl. split_and!; [done..|]. intros Hne. destruct Hid. congruence.
  - intros [hc3 modified] s2 (Hc2&En3&Es3&Hsvc). simpl in En3, Es3.
    pose proof (same_cat_ok _ _ Hc2 Hs1) as Hs2.
    apply wp_quiet; [destruct (decide _); quiet_tac|intros; by eapply same_cat_ok|]. intros ? s3 Hc3.
    assert (∀ hc4, hc_Node hc4 = hc_Node hc → hc_ServiceID hc4 = hc_ServiceID hc →
      wp (mwrap "failed inserting check" (tx_Insert hc4) ;;; index_insert "checks" idx) (λ _, cat_ok) cat_ok s3) as Hins.
    { intros hc4 En4 Es4. apply insert_check_sound; [by eapply same_cat_ok| | |auto with quiet].
      - destruct Hc3 as (_&->&_&_), Hc2 as (_&->&_&_). rewrite En4, <-En. by exists n.
      - rewrite Es4, En4. intros Hne. destruct Hc3 as (_&_&->&_). by apply Hsvc. }
    destruct modified; by apply Hins.
  - intros s' Hc'. by eapply same_cat_ok.
Qed.

(** What is left after deletions: same nodes, fewer services and checks. *)
Definition shrunk (s s' : txn) : Prop :=
  nodes (tx_db s') = nodes (tx_db s) ∧ services (tx_db s') ⊆ services (tx_db s) ∧ checks (tx_db s') ⊆ checks (tx_db s).
Lemma shrunk_refl s : shrunk s s.
Proof. done. Qed.
Lemma shrunk_trans s1 s2 s3 : shrunk s1 s2 → shrunk s2 s3 → shrunk s1 s3.
Proof. intros (?&?&?) (?&?&?). split; [congruence|]. split; by etrans. Qed.
Lemma same_cat_shrunk s s' : same_cat s s' → shrunk s s'.
Proof. intros (_&?&Hs&Hc). unfold shrunk. by rewrite Hs, Hc. Qed.
Lemma wp_delete {A} `{TableSchema A} `{TableOf A} (x : A) (Q : txn → Prop) (E : txn → Prop) s :
  tx_write s = true → E s →
  (∀ k, primary_key x = Some k → Q (tx_set_db (set_tbl (delete k (tbl (tx_db s))) (tx_db s)) s)) →
  wp (tx_Delete x) (λ _, Q) E s.
Proof.
  intros Hw HE HQ. unfold wp, tx_Delete. rewrite Hw.
  pose proof (table_delete_inv (tbl (tx_db s)) x _ eq_refl) as Hi.
  destruct (table_delete _ x); [|done..]. destruct Hi as (k&Hk&_&->). by apply HQ.
Qed.

Lemma deleteCheckTxn_wp idx node cid s :
  cat_ok s →
  wp (deleteCheckTxn idx node cid)
    (λ _ s', cat_ok s' ∧ shrunk s s' ∧ services (tx_db s') = services (tx_db s) ∧
       checks (tx_db s') !! check_key node cid = None) cat_ok s.
Proof.
  intros Hs. pose proof Hs as [Hw Hi]. unfold deleteCheckTxn. apply wp_bind, wp_get.
  change (tbl (tx_db s)) with (checks (tx_db s)).
  destruct (checks (tx_db s) !! check_key node cid) as [c|] eqn:Hc.
  2:{ apply wp_ret. split; [done|]. split; [apply shrunk_refl|done]. }
  apply wp_bind. eapply (wp_mono _ (λ _, same_cat s) _ (same_cat s)); [| |intros; by eapply same_cat_ok].
  - destruct (decide (hc_ServiceID c ≠ "")) as [Hid|Hid].
    + apply wp_quiet; [auto with quiet|done|]. intros ? s1 Hc1. apply wp_bind, wp_get.
      change (tbl (tx_db s1)) with (services (tx_db s1)).
      destruct (ci_check_service _ Hi _ _ Hc Hid) as [svc Hsvc].
      pose proof Hc1 as (_&_&E&_). rewrite E, Hsvc.
      eapply wp_mono; [apply quiet_index_insert|cbn beta; intros; by eapply same_cat_trans..].
    + assert (quiet (mwrap "Failed to update services linked to deleted healthcheck"
           (updateAllServiceIndexesOfNode idx (hc_Node c)) ;;; index_insert "services" idx)) as Hq by quiet_tac.
      apply Hq.
  - intros ? s1 Hc1. pose proof (same_cat_ok _ _ Hc1 Hs) as Hs1.
    apply wp_bind, wp_wrap. apply wp_delete; [apply Hs1|done|]. intros k Hk.
    assert (k = check_key node cid) as -> by (pose proof (ci_checks _ Hi _ _ Hc) as Hk'; simpl in Hk'; congruence).
    set (s2 := tx_set_db _ s1).
    assert (cat_ok s2) as Hs2 by (split; [apply Hs1|apply inv_delete_check, Hs1]).
    assert (quiet (index_insert "checks" idx ;;; delete_check_sessions idx node cid)) as Hq by quiet_tac.
    eapply wp_mono; [apply Hq| |intros; by eapply same_cat_ok].
    intros ? s3 Hc3. cbn beta in Hc3. split; [by eapply same_cat_ok|].
    destruct Hc1 as (_&N1&S1&C1), Hc3 as (_&N3&S3&C3). simpl in N3, S3, C3.
    unfold shrunk. rewrite N3, S3, C3, N1, S1, C1. split_and!; [done|done|apply delete_subseteq|done|].
    apply lookup_delete_eq.
Qed.
Lemma sound_deleteCheckTxn idx node cid : sound (deleteCheckTxn idx node cid).
Proof.
  intros s Hs. eapply wp_mono; [by apply deleteCheckTxn_wp| |done]. by intros ? s' [? _].
Qed.

(** Deleting checks one after the other empties any set of checks of the node
    that the list covers. *)
Lemma delete_checks_wp idx node l (P : HealthCheck → Prop) s :
  cat_ok s → (∀ k c, checks (tx_db s) !! k = Some c → P c → c ∈ l ∧ node_key (hc_Node c) = node_key node) →
  wp (for check in l do deleteCheckTxn idx node (hc_CheckID check))
    (λ _ s', cat_ok s' ∧ shrunk s s' ∧ services (tx_db s') = services (tx_db s) ∧
       ∀ k c, checks (tx_db s') !! k = Some c → ¬ P c) cat_ok s.
Proof.
  intros Hs Hl.
  eapply wp_mono; [apply (wp_for_list (λ l s', cat_ok s' ∧ shrunk s s' ∧ services (tx_db s') = services (tx_db s) ∧
    ∀ k c, checks (tx_db s') !! k = Some c → P c → c ∈ l ∧ node_key (hc_Node c) = node_key node))| |done].
  - intros c l' s1 (Hs1&Hsh&Hsv&Hin). eapply wp_mono; [by apply deleteCheckTxn_wp| |done].
    intros ? s2 (Hs2&Hsh2&Hsv2&Hgone). split; [done|]. split; [by eapply shrunk_trans|]. split; [congruence|].
    intros k c' Hc' HP. destruct Hsh2 as (_&_&Hsub).
    destruct (Hin k c') as [[->|?]%elem_of_cons Hn]; [by eapply lookup_weaken|done| |done].
    pose proof (ci_checks _ (proj2 Hs2) _ _ Hc') as [-> _]%HealthCheck_key.
    rewrite (check_key_node _ _ _ Hn) in Hc'. congruence.
  - split; [done|]. split; [apply shrunk_refl|]. done.
  - cbn beta. intros ? s' (?&?&?&Hnil). split_and!; try done. intros k c Hc HP.
    destruct (Hnil k c Hc HP) as [Hn _]. by apply elem_of_nil in Hn.
Qed.

(** ** Services *)

Lemma check_in_service_scan d k c node sid :
  checks d !! k = Some c → hc_Node c ≠ "" → hc_ServiceID c ≠ "" →
  service_key (hc_Node c) (hc_ServiceID c) = service_key node sid →
  c ∈ table_scan checks_node_service_index (service_key node sid) (checks d).
Proof.
  intros Hc Hn Hs Heq. apply elem_of_table_scan. exists k.
  exists (service_key (hc_Node c) (hc_ServiceID c) +:+ k). split; [done|]. split; [|rewrite Heq; apply prefix_app].
  unfold index_keys. simpl. rewrite !string_index_key by done. simpl. by left.
Qed.

Lemma deleteServiceTxn_wp idx node sid s :
  cat_ok s → nul_free node →
  wp (deleteServiceTxn idx node sid)
    (λ _ s', cat_ok s' ∧ shrunk s s' ∧ services (tx_db s') !! service_key node sid = None) cat_ok s.
Proof.
  intros Hs Hnf. pose proof Hs as [Hw Hi]. unfold deleteServiceTxn. apply wp_bind, wp_get.
  change (tbl (tx_db s)) with (services (tx_db s)).
  destruct (services (tx_db s) !! service_key node sid) as [svc|] eqn:Hsvc.
  2:{ apply wp_ret. split; [done|]. by split. }
  apply wp_bind, wp_get. change (tbl (tx_db s)) with (checks (tx_db s)). apply wp_bind.
  eapply wp_mono; [apply (delete_checks_wp _ _ _
    (λ c, hc_ServiceID c ≠ "" ∧ service_key (hc_Node c) (hc_ServiceID c) = service_key node sid)); [done|]| |done].
  - intros k c Hc [Hid Heq]. pose proof (ci_checks _ Hi _ _ Hc) as [_ Hne]%HealthCheck_key.
    split; [by eapply check_in_service_scan|]. eapply service_key_inj; [|done|exact Heq]. by eapply check_nul_free.
  - cbn beta. intros ? s1 (Hs1&Hsh1&Hsv1&Hnone).
    apply wp_quiet; [auto with quiet|intros; by eapply same_cat_ok|]. intros ? s2 Hc2.
    pose proof (same_cat_ok _ _ Hc2 Hs1) as Hs2.
    apply wp_bind, wp_wrap. apply wp_delete; [apply Hs2|done|]. intros k Hk.
    assert (k = service_key node sid) as -> by (pose proof (ci_services _ Hi _ _ Hsvc) as Hk'; simpl in Hk'; congruence).
    set (s3 := tx_set_db _ s2).
    assert (cat_ok s3) as Hs3.
    { split; [apply Hs2|]. apply inv_delete_service; [apply Hs2|]. intros k' c Hc Hne Heq.
      destruct Hc2 as (_&_&_&E). rewrite E in Hc. by apply (Hnone _ _ Hc). }
    assert (quiet (index_insert "services" idx ;;; index_insert (serviceKindIndexName (sn_ServiceKind svc)) idx ;;;
      service_removed idx (sn_ServiceName svc))) as Hq by quiet_tac.
    eapply wp_mono; [apply Hq| |intros; by eapply same_cat_ok].
    cbn beta. intros ? s4 Hc4. split; [by eapply same_cat_ok|].
    destruct Hc2 as (_&N2&S2&C2), Hc4 as (_&N4&S4&C4), Hsh1 as (N1&S1&C1). simpl in N4, S4, C4.
    unfold shrunk. rewrite N4, S4, C4, N2, S2, C2, N1. split; [split_and!; [done| |done]|apply lookup_delete_eq].
    rewrite Hsv1. apply delete_subseteq.
Qed.
Lemma sound_deleteServiceTxn idx node sid : nul_free node → sound (deleteServiceTxn idx node sid).
Proof. intros Hn s Hs. eapply wp_mono; [by apply deleteServiceTxn_wp| |done]. by intros ? s' [? _]. Qed.

Lemma sound_ensureServiceTxn idx node svc : sound (ensureServiceTxn idx node svc).
Proof.
  intros s Hs. unfold ensureServiceTxn.
  apply wp_quiet; [auto with quiet|intros; by eapply same_cat_ok|]. intros existing s1 Hc1.
  apply wp_quiet; [auto with quiet|intros; eapply same_cat_ok; [|done]; by eapply same_cat_trans|]. intros ? s2 Hc2.
  pose proof (same_cat_ok _ _ Hc2 (same_cat_ok _ _ Hc1 Hs)) as Hs2. cbv zeta.
  apply wp_bind, wp_get. change (tbl (tx_db s2)) with (nodes (tx_db s2)).
  destruct (nodes (tx_db s2) !! node_key node) as [n|] eqn:Hn; [|by apply wp_throw].
  assert (∀ c m, wp (mwrap "failed inserting service"
      (tx_Insert (sn_set_indexes c m (NodeService_ToServiceNode svc node))) ;;;
    index_insert "services" idx ;;; bump_service idx (ns_Service svc) (ns_Kind svc)) (λ _, cat_ok) cat_ok s2) as Hins.
  { intros c m. apply wp_bind, wp_wrap. apply wp_insert; [apply Hs2|done|]. intros k Hk _.
    assert (quiet (index_insert "services" idx ;;; bump_service idx (ns_Service svc) (ns_Kind svc))) as Hq by quiet_tac.
    apply (quiet_sound _ Hq). split; [apply Hs2|]. apply inv_put_service; [apply Hs2|done|].
    simpl. by exists n. }
  destruct existing as [e|]; [|apply Hins].
  match goal with |- wp (if ?b then _ else _) _ _ _ => destruct b end; [by apply wp_ret|apply Hins].
Qed.

(** ** Nodes *)

Lemma service_in_node_scan d k x node :
  services d !! k = Some x → sn_Node x ≠ "" → node_key (sn_Node x) = node_key node →
  x ∈ table_scan services_node_index (string_args true node) (services d).
Proof.
  intros Hx Hn Heq. apply elem_of_table_scan. exists k, (node_key (sn_Node x) +:+ k).
  split; [done|]. split; [|rewrite Heq; apply prefix_app].
  unfold index_keys. simpl. rewrite string_index_key by done. simpl. by left.
Qed.
Lemma check_in_node_scan d k c node :
  checks d !! k = Some c → hc_Node c ≠ "" → node_key (hc_Node c) = node_key node →
  c ∈ table_scan checks_node_index (string_args true node) (checks d).
Proof.
  intros Hx Hn Heq. apply elem_of_table_scan. exists k, (node_key (hc_Node c) +:+ k).
  split; [done|]. split; [|rewrite Heq; apply prefix_app].
  unfold index_keys. simpl. rewrite string_index_key by done. simpl. by left.
Qed.

Lemma delete_services_wp idx node l s :
  cat_ok s → nul_free node →
  (∀ k x, services (tx_db s) !! k = Some x → node_key (sn_Node x) = node_key node → x ∈ l) →
  wp (for svc in l do deleteServiceTxn idx node (sn_ServiceID svc))
    (λ _ s', cat_ok s' ∧ shrunk s s' ∧
       ∀ k x, services (tx_db s') !! k = Some x → node_key (sn_Node x) ≠ node_key node) cat_ok s.
Proof.
  intros Hs Hnf Hl.
  eapply wp_mono; [apply (wp_for_list (λ l s', cat_ok s' ∧ shrunk s s' ∧
    ∀ k x, services (tx_db s') !! k = Some x → node_key (sn_Node x) = node_key node → x ∈ l))| |done].
  - intros x l' s1 (Hs1&Hsh&Hin). eapply wp_mono; [by apply deleteServiceTxn_wp| |done].
    intros ? s2 (Hs2&Hsh2&Hgone). split; [done|]. split; [by eapply shrunk_trans|].
    intros k y Hy Hn. destruct Hsh2 as (_&Hsub&_).
    pose proof (Hin k y (lookup_weaken _ _ _ _ Hy Hsub) Hn) as [->|?]%elem_of_cons; [|done].
    pose proof (ci_services _ (proj2 Hs2) _ _ Hy) as [-> _]%ServiceNode_key.
    rewrite (service_key_node _ _ _ Hn) in Hy. congruence.
  - split; [done|]. split; [apply shrunk_refl|]. done.
  - cbn beta. intros ? s' (?&?&Hnil). split_and!; try done. intros k x Hx Hn.
    by apply (Hnil k x Hx), elem_of_nil in Hn.
Qed.

Lemma deleteNodeTxn_wp idx node s : cat_ok s →
  wp (deleteNodeTxn idx node) (λ _ s', cat_ok s' ∧ nodes (tx_db s') = delete (node_key node) (nodes (tx_db s))) cat_ok s.
Proof.
  intros Hs. pose proof Hs as [Hw Hi]. unfold deleteNodeTxn. apply wp_bind, wp_get.
  change (tbl (tx_db s)) with (nodes (tx_db s)).
  destruct (nodes (tx_db s) !! node_key node) as [n|] eqn:Hn; [|by apply wp_ret; rewrite delete_id].
  pose proof (node_nul_free _ _ _ Hi Hn) as Hnf.
  apply wp_bind, wp_get. change (tbl (tx_db s)) with (services (tx_db s)).
  set (svcs := table_scan services_node_index (string_args true node) (services (tx_db s))).
  apply wp_quiet; [quiet_tac|intros; by eapply same_cat_ok|]. intros ? s1 Hc1.
  pose proof (same_cat_ok _ _ Hc1 Hs) as Hs1. destruct Hc1 as (_&N1&S1&C1).
  apply wp_bind. eapply wp_mono; [apply delete_services_wp; [done|done|]| |done].
  { rewrite S1. intros k x Hx Heq. pose proof (ci_services _ Hi _ _ Hx) as [_ Hne]%ServiceNode_key.
    by eapply service_in_node_scan. }
  cbn beta. intros ? s2 (Hs2&(N2&_&_)&Hsvc).
  apply wp_bind, wp_get. change (tbl (tx_db s2)) with (checks (tx_db s2)). apply wp_bind.
  eapply wp_mono; [apply (delete_checks_wp _ _ _ (λ c, node_key (hc_Node c) = node_key node)); [done|]| |done].
  { intros k c Hc Heq. pose proof (ci_checks _ (proj2 Hs2) _ _ Hc) as [_ Hne]%HealthCheck_key.
    split; [by eapply check_in_node_scan|done]. }
  cbn beta. intros ? s3 (Hs3&(N3&_&_)&S3&Hchk).
  apply wp_quiet; [quiet_tac|intros; by eapply same_cat_ok|]. intros coords s4 Hc4.
  apply wp_quiet; [quiet_tac|intros; eapply same_cat_ok; [|exact Hs3]; by eapply same_cat_trans|]. intros ? s5 Hc5.
  pose proof (same_cat_trans _ _ _ Hc4 Hc5) as Hc. pose proof (same_cat_ok _ _ Hc Hs3) as Hs5.
  destruct Hc as (_&N5&S5&C5).
  apply wp_bind, wp_wrap. apply wp_delete; [apply Hs5|done|]. intros k Hk.
  assert (k = node_key node) as -> by (pose proof (ci_nodes _ Hi _ _ Hn) as Hk'; simpl in Hk'; congruence).
  match goal with |- wp ?m _ _ _ => assert (Hq : quiet m); [quiet_tac|] end.
  match goal with |- wp _ _ _ ?s => set (s6 := s) end. assert (cat_ok s6) as Hs6.
  { split; [apply Hs5|]. apply inv_delete_node; [apply Hs5| |].
    - intros k x Hx. rewrite S5, S3 in Hx. by eapply Hsvc.
    - intros k c Hx. rewrite C5 in Hx. by eapply Hchk. }
  eapply wp_mono; [apply Hq| |intros; by eapply same_cat_ok]. cbn beta. intros ? s7 H7. split; [by eapply same_cat_ok|].
  destruct H7 as (_&N7&_&_). rewrite N7. simpl. by rewrite N5, N3, N2, N1.
Qed.
Lemma sound_deleteNodeTxn idx node : sound (deleteNodeTxn idx node).
Proof. intros s Hs. eapply wp_mono; [by apply deleteNodeTxn_wp| |done]. by intros ? s' [? _]. Qed.

#[export] Hint Resolve sound_ensureCheckTxn sound_deleteCheckTxn sound_ensureServiceTxn sound_deleteNodeTxn
  sound_deleteServiceTxn : sound.

Ltac sound_step :=
  first
    [ solve [apply quiet_sound; quiet_tac]
    | solve [eauto with sound nocore]
    | apply sound_bind; [|intros ?]
    | apply sound_wrap
    | apply sound_try
    | apply sound_for; intros ?
    | progress cbn beta iota zeta
    | match goal with |- sound (match ?x with _ => _ end) => destruct x end ].
Ltac sound_tac := repeat sound_step.

Lemma sound_insert_node {B} c m n (k : Tx B) :
  nul_free (node_Node n) → sound k →
  sound (mwrap "failed inserting node" (tx_Insert (node_set_indexes c m n)) ;;; k).
Proof.
  intros Hn Hk s Hs. apply wp_bind, wp_wrap. apply wp_insert; [apply Hs|done|]. intros key Hkey _.
  apply Hk. split; [apply Hs|]. apply inv_put_node; [apply Hs|done|done].
Qed.
Lemma sound_ensureNodeTxn idx node : nul_free (node_Node node) → sound (ensureNodeTxn idx node).
Proof.
  intros Hn. unfold ensureNodeTxn.
  apply sound_bind; [sound_tac|]. intros n1. apply sound_bind; [sound_tac|]. intros [n|]; cbv zeta.
  - match goal with |- sound (if ?b then _ else _) => destruct b end; [sound_tac|].
    apply (sound_insert_node _ _ (node_set_indexes (node_CreateIndex n) (node_ModifyIndex n) node)); [done|sound_tac].
  - apply sound_insert_node; [done|sound_tac].
Qed.
#[export] Hint Resolve sound_ensureNodeTxn : sound.

Lemma sound_ensureRegistrationTxn idx req : nul_free (rr_Node req) → sound (ensureRegistrationTxn idx req).
Proof.
  intros Hn. unfold ensureRegistrationTxn, ensureCheckIfNodeMatches.
  assert (sound (ensureNodeTxn idx (mkNode (rr_ID req) (rr_Node req) (rr_Address req) (rr_Datacenter req)
                (rr_TaggedAddresses req) (rr_NodeMeta req) 0 0))) as Hnode by (by apply sound_ensureNodeTxn).
  cbv zeta. sound_tac.
Qed.
Lemma sound_ensureCheckCASTxn idx hc : sound (ensureCheckCASTxn idx hc).
Proof. unfold ensureCheckCASTxn. sound_tac. Qed.
Lemma sound_deleteCheckCASTxn idx ci n c : sound (deleteCheckCASTxn idx ci n c).
Proof. unfold deleteCheckCASTxn. sound_tac. Qed.
Lemma sound_ensureServiceCASTxn idx n x : sound (ensureServiceCASTxn idx n x).
Proof. unfold ensureServiceCASTxn. sound_tac. Qed.
Lemma sound_deleteServiceCASTxn idx ci n x : nul_free n → sound (deleteServiceCASTxn idx ci n x).
Proof. intros Hn. unfold deleteServiceCASTxn. sound_tac. Qed.
Lemma sound_deleteNodeCASTxn idx ci n : sound (deleteNodeCASTxn idx ci n).
Proof. unfold deleteNodeCASTxn. sound_tac. Qed.
Lemma sound_ensureNodeCASTxn idx n : nul_free (node_Node n) → sound (ensureNodeCASTxn idx n).
Proof. intros Hn. unfold ensureNodeCASTxn. sound_tac. Qed.
#[export] Hint Resolve sound_ensureRegistrationTxn sound_ensureCheckCASTxn sound_deleteCheckCASTxn
  sound_ensureServiceCASTxn sound_deleteServiceCASTxn sound_deleteNodeCASTxn sound_ensureNodeCASTxn : sound.

(** ** Transactions and commands *)

(** Node names without NUL bytes, and no nil pointer where the code
    dereferences one: in a router, the destination of a route. *)
Definition clean_op (op : TxnOp) : Prop :=
  (∀ o, op_Node op = Some o → nul_free (node_Node (tn_Node o))) ∧
  (∀ o, op_Service op = Some o → nul_free (tsv_Node o)) ∧
  (∀ o, op_Intention op = Some o → is_Some (ti_Intention o)).
Definition clean_ca (req : CARequest) : Prop :=
  (ca_Op req = "set-config" ∨ ca_Op req = "set-roots-config" → is_Some (ca_Config req)) ∧
  (ca_Op req = "set-provider-state" ∨ ca_Op req = "delete-provider-state" → is_Some (ca_ProviderState req)).
Definition clean (c : command) : Prop :=
  match c with
  | RegisterRequestType req => nul_free (rr_Node req)
  | DeregisterRequestType req => nul_free (dr_Node req)
  | TxnRequestType ops => Forall clean_op ops
  | IntentionRequestType req => is_Some (ir_Intention req)
  | ConnectCARequestType req => clean_ca req
  | ConfigEntryRequestType req => routed_entry (cer_Entry req)
  | _ => True
  end.

Lemma sound_deref_bind {A B} (p : option A) (k : A → Tx B) :
  is_Some p → (∀ a, sound (k a)) → sound (mbind' (deref p) k).
Proof. intros [a ->] Hk. apply sound_bind; [by apply quiet_sound, quiet_ret|done]. Qed.
Lemma sound_txnIntention idx o : is_Some (ti_Intention o) → sound (txnIntention idx o).
Proof.
  intros Ho. unfold txnIntention. repeat case_decide; try (apply sound_deref_bind; [done|intros ?]); sound_tac.
Qed.
Lemma sound_txnOp idx op : clean_op op → sound (txnOp idx op).
Proof.
  intros (Hn&Hs&Hi). unfold txnOp. destruct (op_KV op) as [o|]; [sound_tac|].
  destruct (op_Intention op) as [o|].
  { pose proof (sound_txnIntention idx o (Hi o eq_refl)). sound_tac. }
  destruct (op_Node op) as [o|].
  { specialize (Hn o eq_refl). unfold txnNode, cas_then_get, stale_unit. sound_tac. }
  destruct (op_Service op) as [o|].
  { specialize (Hs o eq_refl). unfold txnService, cas_then_get, stale_unit. sound_tac. }
  destruct (op_Check op) as [o|]; [|sound_tac].
  unfold txnCheck, cas_then_get, stale_unit. sound_tac.
Qed.
Lemma sound_txn_loop idx i ops : Forall clean_op ops → sound (txn_loop idx i ops).
Proof.
  intros Hops. revert i. induction Hops as [|op ops Hop _ IH]; intros i; simpl; [sound_tac|].
  pose proof (sound_txnOp idx op Hop). specialize (IH (S i)). sound_tac.
Qed.
Lemma sound_txnDispatch idx ops : Forall clean_op ops → sound (txnDispatch idx ops).
Proof. intros Hops. pose proof (sound_txn_loop idx 0 ops Hops). unfold txnDispatch. sound_tac. Qed.
