(* ===== verification/SnapshotCatalog.v ===== *)
(** * Restoring the catalog from a snapshot

    A snapshot has no record of its own for a node, a service or a check: it
    writes registrations, and a restore registers them again, one by one, at
    the index of the snapshot. *)

From S2P Require Import Prelude Memdb ProxyConfig Structs ConnectTables AclTables Delay TombstoneGC Store Graveyard Kvs PreparedQuery.
From S2P Require Import Session Catalog Coordinate Intention ConnectCA Autopilot AclState Txn Fsm Snapshot Logic MemdbFacts StoreFacts Frames SnapshotFacts CatalogInv CatalogSound.

(** ** What a row becomes *)

Definition restored_node (idx : N) (n : Node) : Node := node_set_indexes idx idx n.
Definition restored_service (idx : N) (x : ServiceNode) : ServiceNode :=
  sn_set_indexes idx idx (NodeService_ToServiceNode (ServiceNode_ToNodeService x) (sn_Node x)).
(** A check is given the name and the tags its service has now. *)
Definition restored_check (d : db) (idx : N) (c : HealthCheck) : HealthCheck :=
  hc_set_indexes idx idx
    (if decide (hc_ServiceID c ≠ "") then
       match services d !! service_key (hc_Node c) (hc_ServiceID c) with
       | Some svc => hc_set_service (sn_ServiceName svc) (sn_ServiceTags svc) c
       | None => c
       end
     else c).

(** The bytes of the ID of a node, if it is a UUID. *)
Definition node_UUID (n : Node) : option string :=
  match ParseUUID (node_ID n) with Ok b => Some b | _ => None end.

(** What a restore needs of the catalog: services and checks spell the name
    of their node as it does, node IDs are UUIDs of one node each, and the
    metadata of services is valid. *)
Record restorable_catalog (d : db) : Prop := {
  rc_inv : catalog_inv d;
  rc_service_node : map_Forall (λ _ x, node_Node <$> nodes d !! node_key (sn_Node x) = Some (sn_Node x)) (services d);
  rc_check_node : map_Forall (λ _ c, node_Node <$> nodes d !! node_key (hc_Node c) = Some (hc_Node c)) (checks d);
  rc_ids : map_Forall (λ _ n, node_ID n ≠ "" → node_UUID n ≠ None) (nodes d);
  rc_unique : map_Forall (λ k1 n1, map_Forall (λ k2 n2,
    node_UUID n1 ≠ None → node_UUID n1 = node_UUID n2 → k1 = k2) (nodes d)) (nodes d);
  rc_meta : map_Forall (λ _ x, is_ok (ValidateMetadata (sn_ServiceMeta x) false)) (services d)
}.

(** ** The state in between: what is pending is not there yet *)

Section catalog.
Context (d : db) (idx : N).
Hypothesis Hws : well_stored d.
Hypothesis Hd : restorable_catalog d.

Definition loaded (pn : list Node) (ps : list ServiceNode) (pc : list HealthCheck) : db :=
  set_tbl (restored_check d idx <$> without pc (checks d))
    (set_tbl (restored_service idx <$> without ps (services d))
       (set_tbl (restored_node idx <$> without pn (nodes d)) empty_db)).

Lemma load_step {A} `{TableSchema A} `{EqDecision A} (f : A → A) k x l t :
  keyed t → t !! k = Some x → x ∉ l → <[k := f x]> (f <$> without (x :: l) t) = f <$> without l t.
Proof using Type.
  intros Ht Hk Hx. apply map_eq. intros k'. rewrite lookup_fmap, lookup_without.
  destruct (decide (k' = k)) as [->|Hne].
  - rewrite lookup_insert_eq, Hk. by rewrite decide_False.
  - rewrite lookup_insert_ne, lookup_fmap, lookup_without by done.
    destruct (t !! k') as [y|] eqn:Hy; [|done].
    assert (y ≠ x) by (intros ->; apply Ht in Hy, Hk; simpl in *; congruence).
    destruct (decide (y ∈ l)); [by rewrite decide_True by (by right)|].
    rewrite decide_False; [done|]. by intros [->|]%elem_of_cons.
Qed.

(** *** Nodes *)

Lemma ParseUUID_bytes s b b' : ParseUUID s = Ok b → uuid_parse s = Ok b' → b = b'.
Proof using Type.
  unfold ParseUUID, uuid_parse. destruct (isUUID s); [|done].
  destruct (negb _); [done|]. destruct (_ <? _)%nat; [done|]. cbv zeta. destruct (Nat.odd _); [done|].
  destruct (hex_decode _); naive_solver.
Qed.

(** No loaded node has the ID of one that is pending. *)
Lemma pending_id_free k n pn ps pc b s :
  nodes d !! k = Some n → n ∈ pn → node_ID n ≠ "" → ParseUUID (node_ID n) = Ok b →
  rows s (loaded pn ps pc) → first_node_uuid b s = (Ok None, s).
Proof using Hd.
  intros Hk Hn Hid Hb Hr. unfold first_node_uuid, mget. f_equal. f_equal.
  change (nodes (tx_db s)) with (tbl (A := Node) (tx_db s)). rewrite (rows_tbl (A := Node) _ _ Hr). simpl.
  set (l := map_to_list _). destruct (filter _ l) as [|[k' y] l'] eqn:Hf; [done|exfalso].
  assert ((k', y) ∈ filter (λ kx, bool_decide (b ∈ index_keys nodes_uuid_index kx.1 kx.2)) l) as Hin
    by (rewrite Hf; by left).
  apply list_elem_of_filter in Hin as [Hu%bool_decide_unpack Hl]. apply elem_of_map_to_list in Hl.
  rewrite lookup_fmap, lookup_without in Hl. destruct (nodes d !! k') as [m|] eqn:Hm; [|done].
  case_decide as Hp; [done|]. simpl in Hl. simplify_eq. simpl in Hu.
  unfold index_keys in Hu. simpl in Hu. unfold uuid_index in Hu. case_decide as Hmid; [by apply elem_of_nil in Hu|].
  destruct (uuid_parse (node_ID m)) as [b'| |] eqn:Hb'; [|by apply elem_of_nil in Hu..].
  simpl in Hu. apply list_elem_of_singleton in Hu as <-.
  pose proof (rc_ids _ Hd _ _ Hm Hmid) as Hok. pose proof (rc_unique _ Hd _ _ Hk _ _ Hm) as Hone.
  unfold node_UUID in Hok, Hone. destruct (ParseUUID (node_ID m)) as [b2| |] eqn:Hb2; [|done..].
  pose proof (ParseUUID_bytes _ _ _ Hb2 Hb') as ->. rewrite Hb in Hone.
  assert (k = k') as -> by (by apply Hone). congruence.
Qed.

Lemma no_similar_name k n pn ps pc allow s :
  nodes d !! k = Some n → n ∈ pn → rows s (loaded pn ps pc) →
  succeeds (ensureNoNodeWithSimilarNameTxn (node_set_indexes 0 0 n) allow)
    (λ _ s', rows s' (loaded pn ps pc)) s.
Proof using Hd.
  intros Hk Hn Hr. eapply wp_bind_run; [by apply GetPrefix_rows|].
  apply wp_for; [|done]. clear s Hr. intros e s (k'&He&_)%elem_of_table_prefix Hr. simpl in He.
  rewrite decide_False; [done|]. intros [Hname _]. simpl in Hname.
  rewrite lookup_fmap, lookup_without in He. destruct (nodes d !! k') as [m|] eqn:Hm; [|done].
  case_decide as Hp; [done|]. simpl in He. simplify_eq. simpl in Hname.
  pose proof (ci_nodes _ (rc_inv _ Hd) _ _ Hk) as Hkn%Node_key.
  pose proof (ci_nodes _ (rc_inv _ Hd) _ _ Hm) as Hkm%Node_key.
  assert (k = k') as -> by (rewrite Hkn, Hkm; unfold node_key, string_args; by rewrite Hname).
  congruence.
Qed.

Lemma loaded_node_lookup k n pn ps pc :
  nodes d !! k = Some n → nodes (loaded pn ps pc) !! k = if decide (n ∈ pn) then None else Some (restored_node idx n).
Proof using Type. intros Hk. simpl. rewrite lookup_fmap, lookup_without, Hk. by case_decide. Qed.

Lemma ensure_pending_node k n pn ps pc s :
  nodes d !! k = Some n → n ∉ pn → rows s (loaded (n :: pn) ps pc) →
  succeeds (ensureNodeTxn idx (node_set_indexes 0 0 n)) (λ _ s', rows s' (loaded pn ps pc)) s.
Proof using Hd Hws.
  intros Hk Hn Hr. pose proof (ws_Node _ Hws _ _ Hk) as [Hpk Hci].
  pose proof (Node_key _ _ Hpk) as Hkey. assert (n ∈ n :: pn) as Hpend by left.
  unfold ensureNodeTxn. apply wp_bind.
  eapply (wp_mono _ (λ r s', r = None ∧ rows s' (loaded (n :: pn) ps pc)) _ (λ _, False)); [| |done].
  - case_decide as Hid; [|by apply wp_ret]. simpl in Hid.
    pose proof (rc_ids _ Hd _ _ Hk Hid) as Hok. unfold node_UUID in Hok.
    destruct (ParseUUID (node_ID n)) as [b| |] eqn:Hb; [|done..].
    eapply wp_bind_run.
    { unfold mwrap, getNodeIDTxn, mbind', mlift, owrap. cbn [node_ID node_set_indexes]. rewrite Hb.
      by rewrite (pending_id_free k n (n :: pn) ps pc b s). }
    apply wp_bind, wp_wrap. eapply wp_mono; [by apply (no_similar_name k n)| |done]. by intros ? s1 Hr1.
  - intros ? s1 [-> Hr1]. eapply wp_bind_run; [by apply First_rows|]. cbn [node_Node node_set_indexes].
    change (tbl (loaded (n :: pn) ps pc)) with (nodes (loaded (n :: pn) ps pc)).
    rewrite <-Hkey, (loaded_node_lookup _ _ _ _ _ Hk), decide_True by done. cbv zeta.
    apply wp_bind. eapply wp_mono; [refine (succeeds_Insert _ k (restored_node idx n) _ _ _ Hr1); by split| |done].
    intros ? s2 Hr2. cbn beta in Hr2.
    assert (rows s2 (loaded pn ps pc)) as Hr3.
    { destruct Hr2 as [Hw Heq]. split; [done|]. rewrite Heq. unfold loaded. simpl.
      by rewrite (load_step _ _ _ _ _ (ci_nodes _ (rc_inv _ Hd)) Hk Hn). }
    refine (side_bind _ _ _ _ s2 _ Hr3); [by apply side_index_insert|].
    apply side_wrap, side_updateAllServiceIndexesOfNode.
Qed.

Lemma restore_node k n pn ps pc s :
  nodes d !! k = Some n → n ∉ pn → rows s (loaded (n :: pn) ps pc) →
  succeeds (Restore_Registration idx (node_request n None None)) (λ _ s', rows s' (loaded pn ps pc)) s.
Proof using Hd Hws.
  intros Hk Hn Hr. pose proof (Node_key _ _ (ci_nodes _ (rc_inv _ Hd) _ _ Hk)) as Hkey.
  eapply wp_bind_run; [by apply First_rows|].
  change (tbl (loaded (n :: pn) ps pc)) with (nodes (loaded (n :: pn) ps pc)). cbn [node_Node rr_Node node_request].
  rewrite <-Hkey, (loaded_node_lookup _ _ _ _ _ Hk), decide_True by left.
  apply wp_bind, wp_wrap. eapply wp_mono; [by apply (ensure_pending_node k n pn)| |done]. done.
Qed.

(** *** Services *)

Lemma unchanged_node n svc check : RegisterRequest_ChangesNode (node_request n svc check) (Some (restored_node idx n)) = false.
Proof using Type. simpl. by rewrite !bool_decide_false by tauto. Qed.
Lemma loaded_node k n pn ps pc s :
  nodes d !! k = Some n → n ∉ pn → rows s (loaded pn ps pc) →
  tx_First (node_key (node_Node n)) s = (Ok (Some (restored_node idx n)), s).
Proof using Hd.
  intros Hk Hn Hr. rewrite (First_rows _ _ _ Hr). rewrite <-(Node_key _ _ (ci_nodes _ (rc_inv _ Hd) _ _ Hk)).
  change (tbl (loaded pn ps pc)) with (nodes (loaded pn ps pc)).
  by rewrite (loaded_node_lookup _ _ _ _ _ Hk), decide_False.
Qed.
Lemma loaded_service_lookup k x pn ps pc :
  services d !! k = Some x →
  services (loaded pn ps pc) !! k = if decide (x ∈ ps) then None else Some (restored_service idx x).
Proof using Type. intros Hk. simpl. rewrite lookup_fmap, lookup_without, Hk. by case_decide. Qed.

Lemma ensure_pending_service k x kn n pn ps pc s :
  services d !! k = Some x → nodes d !! kn = Some n → node_Node n = sn_Node x → n ∉ pn → x ∉ ps →
  rows s (loaded pn (x :: ps) pc) →
  succeeds (ensureServiceTxn idx (node_Node n) (ServiceNode_ToNodeService x)) (λ _ s', rows s' (loaded pn ps pc)) s.
Proof using Hd Hws.
  intros Hk Hkn Hname Hn Hx Hr. pose proof (ws_ServiceNode _ Hws _ _ Hk) as [Hpk Hci].
  pose proof (ServiceNode_key _ _ Hpk) as [Hkey _].
  unfold ensureServiceTxn. cbn [ns_ID ServiceNode_ToNodeService ns_Meta].
  eapply wp_bind_run; [by apply First_rows|].
  eapply wp_bind_run; [unfold mlift, owrap; by rewrite (is_ok_unit _ (rc_meta _ Hd _ _ Hk))|]. cbv zeta.
  eapply wp_bind_run; [by apply (loaded_node kn n _ _ _ _ Hkn Hn Hr)|].
  change (tbl (loaded pn (x :: ps) pc)) with (services (loaded pn (x :: ps) pc)).
  rewrite Hname, <-Hkey, (loaded_service_lookup _ _ _ _ _ Hk), decide_True by left.
  apply wp_bind. eapply wp_mono; [refine (succeeds_Insert _ k (restored_service idx x) _ _ _ Hr); by split| |done].
  intros ? s2 Hr2. cbn beta in Hr2.
  assert (rows s2 (loaded pn ps pc)) as Hr3.
  { destruct Hr2 as [Hw Heq]. split; [done|]. rewrite Heq. unfold loaded. simpl.
    by rewrite (load_step _ _ _ _ _ (ci_services _ (rc_inv _ Hd)) Hk Hx). }
  refine (side_bind _ _ _ _ s2 _ Hr3); [by apply side_index_insert|apply side_bump_service].
Qed.
Lemma restore_service k x kn n pn ps pc s :
  services d !! k = Some x → nodes d !! kn = Some n → node_Node n = sn_Node x → n ∉ pn → x ∉ ps →
  rows s (loaded pn (x :: ps) pc) →
  succeeds (Restore_Registration idx (node_request n (Some (ServiceNode_ToNodeService x)) None))
    (λ _ s', rows s' (loaded pn ps pc)) s.
Proof using Hd Hws.
  intros Hk Hkn Hname Hn Hx Hr.
  pose proof (ServiceNode_key _ _ (ci_services _ (rc_inv _ Hd) _ _ Hk)) as [Hkey _].
  eapply wp_bind_run; [by apply (loaded_node kn n _ _ _ _ Hkn Hn Hr)|]. rewrite unchanged_node.
  eapply wp_bind_run; [done|]. cbn [rr_Service rr_Check rr_Checks node_request].
  apply wp_bind. eapply wp_bind_run; [by apply First_rows|].
  change (tbl (loaded pn (x :: ps) pc)) with (services (loaded pn (x :: ps) pc)). cbn [rr_Node ns_ID ServiceNode_ToNodeService].
  change (rr_Node (node_request n _ _)) with (node_Node n).   rewrite Hname, <-Hkey, (loaded_service_lookup _ _ _ _ _ Hk), decide_True by left. rewrite <-Hname.
  apply wp_wrap. eapply wp_mono; [by apply (ensure_pending_service k x kn n pn ps)| |done]. done.
Qed.

(** *** Checks *)

Lemma check_indexes_check c : check_indexes table_indexes c = Ok tt ↔ hc_Status c ≠ "".
Proof using Type.
  simpl. unfold string_index. repeat case_decide; simpl; naive_solver.
Qed.

Lemma ensure_pending_check k c kn n pn ps pc s :
  checks d !! k = Some c → nodes d !! kn = Some n → node_Node n = hc_Node c → n ∉ pn → c ∉ pc →
  (hc_ServiceID c ≠ "" → ∀ x, services d !! service_key (hc_Node c) (hc_ServiceID c) = Some x → x ∉ ps) →
  rows s (loaded pn ps (c :: pc)) →
  succeeds (ensureCheckTxn idx c) (λ _ s', rows s' (loaded pn ps pc)) s.
Proof using Hd Hws.
  intros Hk Hkn Hname Hn Hc Hps Hr. pose proof (ws_HealthCheck _ Hws _ _ Hk) as [Hpk Hst%check_indexes_check].
  pose proof (HealthCheck_key _ _ Hpk) as [Hkey _].
  unfold ensureCheckTxn. eapply wp_bind_run; [by apply First_rows|].
  assert (tbl (loaded pn ps (c :: pc)) !! check_key (hc_Node c) (hc_CheckID c) = @None HealthCheck) as ->.
  { rewrite <-Hkey. simpl. rewrite lookup_fmap, lookup_without, Hk. by rewrite decide_True by left. }
  cbv zeta. rewrite (decide_False (P := hc_Status _ = "")) by done.
  eapply wp_bind_run; [cbn [hc_Node hc_set_indexes]; rewrite <-Hname; by apply (loaded_node kn n _ _ _ _ Hkn Hn Hr)|].
  apply wp_bind. eapply (wp_mono _ (λ r s', r = (hc_set_indexes idx idx (restored_check d idx c), true) ∧
    rows s' (loaded pn ps (c :: pc))) _ (λ _, False)); [| |done].
  - unfold restored_check. cbn [hc_ServiceID hc_set_indexes hc_Node]. case_decide as Hid.
    + destruct (ci_check_service _ (rc_inv _ Hd) _ _ Hk Hid) as [svc Hsvc].
      eapply wp_bind_run; [by apply First_rows|].
      change (tbl (loaded pn ps (c :: pc))) with (services (loaded pn ps (c :: pc))).
      rewrite (loaded_service_lookup _ _ _ _ _ Hsvc), decide_False by (by apply Hps).
      apply wp_bind. eapply wp_mono; [by apply side_bump_service| |done]. intros ? s2 Hr2. by rewrite Hsvc.
    + apply wp_bind. eapply wp_mono; [by apply side_updateAllServiceIndexesOfNode| |done]. by intros ? s2 Hr2.
  - intros ? s1 [-> Hr1].
    assert (∀ s2, rows s2 (loaded pn ps (c :: pc)) →
      succeeds (mwrap "failed inserting check" (tx_Insert (restored_check d idx c)) ;;; index_insert "checks" idx)
        (λ _ s', rows s' (loaded pn ps pc)) s2) as Hins.
    { intros s2 Hr2. apply wp_bind.
      assert (storable_row k (restored_check d idx c)) as Hrow.
      { unfold restored_check. split; [|apply check_indexes_check]; case_decide; [destruct (services d !! _)| | |]; try done.
        by destruct (services d !! _). }
      eapply wp_mono; [by apply (succeeds_Insert _ k)| |done]. intros ? s3 [Hw Heq].
      apply side_index_insert; [done|]. split; [done|]. rewrite Heq. unfold loaded. simpl.
      by rewrite (load_step _ _ _ _ _ (ci_checks _ (rc_inv _ Hd)) Hk Hc). }
    apply wp_bind. eapply (wp_mono _ (λ _ s', rows s' (loaded pn ps (c :: pc))) _ (λ _, False)); [| |done].
    + case_decide; [|by apply wp_ret]. eapply wp_bind_run; [by apply Get_rows|]. done.
    + intros ? s2 Hr2. by apply Hins.
Qed.
Lemma restore_check k c kn n pn ps pc s :
  checks d !! k = Some c → nodes d !! kn = Some n → node_Node n = hc_Node c → n ∉ pn → c ∉ pc →
  (hc_ServiceID c ≠ "" → ∀ x, services d !! service_key (hc_Node c) (hc_ServiceID c) = Some x → x ∉ ps) →
  rows s (loaded pn ps (c :: pc)) →
  succeeds (Restore_Registration idx (node_request n None (Some c))) (λ _ s', rows s' (loaded pn ps pc)) s.
Proof using Hd Hws.
  intros Hk Hkn Hname Hn Hc Hps Hr.
  eapply wp_bind_run; [by apply (loaded_node kn n _ _ _ _ Hkn Hn Hr)|]. rewrite unchanged_node.
  eapply wp_bind_run; [done|]. eapply wp_bind_run; [done|]. cbn [rr_Check rr_Checks node_request].
  change (rr_Node (node_request n _ _)) with (node_Node n).
  apply wp_bind. unfold ensureCheckIfNodeMatches at 1. rewrite decide_True by done.
  apply wp_wrap. eapply wp_mono; [by apply (ensure_pending_check k c kn n pn ps pc)| |done]. done.
Qed.

(** *** All of it *)

Definition node_services (n : Node) : list ServiceNode :=
  table_scan services_node_index (string_args true (node_Node n)) (services d).
Definition node_checks (n : Node) : list HealthCheck :=
  table_scan checks_node_index (string_args true (node_Node n)) (checks d).

Lemma node_prefix a b k :
  nul_free a → nul_free b → String.prefix (string_args true a) (node_key b +:+ k) = true ↔ node_key b = node_key a.
Proof using Type.
  intros Ha Hb. unfold node_key, string_args. rewrite prefix_spec. split.
  - intros [r Hr]. rewrite !str_app_assoc in Hr.
    by apply terminated_inj in Hr as [-> _]; [|by rewrite nul_free_lower..].
  - intros ->. by exists k.
Qed.
Lemma elem_of_node_services kn n x :
  nodes d !! kn = Some n →
  x ∈ node_services n ↔ ∃ k, services d !! k = Some x ∧ node_Node n = sn_Node x.
Proof using Hd.
  intros Hkn. pose proof (ci_nul_free _ (rc_inv _ Hd) _ _ Hkn) as Hnf. simpl in Hnf.
  pose proof (Node_key _ _ (ci_nodes _ (rc_inv _ Hd) _ _ Hkn)) as ->.
  unfold node_services. rewrite elem_of_table_scan. unfold index_keys. simpl.
  split; [intros (k&b&Hk&Hb&Hp)|intros (k&Hk&Hname)];
    pose proof (ServiceNode_key _ _ (ci_services _ (rc_inv _ Hd) _ _ Hk)) as [_ Hne];
    pose proof (rc_service_node _ Hd _ _ Hk) as Hspell; simpl in Hspell;
    destruct (nodes d !! node_key (sn_Node x)) as [m|] eqn:Hm; [|done| |done];
    pose proof (node_nul_free _ _ _ (rc_inv _ Hd) Hm) as Hnx.
  - exists k. split; [done|]. rewrite string_index_key in Hb by done. simpl in Hb.
    apply list_elem_of_singleton in Hb as ->. apply node_prefix in Hp; [|done..].
    rewrite Hp, Hkn in Hm. simpl in Hspell. congruence.
  - exists k, (node_key (sn_Node x) +:+ k). split; [done|]. rewrite string_index_key by done. split; [by left|].
    apply node_prefix; [done..|]. by rewrite Hname.
Qed.
Lemma elem_of_node_checks kn n c :
  nodes d !! kn = Some n →
  c ∈ node_checks n ↔ ∃ k, checks d !! k = Some c ∧ node_Node n = hc_Node c.
Proof using Hd.
  intros Hkn. pose proof (ci_nul_free _ (rc_inv _ Hd) _ _ Hkn) as Hnf. simpl in Hnf.
  pose proof (Node_key _ _ (ci_nodes _ (rc_inv _ Hd) _ _ Hkn)) as ->.
  unfold node_checks. rewrite elem_of_table_scan. unfold index_keys. simpl.
  split; [intros (k&b&Hk&Hb&Hp)|intros (k&Hk&Hname)];
    pose proof (HealthCheck_key _ _ (ci_checks _ (rc_inv _ Hd) _ _ Hk)) as [_ Hne];
    pose proof (rc_check_node _ Hd _ _ Hk) as Hspell; simpl in Hspell;
    destruct (nodes d !! node_key (hc_Node c)) as [m|] eqn:Hm; [|done| |done];
    pose proof (node_nul_free _ _ _ (rc_inv _ Hd) Hm) as Hnx.
  - exists k. split; [done|]. rewrite string_index_key in Hb by done. simpl in Hb.
    apply list_elem_of_singleton in Hb as ->. apply node_prefix in Hp; [|done..].
    rewrite Hp, Hkn in Hm. simpl in Hspell. congruence.
  - exists k, (node_key (hc_Node c) +:+ k). split; [done|]. rewrite string_index_key by done. split; [by left|].
    apply node_prefix; [done..|]. by rewrite Hname.
Qed.

(** Loops that load what is pending. *)
Lemma restore_services kn n pn xs ps pc s :
  nodes d !! kn = Some n → n ∉ pn → NoDup (xs ++ ps) → (∀ x, x ∈ xs → x ∈ node_services n) →
  rows s (loaded pn (xs ++ ps) pc) →
  succeeds (mfor xs (λ x, Restore_Registration idx (node_request n (Some (ServiceNode_ToNodeService x)) None)))
    (λ _ s', rows s' (loaded pn ps pc)) s.
Proof using Hd Hws.
  intros Hkn Hn Hnd Hin. revert s. induction xs as [|x xs IH]; intros s Hr; [done|].
  apply list.NoDup_cons in Hnd as [Hx Hnd].
  destruct (proj1 (elem_of_node_services kn n x Hkn) (Hin x ltac:(by left))) as (k&Hk&Hname).
  apply wp_bind. eapply wp_mono; [by apply (restore_service k x kn n pn (xs ++ ps) pc)| |done].
  intros ? s1 Hr1. apply IH; [done| |done]. intros y Hy. apply Hin. by right.
Qed.
Lemma restore_checks kn n pn ps cs pc s :
  nodes d !! kn = Some n → n ∉ pn → NoDup (cs ++ pc) → (∀ c, c ∈ cs → c ∈ node_checks n) →
  (∀ x, x ∈ node_services n → x ∉ ps) → rows s (loaded pn ps (cs ++ pc)) →
  succeeds (mfor cs (λ c, Restore_Registration idx (node_request n None (Some c))))
    (λ _ s', rows s' (loaded pn ps pc)) s.
Proof using Hd Hws.
  intros Hkn Hn Hnd Hin Hsv. revert s. induction cs as [|c cs IH]; intros s Hr; [done|].
  apply list.NoDup_cons in Hnd as [Hx Hnd].
  destruct (proj1 (elem_of_node_checks kn n c Hkn) (Hin c ltac:(by left))) as (k&Hk&Hname).
  apply wp_bind. eapply wp_mono; [apply (restore_check k c kn n pn ps (cs ++ pc)); try done| |done].
  - intros Hid x Hx'. apply Hsv, (elem_of_node_services kn n x Hkn). eexists. split; [done|].
    pose proof (ServiceNode_key _ _ (ci_services _ (rc_inv _ Hd) _ _ Hx')) as [Hkey _].
    pose proof (rc_service_node _ Hd _ _ Hx') as Hspell. simpl in Hspell.
    pose proof (Node_key _ _ (ci_nodes _ (rc_inv _ Hd) _ _ Hkn)) as Hn'.
    pose proof (rc_check_node _ Hd _ _ Hk) as Hspell'. simpl in Hspell'.
    destruct (nodes d !! node_key (hc_Node c)) as [m|] eqn:Hm; [|done].
    destruct (nodes d !! node_key (sn_Node x)) as [m'|] eqn:Hm'; [|done].
    apply service_key_inj in Hkey; [|by eapply node_nul_free, Hm; apply Hd|by eapply node_nul_free, Hm'; apply Hd].
    rewrite <-Hkey, Hm in Hm'. simpl in *. congruence.
  - intros ? s1 Hr1. apply IH; [done| |done]. intros y Hy. apply Hin. by right.
Qed.

Definition node_records (n : Node) : list snapshot_record :=
  RecRegister (node_request n None None) ::
    ((λ s, RecRegister (node_request n (Some (ServiceNode_ToNodeService s)) None)) <$> node_services n) ++
    ((λ c, RecRegister (node_request n None (Some c))) <$> node_checks n).

Lemma restore_nodes compile pn s :
  NoDup pn → (∀ n, n ∈ pn → ∃ k, nodes d !! k = Some n) →
  NoDup (pn ≫= node_services) → NoDup (pn ≫= node_checks) →
  rows s (loaded pn (pn ≫= node_services) (pn ≫= node_checks)) →
  succeeds (for r in pn ≫= node_records do restore_record compile idx r) (λ _ s', rows s' (loaded [] [] [])) s.
Proof using Hd Hws.
  revert s. induction pn as [|n pn IH]; intros s Hnd Hin Hps Hpc Hr; [done|].
  apply list.NoDup_cons in Hnd as [Hn Hnd]. destruct (Hin n ltac:(by left)) as [k Hk].
  rewrite bind_cons in Hps. rewrite bind_cons in Hpc. rewrite !bind_cons in Hr. rewrite bind_cons. apply wp_for_app.
  apply wp_bind. eapply wp_mono; [by apply (restore_node k n)| |done]. intros ? s1 Hr1.
  apply wp_for_app. rewrite mfor_fmap. eapply wp_mono; [eapply (restore_services k n pn (node_services n)); [done|done|exact Hps|done|exact Hr1]| |done].
  intros ? s2 Hr2. cbn beta. rewrite mfor_fmap. eapply wp_mono; [apply (restore_checks k n pn (pn ≫= node_services)); try done| |done].
  - intros x Hx Hx'. apply list.NoDup_app in Hps as (_&Hdis&_). by apply (Hdis x).
  - intros ? s3 Hr3. apply list.NoDup_app in Hps as (_&_&?), Hpc as (_&_&?). apply IH; try done.
    intros m Hm. apply Hin. by right.
Qed.

Lemma without_all {A} `{EqDecision A} (l : list A) (t : gmap string A) :
  (∀ k x, t !! k = Some x → x ∈ l) → without l t = ∅.
Proof using Type.
  intros Hl. apply map_eq. intros k. rewrite lookup_without, lookup_empty.
  destruct (t !! k) as [x|] eqn:Hx; [|done]. rewrite decide_True; [done|]. by eapply Hl.
Qed.

Definition node_list : list Node := table_prefix "" (nodes d).
Lemma elem_of_node_list n : n ∈ node_list ↔ ∃ k, nodes d !! k = Some n.
Proof using Type.
  unfold node_list. rewrite elem_of_table_prefix. setoid_rewrite prefix_empty. naive_solver.
Qed.
Lemma services_covered k x : services d !! k = Some x → x ∈ node_list ≫= node_services.
Proof using Hd.
  intros Hk. apply list_elem_of_bind. pose proof (rc_service_node _ Hd _ _ Hk) as Hn. simpl in Hn.
  destruct (nodes d !! node_key (sn_Node x)) as [n|] eqn:Hkn; [|done]. simpl in Hn. exists n. split.
  - apply (elem_of_node_services _ n x Hkn). exists k. split; [done|]. congruence.
  - apply elem_of_node_list. by eexists.
Qed.
Lemma checks_covered k c : checks d !! k = Some c → c ∈ node_list ≫= node_checks.
Proof using Hd.
  intros Hk. apply list_elem_of_bind. pose proof (rc_check_node _ Hd _ _ Hk) as Hn. simpl in Hn.
  destruct (nodes d !! node_key (hc_Node c)) as [n|] eqn:Hkn; [|done]. simpl in Hn. exists n. split.
  - apply (elem_of_node_checks _ n c Hkn). exists k. split; [done|]. congruence.
  - apply elem_of_node_list. by eexists.
Qed.
Lemma same_name_same_node n1 n2 : n1 ∈ node_list → n2 ∈ node_list → node_Node n1 = node_Node n2 → n1 = n2.
Proof using Hd.
  intros [k1 H1]%elem_of_node_list [k2 H2]%elem_of_node_list Heq.
  pose proof (Node_key _ _ (ci_nodes _ (rc_inv _ Hd) _ _ H1)). pose proof (Node_key _ _ (ci_nodes _ (rc_inv _ Hd) _ _ H2)).
  congruence.
Qed.

(** The registrations of a snapshot rebuild the catalog. *)
Lemma restore_catalog compile s :
  rows s empty_db →
  succeeds (for r in node_list ≫= node_records do restore_record compile idx r)
    (λ _ s', rows s' (loaded [] [] [])) s.
Proof using Hd Hws.
  intros Hr. assert (keyed (nodes d)) as Hkn by apply Hd.
  apply restore_nodes.
  - by apply NoDup_table_prefix.
  - intros n Hn. by apply elem_of_node_list.
  - apply list.NoDup_bind; [| |by apply NoDup_table_prefix].
    + intros n1 n2 x H1 H2 Hx1 Hx2. apply same_name_same_node; [done..|].
      apply elem_of_node_list in H1 as [k1 H1], H2 as [k2 H2].
      apply (elem_of_node_services _ _ _ H1) in Hx1 as (?&?&?). apply (elem_of_node_services _ _ _ H2) in Hx2 as (?&?&?). congruence.
    + intros n _. apply NoDup_table_scan; [|apply Hd]. intros k x. unfold index_keys. simpl. unfold string_index. case_decide; simpl; lia.
  - apply list.NoDup_bind; [| |by apply NoDup_table_prefix].
    + intros n1 n2 x H1 H2 Hx1 Hx2. apply same_name_same_node; [done..|].
      apply elem_of_node_list in H1 as [k1 H1], H2 as [k2 H2].
      apply (elem_of_node_checks _ _ _ H1) in Hx1 as (?&?&?). apply (elem_of_node_checks _ _ _ H2) in Hx2 as (?&?&?). congruence.
    + intros n _. apply NoDup_table_scan; [|apply Hd]. intros k x. unfold index_keys. simpl. unfold string_index. case_decide; simpl; lia.
  - unfold loaded. rewrite (without_all _ (nodes d)) by (intros k n Hk; apply elem_of_node_list; by exists k).
    rewrite (without_all _ (services d) services_covered), (without_all _ (checks d) checks_covered).
    by rewrite !fmap_empty.
Qed.
End catalog.
