(* ===== verification/SessionFacts.v ===== *)
(** * Sessions: what destroying one does, and the lock invariant

    [deleteSessionTxn_run] gives the exact tables after the destruction of a
    session.  [session_inv] says that locks, check mappings and prepared
    queries refer to live sessions; every command preserves it. *)

From S2P Require Import Prelude Memdb ProxyConfig Structs Delay TombstoneGC Store Graveyard Kvs PreparedQuery Session Catalog Coordinate.
From S2P Require Import Txn Fsm Logic MemdbFacts StoreFacts KvSpec KvRefine.

(** ** Definitions *)

(** An entry whose lock is taken away by the release behavior. *)
Definition released (idx : N) (e : DirEntry) : DirEntry :=
  de_set_indexes (de_CreateIndex e) idx (de_set_session "" e).

Definition set_delays (delay now : Z) (l : list DirEntry) (d : Delay) : Delay :=
  fold_left (λ d e, if (0 <? delay)%Z then SetExpiration d (de_Key e) now delay else d) l d.

(** The entries of [l] are stored, can be stored again, and are locked. *)
Definition locked_entries (l : list DirEntry) (t : gmap string DirEntry) : Prop :=
  ∀ e, e ∈ l → t !! string_args false (de_Key e) = Some e ∧ storable e ∧ de_Session e ≠ "".

(** [s'] is [s] after the loop of lock invalidations over [l]. *)
Record after_locks (delay : Z) (l : list DirEntry) (idx : N) (s s' : txn) : Prop := {
  al_write : tx_write s' = tx_write s;
  al_now : tx_now s' = tx_now s;
  al_frame : kv_frame (tx_db s) (tx_db s');
  al_delay : tx_delay s' = set_delays delay (tx_now s) l (tx_delay s);
  al_index : index_value (tx_db s') "kvs" = (if decide (l = []) then index_value (tx_db s) "kvs" else Some idx);
  al_index_other : ∀ k, k ≠ string_args true "kvs" → k ≠ string_args true "tombstones" →
    index (tx_db s') !! k = index (tx_db s) !! k
}.

Definition release_in (idx : N) (l : list DirEntry) (t : gmap string DirEntry) : gmap string DirEntry :=
  (λ e, if decide (e ∈ l) then released idx e else e) <$> t.
Definition bury (idx : N) (l : list DirEntry) (t : gmap string Tombstone) : gmap string Tombstone :=
  fold_left (λ t e, <[string_args false (de_Key e) := mkTombstone (de_Key e) idx]> t) l t.

(** The session of the ID [id] is live. *)
Definition live (d : db) (id : string) : Prop := ∃ b, uuid_parse id = Ok b ∧ is_Some (sessions d !! b).

(** Locks, check mappings and prepared queries refer to live sessions, and
    what the session code reads back from the tables is well formed. *)
Record session_inv (d : db) : Prop := {
  si_kvs : kvs_keyed (kvs d);
  si_locks : map_Forall (λ _ e, de_Session e ≠ "" → live d (de_Session e)) (kvs d);
  si_sessions : map_Forall (λ b x, uuid_parse (sess_ID x) = Ok b ∧
    (sess_Behavior x = SessionKeysRelease ∨ sess_Behavior x = SessionKeysDelete)) (sessions d);
  si_mappings_keyed : keyed (session_checks d);
  si_mappings : map_Forall (λ _ m, live d (sc_Session m)) (session_checks d);
  si_queries_keyed : map_Forall (λ b q, uuid_parse (pq_ID q) = Ok b) (prepared_queries d);
  si_queries : map_Forall (λ _ q, pq_Session q ≠ "" → live d (pq_Session q)) (prepared_queries d);
  si_tombs : keyed (tombstones d)
}.

(** The keys locked by the session of UUID bytes [b]. *)
Definition session_keys (b : string) (d : db) : list DirEntry := table_scan kvs_session_index b (kvs d).

(** [s'] is [s] after the destruction of the session [x] of UUID bytes [b]. *)
Record destroyed (idx : N) (b : string) (x : Session) (s s' : txn) : Prop := {
  ds_write : tx_write s' = tx_write s;
  ds_now : tx_now s' = tx_now s;
  ds_sessions : sessions (tx_db s') = delete b (sessions (tx_db s));
  ds_kvs :
    let keys := session_keys b (tx_db s) in
    if decide (sess_Behavior x = SessionKeysRelease)
    then kvs (tx_db s') = release_in idx keys (kvs (tx_db s)) ∧ tombstones (tx_db s') = tombstones (tx_db s)
    else kvs (tx_db s') = without keys (kvs (tx_db s)) ∧
         tombstones (tx_db s') = bury idx keys (tombstones (tx_db s));
  ds_mappings : session_checks (tx_db s') =
    without (table_scan session_checks_session_index b (session_checks (tx_db s))) (session_checks (tx_db s));
  ds_queries : prepared_queries (tx_db s') =
    without (table_scan queries_session_index b (prepared_queries (tx_db s))) (prepared_queries (tx_db s));
  ds_catalog : nodes (tx_db s') = nodes (tx_db s) ∧ services (tx_db s') = services (tx_db s) ∧
    checks (tx_db s') = checks (tx_db s) ∧ coordinates (tx_db s') = coordinates (tx_db s);
  ds_delay : tx_delay s' =
    set_delays (lock_delay (sess_LockDelay x)) (tx_now s) (session_keys b (tx_db s)) (tx_delay s);
  ds_index : index_value (tx_db s') "sessions" = Some idx
}.

(** ** The loops over the keys of a session *)

Lemma set_lock_delay_run delay key s :
  set_lock_delay delay key s =
    (Ok tt, tx_set_delay (if (0 <? delay)%Z then SetExpiration (tx_delay s) key (tx_now s) delay else tx_delay s) s).
Proof. unfold set_lock_delay. destruct (0 <? delay)%Z; [done|]. by destruct s. Qed.

Lemma release_key_run idx delay e s :
  tx_write s = true → locked_entries [e] (kvs (tx_db s)) →
  ∃ s', release_key idx delay e s = (Ok tt, s') ∧ after_locks delay [e] idx s s' ∧
    kvs (tx_db s') = <[string_args false (de_Key e) := released idx e]> (kvs (tx_db s)) ∧
    tombstones (tx_db s') = tombstones (tx_db s).
Proof.
  intros Hw Hl. destruct (Hl e) as (He&Hs&Hne); [by left|].
  pose proof (kvsSetTxn_run idx (de_set_session "" e) true s Hw) as Hrun. cbv zeta in Hrun.
  change (kv_at s (de_Key (de_set_session "" e))) with (kvs (tx_db s) !! string_args false (de_Key e)) in Hrun.
  rewrite He in Hrun. change (prepared (Some e) idx (de_set_session "" e) true) with (released idx e) in Hrun.
  assert (unchanged (Some e) (released idx e) = false) as Hu.
  { simpl. unfold DirEntry_Equal. simpl. rewrite (bool_decide_false (de_Session e = "")) by done.
    by rewrite andb_false_r. }
  assert (storable (released idx e) = true) as Hs'.
  { unfold storable. simpl. rewrite bool_decide_true by (by apply storable_key). done. }
  rewrite Hu, Hs' in Hrun. unfold release_key. change (DirEntry_Clone e) with (de_set_session (de_Session e) e).
  erewrite run_bind_ok by (apply run_wrap_ok; exact Hrun).
  rewrite set_lock_delay_run. eexists. split; [done|]. split; [|done].
  split; try done.
  - unfold index_value. simpl. by rewrite lookup_insert_eq.
  - intros. simpl. by rewrite !lookup_insert_ne by done.
Qed.

Lemma delete_key_run idx delay e s :
  tx_write s = true → locked_entries [e] (kvs (tx_db s)) →
  ∃ s', delete_key idx delay e s = (Ok tt, s') ∧ after_locks delay [e] idx s s' ∧
    kvs (tx_db s') = delete (string_args false (de_Key e)) (kvs (tx_db s)) ∧
    tombstones (tx_db s') = <[string_args false (de_Key e) := mkTombstone (de_Key e) idx]> (tombstones (tx_db s)).
Proof.
  intros Hw Hl. destruct (Hl e) as (He&Hs&Hne); [by left|].
  pose proof (kvsDeleteTxn_run idx (de_Key e) s Hw) as Hrun.
  unfold kv_at in Hrun. rewrite He in Hrun. specialize (Hrun ltac:(intros ? [= <-]; done)).
  unfold delete_key. erewrite run_bind_ok by (apply run_wrap_ok; exact Hrun).
  rewrite set_lock_delay_run. eexists. split; [done|]. split; [|done].
  split; try done.
  - unfold index_value. simpl. by rewrite lookup_insert_eq.
  - intros. simpl. by rewrite !lookup_insert_ne by done.
Qed.

Lemma after_locks_nil delay idx s : after_locks delay [] idx s s.
Proof. by split. Qed.
Lemma after_locks_cons delay e l idx s s1 s' :
  after_locks delay [e] idx s s1 → after_locks delay l idx s1 s' → after_locks delay (e :: l) idx s s'.
Proof.
  intros [H1 H2 H3 H4 H5 H6] [G1 G2 G3 G4 G5 G6]. split; try congruence.
  - by eapply kv_frame_trans.
  - rewrite G4, H4, H2. done.
  - rewrite G5, H5. simpl. by destruct (decide (l = [])).
  - intros. by rewrite G6, H6.
Qed.

Lemma locked_entries_tail e l t x :
  e ∉ l → locked_entries (e :: l) t →
  locked_entries [e] t ∧ locked_entries l (partial_alter (λ _, x) (string_args false (de_Key e)) t).
Proof.
  intros He Hl. split.
  - intros e' ->%list_elem_of_singleton. apply Hl. by left.
  - intros e' He'. destruct (Hl e') as (Hk&Hs&Hne); [by right|]. split; [|done].
    rewrite lookup_partial_alter_ne; [done|]. intros Heq.
    destruct (Hl e) as (Hk'&_); [by left|]. rewrite Heq in Hk'. by simplify_eq.
Qed.

Lemma release_in_cons idx e l t :
  e ∉ l → locked_entries (e :: l) t → kvs_keyed t →
  release_in idx l (<[string_args false (de_Key e) := released idx e]> t) = release_in idx (e :: l) t.
Proof.
  intros He Hl Hk. unfold release_in. apply map_eq. intros k. rewrite !lookup_fmap.
  destruct (decide (k = string_args false (de_Key e))) as [->|Hne].
  - rewrite lookup_insert_eq. destruct (Hl e) as (Hke&_); [by left|]. rewrite Hke. simpl.
    rewrite (decide_True (P := e ∈ e :: l)) by (by left). rewrite decide_False; [done|].
    intros Hin. destruct (Hl (released idx e)) as (_&_&?); [by right|]. done.
  - rewrite lookup_insert_ne by done. destruct (t !! k) as [y|] eqn:Hy; [|done]. simpl. f_equal.
    assert (y ≠ e) as Hye by (intros ->; by apply Hk in Hy as [-> _]).
    destruct (decide (y ∈ l)); [by rewrite decide_True by (by right)|].
    rewrite decide_False; [done|]. by intros [->|]%elem_of_cons.
Qed.

Lemma release_loop_run idx delay l s :
  tx_write s = true → NoDup l → kvs_keyed (kvs (tx_db s)) → locked_entries l (kvs (tx_db s)) →
  ∃ s', mfor l (release_key idx delay) s = (Ok tt, s') ∧ after_locks delay l idx s s' ∧
    kvs (tx_db s') = release_in idx l (kvs (tx_db s)) ∧ tombstones (tx_db s') = tombstones (tx_db s).
Proof.
  revert s. induction l as [|e l IH]; intros s Hw Hnd Hk Hl.
  - exists s. split; [done|]. split; [apply after_locks_nil|]. split; [|done].
    unfold release_in. rewrite <-(map_fmap_id (kvs (tx_db s))) at 1. apply map_fmap_ext.
    intros. rewrite decide_False; [done|]. by intros ?%elem_of_nil.
  - inversion Hnd as [|?? He Hnd']; subst.
    destruct (locked_entries_tail e l _ (Some (released idx e)) He Hl) as [Hle Hll].
    destruct (release_key_run idx delay e s Hw Hle) as (s1&Hrun&Hal&Hkv&Hts).
    simpl. rewrite (run_bind_ok _ _ _ _ _ Hrun).
    destruct (IH s1) as (s'&Hrun'&Hal'&Hkv'&Hts').
    + by rewrite (al_write _ _ _ _ _ Hal).
    + done.
    + rewrite Hkv. apply map_Forall_insert_2; [|done]. split; [done|].
      destruct (Hle e) as (_&Hs&_); [by left|]. apply storable_key in Hs.
      unfold storable. simpl. by rewrite bool_decide_true by done.
    + by rewrite Hkv.
    + exists s'. split; [done|]. split; [by eapply after_locks_cons|].
      rewrite Hkv', Hkv, Hts', Hts. split; [|done]. by apply release_in_cons.
Qed.

Lemma delete_key_loop_run idx delay l s :
  tx_write s = true → NoDup l → kvs_keyed (kvs (tx_db s)) → locked_entries l (kvs (tx_db s)) →
  ∃ s', mfor l (delete_key idx delay) s = (Ok tt, s') ∧ after_locks delay l idx s s' ∧
    kvs (tx_db s') = without l (kvs (tx_db s)) ∧ tombstones (tx_db s') = bury idx l (tombstones (tx_db s)).
Proof.
  revert s. induction l as [|e l IH]; intros s Hw Hnd Hk Hl.
  - exists s. split; [done|]. split; [apply after_locks_nil|]. split; [|done].
    by rewrite without_nil.
  - inversion Hnd as [|?? He Hnd']; subst.
    destruct (locked_entries_tail e l _ None He Hl) as [Hle Hll].
    destruct (delete_key_run idx delay e s Hw Hle) as (s1&Hrun&Hal&Hkv&Hts).
    simpl. rewrite (run_bind_ok _ _ _ _ _ Hrun).
    destruct (IH s1) as (s'&Hrun'&Hal'&Hkv'&Hts').
    + by rewrite (al_write _ _ _ _ _ Hal).
    + done.
    + rewrite Hkv. by apply map_Forall_delete.
    + by rewrite Hkv.
    + exists s'. split; [done|]. split; [by eapply after_locks_cons|].
      rewrite Hkv', Hkv, Hts', Hts. split; [|done].
      destruct (Hle e) as (Hke&Hse&_); [by left|].
      destruct (without_cons e (string_args false (de_Key e)) l (kvs (tx_db s))); try done.
      * intros kb x Hx. apply Hk in Hx as [-> Hs]. apply DirEntry_key. by apply storable_key.
      * apply DirEntry_key. by apply storable_key.
Qed.

(** ** The loops over the check mappings and the prepared queries *)

Lemma queries_loop_run fmt idx l s :
  tx_write s = true → NoDup l →
  map_Forall (λ b q, uuid_parse (pq_ID q) = Ok b) (prepared_queries (tx_db s)) →
  stored l (prepared_queries (tx_db s)) →
  ∃ ix, (for q in l do mwrap fmt (preparedQueryDeleteTxn idx (pq_ID q))) s =
    (Ok tt, tx_set_db (set_tbl (without l (prepared_queries (tx_db s)))
                         (set_tbl (ix : gmap string IndexEntry) (tx_db s))) s) ∧
    (∀ k, k ≠ string_args true "prepared-queries" → ix !! k = index (tx_db s) !! k).
Proof.
  revert s. induction l as [|q l IH]; intros s Hw Hnd Hk Hst.
  - exists (index (tx_db s)). split; [|done]. simpl. rewrite without_nil. by destruct s as [[]].
  - inversion Hnd as [|?? Hq Hnd']; subst. destruct (Hst q) as (b&Hb&Hlb); [by left|].
    pose proof (Hk _ _ Hlb) as Hp. simpl in Hp.
    set (s1 := put_index "prepared-queries" idx
                 (tx_set_db (set_tbl (delete b (prepared_queries (tx_db s))) (tx_db s)) s)).
    assert (preparedQueryDeleteTxn idx (pq_ID q) s = (Ok tt, s1)) as Hrun.
    { unfold preparedQueryDeleteTxn, tx_FirstUUID, mbind' at 1, mwrap at 1, mbind' at 1, mlift.
      rewrite Hp. unfold owrap, tx_First, mget. change (tbl (tx_db s)) with (prepared_queries (tx_db s)).
      rewrite Hlb. erewrite run_bind_ok by (apply run_wrap_ok; apply tx_Delete_ok; eauto).
      by rewrite index_insert_run. }
    simpl. erewrite run_bind_ok by (apply run_wrap_ok; exact Hrun).
    destruct (IH s1) as (ix&Hrun'&Hix); try done.
    + simpl. by apply map_Forall_delete.
    + simpl. by eapply stored_tail.
    + exists ix. rewrite Hrun'. split.
      * unfold s1. simpl. unfold tx_set_db. simpl.
        destruct (without_cons q b l (prepared_queries (tx_db s))) as [<-|]; try done.
        intros kb x Hx. apply Hk in Hx. unfold primary_key. simpl. by rewrite (uuid_index_key _ _ Hx).
      * intros k Hne. rewrite Hix by done. unfold s1. simpl. by rewrite lookup_insert_ne.
Qed.

(** ** The destruction of a session *)

Lemma uuid_index_single {A} name u am (f : A → string) : single_valued (mkIndex name u am (λ x, uuid_index (f x))).
Proof.
  intros k x. unfold index_keys, uuid_index. simpl.
  case_decide; [simpl; lia|]. destruct (uuid_parse (f x)); simpl; [destruct u|..]; simpl; lia.
Qed.
Lemma stored_scan {A} `{TableSchema A} ix p (t : gmap string A) : keyed t → stored (table_scan ix p t) t.
Proof. intros Hk x (k&Hx&_)%elem_of_table_scan_filed. exists k. split; [by apply Hk|done]. Qed.
Lemma kvs_keyed_keyed t : kvs_keyed t → keyed t.
Proof. intros Hk kb e He. apply Hk in He as [-> Hs]. apply DirEntry_key. by apply storable_key. Qed.
Lemma queries_keyed t : map_Forall (λ b q, uuid_parse (pq_ID q) = Ok b) t → keyed t.
Proof. intros Hk kb q Hq. apply Hk in Hq. unfold primary_key. simpl. by rewrite (uuid_index_key _ _ Hq). Qed.

Lemma session_keys_locked b d : kvs_keyed (kvs d) → locked_entries (session_keys b d) (kvs d).
Proof.
  intros Hk e (k&He&Hf)%elem_of_table_scan_filed. destruct (Hk _ _ He) as [-> Hs].
  split; [done|]. split; [done|]. intros Hne. unfold filed, index_keys in Hf. simpl in Hf.
  unfold uuid_index in Hf. by rewrite decide_True in Hf.
Qed.
Lemma NoDup_session_keys b d : kvs_keyed (kvs d) → NoDup (session_keys b d).
Proof. intros Hk. apply NoDup_table_scan; [apply uuid_index_single|by apply kvs_keyed_keyed]. Qed.

Lemma tx_FirstUUID_run {A} `{TableSchema A} `{TableOf A} id b s :
  uuid_parse id = Ok b → tx_FirstUUID (A := A) id s = (Ok (tbl (tx_db s) !! b), s).
Proof. intros Hb. unfold tx_FirstUUID, mbind', mlift. by rewrite Hb. Qed.
Lemma tx_GetUUID_run {A} `{TableSchema A} `{TableOf A} ix id b s :
  uuid_parse id = Ok b → tx_GetUUID (A := A) ix id s = (Ok (table_scan ix b (tbl (tx_db s))), s).
Proof. intros Hb. unfold tx_GetUUID, mbind', mlift. by rewrite Hb. Qed.

Lemma invalidate_locks_run idx behavior delay l s :
  behavior = SessionKeysRelease ∨ behavior = SessionKeysDelete →
  tx_write s = true → NoDup l → kvs_keyed (kvs (tx_db s)) → locked_entries l (kvs (tx_db s)) →
  ∃ s', invalidate_locks idx behavior delay l s = (Ok tt, s') ∧ after_locks delay l idx s s' ∧
    if decide (behavior = SessionKeysRelease)
    then kvs (tx_db s') = release_in idx l (kvs (tx_db s)) ∧ tombstones (tx_db s') = tombstones (tx_db s)
    else kvs (tx_db s') = without l (kvs (tx_db s)) ∧ tombstones (tx_db s') = bury idx l (tombstones (tx_db s)).
Proof.
  intros [-> | ->] Hw Hnd Hk Hl.
  - by apply release_loop_run.
  - by apply delete_key_loop_run.
Qed.

Lemma deleteSessionTxn_run idx id b x s :
  session_inv (tx_db s) → tx_write s = true → uuid_parse id = Ok b → sessions (tx_db s) !! b = Some x →
  ∃ s', deleteSessionTxn idx id s = (Ok tt, s') ∧ destroyed idx b x s s'.
Proof.
  intros [Hkvs _ Hse Hmk _ Hqk _ _] Hw Hb Hx. destruct (Hse _ _ Hx) as [Hxb Hbeh].
  unfold deleteSessionTxn.
  erewrite run_bind_ok by (apply run_wrap_ok; by apply tx_FirstUUID_run).
  change (tbl (tx_db s)) with (sessions (tx_db s)). rewrite Hx. cbn beta iota zeta.
  erewrite run_bind_ok by (apply run_wrap_ok; apply (tx_Delete_ok x b);
    [done|unfold primary_key; simpl; by rewrite (uuid_index_key _ _ Hxb)|by exists x]).
  erewrite run_bind_ok by (by apply index_insert_run).
  erewrite run_bind_ok by (apply run_wrap_ok; by apply tx_GetUUID_run).
  set (s1 := put_index _ _ _).
  destruct (invalidate_locks_run idx (sess_Behavior x) (lock_delay (sess_LockDelay x))
              (session_keys b (tx_db s)) s1) as (s2&Hrun2&[W2 N2 F2 D2 _ I2]&Hkv2); try done.
  { by apply NoDup_session_keys. } { apply (session_keys_locked b (tx_db s) Hkvs). }
  assert (tx_write s2 = true) as Hw2 by (by rewrite W2).
  erewrite run_bind_ok by exact Hrun2.
  erewrite run_bind_ok by (apply run_wrap_ok; by apply tx_GetUUID_run).
  change (tbl (tx_db s2)) with (session_checks (tx_db s2)).
  destruct F2 as (F1&F2&F3&F4&F5&F6&F7). simpl in F1, F2, F3, F4, F5, F6, F7.
  assert (keyed (session_checks (tx_db s2))) as Hmk2 by (by rewrite F2).
  erewrite run_bind_ok by (apply delete_loop_run;
    [done|apply NoDup_table_scan; [apply uuid_index_single|done]|done|by apply stored_scan]).
  erewrite run_bind_ok by (apply run_wrap_ok; by apply tx_GetUUID_run).
  set (s3 := tx_set_db _ s2).
  assert (prepared_queries (tx_db s3) = prepared_queries (tx_db s)) as Hq3 by (by simpl; rewrite F7).
  destruct (queries_loop_run "failed prepared query delete" idx
    (table_scan queries_session_index b (tbl (tx_db s3))) s3) as (ix&Hrun4&Hix).
  { done. }
  { change (tbl (tx_db s3)) with (prepared_queries (tx_db s3)). rewrite Hq3.
    apply NoDup_table_scan; [apply uuid_index_single|by apply queries_keyed]. }
  { by rewrite Hq3. }
  { change (tbl (tx_db s3)) with (prepared_queries (tx_db s3)). rewrite Hq3.
    apply stored_scan. by apply queries_keyed. }
  eexists. split; [exact Hrun4|].
  change (tbl (tx_db s3)) with (prepared_queries (tx_db s3)).
  split; simpl; rewrite ?F1, ?F2, ?F3, ?F4, ?F5, ?F6, ?F7; try done.
  unfold index_value. simpl. rewrite Hix by done. change (index (tx_db s3)) with (index (tx_db s2)).
  rewrite I2 by done. unfold s1. simpl. by rewrite lookup_insert_eq.
Qed.

(** ** The invariant *)

Lemma filed_uuid {A} name am (f : A → string) b k x :
  uuid_parse (f x) = Ok b → filed (mkIndex name false am (λ x, uuid_index (f x))) b k x = true.
Proof.
  intros Hb. apply filed_spec. exists (b +:+ k). split; [|apply prefix_app].
  unfold index_keys. simpl. rewrite (uuid_index_key _ _ Hb). by left.
Qed.

(** What refers to a session and is not filed under [b] survives [b]. *)
Lemma live_survives {A} name am (f : A → string) b t k (x : A) d :
  t !! k = Some x → x ∉ table_scan (mkIndex name false am (λ x, uuid_index (f x))) b t →
  live d (f x) → ∃ b', uuid_parse (f x) = Ok b' ∧ is_Some (delete b (sessions d) !! b').
Proof.
  intros Hk Hx (b'&Hb'&Hs). exists b'. split; [done|].
  rewrite lookup_delete_ne; [done|]. intros <-. destruct Hx. apply elem_of_table_scan_filed.
  exists k. split; [done|]. by apply filed_uuid.
Qed.

Lemma storable_released idx e : storable e → storable (released idx e).
Proof. intros Hs%storable_key. unfold storable. simpl. by rewrite bool_decide_true by done. Qed.

Lemma destroyed_kvs idx b x s s' k e :
  destroyed idx b x s s' → kvs (tx_db s') !! k = Some e →
  ∃ e0, kvs (tx_db s) !! k = Some e0 ∧
    ((e0 ∈ session_keys b (tx_db s) ∧ e = released idx e0) ∨ (e0 ∉ session_keys b (tx_db s) ∧ e = e0)).
Proof.
  intros Hd He. pose proof (ds_kvs _ _ _ _ _ Hd) as Hkv. cbv zeta in Hkv.
  case_decide; destruct Hkv as [Hkv _]; rewrite Hkv in He.
  - unfold release_in in He. rewrite lookup_fmap in He.
    destruct (kvs (tx_db s) !! k) as [e0|]; simplify_eq/=. exists e0.
    split; [done|]. case_decide; auto.
  - rewrite lookup_without in He. destruct (kvs (tx_db s) !! k) as [e0|]; simplify_eq/=.
    case_decide; simplify_eq. eauto.
Qed.

Lemma keyed_bury idx l t : keyed t → (∀ e, e ∈ l → de_Key e ≠ "") → keyed (bury idx l t).
Proof.
  unfold bury. revert t. induction l as [|e l IH]; intros t Ht Hl; [done|]. simpl. apply IH.
  - apply keyed_insert; [|done]. unfold primary_key. simpl. rewrite string_index_key; [done|]. apply Hl. by left.
  - intros e' He'. apply Hl. by right.
Qed.

Lemma destroyed_inv idx b x s s' :
  session_inv (tx_db s) → destroyed idx b x s s' → session_inv (tx_db s').
Proof.
  intros [H1 H2 H3 H4 H5 H6 H7 H8] Hd. split.
  - intros k e He. destruct (destroyed_kvs _ _ _ _ _ _ _ Hd He) as (e0&He0&[[Hi ->]|[Hi ->]]); [|by apply H1].
    apply H1 in He0 as [-> Hs]. split; [done|]. by apply storable_released.
  - intros k e He. destruct (destroyed_kvs _ _ _ _ _ _ _ Hd He) as (e0&He0&[[Hi ->]|[Hi ->]]); [done|].
    intros Hne. unfold live. rewrite (ds_sessions _ _ _ _ _ Hd).
    eapply (live_survives _ _ de_Session); [done|exact Hi|]. by eapply H2.
  - rewrite (ds_sessions _ _ _ _ _ Hd). by apply map_Forall_delete.
  - rewrite (ds_mappings _ _ _ _ _ Hd). by apply without_forall.
  - rewrite (ds_mappings _ _ _ _ _ Hd). intros k m Hm. rewrite lookup_without in Hm.
    destruct (session_checks (tx_db s) !! k) as [m0|] eqn:Hk; [|done]. case_decide as Hi; simplify_eq.
    unfold live. rewrite (ds_sessions _ _ _ _ _ Hd).
    eapply (live_survives _ _ sc_Session); [done|exact Hi|]. by eapply H5.
  - rewrite (ds_queries _ _ _ _ _ Hd). by apply without_forall.
  - rewrite (ds_queries _ _ _ _ _ Hd). intros k q Hq. rewrite lookup_without in Hq.
    destruct (prepared_queries (tx_db s) !! k) as [q0|] eqn:Hk; [|done]. case_decide as Hi; simplify_eq.
    intros Hne. unfold live. rewrite (ds_sessions _ _ _ _ _ Hd).
    eapply (live_survives _ _ pq_Session); [done|exact Hi|]. by eapply H7.
  - pose proof (ds_kvs _ _ _ _ _ Hd) as Hkv. cbv zeta in Hkv.
    case_decide; destruct Hkv as [_ ->]; [done|]. apply keyed_bury; [done|].
    intros e He. destruct (session_keys_locked b _ H1 e He) as (_&Hs&_). by apply storable_key.
Qed.
