(* ===== verification/SessionInv.v ===== *)
(** * Every command preserves the session invariant

    [safe m]: started in a write transaction whose tables satisfy
    [session_inv], every run of [m], successful or not, ends in such tables.
    Errors matter: the multi-operation transactions go on after some of them. *)

From S2P Require Import Prelude Memdb ProxyConfig Structs ConnectTables AclTables ConfigEntries Delay TombstoneGC Store Graveyard Kvs PreparedQuery Session Catalog Coordinate.
From S2P Require Import Intention ConnectCA Autopilot AclState ConfigState Txn Fsm Logic MemdbFacts StoreFacts SideFacts Frames KvSpec KvRefine SessionFacts.

Abbreviation keeps_inv := (keeps session_inv).
Abbreviation safe := (framed keeps_inv).

Ltac frame_step :=
  first
    [ solve [eauto with frame nocore]
    | apply framed_ret; apply _
    | apply framed_throw; apply _
    | apply framed_panic; apply _
    | apply framed_get; apply _
    | apply framed_lift; apply _
    | apply framed_bind; [apply _| |intros ?]
    | apply framed_wrap
    | apply framed_try
    | apply framed_for; [apply _|apply _|intros ?]
    | progress cbn beta iota zeta
    | match goal with
      | |- framed _ (match ?x with _ => _ end) => destruct x
      end ].
Ltac frame_tac := repeat frame_step.

(** ** The tables the invariant reads *)

Lemma session_inv_ext d d' :
  kvs d' = kvs d → sessions d' = sessions d → session_checks d' = session_checks d →
  prepared_queries d' = prepared_queries d → tombstones d' = tombstones d → session_inv d → session_inv d'.
Proof.
  intros E1 E2 E3 E4 E5 [H1 H2 H3 H4 H5 H6 H7 H8].
  assert (∀ id, live d id → live d' id) as Hl by (unfold live; by rewrite E2).
  split; rewrite ?E1, ?E2, ?E3, ?E4, ?E5; try done; eapply map_Forall_impl; eauto; simpl; auto.
Qed.

(** Tables whose writes the invariant does not see. *)
Class Unseen (A : Type) `{TableOf A} := unseen : ∀ t d,
  kvs (set_tbl t d) = kvs d ∧ sessions (set_tbl t d) = sessions d ∧
  session_checks (set_tbl t d) = session_checks d ∧ prepared_queries (set_tbl t d) = prepared_queries d ∧
  tombstones (set_tbl t d) = tombstones d.
#[export] Instance index_unseen : Unseen IndexEntry. Proof. done. Qed.
#[export] Instance nodes_unseen : Unseen Node. Proof. done. Qed.
#[export] Instance services_unseen : Unseen ServiceNode. Proof. done. Qed.
#[export] Instance checks_unseen : Unseen HealthCheck. Proof. done. Qed.
#[export] Instance coordinates_unseen : Unseen Coordinate. Proof. done. Qed.

Section unseen.
Context {A : Type} `{TableSchema A} `{Unseen A}.
Lemma safe_Insert (x : A) : safe (tx_Insert x).
Proof.
  intros s Hw Hi. unfold tx_Insert. rewrite Hw. destruct (table_insert _ x) as [t| |]; [|done..].
  split; [done|]. destruct (unseen t (tx_db s)) as (?&?&?&?&?). by eapply session_inv_ext.
Qed.
Lemma safe_Delete (x : A) : safe (tx_Delete x).
Proof.
  intros s Hw Hi. unfold tx_Delete. rewrite Hw. destruct (table_delete _ x) as [t| |]; [|done..].
  split; [done|]. destruct (unseen t (tx_db s)) as (?&?&?&?&?). by eapply session_inv_ext.
Qed.
End unseen.
Lemma safe_First {A} `{TableOf A} k : safe (tx_First (A := A) k).
Proof. unfold tx_First. frame_tac. Qed.
Lemma safe_Get {A} `{TableOf A} ix p : safe (tx_Get (A := A) ix p).
Proof. unfold tx_Get. frame_tac. Qed.
Lemma safe_GetPrefix {A} `{TableOf A} p : safe (tx_GetPrefix (A := A) p).
Proof. unfold tx_GetPrefix. frame_tac. Qed.
#[export] Hint Resolve safe_Insert safe_Delete safe_First safe_Get safe_GetPrefix : frame.
#[export] Hint Extern 1 (Unseen _) => apply _ : frame.
Lemma safe_FirstUUID {A} `{TableSchema A} `{TableOf A} id : safe (tx_FirstUUID (A := A) id).
Proof. unfold tx_FirstUUID. frame_tac. Qed.
Lemma safe_GetUUID {A} `{TableSchema A} `{TableOf A} ix id : safe (tx_GetUUID (A := A) ix id).
Proof. unfold tx_GetUUID. frame_tac. Qed.
Lemma safe_index_insert name idx : safe (index_insert name idx).
Proof. unfold index_insert. frame_tac. Qed.
Lemma safe_push_after i : safe (mmodify (tx_push_after i)).
Proof. by intros s Hw Hi. Qed.
#[export] Hint Resolve safe_FirstUUID safe_GetUUID safe_index_insert safe_push_after : frame.
Lemma safe_maxIndexTxn l : safe (maxIndexTxn l).
Proof. unfold maxIndexTxn. frame_tac. Qed.
Lemma inv_tombs d t : session_inv d → keyed t → session_inv (set_tbl (t : gmap string Tombstone) d).
Proof. intros [H1 H2 H3 H4 H5 H6 H7 H8] Ht. by split. Qed.
Lemma safe_Insert_tombstone (x : Tombstone) : safe (tx_Insert x).
Proof.
  intros s Hw Hi. destruct (tx_Insert_inv x s Hw) as [(k&Hk&_&->)|[_ [e ->]]]; [|done].
  split; [done|]. apply inv_tombs; [done|]. apply keyed_insert; [done|apply (si_tombs _ Hi)].
Qed.
Lemma safe_Delete_tombstone (x : Tombstone) : safe (tx_Delete x).
Proof.
  intros s Hw Hi. unfold tx_Delete. rewrite Hw. destruct (table_delete _ x) as [t| |] eqn:Ht; [|done..].
  split; [done|]. apply table_delete_inv in Ht as (k&_&_&->). apply inv_tombs; [done|].
  apply keyed_delete, (si_tombs _ Hi).
Qed.
#[export] Hint Resolve safe_Insert_tombstone safe_Delete_tombstone : frame.
Lemma safe_Graveyard_InsertTxn key idx : safe (Graveyard_InsertTxn key idx).
Proof. unfold Graveyard_InsertTxn. frame_tac. Qed.
Lemma safe_Graveyard_ReapTxn idx : safe (Graveyard_ReapTxn idx).
Proof. unfold Graveyard_ReapTxn. frame_tac. Qed.
#[export] Hint Resolve safe_maxIndexTxn safe_Graveyard_InsertTxn safe_Graveyard_ReapTxn : frame.

(** ** The tables the invariant reads, written *)

Lemma inv_put_kvs d e ix :
  session_inv d → storable e → (de_Session e ≠ "" → live d (de_Session e)) →
  session_inv (set_tbl (ix : gmap string IndexEntry)
                 (set_tbl (<[string_args false (de_Key e) := e]> (kvs d)) d)).
Proof.
  intros [H1 H2 H3 H4 H5 H6 H7 H8] Hs Hl. split; simpl; try done; by apply map_Forall_insert_2.
Qed.
(** Fewer entries, mappings, queries: still fine. *)
Lemma inv_subset d kv q :
  session_inv d → kv ⊆ kvs d → q ⊆ prepared_queries d →
  session_inv (set_tbl q (set_tbl (kv : gmap string DirEntry) d)).
Proof.
  intros [H1 H2 H3 H4 H5 H6 H7 H8] Hkv Hq. split; simpl; try done; intros k x Hx.
  - eapply H1; by eapply lookup_weaken.
  - eapply H2; by eapply lookup_weaken.
  - eapply H6; by eapply lookup_weaken.
  - eapply H7; by eapply lookup_weaken.
Qed.
Lemma inv_put_session d x b :
  session_inv d → uuid_parse (sess_ID x) = Ok b →
  sess_Behavior x = SessionKeysRelease ∨ sess_Behavior x = SessionKeysDelete →
  session_inv (set_tbl (<[b := x]> (sessions d)) d).
Proof.
  intros [H1 H2 H3 H4 H5 H6 H7 H8] Hb Hbeh.
  assert (∀ id, live d id → live (set_tbl (<[b := x]> (sessions d)) d) id) as Hl.
  { intros id (b'&Hid&Hs). exists b'. split; [done|]. simpl.
    destruct (decide (b' = b)) as [->|]; [rewrite lookup_insert_eq|rewrite lookup_insert_ne]; by eauto. }
  split; simpl; try done.
  - eapply map_Forall_impl; [exact H2|]. simpl. auto.
  - by apply map_Forall_insert_2.
  - eapply map_Forall_impl; [exact H5|]. simpl. auto.
  - eapply map_Forall_impl; [exact H7|]. simpl. auto.
Qed.
Lemma inv_put_mapping d m k :
  session_inv d → primary_key m = Some k → live d (sc_Session m) →
  session_inv (set_tbl (<[k := m]> (session_checks d)) d).
Proof.
  intros [H1 H2 H3 H4 H5 H6 H7 H8] Hk Hl. split; simpl; try done.
  - by apply keyed_insert.
  - by apply map_Forall_insert_2.
Qed.
Lemma inv_put_query d q b :
  session_inv d → uuid_parse (pq_ID q) = Ok b → (pq_Session q ≠ "" → live d (pq_Session q)) →
  session_inv (set_tbl (<[b := q]> (prepared_queries d)) d).
Proof.
  intros [H1 H2 H3 H4 H5 H6 H7 H8] Hk Hl. split; simpl; try done; by apply map_Forall_insert_2.
Qed.

Lemma inv_entry d key e :
  session_inv d → kvs d !! string_args false key = Some e → de_Key e = key ∧ storable e.
Proof. intros Hi [Hk Hs]%(si_kvs d Hi). by apply str_nul_inj in Hk as ->. Qed.

(** ** KV operations *)

Lemma kvsSet_keeps idx e upd s :
  (upd = true → de_Session e ≠ "" → live (tx_db s) (de_Session e)) →
  keeps_inv s (kvsSetTxn idx e upd s).2.
Proof.
  intros Hl Hw Hi. pose proof (kvsSetTxn_run idx e upd s Hw) as Hrun. cbv zeta in Hrun.
  destruct (unchanged _ _); [by rewrite Hrun|].
  destruct (storable _) eqn:Hs; [|destruct Hrun as [err Hrun]; rewrite Hrun; by eauto].
  rewrite Hrun. split; [done|]. apply Is_true_true in Hs.
  set (e' := prepared _ _ _ _) in *.
  assert (de_Key e' = de_Key e) as HK by (unfold e', prepared; by destruct upd).
  assert (de_Session e' ≠ "" → live (tx_db s) (de_Session e')) as Hl'.
  { unfold e', prepared. destruct upd; simpl; [by auto|].
    destruct (kv_at s (de_Key e)) as [e0|] eqn:He; [|done]. by eapply (si_locks _ Hi). }
  pose proof (inv_put_kvs _ _ (<[string_args true "kvs" := mkIndexEntry "kvs" idx]> (index (tx_db s))) Hi Hs Hl') as H.
  by rewrite HK in H.
Qed.

Lemma safe_kvsSetTxn idx e : safe (kvsSetTxn idx e false).
Proof. intros s. by apply kvsSet_keeps. Qed.
Lemma safe_kvsDeleteTxn idx key : safe (kvsDeleteTxn idx key).
Proof.
  intros s Hw Hi. rewrite kvsDeleteTxn_run; [|done|by intros e; apply inv_entry].
  destruct (kv_at s key) as [e|] eqn:He; [|done]. split; [done|].
  assert (key ≠ "") as Hkey by (apply (inv_entry _ _ _ Hi) in He as [<- Hs]; by apply storable_key).
  assert (keyed (<[string_args false key := mkTombstone key idx]> (tombstones (tx_db s)))) as Ht.
  { apply keyed_insert; [|apply (si_tombs _ Hi)]. unfold primary_key. simpl. by rewrite string_index_key. }
  pose proof (inv_tombs _ _ Hi Ht) as Hi'.
  eapply session_inv_ext; [..|apply (inv_subset _ (delete (string_args false key) (kvs (tx_db s)))
    (prepared_queries (tx_db s)) Hi')]; try done. apply delete_subseteq.
Qed.
Lemma safe_kvsDeleteTreeTxn_prefix p : safe (tx_DeletePrefix (A := DirEntry) p).
Proof.
  intros s Hw Hi. unfold tx_DeletePrefix. rewrite Hw. destruct (table_prefix p _); [done|].
  split; [done|]. apply (inv_subset (tx_db s) _ (prepared_queries (tx_db s)) Hi); [|done].
  apply delete_prefix_subseteq.
Qed.
#[export] Hint Resolve safe_kvsSetTxn safe_kvsDeleteTxn safe_kvsDeleteTreeTxn_prefix : frame.

Lemma safe_list_index p i l : safe (list_index p i l).
Proof. unfold list_index, Graveyard_GetMaxIndexTxn. frame_tac. Qed.
#[export] Hint Resolve safe_list_index : frame.
Lemma safe_kvsGetTxn k : safe (kvsGetTxn k).
Proof. unfold kvsGetTxn, kv_First. frame_tac. Qed.
Lemma safe_kvsListTxn p : safe (kvsListTxn p).
Proof. unfold kvsListTxn. frame_tac. Qed.
Lemma safe_kvsDeleteCASTxn idx c k : safe (kvsDeleteCASTxn idx c k).
Proof. unfold kvsDeleteCASTxn, kv_First. frame_tac. Qed.
Lemma safe_kvsSetCASTxn idx e : safe (kvsSetCASTxn idx e).
Proof. unfold kvsSetCASTxn, kv_First. frame_tac. Qed.
Lemma safe_kvsDeleteTreeTxn idx p : safe (kvsDeleteTreeTxn idx p).
Proof. unfold kvsDeleteTreeTxn. frame_tac. Qed.
Lemma safe_kvsCheckSessionTxn k x : safe (kvsCheckSessionTxn k x).
Proof. unfold kvsCheckSessionTxn, kv_First. frame_tac. Qed.
Lemma safe_kvsCheckIndexTxn k x : safe (kvsCheckIndexTxn k x).
Proof. unfold kvsCheckIndexTxn, kv_First. frame_tac. Qed.
#[export] Hint Resolve safe_kvsGetTxn safe_kvsListTxn safe_kvsDeleteCASTxn safe_kvsSetCASTxn
  safe_kvsDeleteTreeTxn safe_kvsCheckSessionTxn safe_kvsCheckIndexTxn : frame.

Lemma take_keeps idx e s :
  (de_Session e ≠ "" → live (tx_db s) (de_Session e)) →
  keeps_inv s ((let* entry := kvsSetTxn idx e true in mreturn (true, entry)) s).2.
Proof.
  intros Hl. pose proof (kvsSet_keeps idx e true s (λ _, Hl)) as H. unfold mbind'.
  by destruct (kvsSetTxn idx e true s) as [[] s'].
Qed.

(** A lock is only given to a live session. *)
Lemma safe_kvsLockTxn idx e : safe (kvsLockTxn idx e).
Proof.
  intros s. unfold kvsLockTxn. destruct (decide (de_Session e = "")); [done|].
  destruct (uuid_parse (de_Session e)) as [b|err|w] eqn:Hb.
  - erewrite run_bind_ok by (apply run_wrap_ok; by apply tx_FirstUUID_run).
    change (tbl (tx_db s)) with (sessions (tx_db s)). destruct (sessions (tx_db s) !! b) as [x|] eqn:Hx; [|done].
    rewrite (run_bind_ok (kv_First (de_Key e)) _ s (kv_at s (de_Key e)) s) by done. cbv zeta.
    assert (live (tx_db s) (de_Session e)) as Hl by (exists b; eauto).
    repeat case_match; try done; by apply take_keeps.
  - erewrite run_bind_err; [done|]. eapply run_wrap_err. unfold tx_FirstUUID, mbind', mlift.
    rewrite Hb. done.
  - by destruct (uuid_parse_no_panic _ _ Hb).
Qed.
Lemma safe_kvsUnlockTxn idx e : safe (kvsUnlockTxn idx e).
Proof.
  intros s. unfold kvsUnlockTxn. destruct (decide (de_Session e = "")); [done|].
  rewrite (run_bind_ok (kv_First (de_Key e)) _ s (kv_at s (de_Key e)) s) by done. cbv zeta.
  repeat case_match; try done; by apply take_keeps.
Qed.
#[export] Hint Resolve safe_kvsLockTxn safe_kvsUnlockTxn : frame.

(** ** Sessions and prepared queries *)

Lemma safe_deleteSessionTxn idx id : safe (deleteSessionTxn idx id).
Proof.
  intros s Hw Hi. destruct (uuid_parse id) as [b|err|w] eqn:Hb.
  - destruct (sessions (tx_db s) !! b) as [x|] eqn:Hx.
    + destruct (deleteSessionTxn_run idx id b x s Hi Hw Hb Hx) as (s'&->&Hd).
      simpl. split; [by rewrite (ds_write _ _ _ _ _ Hd)|]. by eapply destroyed_inv.
    + unfold deleteSessionTxn. erewrite run_bind_ok by (apply run_wrap_ok; by apply tx_FirstUUID_run).
      change (tbl (tx_db s)) with (sessions (tx_db s)). by rewrite Hx.
  - unfold deleteSessionTxn. erewrite run_bind_err; [done|]. eapply run_wrap_err.
    unfold tx_FirstUUID, mbind', mlift. rewrite Hb. done.
  - by destruct (uuid_parse_no_panic _ _ Hb).
Qed.
#[export] Hint Resolve safe_deleteSessionTxn : frame.

(** The mappings of a session that was just inserted. *)
Lemma insert_mappings_keeps sess s :
  live (tx_db s) (sess_ID sess) → keeps_inv s (insert_mappings sess s).2.
Proof.
  unfold insert_mappings. generalize (sess_Checks sess) as l. intros l. revert s.
  induction l as [|c l IH]; intros s Hl Hw Hi; [done|]. simpl. unfold mbind', mwrap.
  destruct (tx_Insert_inv (mkSessionCheck (sess_Node sess) c (sess_ID sess)) s Hw) as [(k&Hk&Hc&->)|[_ [err ->]]];
    [|done].
  apply IH; [done|done|]. by apply inv_put_mapping.
Qed.

Lemma safe_mappings_then {B} sess (m : Tx B) s :
  live (tx_db s) (sess_ID sess) → safe m → keeps_inv s ((insert_mappings sess ;;; m) s).2.
Proof.
  intros Hl Hm. pose proof (insert_mappings_keeps sess s Hl) as H. unfold mbind'.
  destruct (insert_mappings sess s) as [[] s']; [|done..]. etrans; [exact H|apply Hm].
Qed.

Lemma session_key sess k : primary_key sess = Some k → uuid_parse (sess_ID sess) = Ok k.
Proof.
  unfold primary_key. simpl. unfold uuid_index. case_decide; [done|].
  destruct (uuid_parse (sess_ID sess)); simpl; congruence.
Qed.

Lemma safe_insert_session {B} sess (m : Tx B) :
  sess_Behavior sess = SessionKeysRelease ∨ sess_Behavior sess = SessionKeysDelete →
  safe m → safe (mwrap "failed inserting session" (tx_Insert sess) ;;; insert_mappings sess ;;; m).
Proof.
  intros Hb Hm s Hw Hi. destruct (tx_Insert_inv sess s Hw) as [(k&Hk&Hc&Hrun)|[_ [err Hrun]]].
  2:{ by rewrite (run_bind_err _ _ _ _ _ (run_wrap_err _ _ _ _ _ Hrun)). }
  rewrite (run_bind_ok _ _ _ _ _ (run_wrap_ok _ _ _ _ _ Hrun)).
  apply session_key in Hk as Hid.
  apply (safe_mappings_then sess m (put k sess s)); [|done|done|].
  - exists k. split; [done|]. simpl. rewrite lookup_insert_eq. eauto.
  - by apply inv_put_session.
Qed.

Lemma session_behavior_valid b b' :
  session_behavior b = Ok b' → b' = SessionKeysRelease ∨ b' = SessionKeysDelete.
Proof. unfold session_behavior. repeat case_decide; intros; simplify_eq; auto. Qed.

Lemma safe_sessionCreateTxn idx sess : safe (sessionCreateTxn idx sess).
Proof.
  unfold sessionCreateTxn. case_decide; [frame_tac|].
  apply framed_bind_lift; [apply _|]. intros b Hb. cbv zeta.
  apply framed_bind; [apply _|frame_tac|intros [n|]; [|frame_tac]].
  apply framed_bind; [apply _|frame_tac|intros ?].
  apply safe_insert_session; [|frame_tac]. by eapply session_behavior_valid.
Qed.
#[export] Hint Resolve safe_sessionCreateTxn : frame.

Lemma query_key q k : primary_key q = Some k → uuid_parse (pq_ID q) = Ok k.
Proof.
  unfold primary_key. simpl. unfold uuid_index. case_decide; [done|].
  destruct (uuid_parse (pq_ID q)); simpl; congruence.
Qed.

Lemma insert_query_keeps {B} fmt q (m : Tx B) s :
  (pq_Session q ≠ "" → live (tx_db s) (pq_Session q)) → safe m →
  keeps_inv s ((mwrap fmt (tx_Insert q) ;;; m) s).2.
Proof.
  intros Hl Hm Hw Hi. destruct (tx_Insert_inv q s Hw) as [(k&Hk&Hc&Hrun)|[_ [err Hrun]]].
  2:{ by rewrite (run_bind_err _ _ _ _ _ (run_wrap_err _ _ _ _ _ Hrun)). }
  rewrite (run_bind_ok _ _ _ _ _ (run_wrap_ok _ _ _ _ _ Hrun)).
  apply Hm; [done|]. apply inv_put_query; [done| |done]. by apply query_key.
Qed.

(** The session test of [preparedQuerySetTxn]. *)
Lemma query_session_live fmt id s a :
  ((if decide (id ≠ "") then
      let* sess := mwrap fmt (tx_FirstUUID (A := Session) id) in
      match sess with None => mthrow (EMsg "invalid session" [id]) | Some _ => mreturn tt end
    else mreturn tt) s).1 = Ok a → id ≠ "" → live (tx_db s) id.
Proof.
  intros H Hid. rewrite decide_True in H by done. destruct (uuid_parse id) as [b|err|w] eqn:Hb.
  - erewrite run_bind_ok in H by (apply run_wrap_ok; by apply tx_FirstUUID_run).
    change (tbl (tx_db s)) with (sessions (tx_db s)) in H.
    destruct (sessions (tx_db s) !! b) eqn:Hx; [|done]. exists b. eauto.
  - erewrite run_bind_err in H; [done|]. eapply run_wrap_err. unfold tx_FirstUUID, mbind', mlift.
    rewrite Hb. done.
  - by destruct (uuid_parse_no_panic _ _ Hb).
Qed.

Lemma safe_preparedQuerySetTxn compile idx q : safe (preparedQuerySetTxn compile idx q).
Proof.
  unfold preparedQuerySetTxn. case_decide; [frame_tac|].
  apply framed_bind; [apply _|frame_tac|intros ex]. cbv zeta.
  apply framed_bind; [apply _|frame_tac; by intros s|intros _].
  apply framed_bind; [apply _|frame_tac|intros _].
  intros s. apply framed_bind_read; [apply _|frame_tac|]. intros [] Hs.
  apply framed_bind_read; [apply _|frame_tac|]. intros [] _.
  apply insert_query_keeps; [|frame_tac].
  apply (query_session_live _ _ _ _ Hs).
Qed.
Lemma safe_preparedQueryDeleteTxn idx id : safe (preparedQueryDeleteTxn idx id).
Proof.
  unfold preparedQueryDeleteTxn. apply framed_bind; [apply _|frame_tac|intros [q|]; [|frame_tac]].
  apply framed_bind; [apply _| |intros ?; frame_tac]. apply framed_wrap.
  intros s Hw Hi. unfold tx_Delete. rewrite Hw. destruct (table_delete _ q) as [t| |] eqn:Ht; [|done..].
  split; [done|]. apply table_delete_inv in Ht as (k&_&_&->).
  apply (inv_subset (tx_db s) (kvs (tx_db s))); [done|done|]. apply delete_subseteq.
Qed.
#[export] Hint Resolve safe_preparedQuerySetTxn safe_preparedQueryDeleteTxn : frame.

(** ** Catalog, transactions, commands *)

Lemma safe_FirstUnique {A} `{TableOf A} ix k : safe (tx_FirstUnique (A := A) ix k).
Proof. by intros s ??. Qed.
Lemma safe_first_node_uuid b : safe (first_node_uuid b).
Proof. by intros s ??. Qed.
#[export] Hint Resolve safe_FirstUnique safe_first_node_uuid : frame.
Lemma safe_bump_service idx n k : safe (bump_service idx n k).
Proof. unfold bump_service. frame_tac. Qed.
#[export] Hint Resolve safe_bump_service : frame.
Lemma safe_updateAllServiceIndexesOfNode idx n : safe (updateAllServiceIndexesOfNode idx n).
Proof. unfold updateAllServiceIndexesOfNode. frame_tac. Qed.
#[export] Hint Resolve safe_updateAllServiceIndexesOfNode : frame.
Lemma safe_delete_check_sessions idx n c : safe (delete_check_sessions idx n c).
Proof. unfold delete_check_sessions. frame_tac. Qed.
#[export] Hint Resolve safe_delete_check_sessions : frame.
Lemma safe_getNodeTxn n : safe (getNodeTxn n).
Proof. unfold getNodeTxn. frame_tac. Qed.
#[export] Hint Resolve safe_getNodeTxn : frame.
Lemma safe_getNodeIDTxn i : safe (getNodeIDTxn i).
Proof. unfold getNodeIDTxn. frame_tac. Qed.
#[export] Hint Resolve safe_getNodeIDTxn : frame.
Lemma safe_getNodeServiceTxn n i : safe (getNodeServiceTxn n i).
Proof. unfold getNodeServiceTxn. frame_tac. Qed.
#[export] Hint Resolve safe_getNodeServiceTxn : frame.
Lemma safe_getNodeCheckTxn n i : safe (getNodeCheckTxn n i).
Proof. unfold getNodeCheckTxn. frame_tac. Qed.
#[export] Hint Resolve safe_getNodeCheckTxn : frame.
Lemma safe_ensureCheckTxn idx hc : safe (ensureCheckTxn idx hc).
Proof. unfold ensureCheckTxn. frame_tac. Qed.
#[export] Hint Resolve safe_ensureCheckTxn : frame.
Lemma safe_ensureCheckCASTxn idx hc : safe (ensureCheckCASTxn idx hc).
Proof. unfold ensureCheckCASTxn. frame_tac. Qed.
#[export] Hint Resolve safe_ensureCheckCASTxn : frame.
Lemma safe_deleteCheckTxn idx n c : safe (deleteCheckTxn idx n c).
Proof. unfold deleteCheckTxn. frame_tac. Qed.
#[export] Hint Resolve safe_deleteCheckTxn : frame.
Lemma safe_deleteCheckCASTxn idx ci n c : safe (deleteCheckCASTxn idx ci n c).
Proof. unfold deleteCheckCASTxn. frame_tac. Qed.
#[export] Hint Resolve safe_deleteCheckCASTxn : frame.
Lemma safe_ensureServiceTxn idx n s : safe (ensureServiceTxn idx n s).
Proof. unfold ensureServiceTxn. frame_tac. Qed.
#[export] Hint Resolve safe_ensureServiceTxn : frame.
Lemma safe_ensureServiceCASTxn idx n s : safe (ensureServiceCASTxn idx n s).
Proof. unfold ensureServiceCASTxn. frame_tac. Qed.
#[export] Hint Resolve safe_ensureServiceCASTxn : frame.
Lemma safe_service_removed idx n : safe (service_removed idx n).
Proof. unfold service_removed. frame_tac. Qed.
#[export] Hint Resolve safe_service_removed : frame.
Lemma safe_deleteServiceTxn idx n s : safe (deleteServiceTxn idx n s).
Proof. unfold deleteServiceTxn. frame_tac. Qed.
#[export] Hint Resolve safe_deleteServiceTxn : frame.
Lemma safe_deleteServiceCASTxn idx ci n s : safe (deleteServiceCASTxn idx ci n s).
Proof. unfold deleteServiceCASTxn. frame_tac. Qed.
#[export] Hint Resolve safe_deleteServiceCASTxn : frame.
Lemma safe_deleteNodeTxn idx n : safe (deleteNodeTxn idx n).
Proof. unfold deleteNodeTxn. frame_tac. Qed.
#[export] Hint Resolve safe_deleteNodeTxn : frame.
Lemma safe_deleteNodeCASTxn idx ci n : safe (deleteNodeCASTxn idx ci n).
Proof. unfold deleteNodeCASTxn. frame_tac. Qed.
#[export] Hint Resolve safe_deleteNodeCASTxn : frame.
Lemma safe_ensureNoNodeWithSimilarNameTxn n b : safe (ensureNoNodeWithSimilarNameTxn n b).
Proof. unfold ensureNoNodeWithSimilarNameTxn. frame_tac. Qed.
#[export] Hint Resolve safe_ensureNoNodeWithSimilarNameTxn : frame.
Lemma safe_ensureNodeTxn idx n : safe (ensureNodeTxn idx n).
Proof. unfold ensureNodeTxn. frame_tac. Qed.
#[export] Hint Resolve safe_ensureNodeTxn : frame.
Lemma safe_ensureNodeCASTxn idx n : safe (ensureNodeCASTxn idx n).
Proof. unfold ensureNodeCASTxn. frame_tac. Qed.
#[export] Hint Resolve safe_ensureNodeCASTxn : frame.
Lemma safe_ensureCheckIfNodeMatches idx n c : safe (ensureCheckIfNodeMatches idx n c).
Proof. unfold ensureCheckIfNodeMatches. frame_tac. Qed.
#[export] Hint Resolve safe_ensureCheckIfNodeMatches : frame.
Lemma safe_ensureRegistrationTxn idx r : safe (ensureRegistrationTxn idx r).
Proof. unfold ensureRegistrationTxn. frame_tac. Qed.
#[export] Hint Resolve safe_ensureRegistrationTxn : frame.
Lemma safe_coordinateBatchTxn idx l : safe (coordinateBatchTxn idx l).
Proof. unfold coordinateBatchTxn. frame_tac. Qed.
#[export] Hint Resolve safe_coordinateBatchTxn : frame.
Lemma safe_txnKVS idx o : safe (txnKVS idx o).
Proof. unfold txnKVS, stale, stale_unit. frame_tac. Qed.
#[export] Hint Resolve safe_txnKVS : frame.
Lemma safe_txnNode idx o : safe (txnNode idx o).
Proof. unfold txnNode, cas_then_get, stale_unit. frame_tac. Qed.
#[export] Hint Resolve safe_txnNode : frame.
Lemma safe_txnService idx o : safe (txnService idx o).
Proof. unfold txnService, cas_then_get, stale_unit. frame_tac. Qed.
#[export] Hint Resolve safe_txnService : frame.
Lemma safe_txnCheck idx o : safe (txnCheck idx o).
Proof. unfold txnCheck, cas_then_get, stale_unit. frame_tac. Qed.
#[export] Hint Resolve safe_txnCheck : frame.
Lemma safe_aside {A} (m : Tx A) : aside m → safe m.
Proof.
  intros Hm s Hw Hi. specialize (Hm s). unfold wp in Hm.
  assert (same_core s (m s).2) as (Hw'&E1&E2&E3&E4&_&_&_&_&E5) by (by destruct (m s) as [[] s']).
  split; [congruence|]. by eapply session_inv_ext.
Qed.
#[export] Hint Extern 2 (safe _) => apply safe_aside; solve [auto with aside nocore] : frame.
Lemma safe_txnIntention idx o : safe (txnIntention idx o).
Proof. unfold txnIntention, deref. frame_tac. Qed.
#[export] Hint Resolve safe_txnIntention : frame.
Lemma safe_txnOp idx o : safe (txnOp idx o).
Proof. unfold txnOp. frame_tac. Qed.
#[export] Hint Resolve safe_txnOp : frame.
Lemma safe_txn_loop idx i ops : safe (txn_loop idx i ops).
Proof. revert i. induction ops; intros i; simpl; frame_tac. Qed.
#[export] Hint Resolve safe_txn_loop : frame.
Lemma safe_txnDispatch idx ops : safe (txnDispatch idx ops).
Proof. unfold txnDispatch. frame_tac. Qed.
#[export] Hint Resolve safe_txnDispatch : frame.

Lemma session_inv_empty gc : session_inv (st_db (NewStateStore gc)).
Proof. split; apply map_Forall_empty. Qed.

(** The config entries are not read by the invariant. *)
#[export] Instance safe_index_table : FrameTable keeps_inv IndexEntry.
Proof. apply keeps_table. intros t d. by apply session_inv_ext. Qed.
#[export] Instance safe_config_table : FrameTable keeps_inv ConfigEntry.
Proof. apply keeps_table. intros t d. by apply session_inv_ext. Qed.

Lemma store_txn_safe ext A (m : Tx A) : store_txn ext m → safe m.
Proof.
  intros Hm. destruct Hm;
    first [apply writes_ensureConfigEntryTxn; apply _|apply writes_ensureConfigEntryCASTxn; apply _
          |apply writes_deleteConfigEntryTxn; apply _|frame_tac].
Qed.
Lemma fsm_run_safe ext log : ∀ st,
  session_inv (st_db st) → session_inv (st_db (fsm_run ext log st).2).
Proof. apply fsm_run_keeps, store_txn_safe. Qed.

(** C3. Whatever log a server applies to the empty store, its tables satisfy
    the session invariant: a lock held on a key, a check mapping and the
    session of a prepared query always name a live session, even after
    commands that failed half-way and after transactions that went on past
    the failure of one of their operations. *)
Theorem session_inv_reachable ext log gc :
  session_inv (st_db (fsm_run ext log (NewStateStore gc)).2).
Proof. apply fsm_run_safe, session_inv_empty. Qed.
