(* ===== verification/SessionProps.v ===== *)
(** * What creating and destroying a session promises *)

From S2P Require Import Prelude Memdb ProxyConfig Structs Delay TombstoneGC Store Graveyard Kvs PreparedQuery Session Catalog Coordinate.
From S2P Require Import Txn Fsm Logic MemdbFacts StoreFacts Frames KvSpec KvRefine SessionFacts SessionInv.

Lemma reachable_inv st : reachable st → session_inv (st_db st).
Proof. intros (ext&log&gc&->). apply fsm_run_safe, session_inv_empty. Qed.

(** ** Destroying a session *)

Lemma set_delays_lookup delay now l d key :
  GetExpiration (set_delays delay now l d) key =
    if decide ((0 < delay)%Z ∧ key ∈ de_Key <$> l) then Some (now + delay)%Z else GetExpiration d key.
Proof.
  unfold set_delays. revert d. induction l as [|e l IH]; intros d; simpl.
  { rewrite decide_False; [done|]. by intros [_ ?%elem_of_nil]. }
  rewrite IH. destruct (Z.ltb_spec 0 delay).
  - destruct (decide (key ∈ de_Key <$> l)) as [Hin|Hin].
    + rewrite decide_True by done. rewrite decide_True; [done|]. split; [done|]. by right.
    + rewrite decide_False by tauto. unfold GetExpiration, SetExpiration. simpl.
      destruct (decide (key = de_Key e)) as [->|Hne].
      * rewrite lookup_insert_eq, decide_True; [done|]. split; [done|]. by left.
      * rewrite lookup_insert_ne, decide_False; [done| |done]. by intros [_ [->|?]%elem_of_cons].
  - rewrite !decide_False; [done|lia..].
Qed.

(** The holder of a key is the session of UUID bytes [b]. *)
Definition held_by (b : string) (e : DirEntry) : Prop := uuid_parse (de_Session e) = Ok b.
(** The key is free, or held by another session whose ID has the same length
    (session IDs are generated, and have all 36 characters and 4 hyphens). *)
Definition not_held_by (b : string) (e : DirEntry) : Prop :=
  de_Session e = "" ∨
  ∃ b', uuid_parse (de_Session e) = Ok b' ∧ String.length b' = String.length b ∧ b' ≠ b.

Lemma prefix_same_length p a r :
  String.length p = String.length a → String.prefix p (a +:+ r) = true → p = a.
Proof.
  revert a. induction p as [|c p IH]; intros [|d a] Hl Hp; simpl in Hl; try lia; [done|].
  rewrite str_app_cons, prefix_cons, andb_true_iff, bool_decide_eq_true in Hp.
  destruct Hp as [-> Hp]. f_equal. apply IH; [lia|done].
Qed.

Lemma session_keys_held b d k e :
  kvs d !! k = Some e → held_by b e → e ∈ session_keys b d.
Proof.
  intros He Hh. apply elem_of_table_scan_filed. exists k. split; [done|].
  by apply (filed_uuid _ _ de_Session).
Qed.
Lemma session_keys_not_held b d e : e ∈ session_keys b d → ¬ not_held_by b e.
Proof.
  intros (k&He&Hf)%elem_of_table_scan_filed. unfold filed, index_keys in Hf. simpl in Hf. unfold uuid_index in Hf.
  intros [Hn|(b'&Hb'&Hlen&Hne)]; [by rewrite decide_True in Hf|].
  case_decide; [done|]. rewrite Hb' in Hf. simpl in Hf. rewrite orb_false_r in Hf.
  by apply prefix_same_length in Hf.
Qed.

(** The committed result of a destruction. *)
Lemma SessionDestroy_run now idx id b x st :
  session_inv (st_db st) → uuid_parse id = Ok b → sessions (st_db st) !! b = Some x →
  ∃ tx, SessionDestroy now idx id st = (Ok tt, commit_txn tx st) ∧ destroyed idx b x (begin_txn true now st) tx.
Proof.
  intros Hi Hb Hx.
  destruct (deleteSessionTxn_run idx id b x (begin_txn true now st) Hi eq_refl Hb Hx) as (tx&Hrun&Hd).
  exists tx. split; [|done]. unfold SessionDestroy, write_txn. by rewrite Hrun.
Qed.

(** C4. Destroying a live session always succeeds.  The session is gone; each
    key it holds is released (its lock index, value and flags kept, its modify
    index the command's) or, with the delete behavior, deleted; every other
    entry is untouched; no check mapping and no prepared query refers to the
    session any more; the catalog is unchanged. *)
Theorem SessionDestroy_spec now idx id b x st :
  reachable st → uuid_parse id = Ok b → sessions (st_db st) !! b = Some x →
  ∃ st', SessionDestroy now idx id st = (Ok tt, st') ∧
    sessions (st_db st') = delete b (sessions (st_db st)) ∧
    (∀ k e, kvs (st_db st) !! k = Some e → held_by b e →
       kvs (st_db st') !! k =
         if decide (sess_Behavior x = SessionKeysRelease) then Some (released idx e) else None) ∧
    (∀ k e, kvs (st_db st) !! k = Some e → not_held_by b e → kvs (st_db st') !! k = Some e) ∧
    (∀ k, kvs (st_db st) !! k = None → kvs (st_db st') !! k = None) ∧
    (∀ k m, session_checks (st_db st') !! k = Some m → uuid_parse (sc_Session m) ≠ Ok b) ∧
    (∀ k q, prepared_queries (st_db st') !! k = Some q → uuid_parse (pq_Session q) ≠ Ok b) ∧
    nodes (st_db st') = nodes (st_db st) ∧ services (st_db st') = services (st_db st) ∧
    checks (st_db st') = checks (st_db st).
Proof.
  intros Hi%reachable_inv Hb Hx.
  destruct (SessionDestroy_run now idx id b x st Hi Hb Hx) as (tx&Hrun&Hd).
  exists (commit_txn tx st). split; [done|]. simpl.
  pose proof (ds_kvs _ _ _ _ _ Hd) as Hkv. cbv zeta in Hkv. simpl in Hkv.
  split_and!.
  - apply (ds_sessions _ _ _ _ _ Hd).
  - intros k e He Hh. pose proof (session_keys_held _ _ _ _ He Hh) as Hin.
    case_decide; destruct Hkv as [-> _].
    + unfold release_in. rewrite lookup_fmap, He. simpl. by rewrite decide_True.
    + rewrite lookup_without, He. by rewrite decide_True.
  - intros k e He Hh.
    assert (e ∉ session_keys b (st_db st)) as Hin by (intros ?; by eapply session_keys_not_held).
    case_decide; destruct Hkv as [-> _].
    + unfold release_in. rewrite lookup_fmap, He. simpl. by rewrite decide_False.
    + rewrite lookup_without, He. by rewrite decide_False.
  - intros k He. case_decide; destruct Hkv as [-> _].
    + unfold release_in. by rewrite lookup_fmap, He.
    + by rewrite lookup_without, He.
  - rewrite (ds_mappings _ _ _ _ _ Hd). intros k m Hm Hp. rewrite lookup_without in Hm. simpl in Hm.
    destruct (session_checks (st_db st) !! k) as [m0|] eqn:Hk; [|done]. case_decide as Hn; simplify_eq.
    destruct Hn. apply elem_of_table_scan_filed. exists k. split; [done|]. by apply (filed_uuid _ _ sc_Session).
  - rewrite (ds_queries _ _ _ _ _ Hd). intros k m Hm Hp. rewrite lookup_without in Hm. simpl in Hm.
    destruct (prepared_queries (st_db st) !! k) as [m0|] eqn:Hk; [|done]. case_decide as Hn; simplify_eq.
    destruct Hn. apply elem_of_table_scan_filed. exists k. split; [done|]. by apply (filed_uuid _ _ pq_Session).
  - by destruct (ds_catalog _ _ _ _ _ Hd) as (?&?&?&?).
  - by destruct (ds_catalog _ _ _ _ _ Hd) as (?&?&?&?).
  - by destruct (ds_catalog _ _ _ _ _ Hd) as (?&?&?&?).
Qed.

(** C5. Destroying a session protects the keys it held: each becomes
    unacquirable until [now] plus the session's lock delay, capped at sixty
    seconds; a delay of zero or less sets nothing, and the lock delays of the
    keys it did not hold stay as they were. *)
Theorem SessionDestroy_lock_delay now idx id b x st :
  reachable st → uuid_parse id = Ok b → sessions (st_db st) !! b = Some x →
  let st' := (SessionDestroy now idx id st).2 in
  let delay := Z.min (sess_LockDelay x) 60000000000 in
  (∀ k e, kvs (st_db st) !! k = Some e → held_by b e →
     KVSLockDelay (de_Key e) st' =
       if decide (0 < delay)%Z then Some (now + delay)%Z else KVSLockDelay (de_Key e) st) ∧
  (∀ key, (∀ e, kvs (st_db st) !! string_args false key = Some e → not_held_by b e) →
     KVSLockDelay key st' = KVSLockDelay key st).
Proof.
  intros Hi%reachable_inv Hb Hx.
  destruct (SessionDestroy_run now idx id b x st Hi Hb Hx) as (tx&Hrun&Hd).
  intros st' delay. unfold st', KVSLockDelay. rewrite Hrun. simpl. rewrite (ds_delay _ _ _ _ _ Hd).
  assert (lock_delay (sess_LockDelay x) = delay) as ->.
  { unfold lock_delay, delay, MaxLockDelay. destruct (Z.ltb_spec 60000000000 (sess_LockDelay x)); lia. }
  split.
  - intros k e He Hh. pose proof (session_keys_held _ _ _ _ He Hh) as Hin.
    rewrite set_delays_lookup. simpl. destruct (decide (0 < delay)%Z).
    + rewrite decide_True; [done|]. split; [done|]. apply list_elem_of_fmap. eauto.
    + by rewrite decide_False by tauto.
  - intros key Hkey. rewrite set_delays_lookup. simpl. rewrite decide_False; [done|].
    intros [_ (e&->&Hin)%list_elem_of_fmap].
    destruct (session_keys_locked b _ (si_kvs _ Hi) e Hin) as (He&_&_).
    by apply (session_keys_not_held _ _ _ Hin), Hkey.
Qed.

(** ** Creating a session *)

(** A check that a session may depend on. *)
Definition check_usable (d : db) (node c : string) : bool :=
  bool_decide (c ≠ "") &&
  match checks d !! check_key node c with
  | Some hc => bool_decide (hc_Status hc ≠ HealthCritical)
  | None => false
  end.
Definition creatable (d : db) (sess : Session) : bool :=
  is_ok (uuid_parse (sess_ID sess)) && is_ok (session_behavior (sess_Behavior sess)) &&
  bool_decide (sess_Node sess ≠ "") && bool_decide (is_Some (nodes d !! node_key (sess_Node sess))) &&
  forallb (check_usable d (sess_Node sess)) (sess_Checks sess).

Definition created (idx : N) (sess : Session) : Session :=
  sess_prepare (if decide (sess_Behavior sess = "") then SessionKeysRelease else sess_Behavior sess) idx sess.

(** The table of check mappings with those of [sess], of UUID bytes [b]. *)
Definition with_mappings (b : string) (sess : Session) (t : gmap string sessionCheck) : gmap string sessionCheck :=
  fold_left (λ t c, <[check_key (sess_Node sess) c +:+ b := mkSessionCheck (sess_Node sess) c (sess_ID sess)]> t)
    (sess_Checks sess) t.

Definition check_loop (sess : Session) : Tx unit :=
  for checkID in sess_Checks sess do
    let* check := tx_First (A := HealthCheck) (check_key (sess_Node sess) checkID) in
    match check with
    | None => mthrow (EMsg "Missing check registration" [checkID])
    | Some check =>
        if decide (hc_Status check = HealthCritical)
        then mthrow (EMsg "Check is in state" [checkID; hc_Status check])
        else mreturn tt
    end.

Lemma session_behavior_created idx sess b :
  session_behavior (sess_Behavior sess) = Ok b → sess_prepare b idx sess = created idx sess.
Proof.
  unfold session_behavior, created. repeat case_decide; intros; simplify_eq; try done.
Qed.

(** The check loop fails on the first missing or critical check. *)
Lemma check_loop_run sess s :
  (check_loop sess s = (Ok tt, s) ∧
   ∀ c, c ∈ sess_Checks sess → ∃ hc, checks (tx_db s) !! check_key (sess_Node sess) c = Some hc ∧
     hc_Status hc ≠ HealthCritical) ∨
  ((∃ e, check_loop sess s = (Err e, s)) ∧ forallb (check_usable (tx_db s) (sess_Node sess)) (sess_Checks sess) = false).
Proof.
  unfold check_loop. generalize (sess_Checks sess) as l. induction l as [|c l IH].
  { left. split; [done|]. by intros c ?%elem_of_nil. }
  simpl. unfold mbind', tx_First, mget. change (tbl (tx_db s)) with (checks (tx_db s)).
  unfold check_usable at 1. destruct (checks (tx_db s) !! check_key (sess_Node sess) c) as [hc|] eqn:Hc.
  2:{ right. split; [eexists; reflexivity|]. by rewrite andb_false_r. }
  destruct (decide (hc_Status hc = HealthCritical)) as [Hcr|Hcr].
  { right. split; [eexists; reflexivity|]. rewrite (bool_decide_false (hc_Status hc ≠ HealthCritical)) by tauto.
    by rewrite andb_false_r. }
  unfold mreturn. destruct IH as [[Hrun Hall]|[[e Hrun] Hf]].
  - left. split; [exact Hrun|]. intros c' [->|Hc']%elem_of_cons; [by exists hc|]. by apply Hall.
  - right. split; [exists e; exact Hrun|]. by rewrite Hf, andb_false_r.
Qed.

Lemma mapping_key sess c b :
  sess_Node sess ≠ "" → uuid_parse (sess_ID sess) = Ok b → c ≠ "" →
  primary_key (mkSessionCheck (sess_Node sess) c (sess_ID sess)) = Some (check_key (sess_Node sess) c +:+ b) ∧
  check_indexes table_indexes (mkSessionCheck (sess_Node sess) c (sess_ID sess)) = Ok tt.
Proof.
  intros Hn Hb Hc. unfold primary_key. simpl.
  rewrite !string_index_key by done. by rewrite (uuid_index_key _ _ Hb).
Qed.

(** The mappings go in unless a check ID is empty. *)
Lemma insert_mappings_run sess b s :
  tx_write s = true → sess_Node sess ≠ "" → uuid_parse (sess_ID sess) = Ok b →
  if bool_decide (Forall (λ c, c ≠ "") (sess_Checks sess))
  then insert_mappings sess s =
    (Ok tt, tx_set_db (set_tbl (with_mappings b sess (session_checks (tx_db s))) (tx_db s)) s)
  else ∃ e s', insert_mappings sess s = (Err e, s').
Proof.
  intros Hw Hn Hb. unfold insert_mappings, with_mappings. generalize (sess_Checks sess) as l. intros l.
  revert s Hw. induction l as [|c l IH]; intros s Hw; [by destruct s as [[]]|]. simpl.
  destruct (decide (c = "")) as [->|Hc].
  { rewrite bool_decide_false by (by rewrite Forall_cons_iff; intros [? _]). unfold mbind', mwrap, tx_Insert. rewrite Hw.
    unfold table_insert. simpl. rewrite string_index_key by done. simpl. eauto. }
  destruct (mapping_key sess c b Hn Hb Hc) as [Hk Hi].
  erewrite run_bind_ok by (apply run_wrap_ok; by apply tx_Insert_ok).
  match goal with |- context [mfor l _ ?s1] => set (s1' := s1) end. specialize (IH s1' Hw).
  assert (bool_decide (Forall (λ c, c ≠ "") (c :: l)) = bool_decide (Forall (λ c, c ≠ "") l)) as ->.
  { apply bool_decide_ext. rewrite Forall_cons_iff. tauto. }
  case_bool_decide; exact IH.
Qed.

Lemma usable_split d node l :
  (∀ c, c ∈ l → ∃ hc, checks d !! check_key node c = Some hc ∧ hc_Status hc ≠ HealthCritical) →
  forallb (check_usable d node) l = bool_decide (Forall (λ c, c ≠ "") l).
Proof.
  induction l as [|c l IH]; intros H; [done|]. simpl. destruct (H c) as (hc&Hc&Hs); [by left|].
  unfold check_usable at 1. rewrite Hc, (bool_decide_true (hc_Status hc ≠ _)) by done. rewrite andb_true_r.
  rewrite IH by (intros ? ?; apply H; by right). rewrite <-bool_decide_and. apply bool_decide_ext.
  by rewrite Forall_cons_iff.
Qed.
Lemma creatable_spec d sess :
  creatable d sess = true ↔
  is_ok (uuid_parse (sess_ID sess)) = true ∧ is_ok (session_behavior (sess_Behavior sess)) = true ∧
  sess_Node sess ≠ "" ∧ is_Some (nodes d !! node_key (sess_Node sess)) ∧
  forallb (check_usable d (sess_Node sess)) (sess_Checks sess) = true.
Proof. unfold creatable. rewrite !andb_true_iff, !bool_decide_eq_true. tauto. Qed.

(** Failing anywhere drops what was written. *)
Lemma write_txn_fails {A} now c (m : Tx A) st :
  (∃ e s', m (begin_txn true now st) = (Err e, s')) →
  (∃ e, (write_txn now c m st).1 = Err e) ∧ st_db (write_txn now c m st).2 = st_db st.
Proof. intros (e&s'&H). unfold write_txn. rewrite H. simpl. eauto. Qed.

Section create.
Context (idx : N) (sess : Session) (s : txn) (Hw : tx_write s = true).

Lemma sessionCreateTxn_fails :
  creatable (tx_db s) sess = false → ∃ e s', sessionCreateTxn idx sess s = (Err e, s').
Proof using Hw.
  intros Hc. unfold sessionCreateTxn. case_decide; [by do 2 eexists|].
  destruct (session_behavior (sess_Behavior sess)) as [beh|err|w] eqn:Hb; [|by do 2 eexists|];
    [|by unfold session_behavior in Hb; repeat case_decide].
  unfold mlift. rewrite (run_bind_ok _ _ s beh s) by done. cbv zeta.
  unfold tx_First at 1. rewrite (run_bind_ok (mget _) _ s (nodes (tx_db s) !! node_key (sess_Node sess)) s) by done.
  destruct (nodes (tx_db s) !! node_key (sess_Node sess)) as [n|] eqn:Hn; [|by do 2 eexists].
  destruct (check_loop_run sess s) as [[Hrun Hall]|[[e Hrun] _]].
  2:{ do 2 eexists. eapply run_bind_err. exact Hrun. }
  erewrite run_bind_ok by exact Hrun.
  destruct (tx_Insert_inv (sess_prepare beh idx sess) s Hw) as [(k&Hk&Hci&Hins)|[_ [err Hins]]].
  2:{ do 2 eexists. eapply run_bind_err, run_wrap_err. exact Hins. }
  erewrite run_bind_ok by (apply run_wrap_ok; exact Hins).
  apply session_key in Hk. change (sess_ID (sess_prepare beh idx sess)) with (sess_ID sess) in Hk.
  assert (sess_Node sess ≠ "") as Hne by (intros Hne; simpl in Hci; unfold string_index in Hci; by rewrite decide_True in Hci).
  pose proof (insert_mappings_run (sess_prepare beh idx sess) k (put k (sess_prepare beh idx sess) s) Hw Hne Hk) as Hm.
  case_bool_decide as Hne'; [|destruct Hm as (e&s'&Hm); do 2 eexists; eapply run_bind_err; exact Hm].
  exfalso. revert Hc. rewrite <-not_true_iff_false. intros []. apply creatable_spec.
  rewrite Hk, Hb, Hn. split_and!; try done. rewrite usable_split by done. by apply bool_decide_eq_true.
Qed.

Lemma sessionCreateTxn_ok :
  creatable (tx_db s) sess = true →
  ∃ b s', uuid_parse (sess_ID sess) = Ok b ∧ sessionCreateTxn idx sess s = (Ok tt, s') ∧
    s' = put_index "sessions" idx
      (tx_set_db (set_tbl (with_mappings b sess (session_checks (tx_db s)))
        (set_tbl (<[b := created idx sess]> (sessions (tx_db s))) (tx_db s))) s).
Proof using Hw.
  intros (Hid&Hb&Hn&[n Hnode]&Hck)%creatable_spec.
  destruct (uuid_parse (sess_ID sess)) as [b| |] eqn:Hid'; [|done..].
  destruct (session_behavior (sess_Behavior sess)) as [beh| |] eqn:Hb'; [|done..].
  exists b. eexists. split; [done|]. split; [|reflexivity]. unfold sessionCreateTxn.
  rewrite decide_False by (intros He; by rewrite He in Hid').
  rewrite Hb'. unfold mlift. rewrite (run_bind_ok _ _ s beh s) by done. cbv zeta.
  unfold tx_First at 1. rewrite (run_bind_ok (mget _) _ s (nodes (tx_db s) !! node_key (sess_Node sess)) s) by done.
  rewrite Hnode. destruct (check_loop_run sess s) as [[Hrun Hall]|[_ Hf]]; [|by rewrite Hck in Hf].
  erewrite run_bind_ok by exact Hrun. rewrite (session_behavior_created _ _ _ Hb').
  erewrite run_bind_ok; [|apply run_wrap_ok, (tx_Insert_ok (created idx sess) b); [done| |]].
  2:{ unfold primary_key. simpl. by rewrite (uuid_index_key _ _ Hid'). }
  2:{ simpl. by rewrite string_index_key. }
  rewrite usable_split, bool_decide_eq_true in Hck by done.
  pose proof (insert_mappings_run (created idx sess) b (put b (created idx sess) s) Hw Hn Hid') as Hm.
  rewrite bool_decide_true in Hm by done. erewrite run_bind_ok by exact Hm.
  by rewrite index_insert_run.
Qed.
End create.

(** C6. Creating a session succeeds exactly when its ID is a UUID, its
    behavior is known or left out, its node is registered and every one of
    its checks is registered and not critical.  Then the session is stored,
    with the default behavior filled in and both indexes the command's, with
    one mapping per check, and nothing else but the index of the table
    changes; otherwise the command fails and the tables are the old ones. *)
Theorem SessionCreate_spec now idx sess st :
  let r := SessionCreate now idx sess st in
  if creatable (st_db st) sess then
    ∃ b, uuid_parse (sess_ID sess) = Ok b ∧ r.1 = Ok tt ∧
      sessions (st_db r.2) = <[b := created idx sess]> (sessions (st_db st)) ∧
      session_checks (st_db r.2) = with_mappings b sess (session_checks (st_db st)) ∧
      index_value (st_db r.2) "sessions" = Some idx ∧
      kvs (st_db r.2) = kvs (st_db st) ∧ tombstones (st_db r.2) = tombstones (st_db st) ∧
      nodes (st_db r.2) = nodes (st_db st) ∧ services (st_db r.2) = services (st_db st) ∧
      checks (st_db r.2) = checks (st_db st)
  else (∃ e, r.1 = Err e) ∧ st_db r.2 = st_db st.
Proof.
  intros r. destruct (creatable (st_db st) sess) eqn:Hc.
  - destruct (sessionCreateTxn_ok idx sess (begin_txn true now st) eq_refl Hc) as (b&s'&Hb&Hrun&->).
    exists b. unfold r, SessionCreate, write_txn. rewrite Hrun. split_and!; try done.
    unfold index_value. simpl. by rewrite lookup_insert_eq.
  - apply write_txn_fails. by apply sessionCreateTxn_fails.
Qed.

(** A server with a node, a session on it and a key locked by the session. *)
Definition demo_id : string := "00000000-0000-0000-0000-000000000001".
Definition demo_session (behavior : string) : Session :=
  mkSession demo_id "leader" "web" [] 90000000000 behavior "" 0 0.
Definition demo_uuid : string := default "" (match uuid_parse demo_id with Ok b => Some b | _ => None end).
Definition demo_session_log (behavior : string) : list (Z * N * command) :=
  [(0%Z, 1%N, RegisterRequestType (mkRegisterRequest "dc1" "" "web" "10.0.0.1" None None None None [] false));
   (1%Z, 2%N, SessionRequestType (mkSessionRequest "create" (demo_session behavior)));
   (2%Z, 3%N, KVSRequestType (mkKVSRequest "set" (mkDirEntry 0 "free" 0 "x" "" 0 0)));
   (3%Z, 4%N, KVSRequestType (mkKVSRequest "lock" (mkDirEntry 0 "lead" 0 "me" demo_id 0 0)))].
Definition demo_store (behavior : string) : Store :=
  (fsm_run sample_externals (demo_session_log behavior) (NewStateStore None)).2.
Lemma demo_store_reachable behavior : reachable (demo_store behavior).
Proof. by do 3 eexists. Qed.
Definition demo_live_session : Session := sess_prepare SessionKeysDelete 2 (demo_session SessionKeysDelete).

Lemma SessionDestroy_spec_witness :
  let st := demo_store SessionKeysDelete in
  kvs (st_db st) !! string_args false "lead" = Some (mkDirEntry 1 "lead" 0 "me" demo_id 4 4) ∧
  ∃ st', SessionDestroy 10 5 demo_id st = (Ok tt, st') ∧ sessions (st_db st') = ∅ ∧
    kvs (st_db st') !! string_args false "lead" = None.
Proof.
  split; [vm_compute; reflexivity|].
  destruct (SessionDestroy_spec 10 5 demo_id demo_uuid demo_live_session (demo_store SessionKeysDelete)) as
    (st'&Hrun&Hs&Hheld&_).
  - apply demo_store_reachable.
  - vm_compute. reflexivity.
  - vm_compute. reflexivity.
  - exists st'. split; [exact Hrun|]. split.
    + rewrite Hs. vm_compute. reflexivity.
    + rewrite (Hheld _ (mkDirEntry 1 "lead" 0 "me" demo_id 4 4)); vm_compute; reflexivity.
Defined.

Lemma SessionDestroy_lock_delay_witness :
  KVSLockDelay "lead" (SessionDestroy 10 5 demo_id (demo_store SessionKeysDelete)).2 = Some 60000000010%Z ∧
  KVSLockDelay "free" (SessionDestroy 10 5 demo_id (demo_store SessionKeysDelete)).2 = None.
Proof.
  destruct (SessionDestroy_lock_delay 10 5 demo_id demo_uuid demo_live_session (demo_store SessionKeysDelete)) as
    [Hheld Hother].
  - apply demo_store_reachable.
  - vm_compute. reflexivity.
  - vm_compute. reflexivity.
  - split.
    + etrans; [apply (Hheld (string_args false "lead") (mkDirEntry 1 "lead" 0 "me" demo_id 4 4))|];
        vm_compute; reflexivity.
    + rewrite (Hother "free"); [vm_compute; reflexivity|].
      intros e He. left. revert He. vm_compute. intros [= <-]. reflexivity.
Defined.
