(* ===== verification/IntentionProps.v ===== *)
(** * What intentions promise

    The order in which intentions apply is a total order; the table never
    holds two intentions for the same pair; a match returns the intentions for
    a destination, each once, strongest first; so the first one that applies
    to a client is the strongest that does. *)

From S2P Require Import Prelude Memdb ProxyConfig Structs ConnectTables AclTables Delay TombstoneGC Store Graveyard Kvs PreparedQuery.
From S2P Require Import Session Catalog Coordinate Intention Txn Fsm Logic MemdbFacts StoreFacts Frames.

(** ** The order of intentions *)

(** A "less than" whose negation, reversed, is a total preorder. *)
Record weak_order {A} (less : A → A → bool) : Prop := {
  wo_total : ∀ a b, less a b = false ∨ less b a = false;
  wo_trans : ∀ a b c, less b a = false → less c b = false → less c a = false
}.

Lemma string_ltb_le x y : String.ltb x y = false ↔ String.le y x.
Proof.
  unfold String.ltb, String.le, String.leb. rewrite (String.compare_antisym y x).
  destruct (String.compare x y); simpl; naive_solver.
Qed.

(** Comparing a key first. *)
Lemma weak_order_key {A K} `{EqDecision K} (k : A → K) (lt : K → K → bool) (rest : A → A → bool) :
  (∀ x y z, lt y x = false → lt z y = false → lt z x = false) →
  (∀ x y, x ≠ y → lt x y = negb (lt y x)) → weak_order rest →
  weak_order (λ a b, if decide (k a ≠ k b) then lt (k a) (k b) else rest a b).
Proof.
  intros Htr Hlt [Htot Htrans]. split.
  - intros a b. destruct (decide (k a = k b)) as [E|E].
    + rewrite !decide_False by (intros Hn; by apply Hn). apply Htot.
    + rewrite !decide_True by done. rewrite (Hlt _ _ E). destruct (lt (k b) (k a)); auto.
  - intros a b c.
    destruct (decide (k a = k b)) as [E1|E1], (decide (k b = k c)) as [E2|E2].
    + rewrite !decide_False by (intros Hn; apply Hn; congruence). apply Htrans.
    + rewrite (decide_False (P := k b ≠ k a)) by (intros Hn; by apply Hn).
      rewrite !decide_True by congruence. by rewrite E1.
    + rewrite (decide_True (P := k b ≠ k a)) by congruence.
      rewrite (decide_False (P := k c ≠ k b)) by (intros Hn; by apply Hn).
      rewrite decide_True by congruence. by rewrite E2.
    + rewrite !(decide_True (P := _ ≠ _)) by congruence. intros Hba Hcb.
      destruct (decide (k c = k a)) as [E3|E3]; [|rewrite decide_True by done; by eapply Htr].
      rewrite E3 in Hcb. rewrite (Hlt (k b) (k a)) in Hba by congruence. by rewrite Hcb in Hba.
Qed.

Lemma ltb_neq x y : x ≠ y → String.ltb x y = negb (String.ltb y x).
Proof.
  intros Hne. destruct (String.ltb x y) eqn:H1, (String.ltb y x) eqn:H2; try done; exfalso.
  - unfold String.ltb in *. rewrite String.compare_antisym in H1. by destruct (String.compare y x).
  - apply string_ltb_le in H1, H2. by apply Hne, (anti_symm String.le).
Qed.
Lemma ltb_trans x y z : String.ltb y x = false → String.ltb z y = false → String.ltb z x = false.
Proof. rewrite !string_ltb_le. intros. by etrans. Qed.

Lemma Intention_Less_order : weak_order Intention_Less.
Proof.
  pose (higher := λ x y : Z, bool_decide (y < x)%Z).
  apply (weak_order_key ixn_Precedence higher); unfold higher;
    [intros x y z; rewrite !bool_decide_eq_false; lia|
     intros x y Hne; case_bool_decide; case_bool_decide; simpl; lia|].
  do 3 (apply weak_order_key; [apply ltb_trans|apply ltb_neq|]).
  split; [|intros a b c; apply ltb_trans].
  intros a b. rewrite !string_ltb_le. destruct (total String.le (ixn_DestinationName a) (ixn_DestinationName b)); auto.
Qed.
#[export] Instance prec_le_total : Total prec_le.
Proof. intros a b. unfold prec_le. destruct (wo_total _ Intention_Less_order a b); auto. Qed.
#[export] Instance prec_le_trans : Transitive prec_le.
Proof. intros a b c. unfold prec_le. intros. by eapply (wo_trans _ Intention_Less_order). Qed.

Lemma prec_le_precedence a b : prec_le a b → (ixn_Precedence b ≤ ixn_Precedence a)%Z.
Proof.
  unfold prec_le, Intention_Less. case_decide as H; [rewrite bool_decide_eq_false; lia|].
  intros _. destruct (decide (ixn_Precedence b = ixn_Precedence a)); [lia|done].
Qed.
Lemma sort_intentions_sorted l : StronglySorted prec_le (sort_intentions l).
Proof. apply StronglySorted_merge_sort; apply _. Qed.
Lemma sort_intentions_perm l : sort_intentions l ≡ₚ l.
Proof. apply merge_sort_Permutation. Qed.

(** ** No two intentions for the same pair *)

Definition complete_intention (x : Intention) : Prop :=
  ixn_SourceNS x ≠ "" ∧ ixn_SourceName x ≠ "" ∧ ixn_DestinationNS x ≠ "" ∧ ixn_DestinationName x ≠ "".
#[export] Instance complete_intention_dec x : Decision (complete_intention x).
Proof. unfold complete_intention. apply _. Defined.

Record ixn_inv (d : db) : Prop := {
  ii_keyed : keyed (intentions (connect d));
  ii_precedence : map_Forall (λ _ x, ixn_Precedence x = ixn_Precedence (UpdatePrecedence x)) (intentions (connect d));
  ii_unique : ∀ k1 k2 x1 x2, intentions (connect d) !! k1 = Some x1 → intentions (connect d) !! k2 = Some x2 →
    complete_intention x1 → complete_intention x2 → ixn_4tuple_args x1 = ixn_4tuple_args x2 → k1 = k2
}.

Lemma intention_key x k : primary_key x = Some k → uuid_parse (ixn_ID x) = Ok k.
Proof.
  unfold primary_key. simpl. unfold uuid_index. case_decide; [done|].
  destruct (uuid_parse (ixn_ID x)); simpl; congruence.
Qed.

(** The keys of a complete intention in its indexes. *)
Ltac side s E N :=
  destruct (decide (s = "")) as [E|N];
  [rewrite decide_False by (unfold complete_intention; tauto); by rewrite E|rewrite (string_index_key _ _ N)].
Lemma tuple_keys k x :
  index_keys intentions_source_destination_index k x =
    if decide (complete_intention x) then [ixn_4tuple_args x] else [].
Proof.
  unfold index_keys. cbn [intentions_source_destination_index ix_from ix_unique].
  side (ixn_SourceNS x) E1 N1. side (ixn_SourceName x) E2 N2.
  side (ixn_DestinationNS x) E3 N3. side (ixn_DestinationName x) E4 N4.
  rewrite decide_True by done. unfold ixn_4tuple_args.
  cbn [compound_index head default from_option]. by rewrite str_app_nil_l, !str_app_assoc.
Qed.

Lemma put_intention_inv x k s :
  ixn_inv (tx_db s) → primary_key x = Some k → ixn_Precedence x = ixn_Precedence (UpdatePrecedence x) →
  (∀ k' x', intentions (connect (tx_db s)) !! k' = Some x' → complete_intention x' → complete_intention x →
    ixn_4tuple_args x' = ixn_4tuple_args x → k' = k) →
  ixn_inv (tx_db (put k x s)).
Proof.
  intros [H1 H2 H3] Hk Hp Hd. split; simpl.
  - by apply keyed_insert.
  - by apply map_Forall_insert_2.
  - intros k1 k2 x1 x2. destruct (decide (k1 = k)) as [->|N1], (decide (k2 = k)) as [->|N2];
      rewrite ?lookup_insert_eq, ?lookup_insert_ne by done; try done; intros ????; simplify_eq; eauto.
    intros ?. symmetry. by eapply Hd.
Qed.

Section keep.
#[local] Hint Extern 1 (FrameTable (keeps ixn_inv) _) =>
  apply keeps_table; intros ? d [H1 H2 H3]; by split : typeclass_instances.

(** The stored form of an intention keeps what its keys are made of. *)
Lemma update_precedence_pair x :
  ixn_4tuple_args (UpdatePrecedence x) = ixn_4tuple_args x ∧
  (complete_intention (UpdatePrecedence x) ↔ complete_intention x) ∧
  ixn_Precedence (UpdatePrecedence (UpdatePrecedence x)) = ixn_Precedence (UpdatePrecedence x) ∧
  ixn_ID (UpdatePrecedence x) = ixn_ID x.
Proof. unfold UpdatePrecedence. repeat case_decide; done. Qed.

Lemma keeps_intentionSetTxn idx x : framed (keeps ixn_inv) (intentionSetTxn idx x).
Proof.
  intros s. unfold intentionSetTxn. case_decide; [done|]. cbv zeta.
  apply framed_bind_read; [apply _|auto with frame|]. intros existing _.
  set (x1 := match existing with Some o => _ | None => _ end).
  assert (ixn_Precedence x1 = ixn_Precedence (UpdatePrecedence x1)) as Hp.
  { pose proof (update_precedence_pair x) as (_&_&Hp&_). unfold x1.
    destruct existing; unfold UpdatePrecedence in *; simpl; repeat case_decide; done. }
  clearbody x1. apply framed_bind_read; [apply _|auto with frame|]. intros dup Hdup%FirstUnique_spec.
  apply framed_bind_read; [apply _|by intros s'; destruct dup; [case_decide|]|]. intros [] Hguard.
  set (x2 := match ixn_Meta x1 with None => _ | Some _ => _ end).
  assert (ixn_ID x2 = ixn_ID x1 ∧ ixn_Precedence x2 = ixn_Precedence (UpdatePrecedence x2) ∧
    ixn_4tuple_args x2 = ixn_4tuple_args x1) as (Hid2&Hp2&Ht2).
  { unfold x2. destruct (ixn_Meta x1); [done|]. split_and!; [done| |done].
    unfold UpdatePrecedence in *. simpl in *. repeat case_decide; done. }
  clearbody x2. intros Hw Hi.
  destruct (tx_Insert_inv x2 s Hw) as [(k&Hk&_&Hrun)|[_ [e Hrun]]]; [|by rewrite (run_bind_err _ _ _ _ _ Hrun)].
  rewrite (run_bind_ok _ _ _ _ _ Hrun).
  apply (writes_index_insert (keeps ixn_inv) _ idx (put k x2 s)); [done|]. apply put_intention_inv; [done..|].
  intros k' x' Hx' Hc' Hc2 Heq. apply intention_key in Hk. rewrite Hid2 in Hk. rewrite Ht2 in Heq.
  assert (ixn_4tuple_args x1 ∈ index_keys intentions_source_destination_index k' x') as Hin.
  { rewrite tuple_keys, decide_True by done. rewrite Heq. by left. }
  destruct dup as [y|]; [|by apply (Hdup k' x') in Hin].
  case_decide as Hy; [done|]. assert (ixn_ID y = ixn_ID x1) as Hy' by (destruct (decide (ixn_ID y = ixn_ID x1)); tauto).
  destruct Hdup as (ky&Hky&Hin'). rewrite tuple_keys in Hin'. case_decide as Hcy; [|by apply elem_of_nil in Hin'].
  apply list_elem_of_singleton in Hin'. assert (k' = ky) as ->.
  { apply (ii_unique _ Hi k' ky x' y); try done. congruence. }
  apply (ii_keyed _ Hi) in Hky. apply intention_key in Hky. congruence.
Qed.

Lemma keeps_intentionDeleteTxn idx id : framed (keeps ixn_inv) (intentionDeleteTxn idx id).
Proof.
  intros s. unfold intentionDeleteTxn. apply framed_bind_read; [apply _|auto with frame|].
  intros [x|] _; [|done]. apply framed_bind; [apply _| |intros ?; by apply (writes_index_insert (keeps ixn_inv))].
  apply framed_wrap. clear s. intros s Hw [H1 H2 H3]. unfold tx_Delete. rewrite Hw.
  destruct (table_delete _ x) as [t| |] eqn:Ht; [|by split..].
  apply table_delete_inv in Ht. destruct Ht as (k&?&?&->). split; [done|]. split; simpl.
  - by apply keyed_delete.
  - by apply map_Forall_delete.
  - intros k1 k2 x1 x2 [? ?]%lookup_delete_Some [? ?]%lookup_delete_Some. eauto.
Qed.

Lemma keeps_ixn_inv ext A (m : Tx A) : store_txn ext m → framed (keeps ixn_inv) m.
Proof.
  pose proof keeps_intentionSetTxn as Hset. pose proof keeps_intentionDeleteTxn as Hdel.
  destruct 1; try (apply writes_txnDispatch; [apply _|done|done|apply _..]);
    try (apply framed_wrap; done); writes_tac.
Qed.
End keep.
Lemma reachable_ixn_inv st : reachable st → ixn_inv (st_db st).
Proof.
  apply reachable_keeps; [apply keeps_ixn_inv|]. split; [apply keyed_empty|by intros ???|]. intros k1 k2 x1 x2. simpl. by rewrite lookup_empty.
Qed.

(** ** What validation ensures *)

Lemma when_nil b msg : when b msg = [] → b = false.
Proof. by destruct b. Qed.
Lemma Intention_Validate_complete x :
  Intention_Validate x = [] →
  complete_intention x ∧
  (ixn_SourceNS x = IntentionWildcard → ixn_SourceName x = IntentionWildcard) ∧
  (ixn_DestinationNS x = IntentionWildcard → ixn_DestinationName x = IntentionWildcard).
Proof.
  unfold Intention_Validate, validate_side, complete_intention. intros H.
  repeat match goal with
    | H : _ ++ _ = [] |- _ => apply app_eq_nil in H as [? H]
    | H : _ ++ _ = [] |- _ => apply app_eq_nil in H as [H ?]
    | H : when _ _ = [] |- _ => apply when_nil in H
    | H : bool_decide _ = false |- _ => apply bool_decide_eq_false in H
    end.
  split; [done|]. split; intros HE; apply dec_stable; intros Hn;
    match goal with H : bool_decide (_ ≠ _) && bool_decide (?a = _) = false, E : ?a = _ |- _ =>
      by rewrite (bool_decide_true _ Hn), (bool_decide_true _ E) in H end.
Qed.

(** ** The scans of a match *)

(** The lookups of a pair: those filed under it, whatever the case. *)
Definition same_name (a b : string) : Prop := to_lower a = to_lower b.
#[export] Instance same_name_dec : RelDecision same_name.
Proof. intros a b. unfold same_name. apply _. Defined.
Definition clean_intention (x : Intention) : Prop :=
  Intention_Validate x = [] ∧ nul_free (ixn_DestinationNS x) ∧ nul_free (ixn_DestinationName x).
Definition filed_at (ns n : string) (x : Intention) : Prop :=
  same_name (ixn_DestinationNS x) ns ∧ same_name (ixn_DestinationName x) n.

Lemma destination_keys k x :
  ixn_DestinationNS x ≠ "" → ixn_DestinationName x ≠ "" →
  index_keys intentions_destination_index k x =
    [string_args true (ixn_DestinationNS x) +:+ string_args true (ixn_DestinationName x) +:+ k].
Proof.
  intros N1 N2. unfold index_keys. cbn [intentions_destination_index ix_from ix_unique].
  rewrite !string_index_key by done. cbn [compound_index head default from_option fmap list_fmap].
  by rewrite str_app_nil_l, !str_app_assoc.
Qed.
Lemma destination_single : single_valued intentions_destination_index.
Proof.
  intros k x. unfold index_keys. simpl. unfold string_index. repeat case_decide; simpl; lia.
Qed.

Lemma pair_prefix a b a' b' k :
  nul_free a → nul_free b → nul_free a' → nul_free b' →
  String.prefix (string_args true a +:+ string_args true b)
    (string_args true a' +:+ string_args true b' +:+ k) = true ↔ same_name a' a ∧ same_name b' b.
Proof.
  intros Ha Hb Ha' Hb'. unfold string_args, same_name. rewrite prefix_spec. split.
  - intros [r Hr]. rewrite !str_app_assoc in Hr.
    apply terminated_inj in Hr as [H1 Hr]; [|by rewrite nul_free_lower..].
    by apply terminated_inj in Hr as [H2 Hr]; [|by rewrite nul_free_lower..].
  - intros [-> ->]. exists k. by rewrite !str_app_assoc.
Qed.

Lemma elem_of_destination_scan t ns n x :
  map_Forall (λ _, clean_intention) t → nul_free ns → nul_free n →
  x ∈ table_scan intentions_destination_index (string_args true ns +:+ string_args true n) t ↔
  (∃ k, t !! k = Some x) ∧ filed_at ns n x.
Proof.
  intros Ht Hns Hn. rewrite elem_of_table_scan. unfold filed_at. split.
  - intros (k&b&Hk&Hb&Hp). destruct (Ht k x Hk) as (Hv&?&?).
    apply Intention_Validate_complete in Hv as [(?&?&?&?) _].
    rewrite destination_keys in Hb by done. apply list_elem_of_singleton in Hb as ->.
    apply pair_prefix in Hp; eauto.
  - intros [[k Hk] Hf]. destruct (Ht k x Hk) as (Hv&?&?).
    apply Intention_Validate_complete in Hv as [(?&?&?&?) _].
    eexists k, _. split; [done|]. rewrite destination_keys by done. split; [by left|]. by apply pair_prefix.
Qed.

(** Which destinations an intention covers. *)
Definition covers (ns n : string) (x : Intention) : Prop :=
  (ixn_DestinationNS x = IntentionWildcard ∨ same_name (ixn_DestinationNS x) ns) ∧
  (ixn_DestinationName x = IntentionWildcard ∨ same_name (ixn_DestinationName x) n).

Lemma lower_wildcard s : to_lower s = "*" → s = "*".
Proof.
  destruct s as [|c [|d s]]; simpl; [done| |done]. intros [= H]. f_equal.
  revert H. unfold lower_ascii. destruct c as [[] [] [] [] [] [] [] []]; vm_compute; congruence.
Qed.
Lemma same_wildcard s : same_name s IntentionWildcard ↔ s = IntentionWildcard.
Proof. unfold same_name, IntentionWildcard. split; [apply lower_wildcard|by intros ->]. Qed.

(** ** A match *)

Section match_.
Context (t : gmap string Intention) (ns n : string).
Hypothesis Hclean : map_Forall (λ _, clean_intention) t.
Hypothesis Hkeyed : keyed t.
Hypothesis Hns : nul_free ns.
Hypothesis Hn : nul_free n.
Hypothesis Hns' : ns ≠ IntentionWildcard.
Hypothesis Hn' : n ≠ IntentionWildcard.

Definition pair_scan (p : string * string) : list Intention :=
  table_scan intentions_destination_index (string_args true p.1 +:+ string_args true p.2) t.
Definition matches : list Intention :=
  sort_intentions (concat (pair_scan <$> intentionMatchGetParams (mkMatchEntry ns n))).

Lemma matches_scans :
  matches ≡ₚ pair_scan ("*", "*") ++ pair_scan (ns, "*") ++ pair_scan (ns, n).
Proof using Hns' Hn'.
  unfold matches. rewrite sort_intentions_perm. unfold intentionMatchGetParams. simpl.
  rewrite !decide_False by done. simpl. by rewrite app_nil_r.
Qed.
Lemma elem_of_matches x : x ∈ matches ↔ (∃ k, t !! k = Some x) ∧ covers ns n x.
Proof using Hclean Hns Hn Hns' Hn'.
  rewrite matches_scans, !elem_of_app. unfold pair_scan. simpl.
  rewrite !elem_of_destination_scan by done. unfold filed_at.
  rewrite !(same_wildcard : ∀ s, same_name s "*" ↔ s = "*"). unfold covers.
  split; [naive_solver|]. intros [[k Hk] Hc]. destruct (Hclean k x Hk) as [Hv _].
  apply Intention_Validate_complete in Hv as (_&_&Hw). naive_solver.
Qed.
Lemma NoDup_matches : NoDup matches.
Proof using Hclean Hkeyed Hns Hn Hns' Hn'.
  rewrite matches_scans. unfold pair_scan. simpl.
  assert (∀ p, NoDup (table_scan intentions_destination_index p t)) as Hnd
    by (intros p; apply NoDup_table_scan; [apply destination_single|done]).
  assert (¬ same_name "*" ns) as Nns by (by intros E; apply Hns', same_wildcard).
  assert (¬ same_name "*" n) as Nn by (by intros E; apply Hn', same_wildcard).
  apply list.NoDup_app. split_and!; [done| |apply list.NoDup_app; split_and!; [done| |done]].
  all: intros x; rewrite ?elem_of_app, !elem_of_destination_scan by done; unfold filed_at;
    rewrite !(same_wildcard : ∀ s, same_name s "*" ↔ s = "*").
  - intros [_ [E1 E2]] [[_ [E _]]|[_ [E _]]]; congruence.
  - intros [_ [_ E2]] [_ [_ E]]. congruence.
Qed.
End match_.

Lemma IntentionMatch_destination ns n st :
  ∃ idx, IntentionMatch (mkQueryMatch "destination" [mkMatchEntry ns n]) st =
    Ok (idx, [matches (intentions (connect (st_db st))) ns n]).
Proof.
  unfold IntentionMatch, read_txn. set (s := begin_txn false 0 st).
  assert (∃ i, intention_index s = (Ok i, s)) as [i Hi] by (eexists; reflexivity).
  rewrite (run_bind_ok _ _ _ _ _ Hi). cbn [qm_Type qm_Entries mmap]. unfold match_entry.
  pose proof (mmap_reads (λ '(ns, n),
    let* ix := mwrap "failed intention lookup" (mlift (match_index "destination")) in
    tx_Get ix (string_args true ns +:+ string_args true n)) (pair_scan (intentions (connect (st_db st))))
    (intentionMatchGetParams (mkMatchEntry ns n)) s) as Hm.
  unfold mbind' at 1 2 3. rewrite Hm; [|by intros [a b] _]. by exists i.
Qed.

(** ** The first intention that applies *)

(** The number of exact values decides the precedence. *)
Lemma precedence_counts x y :
  ixn_Precedence (UpdatePrecedence x) = ixn_Precedence (UpdatePrecedence y) →
  countExact (ixn_SourceNS x) (ixn_SourceName x) = countExact (ixn_SourceNS y) (ixn_SourceName y) ∧
  countExact (ixn_DestinationNS x) (ixn_DestinationName x) = countExact (ixn_DestinationNS y) (ixn_DestinationName y).
Proof.
  unfold UpdatePrecedence.
  assert (∀ a b, countExact a b = 0%Z ∨ countExact a b = 1%Z ∨ countExact a b = 2%Z) as Hc
    by (intros a b; unfold countExact; repeat case_decide; auto).
  destruct (Hc (ixn_SourceNS x) (ixn_SourceName x)) as [->|[->| ->]],
    (Hc (ixn_SourceNS y) (ixn_SourceName y)) as [->|[->| ->]],
    (Hc (ixn_DestinationNS x) (ixn_DestinationName x)) as [->|[->| ->]],
    (Hc (ixn_DestinationNS y) (ixn_DestinationName y)) as [->|[->| ->]]; simpl; split; lia || done.
Qed.
Lemma countExact_same a b a' b' :
  countExact a b = countExact a' b' →
  (a = IntentionWildcard → b = IntentionWildcard) → (a' = IntentionWildcard → b' = IntentionWildcard) →
  (a = IntentionWildcard ↔ a' = IntentionWildcard) ∧ (b = IntentionWildcard ↔ b' = IntentionWildcard).
Proof. unfold countExact. repeat case_decide; naive_solver. Qed.

Definition applies (uri : SpiffeIDService) (x : Intention) : Prop :=
  (ixn_SourceNS x = IntentionWildcard ∨ ixn_SourceNS x = sp_Namespace uri) ∧
  (ixn_SourceName x = IntentionWildcard ∨ ixn_SourceName x = sp_Service uri).
Definition allowed (x : Intention) : bool := bool_decide (ixn_Action x = IntentionActionAllow).

Lemma Authorize_Some uri x b :
  SpiffeIDService_Authorize uri x = Some b ↔ applies uri x ∧ b = allowed x.
Proof.
  unfold SpiffeIDService_Authorize, applies, allowed.
  destruct (decide (ixn_SourceNS x = IntentionWildcard)), (decide (ixn_SourceNS x = sp_Namespace uri)),
    (decide (ixn_SourceName x = IntentionWildcard)), (decide (ixn_SourceName x = sp_Service uri));
    repeat case_decide; naive_solver.
Qed.
Lemma Authorize_None uri x : SpiffeIDService_Authorize uri x = None ↔ ¬ applies uri x.
Proof.
  destruct (SpiffeIDService_Authorize uri x) as [b|] eqn:H.
  - apply Authorize_Some in H as [? _]. naive_solver.
  - split; [|done]. intros _ Ha. by rewrite (proj2 (Authorize_Some uri x (allowed x))) in H.
Qed.
Lemma authorize_first_None uri l : authorize_first uri l = None ↔ ∀ x, x ∈ l → ¬ applies uri x.
Proof.
  induction l as [|x l IH]; simpl; [split; [by intros _ ? ?%elem_of_nil|done]|].
  destruct (SpiffeIDService_Authorize uri x) as [b|] eqn:Hx.
  - apply Authorize_Some in Hx as [Hx _]. split; [done|]. intros H. by destruct (H x (list_elem_of_here _ _)).
  - apply Authorize_None in Hx. rewrite IH. setoid_rewrite elem_of_cons. naive_solver.
Qed.
Lemma authorize_first_Some uri l b :
  StronglySorted prec_le l → authorize_first uri l = Some b →
  ∃ x, x ∈ l ∧ applies uri x ∧ b = allowed x ∧
    ∀ y, y ∈ l → applies uri y → (ixn_Precedence y ≤ ixn_Precedence x)%Z.
Proof.
  induction 1 as [|x l Hl IH Hx]; simpl; [done|].
  destruct (SpiffeIDService_Authorize uri x) as [b'|] eqn:Hb.
  - intros [= ->]. apply Authorize_Some in Hb as [? ->]. exists x. split_and!; [by left|done..|].
    intros y [->|Hy]%elem_of_cons _; [done|]. apply prec_le_precedence. by apply (proj1 (list.Forall_forall _ _) Hx).
  - apply Authorize_None in Hb. intros (y&Hy&?&?&Hmax)%IH. exists y. split_and!; [by right|done..|].
    intros z [->|Hz]%elem_of_cons; [done|]. by apply Hmax.
Qed.

(** Two intentions of equal precedence for the same client and destination are
    for the same pair. *)
Lemma same_precedence_same_pair uri ns n x y :
  Intention_Validate x = [] → Intention_Validate y = [] →
  ixn_Precedence (UpdatePrecedence x) = ixn_Precedence (UpdatePrecedence y) →
  applies uri x → applies uri y → covers ns n x → covers ns n y → ixn_4tuple_args x = ixn_4tuple_args y.
Proof.
  intros (_&Sx&Dx)%Intention_Validate_complete (_&Sy&Dy)%Intention_Validate_complete [Hs Hd]%precedence_counts
    [A1 A2] [B1 B2] [C1 C2] [D1 D2]. unfold same_name in *.
  apply countExact_same in Hs as [Hs1 Hs2]; [|done..]. apply countExact_same in Hd as [Hd1 Hd2]; [|done..].
  assert (ixn_SourceNS x = ixn_SourceNS y) as E1 by naive_solver congruence.
  assert (ixn_SourceName x = ixn_SourceName y) as E2 by naive_solver congruence.
  assert (to_lower (ixn_DestinationNS x) = to_lower (ixn_DestinationNS y)) as E3.
  { destruct C1 as [E|E]; [by rewrite E, (proj1 Hd1 E)|]. destruct D1 as [E'|E']; [|by rewrite E, E'].
    by rewrite E', (proj2 Hd1 E'). }
  assert (to_lower (ixn_DestinationName x) = to_lower (ixn_DestinationName y)) as E4.
  { destruct C2 as [E|E]; [by rewrite E, (proj1 Hd2 E)|]. destruct D2 as [E'|E']; [|by rewrite E, E'].
    by rewrite E', (proj2 Hd2 E'). }
  unfold ixn_4tuple_args, string_args. congruence.
Qed.

(** ** The property *)

Definition stored_intention (st : Store) (x : Intention) : Prop :=
  ∃ k, intentions (connect (st_db st)) !! k = Some x.

(** C34. In a store that the state machine can reach, and whose intentions are
    valid and name destinations without NUL bytes, the match of a destination
    service answers every stored intention that covers it, each once,
    strongest first.  The first one in that list that applies to a client
    decides: there is no decision exactly when no covering intention applies,
    and otherwise the decision is the action of the one applicable intention
    whose precedence is strictly the highest. *)
Theorem IntentionMatch_decides st ns n :
  reachable st → (∀ x, stored_intention st x → clean_intention x) → nul_free ns → nul_free n →
  ns ≠ IntentionWildcard → n ≠ IntentionWildcard →
  ∃ idx ixns,
    IntentionMatch (mkQueryMatch "destination" [mkMatchEntry ns n]) st = Ok (idx, [ixns]) ∧
    NoDup ixns ∧ StronglySorted prec_le ixns ∧
    (∀ x, x ∈ ixns ↔ stored_intention st x ∧ covers ns n x) ∧
    (∀ uri, authorize_first uri ixns = None ↔
       ∀ x, stored_intention st x → covers ns n x → ¬ applies uri x) ∧
    (∀ uri b, authorize_first uri ixns = Some b ↔
       ∃ x, stored_intention st x ∧ covers ns n x ∧ applies uri x ∧ b = allowed x ∧
         ∀ y, stored_intention st y → covers ns n y → applies uri y → y ≠ x →
           (ixn_Precedence y < ixn_Precedence x)%Z).
Proof.
  intros [Hk Hp Hu]%reachable_ixn_inv Hc Hns Hn Hns' Hn'.
  destruct (IntentionMatch_destination ns n st) as [idx Hm].
  set (t := intentions (connect (st_db st))) in *. set (ixns := matches t ns n) in *.
  assert (map_Forall (λ _, clean_intention) t) as Hclean by (intros k x Hx; apply Hc; by exists k).
  assert (∀ x, x ∈ ixns ↔ stored_intention st x ∧ covers ns n x) as Hin by (intros x; by apply elem_of_matches).
  assert (∀ uri x y, x ∈ ixns → y ∈ ixns → applies uri x → applies uri y →
    ixn_Precedence x = ixn_Precedence y → x = y) as Hone.
  { intros uri x y [[kx Hx] Cx]%Hin [[ky Hy] Cy]%Hin Ax Ay E.
    rewrite (Hp _ _ Hx), (Hp _ _ Hy) in E. destruct (Hclean _ _ Hx) as [Vx _], (Hclean _ _ Hy) as [Vy _].
    assert (kx = ky) as ->; [|congruence]. apply (Hu kx ky x y); try done.
    - by apply Intention_Validate_complete in Vx as [? _].
    - by apply Intention_Validate_complete in Vy as [? _].
    - by apply (same_precedence_same_pair uri ns n). }
  exists idx, ixns. split_and!; [done|by apply NoDup_matches|apply sort_intentions_sorted|done| |].
  - intros uri. rewrite authorize_first_None. setoid_rewrite Hin. naive_solver.
  - intros uri b. split.
    + intros (x&Hx&Ha&->&Hmax)%authorize_first_Some; [|apply sort_intentions_sorted].
      apply Hin in Hx as Hx'. exists x. split_and!; [naive_solver..|].
      intros y Hy Cy Ay Hne. pose proof (Hmax y (proj2 (Hin y) (conj Hy Cy)) Ay).
      assert (ixn_Precedence y ≠ ixn_Precedence x); [|lia].
      intros E. apply Hne, (Hone uri); try done. by apply Hin.
    + intros (x&Hx&Cx&Ax&->&Hmax). destruct (authorize_first uri ixns) as [b|] eqn:Hb.
      * apply authorize_first_Some in Hb as (z&Hz&Az&->&Hz'); [|apply sort_intentions_sorted].
        destruct (decide (z = x)) as [->|Hne]; [done|]. apply Hin in Hz as [Hz Cz].
        pose proof (Hmax z Hz Cz Az Hne). specialize (Hz' x (proj2 (Hin x) (conj Hx Cx)) Ax). lia.
      * rewrite authorize_first_None in Hb. destruct (Hb x); [|done]. by apply Hin.
Qed.

Module Sample.
Definition ixn (id src dst action : string) : Intention :=
  mkIntention id "" "default" src "default" dst "consul" action "" 0 None 0 0 0 None 0 0.
Definition id1 : string := "11111111-1111-1111-1111-111111111111".
Definition id2 : string := "22222222-2222-2222-2222-222222222222".
Definition create (i : N) (x : Intention) : Z * N * command :=
  (0%Z, i, IntentionRequestType (mkIntentionRequest "create" (Some x))).
Definition log := [create 1 (ixn id1 "*" "db" "deny"); create 2 (ixn id2 "web" "DB" "allow")].
Definition st : Store := (fsm_run sample_externals log (NewStateStore None)).2.
Definition web : SpiffeIDService := mkSpiffe "h" "default" "dc1" "web".
End Sample.

Lemma example_clean x : stored_intention Sample.st x → clean_intention x.
Proof.
  assert (map_Forall (λ _, clean_intention) (intentions (connect (st_db Sample.st)))) as H.
  { assert (Forall (λ kx, clean_intention kx.2) (map_to_list (intentions (connect (st_db Sample.st))))) as H.
    { apply (bool_decide_unpack _). vm_compute. done. }
    apply map_Forall_to_list. eapply list.Forall_impl; [exact H|]. by intros []. }
  intros [k Hk]. by apply (H k).
Qed.
Lemma IntentionMatch_decides_witness :
  ∃ idx ixns,
    IntentionMatch (mkQueryMatch "destination" [mkMatchEntry "default" "db"]) Sample.st = Ok (idx, [ixns]) ∧
    length ixns = 2 ∧ authorize_first Sample.web ixns = Some true.
Proof.
  destruct (IntentionMatch_decides Sample.st "default" "db") as (idx&ixns&Hm&Hnd&_).
  - exists sample_externals, Sample.log, None. reflexivity.
  - exact example_clean.
  - done.
  - done.
  - done.
  - done.
  - exists idx, ixns. split; [done|]. revert Hm. vm_compute. intros [= <- <-]. done.
Defined.
