(* ===== verification/KvProps.v ===== *)
(** * Safety and functional properties of the key/value store *)

From S2P Require Import Prelude Memdb ProxyConfig Structs Delay TombstoneGC Store Graveyard Kvs PreparedQuery Session Catalog Coordinate.
From S2P Require Import Txn Fsm Logic MemdbFacts StoreFacts Frames KvSpec KvRefine SessionFacts SessionInv SessionProps.

(** ** From the specification back to the tables *)

Definition spec_after (live : string → option bool) (idx : N) (req : KVSRequest) (a : kv_abs) : kv_abs :=
  match spec_kv live idx req a with Some (_, a') => a' | None => a end.

Lemma kv_command_after now idx req st a :
  kv_rel (st_db st) a →
  kv_rel (st_db (applyKVSOperation now idx req st).2) (spec_after (session_live (st_db st)) idx req a).
Proof.
  intros Hrel. pose proof (kv_command_refines now idx req st a Hrel) as H. unfold spec_after.
  destruct (spec_kv _ idx req a) as [[resp a']|]; simpl in H; [by destruct H as (_&?&_)|].
  destruct H as [_ ->]. done.
Qed.
Lemma reachable_rel st : reachable st → kv_rel (st_db st) (kv_abs_of (st_db st)).
Proof. intros Hr%reachable_inv. by apply kv_rel_abs_of, si_kvs. Qed.

(** ** Locks *)

Lemma spec_set_lookup idx e upd a a' key :
  spec_set idx e upd a = Some a' →
  a_kv a' !! key =
    if decide (key = de_Key e)
    then Some (if unchanged (a_kv a !! de_Key e) (prepared (a_kv a !! de_Key e) idx e upd)
               then default e (a_kv a !! de_Key e) else prepared (a_kv a !! de_Key e) idx e upd)
    else a_kv a !! key.
Proof.
  unfold spec_set. destruct (unchanged _ _) eqn:Hu.
  - intros [= ->]. case_decide; [subst|done]. by destruct (a_kv a' !! de_Key e).
  - destruct (storable _); [|done]. intros [= <-]. simpl. case_decide; subst.
    + by rewrite lookup_insert_eq.
    + by rewrite lookup_insert_ne.
Qed.

(** The session of an entry after a set of the key. *)
Lemma spec_set_session idx e upd a a' x :
  spec_set idx e upd a = Some a' → a_kv a !! de_Key e = Some x →
  ∃ x', a_kv a' !! de_Key e = Some x' ∧ de_Session x' = if upd then de_Session e else de_Session x.
Proof.
  intros Hs Hx. rewrite (spec_set_lookup _ _ _ _ _ _ Hs), decide_True, Hx by done.
  eexists. split; [done|]. destruct (unchanged _ _) eqn:Hu.
  - simpl in *. unfold DirEntry_Equal in Hu. rewrite !andb_true_iff, !bool_decide_eq_true in Hu.
    destruct Hu as [_ ->]. by destruct upd.
  - by destruct upd.
Qed.

(** What a command may do to a held lock. *)
Definition lock_kept (req : KVSRequest) (key : string) (e : DirEntry) (after : option DirEntry) : Prop :=
  match after with
  | Some e' => de_Session e' = de_Session e ∨
      (kr_Op req = "unlock" ∧ de_Key (kr_DirEnt req) = key ∧
       de_Session (kr_DirEnt req) = de_Session e ∧ de_Session e' = "")
  | None => kr_Op req = "delete" ∨ kr_Op req = "delete-cas" ∨ kr_Op req = "delete-tree"
  end.

Section lock_kept.
Context (idx : N) (key : string) (e : DirEntry) (a : kv_abs).
Context (He : a_kv a !! key = Some e).

Lemma kept_same req : lock_kept req key e (a_kv a !! key).
Proof using He. rewrite He. by left. Qed.

Lemma kept_set req d : lock_kept req key e
  (a_kv (default a (spec_set idx d false a)) !! key).
Proof using He.
  destruct (spec_set idx d false a) as [a'|] eqn:Hs; [|by apply kept_same].
  simpl. destruct (decide (key = de_Key d)) as [->|Hne].
  - destruct (spec_set_session _ _ _ _ _ _ Hs He) as (x'&->&Hx'). by left.
  - rewrite (spec_set_lookup _ _ _ _ _ _ Hs), decide_False by done. by apply kept_same.
Qed.

Lemma kept_delete req k :
  kr_Op req = "delete" ∨ kr_Op req = "delete-cas" → lock_kept req key e (a_kv (spec_delete idx k a) !! key).
Proof using He.
  intros Hop. unfold spec_delete. destruct (a_kv a !! k); [|by apply kept_same]. simpl.
  destruct (decide (key = k)) as [->|]; [rewrite lookup_delete_eq|rewrite lookup_delete_ne by done; by apply kept_same].
  simpl. tauto.
Qed.

Lemma kept_delete_tree req p :
  kr_Op req = "delete-tree" → lock_kept req key e (a_kv (spec_delete_tree idx p a) !! key).
Proof using He.
  intros Hop. unfold spec_delete_tree. case_decide; [|by apply kept_same]. simpl.
  destruct (filter _ (a_kv a) !! key) as [e'|] eqn:Hf.
  - apply map_lookup_filter_Some in Hf as [Hf _]. simplify_eq. by left.
  - simpl. tauto.
Qed.

(** A set that writes the holder itself, or that releases it. *)
Lemma kept_take req d :
  (∀ x, a_kv a !! de_Key d = Some x → de_Key d = key →
     de_Session d = de_Session x ∨
     (kr_Op req = "unlock" ∧ de_Key (kr_DirEnt req) = key ∧
      de_Session (kr_DirEnt req) = de_Session x ∧ de_Session d = "")) →
  lock_kept req key e (a_kv (default a (spec_set idx d true a)) !! key).
Proof using He.
  intros Hd. destruct (spec_set idx d true a) as [a'|] eqn:Hs; [|by apply kept_same].
  simpl. destruct (decide (key = de_Key d)) as [->|Hne].
  - destruct (spec_set_session _ _ _ _ _ _ Hs He) as (x'&->&Hx'). simpl. rewrite Hx'.
    destruct (Hd e He eq_refl) as [?|(?&?&?&?)]; [by left|by right].
  - rewrite (spec_set_lookup _ _ _ _ _ _ Hs), decide_False by done. by apply kept_same.
Qed.
End lock_kept.

Lemma spec_lock_kept live idx req a key e :
  a_kv a !! key = Some e → de_Session e ≠ "" → lock_kept req key e (a_kv (spec_after live idx req a) !! key).
Proof.
  intros He Hne. pose proof (kept_same key e a He req) as Hsame.
  unfold spec_after, spec_kv. destruct req as [op d]. simpl.
  case_decide as Ho1.
  { pose proof (kept_set idx key e a He (mkKVSRequest op d) d) as H. by destruct (spec_set idx d false a). }
  case_decide as Ho2; [apply kept_delete; [done|by left]|].
  case_decide as Ho3.
  { destruct (a_kv a !! de_Key d) as [x|]; [|done]. destruct (de_ModifyIndex x =? de_ModifyIndex d)%N; [|done].
    apply kept_delete; [done|by right]. }
  case_decide as Ho4; [by apply kept_delete_tree|].
  case_decide as Ho5.
  { destruct (spec_cas_match _ _); [|done].
    pose proof (kept_set idx key e a He (mkKVSRequest op d) d) as H. by destruct (spec_set idx d false a). }
  case_decide as Ho6.
  { unfold spec_lock. case_decide as Hs0; [done|]. destruct (live (de_Session d)) as [[]|]; [|done..].
    cbv zeta. destruct (a_kv a !! de_Key d) as [x|] eqn:Hx.
    - case_decide as Hown.
      + pose proof (kept_take idx key e a He (mkKVSRequest op d)
          (de_set_indexes (de_CreateIndex x) idx (de_set_lock (de_LockIndex x) d))) as H.
        destruct (spec_set idx _ true a); simpl in *; [|done]. apply H. intros y Hy _. left. congruence.
      + case_decide as Hfree; [|done].
        pose proof (kept_take idx key e a He (mkKVSRequest op d)
          (de_set_indexes (de_CreateIndex x) idx (de_set_lock (u64_add (de_LockIndex x) 1) d))) as H.
        destruct (spec_set idx _ true a); simpl in *; [|done]. apply H. intros y Hy <-. congruence.
    - pose proof (kept_take idx key e a He (mkKVSRequest op d)
          (de_set_indexes idx idx (de_set_lock 1 d))) as H.
      destruct (spec_set idx _ true a); simpl in *; [|done]. apply H. intros y Hy _. congruence. }
  case_decide as Ho7; [|done].
  unfold spec_unlock. case_decide as Hs0; [done|]. destruct (a_kv a !! de_Key d) as [x|] eqn:Hx; [|done].
  case_decide as Hown; [|done].
  pose proof (kept_take idx key e a He (mkKVSRequest op d)
      (de_set_lock (de_LockIndex x) (de_set_session "" d))) as H.
  destruct (spec_set idx _ true a); simpl in *; [|done]. apply H. intros y Hy Hk. right.
  split_and!; congruence.
Qed.

(** C7. Mutual exclusion: while a session holds a key, no KV command hands the
    key to another session.  After any command the entry still has its holder,
    or the holder itself unlocked it, or the entry was deleted by a delete
    (deletes are not protected by the lock). *)
Theorem held_lock_exclusive now idx req st key e :
  reachable st → kvs (st_db st) !! string_args false key = Some e → de_Session e ≠ "" →
  lock_kept req key e
    (kvs (st_db (applyKVSOperation now idx req st).2) !! string_args false key).
Proof.
  intros Hr He Hne. pose proof (reachable_rel st Hr) as Hrel.
  rewrite <-(rel_kv _ _ (kv_command_after now idx req st _ Hrel)).
  apply spec_lock_kept; [|done]. by rewrite (rel_kv _ _ Hrel).
Qed.

Definition demo_id2 : string := "00000000-0000-0000-0000-000000000002".
Lemma held_lock_exclusive_witness :
  let e := mkDirEntry 1 "lead" 0 "me" demo_id 4 4 in
  let req := mkKVSRequest "unlock" (mkDirEntry 0 "lead" 0 "" demo_id 0 0) in
  lock_kept req "lead" e
    (kvs (st_db (applyKVSOperation 5 6 req (demo_store SessionKeysRelease)).2) !! string_args false "lead") ∧
  kvs (st_db (applyKVSOperation 5 6 req (demo_store SessionKeysRelease)).2) !! string_args false "lead" =
    Some (mkDirEntry 1 "lead" 0 "" "" 4 6).
Proof.
  split; [|vm_compute; reflexivity].
  apply held_lock_exclusive; [apply demo_store_reachable|vm_compute; reflexivity|discriminate].
Defined.

(** The entry of a key carries the content of [e]. *)
Definition holds_content (t : gmap string DirEntry) (e : DirEntry) : Prop :=
  ∃ y, t !! string_args false (de_Key e) = Some y ∧ DirEntry_Equal y e = true.

Lemma DirEntry_Equal_refl e c m : DirEntry_Equal (de_set_indexes c m e) e = true.
Proof. unfold DirEntry_Equal. simpl. by rewrite !N.eqb_refl, !bool_decide_true. Qed.

Lemma set_stores idx e s :
  tx_write s = true → storable e →
  ∃ e' s', kvsSetTxn idx e true s = (Ok e', s') ∧ holds_content (kvs (tx_db s')) e.
Proof.
  intros Hw Hs. pose proof (kvsSetTxn_run idx e true s Hw) as Hrun. cbv zeta in Hrun.
  set (e' := prepared (kv_at s (de_Key e)) idx e true) in *.
  assert (storable e' = true) as Hs' by (by apply Is_true_true).
  destruct (unchanged _ _) eqn:Hu.
  - do 2 eexists. split; [exact Hrun|]. unfold holds_content, kv_at in *.
    destruct (kvs (tx_db s) !! string_args false (de_Key e)) as [y|]; [|done]. exists y. by split.
  - rewrite Hs' in Hrun. do 2 eexists. split; [exact Hrun|].
    exists e'. simpl. rewrite lookup_insert_eq. split; [done|]. apply DirEntry_Equal_refl.
Qed.

(** The outcome of an acquisition that succeeds with the lock index [l]. *)
Definition acquired (r : outcome (bool * DirEntry) * Store) (e : DirEntry) (l : N) : Prop :=
  (∃ e', r.1 = Ok (true, e')) ∧ holds_content (kvs (st_db r.2)) (de_set_lock l e).

Lemma storable_live d e :
  de_Key e ≠ "" → session_live d (de_Session e) = Some true → storable e.
Proof.
  intros Hk Hl. unfold storable, session_live in *. apply andb_True.
  split; [by apply bool_decide_pack|]. apply orb_True. right. by destruct (uuid_parse (de_Session e)).
Qed.

Lemma KVSLock_acquires now idx e c l st :
  de_Key e ≠ "" → session_live (st_db st) (de_Session e) = Some true →
  acquired (write_txn now fst (let* entry := kvsSetTxn idx (de_set_indexes c idx (de_set_lock l e)) true in
                               mreturn (true, entry)) st) e l.
Proof.
  intros Hk Hl. destruct (set_stores idx (de_set_indexes c idx (de_set_lock l e)) (begin_txn true now st)) as
    (e'&s'&Hrun&Hst); [done| |].
  - by apply (storable_live (st_db st) (de_set_indexes c idx (de_set_lock l e))).
  - unfold write_txn. erewrite run_bind_ok by exact Hrun. simpl. split; [simpl; eauto|exact Hst].
Qed.

(** C8. Acquiring a lock: with a session that is not live the command fails
    and changes nothing; a key held by another session is refused and nothing
    changes; a free key is acquired and its lock index goes up by one (from
    zero for a new key, wrapping at 2^64); the holder acquiring again keeps
    its lock index.  On success the entry carries the request's value and
    flags and names the session. *)
Theorem KVSLock_spec now idx e st :
  de_Key e ≠ "" →
  let r := KVSLock now idx e st in
  match session_live (st_db st) (de_Session e) with
  | Some true =>
      match kvs (st_db st) !! string_args false (de_Key e) with
      | None => acquired r e 1
      | Some x =>
          if decide (de_Session x = de_Session e) then acquired r e (de_LockIndex x)
          else if decide (de_Session x = "") then acquired r e ((de_LockIndex x + 1) mod 2 ^ 64)%N
          else r.1 = Ok (false, e) ∧ st_db r.2 = st_db st
      end
  | _ => (∃ err, r.1 = Err err) ∧ st_db r.2 = st_db st
  end.
Proof.
  intros Hk. set (s := begin_txn true now st).
  pose proof (session_lookup_run s "failed session lookup" (de_Session e)) as Hsl.
  change (tx_db s) with (st_db st) in Hsl. unfold KVSLock.
  destruct (decide (de_Session e = "")) as [Hs|Hs].
  { assert (session_live (st_db st) (de_Session e) = None) as -> by (by rewrite Hs).
    apply write_txn_fails. unfold kvsLockTxn. rewrite decide_True by done. by do 2 eexists. }
  destruct (session_live (st_db st) (de_Session e)) as [[]|] eqn:Hlive.
  - destruct Hsl as [x Hsl].
    assert (∀ m, (kvsLockTxn idx e s = m s) → write_txn now fst (kvsLockTxn idx e) st = write_txn now fst m st) as Heq.
    { intros m Hm. unfold write_txn. fold s. by rewrite Hm. }
    assert (kvsLockTxn idx e s =
      match kvs (st_db st) !! string_args false (de_Key e) with
      | None => (let* entry := kvsSetTxn idx (de_set_indexes idx idx (de_set_lock 1 e)) true in mreturn (true, entry)) s
      | Some x =>
          if decide (de_Session x = de_Session e)
          then (let* entry := kvsSetTxn idx (de_set_indexes (de_CreateIndex x) idx (de_set_lock (de_LockIndex x) e)) true in
                mreturn (true, entry)) s
          else if decide (de_Session x ≠ "") then (Ok (false, e), s)
          else (let* entry := kvsSetTxn idx (de_set_indexes (de_CreateIndex x) idx (de_set_lock (u64_add (de_LockIndex x) 1) e)) true in
                mreturn (true, entry)) s
      end) as Hrun.
    { unfold kvsLockTxn. rewrite decide_False by done. erewrite run_bind_ok by exact Hsl. cbv beta iota zeta.
      rewrite (run_bind_ok (kv_First (de_Key e)) _ s (kv_at s (de_Key e)) s) by done.
      change (kv_at s (de_Key e)) with (kvs (st_db st) !! string_args false (de_Key e)).
      destruct (kvs (st_db st) !! string_args false (de_Key e)); [|done]. by repeat case_decide. }
    destruct (kvs (st_db st) !! string_args false (de_Key e)) as [x'|].
    + destruct (decide (de_Session x' = de_Session e)).
      { rewrite (Heq _ Hrun). by apply KVSLock_acquires. }
      destruct (decide (de_Session x' = "")) as [Hfree|Hheld].
      * rewrite decide_False in Hrun by tauto. rewrite (Heq _ Hrun). by apply KVSLock_acquires.
      * rewrite decide_True in Hrun by done. unfold write_txn. fold s. by rewrite Hrun.
    + rewrite (Heq _ Hrun). by apply KVSLock_acquires.
  - apply write_txn_fails. unfold kvsLockTxn. rewrite decide_False by done.
    erewrite run_bind_ok by exact Hsl. by do 2 eexists.
  - destruct Hsl as [err Hsl]. apply write_txn_fails. unfold kvsLockTxn. rewrite decide_False by done.
    erewrite run_bind_err by exact Hsl. by do 2 eexists.
Qed.

Lemma KVSLock_spec_witness :
  let r := KVSLock 7 9 (mkDirEntry 0 "free" 3 "mine" demo_id 0 0) (demo_store SessionKeysRelease) in
  acquired r (mkDirEntry 0 "free" 3 "mine" demo_id 0 0) 1 ∧
  kvs (st_db r.2) !! string_args false "free" = Some (mkDirEntry 1 "free" 3 "mine" demo_id 3 9).
Proof.
  split; [|vm_compute; reflexivity].
  exact (KVSLock_spec 7 9 (mkDirEntry 0 "free" 3 "mine" demo_id 0 0) (demo_store SessionKeysRelease)
    ltac:(discriminate)).
Defined.
