(* ===== verification/ListProps.v ===== *)
(** * Listings: their content and their index

    A blocking query waits for the index of its result to grow; the graveyard
    is there so that it never slides back.  [list_index_monotone] proves that
    for every KV command but a delete-tree, [delete_tree_index_slides_back]
    shows the delete-tree that breaks it. *)

From S2P Require Import Prelude Memdb ProxyConfig Structs Delay TombstoneGC Store Graveyard Kvs PreparedQuery Session Catalog Coordinate.
From S2P Require Import Txn Fsm Logic MemdbFacts StoreFacts Frames KvSpec KvRefine SessionFacts SessionInv SessionProps KvProps.

(** The highest index among the entries and the tombstones under a prefix. *)
Definition newest_under (p : string) (d : db) : N :=
  N.max (max_loop de_ModifyIndex 0 (table_prefix p (kvs d)))
        (max_loop ts_Index 0 (table_prefix p (tombstones d))).
(** The index of a listing. *)
Definition list_index_of (p : string) (d : db) : N :=
  let table := maxIndex_db d ["kvs"; "tombstones"] in
  if decide (p = "") then table
  else if decide (newest_under p d = 0%N) then table else newest_under p d.

(** Key order: the order of the bytes of the keys. *)
Definition key_order (e1 e2 : DirEntry) : Prop := String.le (de_Key e1 +:+ nul) (de_Key e2 +:+ nul).

(** ** The content of a listing *)

Lemma kvsListTxn_run p s :
  kvsListTxn p s = (Ok (list_index_of p (tx_db s), table_prefix p (kvs (tx_db s))), s).
Proof.
  unfold kvsListTxn, maxIndexTxn, tx_GetPrefix, list_index, Graveyard_GetMaxIndexTxn, list_index_of, newest_under.
  unfold mbind', mget. change (tbl (tx_db s)) with (kvs (tx_db s)).
  destruct (decide (p = "")) as [->|Hp]; simpl.
  - unfold mreturn. by case_decide as Hz; [rewrite Hz|].
  - unfold tx_GetPrefix, mget, mreturn. change (tbl (tx_db s)) with (tombstones (tx_db s)).
    set (k := max_loop de_ModifyIndex 0 _). set (g := max_loop ts_Index 0 _).
    assert ((if (k <? g)%N then g else k) = N.max k g) as -> by (destruct (N.ltb_spec k g); lia).
    by case_decide.
Qed.

Lemma sorted_values {A} (f : A → string) (l : list (string * A)) :
  StronglySorted key_le l → (∀ k x, (k, x) ∈ l → k = f x) →
  StronglySorted (λ x y, String.le (f x) (f y)) l.*2.
Proof.
  induction 1 as [|[k x] l Hs IH Hall]; intros Hf; simpl; constructor.
  - apply IH. intros k' x' Hin. apply Hf. by right.
  - apply Forall_forall. intros y Hy%list_elem_of_In. apply list_elem_of_fmap in Hy as ([k' y']&->&Hin). simpl.
    rewrite Forall_forall in Hall. specialize (Hall _ (proj1 (list_elem_of_In _ _) Hin)). unfold key_le in Hall. simpl in Hall.
    rewrite (Hf k x), (Hf k' y') in Hall; [done|by right|by left].
Qed.

Lemma table_prefix_sorted p t : kvs_keyed t → StronglySorted key_order (table_prefix p t).
Proof.
  intros Hk. apply (sorted_values (λ e, de_Key e +:+ nul)); [apply sort_keys_sorted|].
  intros k x Hin. rewrite elem_of_sort_keys, list_elem_of_filter in Hin. destruct Hin as [_ Hin%elem_of_map_to_list].
  by apply Hk in Hin as [-> _].
Qed.
Lemma elem_of_listing p t e :
  kvs_keyed t → nul_free p →
  e ∈ table_prefix p t ↔ t !! string_args false (de_Key e) = Some e ∧ String.prefix p (de_Key e) = true.
Proof.
  intros Hk Hp. rewrite elem_of_table_prefix. split.
  - intros (kb&He&Hpre). pose proof (Hk _ _ He) as [-> _]. split; [done|]. by rewrite <-prefix_terminated.
  - intros [He Hpre]. eexists. split; [done|]. unfold string_args. by rewrite prefix_terminated.
Qed.

(** C9. Listing a prefix (without NUL bytes) returns exactly the stored entries whose key starts
    with it, each once, in the byte order of the keys, at the highest index
    among them and the tombstones under the prefix, or at the index of the
    tables when there is neither (or the prefix is empty). *)
Theorem KVSList_spec p st :
  reachable st → nul_free p →
  ∃ ents, KVSList p st = Ok (list_index_of p (st_db st), ents) ∧
    (∀ e, e ∈ ents ↔ kvs (st_db st) !! string_args false (de_Key e) = Some e ∧
                     String.prefix p (de_Key e) = true) ∧
    NoDup ents ∧ StronglySorted key_order ents.
Proof.
  intros Hr%reachable_inv%si_kvs Hp. unfold KVSList, read_txn. rewrite kvsListTxn_run.
  eexists. split; [reflexivity|]. split_and!.
  - intros e. by apply elem_of_listing.
  - by apply NoDup_table_prefix, kvs_keyed_keyed.
  - by apply table_prefix_sorted.
Qed.

Lemma KVSList_spec_witness :
  nul_free "l" ∧ KVSList "l" (demo_store SessionKeysRelease) =
    Ok (4%N, [mkDirEntry 1 "lead" 0 "me" demo_id 4 4]) ∧
  ∃ ents, KVSList "l" (demo_store SessionKeysRelease) =
    Ok (list_index_of "l" (st_db (demo_store SessionKeysRelease)), ents) ∧ NoDup ents.
Proof.
  split; [done|]. split; [vm_compute; reflexivity|].
  destruct (KVSList_spec "l" (demo_store SessionKeysRelease) (demo_store_reachable _) ltac:(done))
    as (ents&Hrun&_&Hnd&_). exists ents. split; [exact Hrun|exact Hnd].
Defined.

(** ** The index of a listing does not slide back *)

(** No index in the KV tables is above [n]. *)
Record bounded (n : N) (d : db) : Prop := {
  bd_kvs : map_Forall (λ _ e, (de_ModifyIndex e ≤ n)%N) (kvs d);
  bd_tombs : map_Forall (λ _ s, (ts_Index s ≤ n)%N) (tombstones d);
  bd_kvs_index : (default 0 (index_value d "kvs") ≤ n)%N;
  bd_tombs_index : (default 0 (index_value d "tombstones") ≤ n)%N
}.

(** A step that leaves its index at the one key it changes. *)
Definition touched (idx : N) (d d' : db) : Prop :=
  (kvs d' = kvs d ∧ tombstones d' = tombstones d ∧ index d' = index d) ∨
  ∃ kb, (∀ kb', kb' ≠ kb → kvs d' !! kb' = kvs d !! kb' ∧ tombstones d' !! kb' = tombstones d !! kb') ∧
    index_value d' "kvs" = Some idx ∧
    ((∃ e, kvs d' !! kb = Some e ∧ de_ModifyIndex e = idx ∧ tombstones d' !! kb = tombstones d !! kb) ∨
     (∃ s, tombstones d' !! kb = Some s ∧ ts_Index s = idx)).

Lemma maxIndex_kv d :
  maxIndex_db d ["kvs"; "tombstones"] =
    N.max (default 0%N (index_value d "kvs")) (default 0%N (index_value d "tombstones")).
Proof.
  unfold maxIndex_db. cbn [fold_left].
  assert (∀ a b, (if (a <? b)%N then b else a) = N.max a b) as Hm.
  { intros a b. destruct (N.ltb_spec a b); lia. }
  destruct (index_value d "kvs") as [a|], (index_value d "tombstones") as [b|]; simpl; rewrite ?Hm; lia.
Qed.

Lemma newest_le p d b :
  (newest_under p d ≤ b)%N ↔
  (∀ kb e, kvs d !! kb = Some e → String.prefix p kb = true → (de_ModifyIndex e ≤ b)%N) ∧
  (∀ kb s, tombstones d !! kb = Some s → String.prefix p kb = true → (ts_Index s ≤ b)%N).
Proof.
  unfold newest_under. rewrite N.max_lub_iff. split.
  - intros [H1 H2]. split; intros kb x Hx Hp;
      (etrans; [apply max_loop_elem, elem_of_table_prefix; by eauto|done]).
  - intros [H1 H2]. split; (apply max_loop_le; [lia|]);
      intros x (kb&Hx&Hp)%elem_of_table_prefix; eauto.
Qed.

Lemma list_index_bounded p n d : bounded n d → (list_index_of p d ≤ n)%N.
Proof.
  intros [H1 H2 H3 H4]. unfold list_index_of. rewrite maxIndex_kv.
  assert (newest_under p d ≤ n)%N as Hn.
  { apply newest_le. split; intros kb x Hx _; [by eapply H1|by eapply H2]. }
  repeat case_decide; lia.
Qed.

Lemma touched_monotone p n idx d d' :
  touched idx d d' → bounded n d → (n ≤ idx)%N → (list_index_of p d ≤ list_index_of p d')%N.
Proof.
  intros [(E1&E2&E3)|(kb&Hsame&Hix&Hnew)] Hb Hn.
  { unfold list_index_of, newest_under, maxIndex_db, index_value. by rewrite E1, E2, E3. }
  pose proof (list_index_bounded p n d Hb) as Hold.
  assert (idx ≤ maxIndex_db d' ["kvs"; "tombstones"])%N as Htab by (rewrite maxIndex_kv, Hix; simpl; lia).
  destruct (String.prefix p kb) eqn:Hp.
  - assert (idx ≤ newest_under p d')%N as Hnw.
    { pose proof (proj1 (newest_le p d' _) (N.le_refl _)) as [Hk Ht].
      destruct Hnew as [(e&He&<-&_)|(s&Hs&<-)]; eauto. }
    unfold list_index_of at 2. repeat case_decide; lia.
  - assert (newest_under p d' = newest_under p d) as Heq.
    { assert (∀ kb', String.prefix p kb' = true → kb' ≠ kb) as Hne by (intros kb' ? ->; congruence).
      apply N.le_antisymm; apply newest_le; split; intros kb' x Hx Hpre;
        destruct (Hsame kb' (Hne _ Hpre)) as [Hk Ht]; [rewrite Hk in Hx|rewrite Ht in Hx|rewrite <-Hk in Hx|rewrite <-Ht in Hx];
        [eapply (proj1 (newest_le p d _) (N.le_refl _))..|eapply (proj1 (newest_le p d' _) (N.le_refl _))
        |eapply (proj1 (newest_le p d' _) (N.le_refl _))]; eauto. }
    unfold list_index_of in *. rewrite Heq. repeat case_decide; lia.
Qed.

(** *** Which methods are such steps *)

Definition touches {A} (idx : N) (m : Tx A) : Prop := ∀ s,
  tx_write s = true → session_inv (tx_db s) → touched idx (tx_db s) (tx_db (m s).2).
Lemma touches_read {A} idx (m : Tx A) : framed eq m → touches idx m.
Proof. intros Hm s _ _. rewrite <-(Hm s). by left. Qed.
Lemma touches_after_read {A B} idx (m : Tx A) (k : A → Tx B) :
  framed eq m → (∀ a, touches idx (k a)) → touches idx (mbind' m k).
Proof.
  intros Hm Hk s Hw Hi. specialize (Hm s). unfold mbind'.
  destruct (m s) as [[a| |] s']; simpl in *; subst s'; [by apply Hk|by left..].
Qed.
Lemma touches_then {A B} idx (m : Tx A) (f : A → B) : touches idx m → touches idx (let* a := m in mreturn (f a)).
Proof. intros Hm s Hw Hi. specialize (Hm s Hw Hi). unfold mbind'. by destruct (m s) as [[] s']. Qed.

Lemma touches_set idx e upd : touches idx (kvsSetTxn idx e upd).
Proof.
  intros s Hw Hi. pose proof (kvsSetTxn_run idx e upd s Hw) as Hrun. cbv zeta in Hrun.
  set (e' := prepared _ _ _ _) in *.
  destruct (unchanged _ _); [rewrite Hrun; by left|].
  destruct (storable e'); [|destruct Hrun as [err ->]; by left].
  rewrite Hrun. right. exists (string_args false (de_Key e)). simpl. split_and!.
  - intros kb' Hne. by rewrite lookup_insert_ne.
  - unfold index_value. simpl. by rewrite lookup_insert_eq.
  - left. exists e'. rewrite lookup_insert_eq. split_and!; try done. unfold e', prepared. by destruct upd.
Qed.
Lemma touches_delete idx key : touches idx (kvsDeleteTxn idx key).
Proof.
  intros s Hw Hi. rewrite kvsDeleteTxn_run; [|done|by intros e; apply inv_entry].
  destruct (kv_at s key); [|by left]. right. exists (string_args false key). simpl. split_and!.
  - intros kb' Hne. by rewrite lookup_delete_ne, lookup_insert_ne.
  - unfold index_value. simpl. by rewrite lookup_insert_eq.
  - right. eexists. by rewrite lookup_insert_eq.
Qed.

Lemma read_kv_First k : framed eq (kv_First k).
Proof. by intros s. Qed.
#[export] Hint Resolve read_kv_First touches_set touches_delete touches_then : frame.
Ltac touch_tac :=
  repeat first
    [ solve [eauto with frame nocore]
    | solve [apply touches_read; frame_tac]
    | apply touches_after_read; [solve [frame_tac]|intros ?]
    | progress cbn beta iota zeta
    | match goal with |- touches _ (match ?x with _ => _ end) => destruct x end ].

Lemma touches_write {A} now idx c (m : Tx A) st :
  touches idx m → session_inv (st_db st) → touched idx (st_db st) (st_db (write_txn now c m st).2).
Proof.
  intros Hm Hi. specialize (Hm (begin_txn true now st) eq_refl Hi). unfold write_txn.
  destruct (m (begin_txn true now st)) as [[a| |] tx]; simpl in *; [destruct (c a)|..]; try done; by left.
Qed.
Lemma bind_same {A} (m : M Store A) (f : A → response) st :
  (mbind' m (λ a, mreturn (f a)) st).2 = (m st).2.
Proof. unfold mbind'. by destruct (m st) as [[] st']. Qed.

Lemma kv_command_touches now idx req st :
  session_inv (st_db st) → kr_Op req ≠ "delete-tree" →
  touched idx (st_db st) (st_db (applyKVSOperation now idx req st).2).
Proof.
  intros Hi Hop. unfold applyKVSOperation, rnil, rbool, rbool_fst. destruct req as [op d]. simpl in *.
  repeat case_decide; try done; rewrite ?bind_same; try (by left);
    (apply touches_write; [|done]).
  - touch_tac.
  - touch_tac.
  - unfold kvsDeleteCASTxn. touch_tac.
  - unfold kvsSetCASTxn. touch_tac.
  - unfold kvsLockTxn. touch_tac.
  - unfold kvsUnlockTxn. touch_tac.
Qed.

(** C10. The index of a listing does not slide back: after any KV command
    other than a delete-tree, applied at an index not below those in the KV
    tables, the index of every prefix's listing is at least what it was. *)
Theorem list_index_monotone now n idx req st p :
  reachable st → bounded n (st_db st) → (n ≤ idx)%N → kr_Op req ≠ "delete-tree" →
  (list_index_of p (st_db st) ≤ list_index_of p (st_db (applyKVSOperation now idx req st).2))%N.
Proof.
  intros Hr%reachable_inv Hb Hn Hop. eapply touched_monotone; [|done|done].
  by apply kv_command_touches.
Qed.

#[export] Instance bounded_dec n d : Decision (bounded n d).
Proof.
  refine (cast_if (decide (map_Forall (λ _ e, (de_ModifyIndex e ≤ n)%N) (kvs d) ∧
    map_Forall (λ _ s, (ts_Index s ≤ n)%N) (tombstones d) ∧
    (default 0 (index_value d "kvs") ≤ n)%N ∧ (default 0 (index_value d "tombstones") ≤ n)%N)));
    [abstract (destruct_and!; by split)|abstract (intros [????]; tauto)].
Defined.

Definition kv_set (key : string) : KVSRequest := mkKVSRequest "set" (mkDirEntry 0 key 0 "" "" 0 0).
Definition kv_op (op key : string) : KVSRequest := mkKVSRequest op (mkDirEntry 0 key 0 "" "" 0 0).
Definition slide_store : Store :=
  (fsm_run sample_externals
    [(0%Z, 1%N, KVSRequestType (kv_set "foo/bar/x"));
     (0%Z, 2%N, KVSRequestType (kv_op "delete" "foo/bar/x"));
     (0%Z, 3%N, KVSRequestType (kv_set "foo/bar/y"))] (NewStateStore None)).2.
Lemma slide_store_reachable : reachable slide_store.
Proof. by do 3 eexists. Qed.
Lemma slide_store_bounded : bounded 3 (st_db slide_store).
Proof. apply (bool_decide_unpack _). vm_compute. exact I. Qed.

Lemma list_index_monotone_witness :
  let st' := (applyKVSOperation 0 4 (kv_op "delete" "foo/bar/y") slide_store).2 in
  (list_index_of "foo/bar" (st_db slide_store) ≤ list_index_of "foo/bar" (st_db st'))%N ∧
  list_index_of "foo/bar" (st_db slide_store) = 3%N ∧ list_index_of "foo/bar" (st_db st') = 4%N.
Proof.
  split; [|split; vm_compute; reflexivity].
  apply (list_index_monotone 0 3 4); [apply slide_store_reachable|apply slide_store_bounded|lia|discriminate].
Defined.

(** What a delete-tree that finds something does to the tables. *)
Lemma delete_tree_run idx p s : tx_write s = true → table_prefix p (kvs (tx_db s)) ≠ [] →
  ∃ s', kvsDeleteTreeTxn idx p s = (Ok tt, s') ∧ kvs (tx_db s') = table_delete_prefix p (kvs (tx_db s)) ∧
    tombstones (tx_db s') =
      (if decide (p = "") then tombstones (tx_db s) else <[string_args false p := mkTombstone p idx]> (tombstones (tx_db s))) ∧
    index_value (tx_db s') "kvs" = Some idx.
Proof.
  intros Hw Hne. unfold kvsDeleteTreeTxn, tx_DeletePrefix, mbind' at 1. rewrite Hw.
  change (tbl (tx_db s)) with (kvs (tx_db s)). destruct (table_prefix p (kvs (tx_db s))) as [|e l]; [done|].
  set (s1 := tx_set_db _ s). unfold mbind'.
  destruct (decide (p = "")) as [->|Hp]; [unfold mreturn|unfold mwrap; rewrite Graveyard_InsertTxn_run by done];
    rewrite index_insert_run by done; eexists; (split; [done|]); simpl; (split_and!; [done..|]); unfold index_value; simpl;
    by rewrite lookup_insert_eq.
Qed.
Lemma delete_tree_tables now idx p st :
  table_prefix p (kvs (st_db st)) ≠ [] →
  let st' := (applyKVSOperation now idx (kv_op "delete-tree" p) st).2 in
  kvs (st_db st') = table_delete_prefix p (kvs (st_db st)) ∧
  tombstones (st_db st') =
    (if decide (p = "") then tombstones (st_db st) else <[string_args false p := mkTombstone p idx]> (tombstones (st_db st))) ∧
  index_value (st_db st') "kvs" = Some idx.
Proof.
  intros Hne. unfold applyKVSOperation, rnil. cbn [kr_Op kr_DirEnt kv_op de_Key]. 
  repeat (rewrite decide_False by done). rewrite decide_True by done. rewrite bind_same. unfold KVSDeleteTree, write_txn.
  destruct (delete_tree_run idx p (begin_txn true now st) eq_refl Hne) as (s'&->&H). exact H.
Qed.

(** The newest tombstone under a prefix, as the graveyard finds it. *)
Definition newest_stone (q : string) (d : db) : N := max_loop ts_Index 0 (table_prefix q (tombstones d)).

Lemma prefix_antisym p q : String.prefix p q = true → String.prefix q p = true → p = q.
Proof.
  revert q. induction p as [|c p IH]; intros [|c' q]; simpl; try done. destruct (Ascii.ascii_dec c c') as [->|]; [|done].
  destruct (Ascii.ascii_dec c' c') as [_|]; [|done]. intros H1 H2. f_equal. by apply IH.
Qed.
Lemma prefix_longer p q kb : String.prefix p q = true → String.prefix q kb = true → String.prefix p kb = true.
Proof.
  revert q kb. induction p as [|c p IH]; intros [|c' q] [|c'' kb]; simpl; try done.
  destruct (Ascii.ascii_dec c c') as [->|]; [|done]. destruct (Ascii.ascii_dec c' c'') as [->|]; [|done]. apply IH.
Qed.
Lemma max_loop_same {A} (f : A → N) l1 l2 : (∀ x, x ∈ l1 ↔ x ∈ l2) → max_loop f 0 l1 = max_loop f 0 l2.
Proof. intros Hl. apply N.le_antisymm; (apply max_loop_le; [lia|]); intros x Hx%Hl; by apply max_loop_elem. Qed.
Lemma max_loop_above {A} (f : A → N) l t : (t < max_loop f 0 l)%N ↔ ∃ x, x ∈ l ∧ (t < f x)%N.
Proof.
  split.
  - intros Hlt. destruct (decide (Exists (λ x, (t < f x)%N) l)) as [He%Exists_exists|Hn].
    + destruct He as (x&Hx%list_elem_of_In&?). eauto.
    + assert (max_loop f 0 l ≤ t)%N; [|lia]. apply max_loop_le; [lia|]. intros x Hx.
      destruct (N.le_gt_cases (f x) t); [done|]. destruct Hn. apply Exists_exists. exists x. split; [by apply list_elem_of_In|done].
  - intros (x&Hx&Hlt). pose proof (max_loop_elem f 0 l x Hx). lia.
Qed.

(** A listing of a longer prefix after a delete-tree: empty, at the newest
    tombstone that was there, since the new one is filed under the shorter
    prefix. *)
Lemma listing_after_delete_tree now idx p q st :
  nul_free q → q ≠ p → String.prefix p q = true → table_prefix q (kvs (st_db st)) ≠ [] →
  let st' := (applyKVSOperation now idx (kv_op "delete-tree" p) st).2 in
  table_prefix q (kvs (st_db st')) = [] ∧ newest_under q (st_db st') = newest_stone q (st_db st) ∧ index_value (st_db st') "kvs" = Some idx.
Proof.
  intros Hq Hne Hpq Hents st'.
  assert (Hsome : table_prefix p (kvs (st_db st)) ≠ []).
  { destruct (table_prefix q (kvs (st_db st))) as [|e l] eqn:Hl; [done|].
    assert (e ∈ table_prefix q (kvs (st_db st))) as (kb&He&Hk)%elem_of_table_prefix by (rewrite Hl; left).
    assert (e ∈ table_prefix p (kvs (st_db st))) as Hin by (apply elem_of_table_prefix; eauto using prefix_longer).
    intros H0. rewrite H0 in Hin. by apply elem_of_nil in Hin. }
  destruct (delete_tree_tables now idx p st Hsome) as (Hk&Ht&Hi). fold st' in Hk, Ht, Hi.
  assert (Hnil : table_prefix q (kvs (st_db st')) = []).
  { apply elem_of_nil_inv. intros e (kb&He&Hkb)%elem_of_table_prefix. rewrite Hk, lookup_delete_prefix in He.
    by rewrite (prefix_longer p q kb Hpq Hkb) in He. }
  split_and!; [done| |done]. unfold newest_under, newest_stone. rewrite Hnil. simpl.
  transitivity (max_loop ts_Index 0 (table_prefix q (tombstones (st_db st')))); [lia|]. apply max_loop_same.
  intros x. rewrite !elem_of_table_prefix, Ht. case_decide as Hp; [done|].
  split; intros (kb&Hx&Hkb); exists kb; (split; [|done]);
    (assert (kb ≠ string_args false p);
      [intros ->; unfold string_args in Hkb; rewrite prefix_terminated in Hkb by done; apply Hne, prefix_antisym; done|]).
  - by rewrite lookup_insert_ne in Hx.
  - by rewrite lookup_insert_ne.
Qed.

(** C11. A delete-tree can slide the index of a listing back, which is what
    the graveyard is meant to prevent: its tombstone is filed under the
    deleted prefix, so that a listing of a longer prefix, whose entries are
    gone as well, does not see it.  In any reachable store, when there is
    something under a longer prefix, the listing of that prefix is empty after
    the delete-tree, and its index is smaller than before exactly when an
    older tombstone lies under the longer prefix and an entry under it is newer
    than all of them; the index is then that of the newest of these
    tombstones. *)
Theorem delete_tree_index_slides_back now n idx p q st i ents :
  reachable st → bounded n (st_db st) → (n ≤ idx)%N →
  nul_free q → q ≠ p → String.prefix p q = true →
  KVSList q st = Ok (i, ents) → ents ≠ [] →
  let t := newest_stone q (st_db st) in
  ∃ i', KVSList q (applyKVSOperation now idx (kv_op "delete-tree" p) st).2 = Ok (i', []) ∧
    ((i' < i)%N ↔ (0 < t)%N ∧ ∃ e, e ∈ ents ∧ (t < de_ModifyIndex e)%N) ∧ ((0 < t)%N → i' = t).
Proof.
  intros Hr Hb Hn Hq Hne Hpq Hl Hents t. unfold KVSList, read_txn in Hl. rewrite kvsListTxn_run in Hl. simpl in Hl. injection Hl as <- <-.
  destruct (listing_after_delete_tree now idx p q st Hq Hne Hpq Hents) as (Hnil&Hnew&Hix). fold t in Hnew.
  set (st' := (applyKVSOperation now idx (kv_op "delete-tree" p) st).2) in *.
  exists (list_index_of q (st_db st')). split; [unfold KVSList, read_txn; rewrite kvsListTxn_run; simpl; by rewrite Hnil|].
  assert (Hq0 : q ≠ "") by (intros ->; apply Hne; destruct p; [done|discriminate Hpq]).
  pose proof (list_index_bounded q n (st_db st) Hb) as Hold.
  pose proof (max_loop_above de_ModifyIndex (table_prefix q (kvs (st_db st))) t) as Habove.
  assert (Hmax : newest_under q (st_db st) = N.max (max_loop de_ModifyIndex 0 (table_prefix q (kvs (st_db st)))) t) by done.
  rewrite <- Habove. clear Habove. revert Hold. unfold list_index_of. rewrite !(decide_False (P := q = "")) by done.
  rewrite Hnew, (maxIndex_kv (st_db st')), Hix. simpl. destruct (decide (t = 0%N)) as [Ht|Ht].
  - intros Hold. rewrite Ht in *. split; [|lia]. split; [lia|]. intros [? _]. lia.
  - intros _. rewrite (decide_False (P := newest_under q (st_db st) = 0%N)) by lia. split; [lia|done].
Qed.
Lemma delete_tree_index_slides_back_witness :
  KVSList "foo/bar" slide_store = Ok (3%N, [mkDirEntry 0 "foo/bar/y" 0 "" "" 3 3]) ∧
  ∃ i', KVSList "foo/bar" (applyKVSOperation 0 4 (kv_op "delete-tree" "foo/") slide_store).2 = Ok (i', []) ∧ i' = 2%N ∧ (i' < 3)%N.
Proof.
  split; [vm_compute; reflexivity|].
  destruct (delete_tree_index_slides_back 0 3 4 "foo/" "foo/bar" slide_store 3 [mkDirEntry 0 "foo/bar/y" 0 "" "" 3 3]
    slide_store_reachable slide_store_bounded ltac:(lia) ltac:(done) ltac:(done) ltac:(done)) as (i'&Hl&_&Hi).
  - vm_compute. reflexivity.
  - done.
  - assert (i' = 2%N) as -> by (apply Hi; vm_compute; reflexivity). exists 2%N. split; [exact Hl|]. split; [done|lia].
Defined.

(** ** Listing keys up to a separator *)

(** What a key is listed as: itself, or its part up to and including the first
    separator after the prefix. *)
Definition rollup (p sep key : string) : string :=
  if decide (sep = "") then key
  else match String.index 0 sep (String.substring (String.length p) (String.length key - String.length p) key) with
       | Some i => String.substring 0 (String.length p + i + String.length sep) key
       | None => key
       end.

Lemma list_keys_spec p sep last ents :
  (∀ e, e ∈ ents → String.length p ≤ String.length (de_Key e)) →
  ∃ keys, list_keys (String.length p) sep last ents = Ok keys ∧
    (∀ k, k ∈ keys → ∃ e, e ∈ ents ∧ k = rollup p sep (de_Key e)) ∧
    (∀ e, e ∈ ents → rollup p sep (de_Key e) ∈ keys ∨ rollup p sep (de_Key e) = last).
Proof.
  revert last. induction ents as [|e ents IH]; intros last Hlen.
  { exists []. split; [done|]. split; [by intros k ?%elem_of_nil|by intros e ?%elem_of_nil]. }
  assert (∀ e, e ∈ ents → String.length p ≤ String.length (de_Key e)) as Hlen' by (intros; apply Hlen; by right).
  pose proof (Hlen e ltac:(by left)) as He. simpl. unfold rollup in *.
  destruct (decide (sep = "")) as [Hs|Hs].
  { destruct (IH last Hlen') as (keys&->&H1&H2). exists (de_Key e :: keys). split; [done|]. split.
    - intros k [->|Hk]%elem_of_cons; [exists e; split; [by left|done]|].
      destruct (H1 k Hk) as (e'&?&?). exists e'. split; [by right|done].
    - intros e' [->|He']%elem_of_cons; [left; by left|]. destruct (H2 e' He'); [left; by right|by right]. }
  destruct (Nat.ltb_spec (String.length (de_Key e)) (String.length p)); [lia|].
  destruct (String.index 0 sep _) as [i|] eqn:Hi.
  - set (key := String.substring 0 _ (de_Key e)) in *. destruct (decide (key = last)) as [Hl|Hl].
    + destruct (IH last Hlen') as (keys&->&H1&H2). exists keys. split; [done|]. split.
      * intros k Hk. destruct (H1 k Hk) as (e'&?&?). exists e'. split; [by right|done].
      * intros e' [->|He']%elem_of_cons; [right; by rewrite Hi|]. by apply H2.
    + destruct (IH key Hlen') as (keys&->&H1&H2). exists (key :: keys). split; [done|]. split.
      * intros k [->|Hk]%elem_of_cons; [exists e; split; [by left|by rewrite Hi]|].
        destruct (H1 k Hk) as (e'&?&?). exists e'. split; [by right|done].
      * intros e' [->|He']%elem_of_cons; [left; rewrite Hi; by left|].
        destruct (H2 e' He') as [?|Heq]; left; [by right|rewrite Heq; by left].
  - destruct (IH last Hlen') as (keys&->&H1&H2). exists (de_Key e :: keys). split; [done|]. split.
    + intros k [->|Hk]%elem_of_cons; [exists e; split; [by left|by rewrite Hi]|].
      destruct (H1 k Hk) as (e'&?&?). exists e'. split; [by right|done].
    + intros e' [->|He']%elem_of_cons; [left; rewrite Hi; by left|].
      destruct (H2 e' He'); [left; by right|by right].
Qed.

Lemma rollup_ne p sep key : key ≠ "" → rollup p sep key ≠ "".
Proof.
  intros Hk. unfold rollup. case_decide as Hs; [done|].
  destruct (String.index 0 sep _) as [i|]; [|done].
  assert (String.length p + i + String.length sep ≠ 0) as Hn by (destruct sep; [done|simpl; lia]).
  by destruct (String.length p + i + String.length sep), key.
Qed.
Lemma listed_length p t e : kvs_keyed t → nul_free p → e ∈ table_prefix p t →
  String.length p ≤ String.length (de_Key e) ∧ de_Key e ≠ "".
Proof.
  intros Hk Hp He. pose proof He as [He1 He2]%elem_of_listing; [|done|done].
  split; [by apply prefix_length|]. apply Hk in He1 as [_ Hs]. by apply storable_key.
Qed.

(** C12. Listing the keys of a prefix without NUL never panics.  At the index
    of the listing, it returns exactly the keys under the prefix, each cut
    after the first separator that follows the prefix, if there is one. *)
Theorem KVSListKeys_spec p sep st :
  reachable st → nul_free p →
  ∃ keys, KVSListKeys p sep st = Ok (list_index_of p (st_db st), keys) ∧
    (∀ k, k ∈ keys ↔ ∃ e, kvs (st_db st) !! string_args false (de_Key e) = Some e ∧
       String.prefix p (de_Key e) = true ∧ k = rollup p sep (de_Key e)).
Proof.
  intros Hr%reachable_inv%si_kvs Hp.
  destruct (list_keys_spec p sep "" (table_prefix p (kvs (st_db st)))) as (keys&Hks&H1&H2).
  { intros e He. by eapply listed_length. }
  exists keys. split.
  - unfold KVSListKeys, read_txn, kvsListKeysTxn. set (s := begin_txn false 0 st).
    pose proof (kvsListTxn_run p s) as Hl. unfold kvsListTxn in Hl.
    unfold mbind', maxIndexTxn, tx_GetPrefix, mget, mlift, mreturn in *.
    change (tbl (tx_db s)) with (kvs (st_db st)) in *. change (tx_db s) with (st_db st) in *.
    rewrite Hks. destruct (list_index _ _ _ s) as [[i| |] s']; simplify_eq; done.
  - intros k. split.
    + intros (e&He&->)%H1. apply elem_of_listing in He as [??]; [|done..]. by exists e.
    + intros (e&He&Hpre&->). assert (e ∈ table_prefix p (kvs (st_db st))) as Hin by by apply elem_of_listing.
      destruct (H2 e Hin) as [?|Heq]; [done|]. exfalso. revert Heq. apply rollup_ne.
      by eapply listed_length.
Qed.
Definition slash_store : Store :=
  (fsm_run sample_externals
    [(0%Z, 1%N, KVSRequestType (kv_set "a/b/x")); (0%Z, 2%N, KVSRequestType (kv_set "a/b/y"));
     (0%Z, 3%N, KVSRequestType (kv_set "a/c")); (0%Z, 4%N, KVSRequestType (kv_set "d"))] (NewStateStore None)).2.
Lemma slash_store_reachable : reachable slash_store.
Proof. by do 3 eexists. Qed.
Lemma KVSListKeys_spec_witness :
  (∃ keys, KVSListKeys "a/" "/" slash_store = Ok (list_index_of "a/" (st_db slash_store), keys)) ∧
  KVSListKeys "a/" "/" slash_store = Ok (3%N, ["a/b/"; "a/c"]).
Proof.
  split; [|vm_compute; reflexivity].
  destruct (KVSListKeys_spec "a/" "/" slash_store slash_store_reachable ltac:(done)) as (keys&Hrun&_).
  exists keys. exact Hrun.
Defined.

(** A prefix that ends in a NUL byte can make the listing of keys panic
    when a separator is given: go-memdb terminates the index bytes of a key
    with a NUL, so the prefix matches a key that is shorter than it, and the
    slice of the key past the length of the prefix is out of range. *)
Lemma KVSListKeys_panics :
  ∃ st, reachable st ∧ KVSListKeys (String "d" nul) "/" st = Panic "slice bounds out of range" ∧
        KVSListKeys (String "d" nul) "" st = Ok (4%N, ["d"]).
Proof. exists slash_store. split; [apply slash_store_reachable|]. split; vm_compute; reflexivity. Qed.
