(* ===== verification/CatalogProps.v ===== *)
(** * What the catalog promises *)

From S2P Require Import Prelude Memdb ProxyConfig Structs ConnectTables AclTables ConfigEntries Delay TombstoneGC Store Graveyard Kvs PreparedQuery Session Catalog.
From S2P Require Import Intention ConnectCA Autopilot AclState ConfigState Coordinate Txn Fsm Logic MemdbFacts StoreFacts SideFacts Frames KvSpec KvRefine CatalogInv ConfigSound CatalogSound.
From S2P Require Import SessionFacts SessionInv SessionProps.

(** ** No panic *)

Definition run_inv (d : db) : Prop := catalog_inv d ∧ routers_ok d.
Definition store_sound {A} (m : M Store A) : Prop := ∀ st,
  run_inv (st_db st) → (∀ w, (m st).1 ≠ Panic w) ∧ run_inv (st_db (m st).2).

Lemma store_sound_txn {A} now c (m : Tx A) :
  keeps_routers m →
  (∀ s, cat_ok s → routers_ok (tx_db s) → wp m (λ _ s', cat_ok s') (λ _, True) s) → store_sound (write_txn now c m).
Proof.
  intros Hk Hm st [Hc Hr]. specialize (Hm (begin_txn true now st) (conj eq_refl Hc) Hr).
  destruct (Hk (begin_txn true now st) eq_refl Hr) as [_ Hr']. unfold write_txn, wp in *.
  destruct (m (begin_txn true now st)) as [[a|e|w] tx]; [|by split; [done|split]|done].
  destruct (c a); (split; [done|]); [by split; [apply Hm|]|by split].
Qed.
Lemma store_sound_write {A} now c (m : Tx A) : keeps_routers m → sound m → store_sound (write_txn now c m).
Proof. intros Hk Hm. apply store_sound_txn; [done|]. intros s Hs _. by eapply wp_mono; [by apply Hm| |]. Qed.
Lemma store_sound_calm {A} now c (m : Tx A) : keeps_routers m → calm m → store_sound (write_txn now c m).
Proof.
  intros Hk Hm. apply store_sound_txn; [done|]. intros s Hs Hr. eapply wp_mono; [by apply Hm| |done].
  intros a s'. cbn beta. intros Hsame. by eapply same_cat_ok.
Qed.
Lemma store_sound_bind {A B} (m : M Store A) (k : A → M Store B) :
  store_sound m → (∀ a, store_sound (k a)) → store_sound (mbind' m k).
Proof.
  intros Hm Hk st Hi. unfold mbind'. destruct (Hm st Hi) as [Hp Hi'].
  destruct (m st) as [[a|e|w] st']; simpl in *; [by apply Hk|done|by destruct (Hp w)].
Qed.
Lemma store_sound_ret {A} (a : A) : store_sound (mreturn a).
Proof. by intros st. Qed.
Lemma store_sound_throw {A} e : store_sound (mthrow (A := A) e).
Proof. by intros st. Qed.
Lemma store_sound_deref_bind {A B} (p : option A) (k : A → M Store B) :
  is_Some p → (∀ a, store_sound (k a)) → store_sound (mbind' (deref p) k).
Proof. intros [a ->] Hk. apply store_sound_bind; [apply store_sound_ret|done]. Qed.
Lemma store_sound_lift {A} (o : outcome A) : (∀ w, o ≠ Panic w) → store_sound (mlift o).
Proof. by intros Ho st. Qed.
Lemma aside_read_no_panic {A} (m : Tx A) st w : aside m → read_txn m st ≠ Panic w.
Proof.
  intros Hm. unfold read_txn. specialize (Hm (begin_txn false 0 st)). unfold wp in Hm.
  by destruct (m _) as [[] s'].
Qed.
Lemma store_sound_read {A} (m : Tx A) : aside m → store_sound (mread (read_txn m)).
Proof. intros Hm st Hi. split; [|done]. intros w. by apply aside_read_no_panic. Qed.
#[export] Hint Resolve store_sound_ret store_sound_throw sound_txnDispatch : sound.

Lemma keeps_txnDispatch idx ops : keeps_routers (txnDispatch idx ops).
Proof. apply writes_txnDispatch; try apply _; intros ??; writes_tac. Qed.
#[local] Hint Resolve keeps_txnDispatch : writes.

(** The legacy bootstrap dereferences the token it has just written. *)
Lemma legacy_bootstrap_sound now idx a :
  store_sound (ACLBootstrap now idx 0 (ACL_Convert a) true ;;;
               let* (_, token) := mread (ACLTokenGetBySecret (acl_ID a)) in
               let* token := deref token in
               let* acl := mlift (ACLToken_Convert token) in
               mreturn (RACL acl)).
Proof.
  assert (store_sound (ACLBootstrap now idx 0 (ACL_Convert a) true)) as Hb
    by (apply store_sound_write; [auto with writes nocore|sound_tac]).
  intros st Hi. destruct (Hb st Hi) as [Hp Hi'].
  destruct (ACLBootstrap now idx 0 (ACL_Convert a) true st) as [[[]|e|w] st'] eqn:Hr; simpl in Hp, Hi'.
  - rewrite !(run_bind_ok _ _ _ _ _ Hr). pose proof (ACLBootstrap_found _ _ _ _ _ _ _ Hr) as Hf.
    cbn [act_SecretID ACL_Convert] in Hf.
    assert (mread (ACLTokenGetBySecret (acl_ID a)) st' = (ACLTokenGetBySecret (acl_ID a) st', st')) as Hm by done.
    destruct (ACLTokenGetBySecret (acl_ID a) st') as [[i token]|e|w] eqn:Hg.
    + rewrite !(run_bind_ok _ _ _ _ _ Hm). destruct Hf as [t ->].
      unfold mbind', mlift, ACLToken_Convert. simpl. by case_decide.
    + by rewrite !(run_bind_err _ _ _ _ _ Hm).
    + exfalso. revert Hg. apply aside_read_no_panic. aside_tac.
  - by rewrite !(run_bind_err _ _ _ _ _ Hr).
  - by destruct (Hp w).
Qed.

Ltac store_sound_step :=
  first
    [ solve [auto with sound nocore]
    | apply legacy_bootstrap_sound
    | apply store_sound_write; [solve [writes_tac]|solve [sound_tac]]
    | apply store_sound_calm; [solve [auto with config nocore]|solve [auto with config nocore]]
    | apply store_sound_read; solve [aside_tac]
    | apply store_sound_deref_bind; [solve [naive_solver]|intros ?]
    | apply store_sound_bind; [|intros ?]
    | progress cbn beta iota zeta
    | match goal with |- store_sound (match ?x with _ => _ end) => destruct x end ].

Lemma fsm_apply_sound ext now idx c :
  (∀ q w, ext_template ext q ≠ Panic w) → @CompilerEnvLaws (ext_config ext) → clean c →
  store_sound (fsm_apply ext now idx c).
Proof.
  intros Hcomp Hlaws Hc. destruct c; simpl in *; unfold_apply; unfold clean_ca in *; repeat store_sound_step.
  by apply store_sound_write, quiet_sound, quiet_preparedQuerySetTxn; [writes_tac|].
Qed.

Lemma run_inv_empty gc : run_inv (st_db (NewStateStore gc)).
Proof. split; [split|]; apply map_Forall_empty. Qed.

Lemma fsm_run_sound ext log :
  (∀ q w, ext_template ext q ≠ Panic w) → @CompilerEnvLaws (ext_config ext) → ∀ st,
  Forall (λ e, clean e.2) log → run_inv (st_db st) →
  length (fsm_run ext log st).1 = length log ∧
  (∀ w, Panic w ∉ (fsm_run ext log st).1) ∧ run_inv (st_db (fsm_run ext log st).2).
Proof.
  intros Hcomp Hlaws. induction log as [|[[now idx] c] log IH]; intros st Hcl Hi; simpl.
  { split; [done|]. split; [by intros w ?%elem_of_nil|done]. }
  inversion Hcl as [|?? Hc Hcl']; subst.
  destruct (fsm_apply_sound ext now idx c Hcomp Hlaws Hc st Hi) as [Hp Hi'].
  destruct (fsm_apply ext now idx c st) as [r st']. simpl in *.
  destruct (IH st' Hcl' Hi') as (Hlen&Hnp&Hi'').
  destruct r as [resp|e|w]; [| |by destruct (Hp w)];
    destruct (fsm_run ext log st') as [rs st'']; simpl in *;
    (split; [congruence|]; split; [|done]; intros w [?|Hin]%elem_of_cons; [done|by apply (Hnp w)]).
Qed.

(** C24. The state machine does not crash, and the catalog stays consistent:
    applied to the empty store, a log whose node names have no NUL byte, and
    whose pointers are set where the code dereferences them (the destinations
    of the routes of a router among them), is answered to its end, entry by
    entry, without a run-time panic, the discovery chains that a config entry
    makes it compile included; it ends with every service and check on a
    registered node and every service check on a registered service.  Template
    compilation is assumed not to panic. *)
Theorem fsm_never_panics ext log gc :
  (∀ q w, ext_template ext q ≠ Panic w) → @CompilerEnvLaws (ext_config ext) → Forall (λ e, clean e.2) log →
  length (fsm_run ext log (NewStateStore gc)).1 = length log ∧
  (∀ w, Panic w ∉ (fsm_run ext log (NewStateStore gc)).1) ∧
  catalog_inv (st_db (fsm_run ext log (NewStateStore gc)).2).
Proof. intros Hc Hlaws Hl. destruct (fsm_run_sound ext log Hc Hlaws _ Hl (run_inv_empty gc)) as (?&?&?&_). done. Qed.

Definition db_service (id : string) : NodeService :=
  mkNodeService "" id "db" None "" None None 5432 None false no_proxy (mkServiceConnect false) 0 0.
Definition service_check (node id sid : string) : HealthCheck :=
  mkHealthCheck node id "db up" "passing" "" "" sid "" None "" no_definition 0 0.
Definition register (node : string) (svc : option NodeService) (check : option HealthCheck) : command :=
  RegisterRequestType (mkRegisterRequest "dc1" "" node "10.0.0.1" None None svc check [] false).
Definition deregister (node sid cid : string) : command :=
  DeregisterRequestType (mkDeregisterRequest "dc1" node sid cid).
Definition upsert (c : ConfigEntry) : command := ConfigEntryRequestType (mkConfigEntryRequest "upsert" c).
Definition clean_log : list (Z * N * command) :=
  [(0%Z, 1%N, register "a" (Some (db_service "c")) (Some (service_check "a" "up" "c")));
   (0%Z, 2%N, deregister "A" "c" ""); (0%Z, 3%N, deregister "a" "" "up"); (0%Z, 4%N, deregister "a" "" "");
   (0%Z, 5%N, upsert (CEService (mkServiceConfig ServiceDefaults "web" "http" (mkMeshGateway "") no_expose "" no_raft)));
   (0%Z, 6%N, upsert (CERouter (mkRouter ServiceRouter "web"
      [mkRoute None (Some (mkDestination "" "" "" "" 0 0 false []))] no_raft)))].
Lemma fsm_never_panics_witness :
  (∀ w, Panic w ∉ (fsm_run sample_externals clean_log (NewStateStore None)).1) ∧
  (fsm_run sample_externals clean_log (NewStateStore None)).1 =
    [Ok RNil; Ok RNil; Ok RNil; Ok RNil; Ok (RBool true); Ok (RBool true)].
Proof.
  split; [|vm_compute; reflexivity].
  apply (fsm_never_panics sample_externals clean_log None); [discriminate|by intros n l|].
  by repeat constructor.
Defined.

Definition nul_log : list (Z * N * command) :=
  [(0%Z, 1%N, register "a" (Some (db_service ("b" +:+ nul +:+ "c"))) (Some (service_check "a" "up" ("b" +:+ nul +:+ "c"))));
   (0%Z, 2%N, deregister ("a" +:+ nul +:+ "b") "c" ""); (0%Z, 3%N, deregister "a" "" "up")].

(** With a NUL byte in a node name it does crash: the index bytes of the
    node "a\0b" with the service "c" are those of the node "a" with the service
    "b\0c", so that deregistering the former removes the service of the latter
    and not its check, and deregistering the check then panics on the missing
    service, on every server that applies the log. *)
Lemma nul_in_node_name_panics :
  (fsm_run sample_externals nul_log (NewStateStore None)).1 =
    [Ok RNil; Ok RNil; Panic "interface conversion: interface {} is nil, not *structs.ServiceNode"].
Proof. vm_compute. reflexivity. Qed.

(** ** Checks and sessions *)

(** Steps that leave the sessions and their check mappings alone. *)
Definition sess_frame (s s' : txn) : Prop :=
  keeps_inv s s' ∧ sessions (tx_db s') = sessions (tx_db s) ∧ session_checks (tx_db s') = session_checks (tx_db s).
#[export] Instance sess_frame_refl : Reflexive sess_frame.
Proof. intros s. split; [|done]. reflexivity. Qed.
#[export] Instance sess_frame_trans : Transitive sess_frame.
Proof.
  intros s1 s2 s3 (H1&H2&H3) (G1&G2&G3). split; [by etrans|]. split; congruence.
Qed.
Class SessionFree (A : Type) `{TableOf A} := session_free : ∀ t d,
  sessions (set_tbl t d) = sessions d ∧ session_checks (set_tbl t d) = session_checks d.
#[export] Instance index_session_free : SessionFree IndexEntry. Proof. done. Qed.
#[export] Instance checks_session_free : SessionFree HealthCheck. Proof. done. Qed.
Lemma sess_frame_Insert {A} `{TableSchema A} `{TableOf A} `{!Unseen A} `{!SessionFree A} (x : A) :
  framed sess_frame (tx_Insert x).
Proof.
  intros s. split; [apply safe_Insert|]. unfold tx_Insert. destruct (tx_write s); [|done].
  destruct (table_insert _ x) as [t| |]; [apply session_free|done..].
Qed.
Lemma sess_frame_First {A} `{TableOf A} k : framed sess_frame (tx_First (A := A) k).
Proof. unfold tx_First. frame_tac. Qed.
Lemma sess_frame_Get {A} `{TableOf A} ix p : framed sess_frame (tx_Get (A := A) ix p).
Proof. unfold tx_Get. frame_tac. Qed.
#[export] Hint Resolve sess_frame_Insert sess_frame_First sess_frame_Get : frame.
#[export] Hint Extern 1 (SessionFree _) => apply _ : frame.
Lemma sess_frame_index_insert n i : framed sess_frame (index_insert n i).
Proof. unfold index_insert. frame_tac. Qed.
#[export] Hint Resolve sess_frame_index_insert : frame.
Lemma sess_frame_bump idx n k : framed sess_frame (bump_service idx n k).
Proof. unfold bump_service. frame_tac. Qed.
#[export] Hint Resolve sess_frame_bump : frame.
Lemma sess_frame_updateAll idx n : framed sess_frame (updateAllServiceIndexesOfNode idx n).
Proof. unfold updateAllServiceIndexesOfNode. frame_tac. Qed.
#[export] Hint Resolve sess_frame_updateAll : frame.

Lemma framed_run {A} (R : txn → txn → Prop) (m : Tx A) s r s' : framed R m → m s = (r, s') → R s s'.
Proof. intros Hm Hr. specialize (Hm s). by rewrite Hr in Hm. Qed.

Lemma deleteSessionTxn_gone idx id s s' :
  tx_write s = true → session_inv (tx_db s) → deleteSessionTxn idx id s = (Ok tt, s') →
  sessions (tx_db s') ⊆ sessions (tx_db s) ∧ ∀ b, uuid_parse id = Ok b → sessions (tx_db s') !! b = None.
Proof.
  intros Hw Hi Hrun. destruct (uuid_parse id) as [b|err|w] eqn:Hb.
  - destruct (sessions (tx_db s) !! b) as [x|] eqn:Hx.
    + destruct (deleteSessionTxn_run idx id b x s Hi Hw Hb Hx) as (s2&Hrun2&Hd).
      assert (s2 = s') as -> by congruence.
      rewrite (ds_sessions _ _ _ _ _ Hd). split; [apply delete_subseteq|]. intros ? [= <-]. apply lookup_delete_eq.
    + assert (s' = s) as ->.
      { unfold deleteSessionTxn in Hrun. erewrite run_bind_ok in Hrun by (apply run_wrap_ok; by apply tx_FirstUUID_run).
        change (tbl (tx_db s)) with (sessions (tx_db s)) in Hrun. rewrite Hx in Hrun. unfold mreturn in Hrun. congruence. }
      split; [done|]. by intros ? [= <-].
  - unfold deleteSessionTxn in Hrun. erewrite run_bind_err in Hrun; [done|]. eapply run_wrap_err.
    unfold tx_FirstUUID, mbind', mlift. by rewrite Hb.
  - by destruct (uuid_parse_no_panic _ _ Hb).
Qed.

Lemma delete_mapped_sessions_gone idx fmt l s s' :
  tx_write s = true → session_inv (tx_db s) →
  (for m in l do mwrap fmt (deleteSessionTxn idx (sc_Session m))) s = (Ok tt, s') →
  sessions (tx_db s') ⊆ sessions (tx_db s) ∧
  ∀ m b, m ∈ l → uuid_parse (sc_Session m) = Ok b → sessions (tx_db s') !! b = None.
Proof.
  revert s. induction l as [|m l IH]; intros s Hw Hi Hrun; simpl in Hrun.
  { unfold mreturn in Hrun. simplify_eq. split; [done|]. by intros ?? ?%elem_of_nil. }
  apply bind_ok_inv in Hrun as ([]&s1&H1%wrap_ok_inv&H2).
  destruct (deleteSessionTxn_gone _ _ _ _ Hw Hi H1) as [Hsub1 Hgone1].
  destruct (framed_run _ _ _ _ _ (safe_deleteSessionTxn idx (sc_Session m)) H1 Hw Hi) as [Hw1 Hi1].
  destruct (IH s1 Hw1 Hi1 H2) as [Hsub2 Hgone2]. split; [by etrans|].
  intros m' b [->|Hin]%elem_of_cons Hb; [|by eapply Hgone2].
  apply eq_None_not_Some. intros [x Hx]. pose proof (lookup_weaken _ _ _ _ Hx Hsub2) as Hx1.
  by rewrite (Hgone1 _ Hb) in Hx1.
Qed.

Lemma mapping_in_scan d k m node cid :
  session_inv d → session_checks d !! k = Some m →
  check_key (sc_Node m) (sc_CheckID m) = check_key node cid →
  m ∈ table_scan session_checks_node_check_index (check_key node cid) (session_checks d).
Proof.
  intros Hi Hm Heq. apply elem_of_table_scan. exists k, (check_key (sc_Node m) (sc_CheckID m) +:+ k).
  split; [done|]. split; [|rewrite Heq; apply prefix_app].
  pose proof (si_mappings_keyed _ Hi _ _ Hm) as Hk. unfold primary_key in Hk. simpl in Hk.
  unfold index_keys. simpl. unfold string_index in *. repeat case_decide; simpl in *; try done. by left.
Qed.

(** The part of [ensureCheckTxn] before the sessions are looked at. *)
Lemma ensureCheckTxn_split idx hc s s' :
  ensureCheckTxn idx hc s = (Ok tt, s') → hc_Status hc = HealthCritical ∨ hc_Status hc = "" →
  ∃ s1 s2, sess_frame s s1 ∧ delete_check_sessions idx (hc_Node hc) (hc_CheckID hc) s1 = (Ok tt, s2) ∧ sess_frame s2 s'.
Proof.
  intros Hrun Hst. unfold ensureCheckTxn in Hrun.
  apply bind_ok_inv in Hrun as (existing&s1&[= _ <-]&Hrun). cbv zeta in Hrun.
  set (hc1 := match existing with Some e => _ | None => _ end) in Hrun.
  set (hc2 := if decide (hc_Status hc1 = "") then _ else _) in Hrun.
  assert (hc_Node hc2 = hc_Node hc ∧ hc_CheckID hc2 = hc_CheckID hc ∧ hc_Status hc2 = HealthCritical) as (En&Ec&Ek).
  { unfold hc2, hc1. destruct existing, (decide _); simpl in *; split_and!; try done; by destruct Hst. }
  clearbody hc2. clear hc1. apply bind_ok_inv in Hrun as (n&s1&[= <- <-]&Hrun).
  destruct (nodes (tx_db s) !! node_key (hc_Node hc2)) as [n|]; [|done].
  apply bind_ok_inv in Hrun as ([hc3 modified]&s1&Hmid&Hrun).
  match type of Hmid with ?m s = _ => assert (framed sess_frame m) as Hf by frame_tac end.
  pose proof (framed_run _ _ _ _ _ Hf Hmid) as H1. clear Hf.
  assert (hc_Node hc3 = hc_Node hc ∧ hc_CheckID hc3 = hc_CheckID hc ∧ hc_Status hc3 = HealthCritical) as (En3&Ec3&Ek3).
  { revert Hmid. destruct (decide (hc_ServiceID hc2 ≠ "")).
    - intros (svc&s0&[= <- <-]&Hmid)%bind_ok_inv. destruct (services (tx_db s) !! _) as [svc|]; [|done].
      cbv zeta in Hmid. match type of Hmid with (if ?b then _ else _) _ = _ => destruct b end.
      + unfold mreturn in Hmid. by simplify_eq.
      + apply bind_ok_inv in Hmid as (?&?&_&[= <- _ _]). done.
    - match goal with |- (if ?b then _ else _) _ = _ → _ => destruct b end.
      + unfold mreturn. intros Hmid. by simplify_eq.
      + intros (?&?&_&[= <- _ _])%bind_ok_inv. done. }
  apply bind_ok_inv in Hrun as ([]&s2&Hdel&Hrun). rewrite Ek3, En3, Ec3, decide_True in Hdel by done.
  exists s1, s2. split; [done|]. split; [done|]. eapply framed_run; [|exact Hrun]. frame_tac.
Qed.

(** C26. A check that turns critical ends its sessions: when the registration
    of a critical check (or of one without a status, which counts as critical)
    succeeds, every session that depends on the check is gone. *)
Theorem critical_check_ends_sessions now idx hc st st' k m b :
  reachable st → EnsureCheck now idx hc st = (Ok tt, st') →
  hc_Status hc = HealthCritical ∨ hc_Status hc = "" →
  session_checks (st_db st) !! k = Some m →
  check_key (sc_Node m) (sc_CheckID m) = check_key (hc_Node hc) (hc_CheckID hc) →
  uuid_parse (sc_Session m) = Ok b → sessions (st_db st') !! b = None.
Proof.
  intros Hi%reachable_inv Hrun Hst Hm Heq Hb. unfold EnsureCheck, write_txn in Hrun.
  destruct (ensureCheckTxn idx hc (begin_txn true now st)) as [[[]|e|w] tx] eqn:Htx; simplify_eq/=.
  apply ensureCheckTxn_split in Htx as (s1&s2&(K1&Se1&Sc1)&Hdel&(_&Se2&_)); [|done].
  destruct (K1 eq_refl Hi) as [Hw1 Hi1]. rewrite Se2.
  unfold delete_check_sessions in Hdel. apply bind_ok_inv in Hdel as (l&s0&[= <- <-]&Hdel).
  change (tbl (tx_db s1)) with (session_checks (tx_db s1)) in Hdel.
  destruct (delete_mapped_sessions_gone _ _ _ _ _ Hw1 Hi1 Hdel) as [_ Hgone].
  apply (Hgone m); [|done]. eapply mapping_in_scan; [done| |done]. by rewrite Sc1.
Qed.

Definition checked_log : list (Z * N * command) :=
  [(0%Z, 1%N, register "web" None (Some (service_check "web" "up" "")));
   (1%Z, 2%N, SessionRequestType (mkSessionRequest "create"
      (mkSession demo_id "leader" "web" ["up"] 0 "" "" 0 0)))].
Definition checked_store : Store := (fsm_run sample_externals checked_log (NewStateStore None)).2.
Definition turns_critical : HealthCheck := hc_set_status HealthCritical (service_check "web" "up" "").
Lemma critical_check_ends_sessions_witness :
  is_Some (sessions (st_db checked_store) !! demo_uuid) ∧
  sessions (st_db (EnsureCheck 5 3 turns_critical checked_store).2) !! demo_uuid = None.
Proof.
  split; [vm_compute; by eexists|].
  set (k := check_key "web" "up" +:+ demo_uuid).
  destruct (session_checks (st_db checked_store) !! k) as [m|] eqn:Hm; [|vm_compute in Hm; discriminate].
  assert (sc_Node m = "web" ∧ sc_CheckID m = "up" ∧ sc_Session m = demo_id) as (H1&H2&H3).
  { vm_compute in Hm. injection Hm as <-. done. }
  apply (critical_check_ends_sessions 5 3 turns_critical checked_store (EnsureCheck 5 3 turns_critical checked_store).2 k m).
  - by do 3 eexists.
  - vm_compute. reflexivity.
  - by left.
  - exact Hm.
  - by rewrite H1, H2.
  - rewrite H3. vm_compute. reflexivity.
Defined.
