(* ===== verification/SnapshotProps.v ===== *)
(** * What a snapshot preserves

    The rows a snapshot holds come back from a restore as they were, except
    for the Raft indexes of the catalog.  Two states that a server can reach
    do not survive: checks that spell their node differently make the restore
    fail, and only the first auth method is written. *)

From S2P Require Import Prelude Memdb ProxyConfig Structs ConnectTables AclTables ConfigEntries Delay TombstoneGC Store Graveyard Kvs PreparedQuery.
From S2P Require Import Session Catalog Coordinate Intention ConnectCA Autopilot AclState ConfigState Txn Fsm Snapshot Logic MemdbFacts StoreFacts Frames SnapshotFacts CatalogInv CatalogSound SnapshotCatalog CatalogProps.

(** ** The records of a snapshot *)

Definition all_records (d : db) : list snapshot_record :=
  (node_list d ≫= node_records d) ++ ((λ c, RecCoordinates [c]) <$> table_prefix "" (coordinates d)) ++
  (RecSession <$> table_prefix "" (sessions d)) ++
  (RecACLToken <$> table_prefix "" (acl_tokens (acls d))) ++ (RecACLPolicy <$> table_prefix "" (acl_policies (acls d))) ++
  (RecACLRole <$> table_prefix "" (acl_roles (acls d))) ++
  (RecACLBindingRule <$> table_prefix "" (acl_binding_rules (acls d))) ++
  persist_methods (table_prefix "" (acl_auth_methods (acls d))) ++
  (RecKVS <$> table_prefix "" (kvs d)) ++ ((λ s, RecTombstone (fake_entry s)) <$> table_prefix "" (tombstones d)) ++
  (RecPreparedQuery <$> table_prefix "" (prepared_queries d)) ++
  (RecAutopilot <$> option_list (autopilot_config (connect d) !! one_row)) ++
  (RecIntention <$> table_prefix "" (intentions (connect d))) ++ (RecCARoot <$> table_prefix "" (ca_roots (connect d))) ++
  (RecCAProviderState <$> table_prefix "" (ca_builtin (connect d))) ++
  (RecCAConfig <$> option_list (ca_config (connect d) !! one_row)) ++
  (RecConfigEntry <$> table_prefix "" (config_entries (connect d))) ++ (RecIndex <$> table_prefix "" (index d)).

Lemma concat_bind {A B} (f : A → list B) l : concat (f <$> l) = l ≫= f.
Proof. induction l as [|x l IH]; csimpl; [done|by rewrite IH]. Qed.
Lemma persistNodes_run s :
  persistNodes s = (Ok ((node_list (tx_db s) ≫= node_records (tx_db s)) ++
    ((λ c, RecCoordinates [c]) <$> table_prefix "" (coordinates (tx_db s)))), s).
Proof.
  unfold persistNodes, mbind' at 1. cbn. unfold mbind' at 1.
  rewrite (mmap_reads persist_node (node_records (tx_db s))) by done. by rewrite <-concat_bind.
Qed.
Lemma persistOSS_run s : persistOSS s = (Ok (all_records (tx_db s)), s).
Proof.
  pose (out := λ m : Tx (list snapshot_record), match (m s).1 with Ok l => l | _ => [] end).
  unfold persistOSS, mbind' at 1. rewrite (mmap_reads id out).
  - unfold mreturn. f_equal. f_equal. cbn [fmap list_fmap concat].
    assert (out persistNodes = (node_list (tx_db s) ≫= node_records (tx_db s)) ++
      ((λ c, RecCoordinates [c]) <$> table_prefix "" (coordinates (tx_db s)))) as ->
      by (unfold out; by rewrite persistNodes_run).
    assert (out persistAutopilot = RecAutopilot <$> option_list (autopilot_config (connect (tx_db s)) !! one_row)) as ->
      by (unfold out, persistAutopilot; simpl; by destruct (autopilot_config _ !! _)).
    assert (out persistConnectCAConfig = RecCAConfig <$> option_list (ca_config (connect (tx_db s)) !! one_row)) as ->
      by (unfold out, persistConnectCAConfig; simpl; by destruct (ca_config _ !! _)).
    unfold all_records. rewrite app_nil_r, <-!app_assoc. 
    change (out persistACLs) with ((RecACLToken <$> table_prefix "" (acl_tokens (acls (tx_db s)))) ++
      (RecACLPolicy <$> table_prefix "" (acl_policies (acls (tx_db s)))) ++
      (RecACLRole <$> table_prefix "" (acl_roles (acls (tx_db s)))) ++
      (RecACLBindingRule <$> table_prefix "" (acl_binding_rules (acls (tx_db s)))) ++
      persist_methods (table_prefix "" (acl_auth_methods (acls (tx_db s))))).
    by rewrite <-!app_assoc.
  - intros m Hm. unfold id, out. rewrite !elem_of_cons, elem_of_nil in Hm.
    destruct_or! Hm; try done; subst m; try done. by rewrite persistNodes_run.
Qed.
Lemma Persist_run st :
  Persist st = Ok (mkSnapshot (maxIndex_db (st_db st) schema_tables) (all_records (st_db st))).
Proof.
  unfold Persist, read_txn, mbind' at 1. unfold maxIndexTxn at 1, mget at 1. cbn [fst].
  by rewrite (run_bind_ok _ _ _ _ _ (persistOSS_run _)).
Qed.

Lemma Persist_LastIndex st snap :
  Persist st = Ok snap → LastIndex snap = maxIndex_db (st_db st) schema_tables.
Proof. rewrite Persist_run. by intros [= <-]. Qed.

(** ** Restoring each kind of record *)

Section records.
Context (compile : PreparedQuery → outcome unit) (idx : N).
Abbreviation restore rec := (λ x, restore_record compile idx (rec x)).

Ltac loads_tac :=
  intros; first [apply loads_insert_only|apply (loads_insert _ _ _)];
  first [by apply side_wrap, side_indexUpdateMaxTxn|by apply side_update_acl_index].
Lemma loads_token x : loads (restore RecACLToken) x. Proof. loads_tac. Qed.
Lemma loads_policy x : loads (restore RecACLPolicy) x. Proof. loads_tac. Qed.
Lemma loads_role x : loads (restore RecACLRole) x. Proof. loads_tac. Qed.
Lemma loads_rule x : loads (restore RecACLBindingRule) x. Proof. loads_tac. Qed.
Lemma loads_method x : loads (restore RecACLAuthMethod) x. Proof. loads_tac. Qed.
Lemma loads_kvs x : loads (restore RecKVS) x. Proof. loads_tac. Qed.
Lemma loads_intention x : loads (restore RecIntention) x. Proof. loads_tac. Qed.
Lemma loads_root x : loads (restore RecCARoot) x. Proof. loads_tac. Qed.
Lemma loads_provider x : loads (restore RecCAProviderState) x. Proof. loads_tac. Qed.
Lemma loads_config_entry x : loads (restore RecConfigEntry) x. Proof. loads_tac. Qed.
Lemma loads_autopilot x : loads (restore RecAutopilot) x. Proof. apply loads_insert_only. Qed.
Lemma loads_ca_config x : cac_Provider x ≠ "" → loads (restore RecCAConfig) x.
Proof.
  intros Hp k s D Hx Hr. unfold restore_record, Restore_CAConfig. rewrite decide_False by done.
  by apply succeeds_Insert.
Qed.
Lemma loads_tombstone x : loads (λ x, restore_record compile idx (RecTombstone (fake_entry x))) x.
Proof.
  destruct x as [key i]. intros k s D Hx Hr. apply wp_wrap.
  apply (loads_insert _ (λ x, mwrap "failed updating index" (indexUpdateMaxTxn (ts_Index x) "tombstones"))
    (mkTombstone key i)); [by apply side_wrap, side_indexUpdateMaxTxn|done|done].
Qed.
Lemma loads_coordinate x :
  co_IsValid x = true → loads (λ x, restore_record compile idx (RecCoordinates [x])) x.
Proof.
  intros Hv k s D Hx Hr. unfold restore_record, Restore_Coordinates. simpl. rewrite Hv. simpl.
  apply wp_bind, wp_bind. eapply wp_mono; [by apply succeeds_Insert| |done]. intros ? s1 Hr1.
  apply wp_ret. refine (side_wrap _ _ _ _ _ Hr1). by apply side_indexUpdateMaxTxn.
Qed.
Lemma loads_query x : (IsTemplate x → is_ok (compile x)) → loads (restore RecPreparedQuery) x.
Proof.
  intros Hc k s D Hx Hr. apply (wp_bind_run _ _ _ _ s tt s).
  { destruct (IsTemplate x); [|done]. unfold mlift, owrap. by rewrite (is_ok_unit _ (Hc I)). }
  apply (loads_insert _ (λ x, mwrap "failed updating index" (indexUpdateMaxTxn (pq_ModifyIndex x) "prepared-queries")) x);
    [by apply side_wrap, side_indexUpdateMaxTxn|done|done].
Qed.

(** Sessions bring their mappings along. *)
Definition mappings_of (x : Session) : list sessionCheck :=
  (λ c, mkSessionCheck (sess_Node x) c (sess_ID x)) <$> sess_Checks x.
Lemma insert_all_app {A} `{TableSchema A} (l1 l2 : list A) t : insert_all (l1 ++ l2) t = insert_all l2 (insert_all l1 t).
Proof. apply fold_left_app. Qed.
Lemma restore_sessions l s D :
  Forall (λ x, ∃ k, storable_row k x) l → Forall (λ m, ∃ k, storable_row k m) (l ≫= mappings_of) → rows s D →
  succeeds (mfor l (restore RecSession))
    (λ _ s', rows s' (set_tbl (insert_all (l ≫= mappings_of) (session_checks D))
                        (set_tbl (insert_all l (sessions D)) D))) s.
Proof.
  intros Hl. revert s D. induction Hl as [|x l [k Hx] _ IH]; intros s D Hm Hr; [by destruct D|].
  rewrite bind_cons in Hm |- *. apply Forall_app in Hm as [Hmx Hm].
  apply wp_bind. unfold restore_record, Restore_Session. apply wp_bind.
  eapply wp_mono; [by apply (succeeds_Insert _ k x)| |done]. intros ? s1 Hr1. apply wp_bind.
  assert (succeeds (insert_mappings x) (λ _ s', rows s' (set_tbl (insert_all (mappings_of x) (session_checks D))
    (set_tbl (<[k := x]> (sessions D)) D))) s1) as Hins.
  { unfold insert_mappings. pose proof (mfor_fmap (λ c, mkSessionCheck (sess_Node x) c (sess_ID x))
      (λ m, mwrap "failed inserting session check mapping" (tx_Insert m)) (sess_Checks x)) as E.
    rewrite <-E. refine (succeeds_load _ (mappings_of x) s1 (set_tbl (<[k := x]> (sessions D)) D) _ Hr1).
    eapply list.Forall_impl; [exact Hmx|]. intros m Hk. split; [apply loads_insert_only|done]. }
  eapply wp_mono; [exact Hins| |done]. intros ? s2 Hr2.
  eapply wp_mono; [refine (side_wrap _ _ _ _ _ Hr2); by apply side_indexUpdateMaxTxn| |done]. intros ? s3 Hr3.
  eapply wp_mono; [apply IH; [done|exact Hr3]| |done]. intros ? s4 Hr4. destruct Hx as [Hk _].
  simpl. rewrite Hk, insert_all_app. exact Hr4.
Qed.
End records.

(** ** Single rows and short lists *)

Lemma elem_of_option_list {A} (o : option A) x : x ∈ option_list o ↔ o = Some x.
Proof. destruct o; simpl; rewrite ?list_elem_of_singleton, ?elem_of_nil; naive_solver. Qed.
Lemma one_row_table {A} `{TableSchema A} (t : gmap string A) :
  keyed t → (∀ x : A, primary_key x = Some one_row) → insert_all (option_list (t !! one_row)) ∅ = t.
Proof.
  intros Ht Hp. apply insert_all_eq; [done|]. intros x. rewrite elem_of_option_list. split; [by eauto|].
  intros [k Hk]. apply Ht in Hk as Hk'. simpl in Hk'. rewrite Hp in Hk'. by simplify_eq.
Qed.
Lemma persist_methods_all l : length l ≤ 1 → persist_methods l = RecACLAuthMethod <$> l.
Proof. destruct l as [|x [|]]; simpl; [done..|lia]. Qed.
Lemma table_prefix_length {A} (t : gmap string A) : length (table_prefix "" t) ≤ size t.
Proof.
  unfold table_prefix. rewrite length_fmap, sort_keys_Permutation, <-length_map_to_list.
  apply list.length_filter.
Qed.

(** ** The round trip *)

(** The mappings of the stored sessions. *)
Definition all_mappings (d : db) : list sessionCheck := table_prefix "" (sessions d) ≫= mappings_of.

Record restorable (compile : PreparedQuery → outcome unit) (d : db) : Prop := {
  rs_catalog : restorable_catalog d;
  rs_mapped : map_Forall (λ _ m, m ∈ all_mappings d) (session_checks d);
  rs_mappings : Forall (λ m, m ∈ (map_to_list (session_checks d)).*2) (all_mappings d);
  rs_coordinates : map_Forall (λ _ c, co_IsValid c = true) (coordinates d);
  rs_templates : map_Forall (λ _ q, IsTemplate q → is_ok (compile q)) (prepared_queries d);
  rs_provider : map_Forall (λ _ c, cac_Provider c ≠ "") (ca_config (connect d));
  rs_methods : size (acl_auth_methods (acls d)) ≤ 1
}.

(** The rows after a restore: those of the store, the catalog at the index of
    the snapshot. *)
Definition restored_rows (idx : N) (d : db) : db :=
  strip (set_tbl (restored_check d idx <$> checks d)
    (set_tbl (restored_service idx <$> services d)
       (set_tbl (restored_node idx <$> nodes d) d))).

Section round_trip.
Context (compile : PreparedQuery → outcome unit) (idx : N) (d : db).
Hypothesis Hws : well_stored d.
Hypothesis Hd : restorable compile d.

Lemma mappings_table : insert_all (all_mappings d) ∅ = session_checks d.
Proof using Hws Hd.
  apply insert_all_eq; [apply stored_ok_keyed, Hws|]. intros m. split.
  - intros Hm. apply (proj1 (list.Forall_forall _ _) (rs_mappings _ _ Hd)) in Hm.
    apply list_elem_of_fmap in Hm as ([k m']&->&Hm%elem_of_map_to_list). by exists k.
  - intros [k Hk]. by apply (rs_mapped _ _ Hd k).
Qed.
Lemma mappings_storable : Forall (λ m, ∃ k, storable_row k m) (all_mappings d).
Proof using Hws Hd.
  eapply list.Forall_impl; [apply (rs_mappings _ _ Hd)|]. intros m Hm.
  apply list_elem_of_fmap in Hm as ([k m']&->&Hm%elem_of_map_to_list). exists k. by apply (ws_sessionCheck _ Hws).
Qed.
Lemma sessions_storable : Forall (λ x, ∃ k, storable_row k x) (table_prefix "" (sessions d)).
Proof using Hws.
  apply list.Forall_forall. intros x (k&Hx&_)%elem_of_table_prefix. exists k. by apply (ws_Session _ Hws).
Qed.

Lemma rows_eq s D D' : rows s D → D = D' → rows s D'.
Proof using Type. by intros ? <-. Qed.

(** Loading one more table. *)
Lemma each {A} (P : A → Prop) (t : gmap string A) : (∀ x, P x) → map_Forall (λ _ x, P x) t.
Proof using Type. intros HP k x _. apply HP. Qed.
Lemma each_if {A} (Q P : A → Prop) (t : gmap string A) :
  (∀ x, Q x → P x) → map_Forall (λ _ x, Q x) t → map_Forall (λ _ x, P x) t.
Proof using Type. intros HP HQ k x Hx. by apply HP, (HQ k). Qed.
Ltac next_state := let s' := fresh "s" in let Hr' := fresh "Hr" in intros ? s' Hr'; cbn beta in Hr'.
Tactic Notation "load_table" uconstr(all) constr(ws) :=
  apply wp_for_app; rewrite mfor_fmap; eapply wp_mono;
    [refine (succeeds_load_table _ _ _ _ all (ws d Hws) _ _); [eassumption|reflexivity]|next_state|done].
Tactic Notation "load_row" uconstr(row) constr(ws) :=
  apply wp_for_app; rewrite mfor_fmap; eapply wp_mono;
    [eapply succeeds_load; [|eassumption]; apply list.Forall_forall; intros x Hk%elem_of_option_list;
     split; [refine row|eexists; by apply (ws d Hws)]|next_state|done].

Lemma restore_records s :
  rows s empty_db →
  succeeds (for r in all_records d do restore_record compile idx r)
    (λ _ s', rows s' (restored_rows idx d) ∧ index d ⊆ index (tx_db s')) s.
Proof using Hws Hd.
  intros Hr. unfold all_records. apply wp_for_app.
  eapply wp_mono; [by apply (restore_catalog d idx Hws (rs_catalog _ _ Hd))|next_state|done].
  load_table (each_if _ _ _ (loads_coordinate compile idx) (rs_coordinates _ _ Hd)) ws_Coordinate.
  apply wp_for_app; rewrite mfor_fmap; eapply wp_mono;
    [eapply restore_sessions; [apply sessions_storable|apply mappings_storable|eassumption]|next_state|done].
  load_table (each _ _ (loads_token compile idx)) ws_ACLToken.
  load_table (each _ _ (loads_policy compile idx)) ws_ACLPolicy.
  load_table (each _ _ (loads_role compile idx)) ws_ACLRole.
  load_table (each _ _ (loads_rule compile idx)) ws_ACLBindingRule.
  rewrite persist_methods_all by (etrans; [apply table_prefix_length|apply (rs_methods _ _ Hd)]).
  load_table (each _ _ (loads_method compile idx)) ws_ACLAuthMethod.
  load_table (each _ _ (loads_kvs compile idx)) ws_DirEntry.
  load_table (each _ _ (loads_tombstone compile idx)) ws_Tombstone.
  load_table (each_if _ _ _ (loads_query compile idx) (rs_templates _ _ Hd)) ws_PreparedQuery.
  load_row (loads_autopilot compile idx _) ws_AutopilotConfig.
  load_table (each _ _ (loads_intention compile idx)) ws_Intention.
  load_table (each _ _ (loads_root compile idx)) ws_CARoot.
  load_table (each _ _ (loads_provider compile idx)) ws_CAConsulProviderState.
  load_row (loads_ca_config compile idx _ (rs_provider _ _ Hd _ _ Hk)) ws_CAConfiguration.
  load_table (each _ _ (loads_config_entry compile idx)) ws_ConfigEntry.
  rewrite mfor_fmap. eapply wp_mono; [eapply (succeeds_restore_indexes (index d)); [apply Hws|eassumption]| |done].
  intros ? s' [Hr' Hix]. split; [|done]. eapply rows_eq; [exact Hr'|]. clear -Hws Hd.
  pose proof mappings_table as Hm. unfold all_mappings in Hm.
  unfold restored_rows, loaded, strip. simpl. rewrite !without_nil, Hm.
  rewrite !insert_all_prefix by (apply stored_ok_keyed, Hws).
  rewrite !one_row_table by first [done|apply stored_ok_keyed, Hws].
  by destruct (connect d), (acls d).
Qed.
End round_trip.

(** ** Properties *)

(** C35. In a store that the state machine can reach and whose rows are fit
    for it ([restorable]: the catalog is consistent, services and checks spell
    the name of their node as it does, node IDs are UUIDs of one node each, the
    metadata of services is valid, the mappings are those of the checks of the
    sessions, coordinates are valid, query templates compile, the CA
    configuration names a provider, and there is at most one auth method;
    [respelled_check_stuck] and [second_auth_method_lost] show reachable
    stores that are not), taking a snapshot succeeds, and restoring it on any server
    succeeds and leaves exactly the rows of the store, key by key, in every
    table; only nodes, services and checks are stamped with the index of the
    snapshot, and checks take the current name and tags of their service.  No
    table index is lost. *)
Theorem restore_persist compile now st c :
  reachable st → restorable compile (st_db st) →
  ∃ snap st', Persist st = Ok snap ∧ FSM_Restore compile now snap c = (Ok tt, st') ∧
    strip (st_db st') = restored_rows (LastIndex snap) (st_db st) ∧ index (st_db st) ⊆ index (st_db st').
Proof.
  intros Hws%reachable_well_stored Hd. set (idx := maxIndex_db (st_db st) schema_tables).
  destruct (succeeds_run _ _ _ (restore_records compile idx (st_db st) Hws Hd
    (begin_txn true now (NewStateStore (st_gc c))) ltac:(by split))) as ([]&s'&Hrun&[Hw Hr]&Hix).
  exists (mkSnapshot idx (all_records (st_db st))), (commit_txn s' (NewStateStore (st_gc c))).
  split; [apply Persist_run|]. unfold FSM_Restore, write_txn. cbn [LastIndex snap_records].
  rewrite Hrun. split_and!; [done|exact Hr|exact Hix].
Qed.

Lemma restored_kvs idx d d' : strip d' = restored_rows idx d → kvs d' = kvs d.
Proof. intros H. by apply (f_equal kvs) in H. Qed.

Module SnapshotSample.
Definition sid : string := "11111111-1111-1111-1111-111111111111".
Definition check (node status : string) : HealthCheck := mkHealthCheck node "mem" "m" status "" "" "" "" None "" no_definition 0 0.
Definition register (id node address : string) (svc : option NodeService) (c : option HealthCheck) : command :=
  RegisterRequestType (mkRegisterRequest "dc1" id node address None None svc c [] false).
Definition db_service : NodeService :=
  mkNodeService "" "db1" "db" None "" None None 5432 None false no_proxy (mkServiceConnect false) 0 0.
Definition entry (key value : string) : DirEntry := mkDirEntry 0 key 0 value "" 0 0.
Definition kv (op key value : string) : command := KVSRequestType (mkKVSRequest op (entry key value)).
Definition method (name : string) : command :=
  ACLAuthMethodSetRequestType [mkACLAuthMethod name "kubernetes" "" "{}" 0 0].
Definition run (cmds : list command) : list (outcome response) * Store :=
  fsm_run sample_externals (imap (λ i c, (0%Z, N.of_nat (S i), c)) cmds) (NewStateStore None).

Definition st : Store := (run [
  register sid "Web" "10.0.0.1" (Some db_service) (Some (check "Web" "passing"));
  SessionRequestType (mkSessionRequest "create" (mkSession sid "" "Web" ["mem"] 0 "release" "" 0 0));
  kv "set" "a" "1"; kv "set" "b" "2"; kv "delete" "a" "";
  IntentionRequestType (mkIntentionRequest "create" (Some (mkIntention sid "" "default" "web" "default" "db" "consul" "allow" "" 0 None 0 0 0 None 0 0)));
  method "k8s"]).2.
End SnapshotSample.

Ltac by_computation := apply (bool_decide_unpack _); vm_compute; exact I.
Lemma sample_restorable : restorable (λ _, Ok tt) (st_db SnapshotSample.st).
Proof.
  split; [|by_computation..]. split; [|by_computation..]. split; by_computation.
Qed.
Lemma restore_persist_witness :
  ∃ snap st', Persist SnapshotSample.st = Ok snap ∧
    FSM_Restore (λ _, Ok tt) 0 snap (NewStateStore None) = (Ok tt, st') ∧ LastIndex snap = 7%N ∧
    kvs (st_db st') = kvs (st_db SnapshotSample.st).
Proof.
  destruct (restore_persist (λ _, Ok tt) 0 SnapshotSample.st (NewStateStore None)) as (snap&st'&H1&H2&H3&_).
  - eexists sample_externals, _, None. reflexivity.
  - exact sample_restorable.
  - exists snap, st'. split; [done|]. split; [done|]. split.
    + rewrite (Persist_LastIndex _ _ H1). by vm_compute.
    + exact (restored_kvs _ _ _ H3).
Defined.

(** ** A check of a respelled node *)

Lemma mfor_stuck {A} (body : A → Tx unit) l x :
  (∀ y, y ∈ l → sound (body y)) → x ∈ l → (∀ s s', body x s ≠ (Ok tt, s')) →
  ∀ s, cat_ok s → ∃ e s', mfor l body s = (Err e, s').
Proof.
  induction l as [|y l IH]; intros Hs Hx Hno s Hok; [by apply elem_of_nil in Hx|]. cbn [mfor].
  pose proof (Hs y ltac:(by left) s Hok) as Hy. unfold wp in Hy. unfold mbind'.
  destruct (body y s) as [[[]|e|w] s1] eqn:Hrun; [|by eauto|done].
  apply elem_of_cons in Hx as [->|Hx]; [by destruct (Hno s s1)|].
  apply IH; [|done..]. intros z Hz. apply Hs. by right.
Qed.
Lemma mfor_stuck_app {A} (body : A → Tx unit) l l' s e s' :
  mfor l body s = (Err e, s') → mfor (l ++ l') body s = (Err e, s').
Proof.
  revert s. induction l as [|x l IH]; intros s; cbn [mfor app]; [done|]. unfold mbind'.
  destruct (body x s) as [[[]|e1|w] s1]; [apply IH|done..].
Qed.
Lemma respelled_check_fails compile idx n c : node_Node n ≠ hc_Node c →
  ∀ s s', restore_record compile idx (RecRegister (node_request n None (Some c))) s ≠ (Ok tt, s').
Proof.
  intros Hne s s' Hrun. cbn [restore_record] in Hrun. unfold Restore_Registration, ensureRegistrationTxn in Hrun.
  apply bind_ok_inv in Hrun as (ex&s1&_&Hrun). apply bind_ok_inv in Hrun as ([]&s2&_&Hrun).
  apply bind_ok_inv in Hrun as ([]&s3&_&Hrun). apply bind_ok_inv in Hrun as ([]&s4&Hrun&_).
  cbn in Hrun. unfold ensureCheckIfNodeMatches in Hrun. by rewrite decide_False in Hrun.
Qed.
Lemma node_checks_of d c k kn n : catalog_inv d → nodes d !! kn = Some n → checks d !! k = Some c →
  node_key (node_Node n) = node_key (hc_Node c) → c ∈ node_checks d n.
Proof.
  intros Hd Hkn Hk Hname. pose proof (ci_nul_free _ Hd _ _ Hkn) as Hnf. simpl in Hnf.
  pose proof (HealthCheck_key _ _ (ci_checks _ Hd _ _ Hk)) as [_ Hne].
  unfold node_checks. rewrite elem_of_table_scan. unfold index_keys. simpl.
  exists k, (node_key (hc_Node c) +:+ k). split; [done|]. rewrite string_index_key by done. split; [by left|].
  apply node_prefix; [done|by eapply node_key_nul_free|done].
Qed.
(** A restore gets stuck on a check whose node is spelled another way. *)
Lemma respelled_check_stuck compile now st snap c k kn n old : catalog_inv (st_db st) →
  nodes (st_db st) !! kn = Some n → checks (st_db st) !! k = Some c →
  node_key (node_Node n) = node_key (hc_Node c) → node_Node n ≠ hc_Node c → Persist st = Ok snap →
  ∃ e, FSM_Restore compile now snap old = (Err e, old).
Proof.
  intros Hd Hkn Hk Hname Hne Hsnap. rewrite Persist_run in Hsnap. injection Hsnap as <-.
  set (d := st_db st) in *. set (idx := maxIndex_db d schema_tables).
  destruct (mfor_stuck (restore_record compile idx) (node_list d ≫= node_records d)
    (RecRegister (node_request n None (Some c)))) with (s := begin_txn true now (NewStateStore (st_gc old))) as (e&s'&Hrun).
  - intros r (m&Hr&Hm)%list_elem_of_bind. apply elem_of_node_list in Hm as [km Hm].
    pose proof (ci_nul_free _ Hd _ _ Hm) as Hnf. simpl in Hnf.
    assert (∃ req, r = RecRegister req ∧ rr_Node req = node_Node m) as (req&->&Hreq).
    { unfold node_records in Hr. rewrite elem_of_cons, elem_of_app, !list_elem_of_fmap in Hr.
      destruct Hr as [->|[(x&->&_)|(x&->&_)]]; by eexists. }
    apply sound_ensureRegistrationTxn. by rewrite Hreq.
  - apply list_elem_of_bind. exists n. split; [|apply elem_of_node_list; by exists kn].
    unfold node_records. right. apply elem_of_app. right. apply list_elem_of_fmap. exists c. split; [done|].
    by eapply node_checks_of.
  - by apply respelled_check_fails.
  - split; [done|]. apply (run_inv_empty None).
  - exists e. unfold FSM_Restore, write_txn. cbn [LastIndex snap_records]. unfold all_records.
    by rewrite (mfor_stuck_app _ _ _ _ _ _ Hrun).
Qed.

(** Registering a node that exists, without an ID, under another spelling. *)
Definition respell (b addr dc : string) tags meta : RegisterRequest :=
  mkRegisterRequest dc "" b addr tags meta None None [] false.
Lemma respell_succeeds idx b addr dc tags meta n s D : rows s D → b ≠ "" → nodes D !! node_key b = Some n →
  succeeds (ensureRegistrationTxn idx (respell b addr dc tags meta)) (λ _ s',
    ∃ m, node_Node m = b ∧ rows s' (set_tbl (<[node_key b := m]> (nodes D)) D)) s.
Proof.
  intros Hr Hb Hn. unfold ensureRegistrationTxn. eapply wp_bind_run; [by apply First_rows|].
  change (tbl D) with (nodes D). cbn [node_Node rr_Node respell]. rewrite Hn. apply wp_bind.
  eapply (wp_mono _ (λ _ s', ∃ m, node_Node m = b ∧ rows s' (set_tbl (<[node_key b := m]> (nodes D)) D)) _ (λ _, False)); [|by intros [] s1|done].
  assert (Hsame : node_Node n = b → rows s (set_tbl (<[node_key b := n]> (nodes D)) D)).
  { intros _. rewrite insert_id by done. by destruct D. }
  destruct (RegisterRequest_ChangesNode (respell b addr dc tags meta) (Some n)) eqn:Hch.
  2:{ apply wp_ret. exists n. assert (node_Node n = b) as Heq; [|by auto].
      cbn in Hch. rewrite !orb_false_iff in Hch. destruct Hch as [[[[[_ Hch] _] _] _] _].
      apply bool_decide_eq_false in Hch. by apply dec_stable in Hch. }
  apply wp_wrap. unfold ensureNodeTxn. apply wp_bind. cbn [node_ID rr_ID respell]. rewrite decide_False by (by intros []). apply wp_ret.
  eapply wp_bind_run; [by apply First_rows|]. cbn [node_Node rr_Node respell]. change (tbl D) with (nodes D). rewrite Hn. cbv zeta.
  destruct (Node_IsSame _ n) eqn:His.
  { apply wp_ret. exists n. assert (node_Node n = b) as Heq; [|by auto].
    unfold Node_IsSame in His. rewrite !andb_true_iff, !bool_decide_eq_true in His. by destruct His as [[[[[_ <-] _] _] _] _]. }
  set (m := node_set_indexes _ idx _). apply wp_bind. eapply wp_mono; [apply (succeeds_Insert _ (node_key b) m _ D)| |done]; [|done|].
  - split; [unfold primary_key; cbn; unfold string_index; by case_decide|]. cbn. unfold string_map_index. by destruct (omap _ _).
  - intros ? s2 Hr2. cbn beta in Hr2. eapply wp_mono; [refine (side_bind _ _ _ _ s2 _ Hr2)| |done].
    + by apply side_index_insert.
    + apply side_wrap, side_updateAllServiceIndexesOfNode.
    + intros ? s3 Hr3. by exists m.
Qed.

Section losses.
Import SnapshotSample.

(** C36. A server can reach a store whose snapshot no server can restore:
    whatever a log without NUL bytes in node names left, when a node with a
    check is registered again without an ID, with its name spelled in another
    case than in the check, the registration succeeds, and so does a snapshot
    of the store; but restoring it fails on any server, which keeps its old
    store. *)
Theorem respelled_node_ends_restores ext log gc k c b addr dc tags meta now idx :
  let st := (fsm_run ext log (NewStateStore gc)).2 in
  (∀ q w, ext_template ext q ≠ Panic w) → @CompilerEnvLaws (ext_config ext) → Forall (λ e, clean e.2) log →
  checks (st_db st) !! k = Some c → node_key b = node_key (hc_Node c) → b ≠ hc_Node c →
  ∃ st1 snap, fsm_apply ext now idx (RegisterRequestType (respell b addr dc tags meta)) st = (Ok RNil, st1) ∧
    Persist st1 = Ok snap ∧
    ∀ compile now' old, ∃ e, FSM_Restore compile now' snap old = (Err e, old).
Proof.
  intros st Hcomp Hlaws Hclean Hk Hb Hne.
  destruct (fsm_run_sound ext log Hcomp Hlaws (NewStateStore gc) Hclean (run_inv_empty gc)) as (_&_&[Hcat _]). fold st in Hcat.
  destruct (ci_check_node _ Hcat _ _ Hk) as [n Hn]. rewrite <- Hb in Hn.
  assert (nul_free b) as Hnf by by eapply node_nul_free.
  assert (b ≠ "") as Hb0.
  { intros ->. apply node_key_lower in Hb. pose proof (HealthCheck_key _ _ (ci_checks _ Hcat _ _ Hk)) as [_ Hc0].
    apply Hc0. by destruct (hc_Node c). }
  pose proof (respell_succeeds idx b addr dc tags meta n (begin_txn true now st) (strip (st_db st))) as Hreg.
  destruct (succeeds_run _ _ _ (Hreg ltac:(by split) Hb0 Hn)) as ([]&s'&Hrun&m&Hm&[_ Hrows]).
  assert (sound (ensureRegistrationTxn idx (respell b addr dc tags meta))) as Hsound by by apply sound_ensureRegistrationTxn.
  specialize (Hsound (begin_txn true now st) ltac:(by split)). unfold wp in Hsound. rewrite Hrun in Hsound.
  exists (commit_txn s' st). eexists. split; [|split; [apply Persist_run|]].
  { unfold fsm_apply, applyRegister, rnil, EnsureRegistration, mbind', write_txn. by rewrite Hrun. }
  intros compile now' old. eapply (respelled_check_stuck _ _ (commit_txn s' st) _ c k (node_key b) m); [apply Hsound|..].
  - change (st_db (commit_txn s' st)) with (tx_db s'). apply (f_equal nodes) in Hrows. simpl in Hrows.
    rewrite Hrows. apply lookup_insert_eq.
  - change (st_db (commit_txn s' st)) with (tx_db s'). apply (f_equal checks) in Hrows. simpl in Hrows. by rewrite Hrows.
  - by rewrite Hm.
  - by rewrite Hm.
  - apply Persist_run.
Qed.

Definition foo_log : list (Z * N * command) := [(0%Z, 1%N, register "" "Foo" "10.0.0.1" None (Some (check "Foo" "passing")))].
Definition foo_check : HealthCheck := hc_set_indexes 1 1 (check "Foo" "passing").
Lemma respelled_node_ends_restores_witness :
  ∃ st1 snap, fsm_apply sample_externals 0 2 (register "" "foo" "10.0.0.1" None None)
      (fsm_run sample_externals foo_log (NewStateStore None)).2 = (Ok RNil, st1) ∧
    Persist st1 = Ok snap ∧ ∃ e, FSM_Restore (λ _, Ok tt) 0 snap (NewStateStore None) = (Err e, NewStateStore None).
Proof.
  destruct (respelled_node_ends_restores sample_externals foo_log None (check_key "Foo" "mem") foo_check "foo" "10.0.0.1" "dc1"
    None None 0 2) as (st1&snap&Hreg&Hsnap&Hno).
  - discriminate.
  - by intros n l.
  - by repeat constructor.
  - vm_compute. reflexivity.
  - vm_compute. reflexivity.
  - discriminate.
  - exists st1, snap. split; [exact Hreg|]. split; [exact Hsnap|]. apply Hno.
Defined.

(** A server restored from a snapshot answers the same command of the
    log differently: the nodes carry the index of the snapshot, not their
    own, so a compare-and-set at a node's index succeeds on the server that
    took the snapshot and fails on the one that restored it; their tables
    then differ for good. *)
Lemma restored_server_diverges :
  let st := (run [register "" "n1" "10.0.0.1" None None; kv "set" "a" "1"]).2 in
  let n1 := mkNode "" "n1" "10.0.0.2" "dc1" None None 0 1 in
  let cas := TxnRequestType [mkTxnOp None None (Some (mkTxnNodeOp "cas" n1)) None None] in
  ∃ snap st', Persist st = Ok snap ∧ FSM_Restore (λ _, Ok tt) 0 snap (NewStateStore None) = (Ok tt, st') ∧
    let '(r1, st1) := fsm_apply sample_externals 0 3 cas st in
    let '(r2, st2) := fsm_apply sample_externals 0 3 cas st' in
    r1 = Ok (RTxn [ResNode (mkNode "" "n1" "10.0.0.2" "dc1" None None 1 3)] []) ∧
    r2 = Ok (RTxn [] [(0, EMsg "failed to set node, index is stale" ["n1"])]) ∧
    node_Address <$> nodes (st_db st1) !! node_key "n1" = Some "10.0.0.2" ∧
    node_Address <$> nodes (st_db st2) !! node_key "n1" = Some "10.0.0.1".
Proof.
  intros st n1 cas. eexists _, _. split; [vm_compute; reflexivity|]. split; [vm_compute; reflexivity|].
  vm_compute. done.
Qed.

(** Of two auth methods only the first, by name, is in the snapshot: the
    restored server does not know the second one. *)
Theorem second_auth_method_lost :
  let '(rs, st) := run [method "k8s"; method "minikube"] in
  rs = [Ok RNil; Ok RNil] ∧ size (acl_auth_methods (acls (st_db st))) = 2 ∧
  ∃ snap st', Persist st = Ok snap ∧ FSM_Restore (λ _, Ok tt) 0 snap (NewStateStore None) = (Ok tt, st') ∧
    aam_Name <$> (map_to_list (acl_auth_methods (acls (st_db st')))).*2 = ["k8s"].
Proof.
  destruct (run _) as [rs st] eqn:Hrun. vm_compute in Hrun. injection Hrun as <- <-. split; [done|]. split; [done|].
  eexists _, _. split; [vm_compute; reflexivity|]. split; [vm_compute; reflexivity|]. vm_compute. done.
Qed.
End losses.
