(* ===== verification/CatalogReadProps.v ===== *)
(** * What the health queries answer *)

From S2P Require Import Prelude Memdb ProxyConfig Structs ConnectTables AclTables ConfigEntries Delay TombstoneGC Store Catalog Txn Fsm.
From S2P Require Import Radix Acl Authorizer Filter CatalogRead Logic MemdbFacts StoreFacts SideFacts CatalogInv CatalogSound CatalogProps.

(** ** Names as the indexes compare them *)

Definition same_name (a b : string) : Prop := to_lower a = to_lower b.
(** The bytes of the indexes separate names only when these hold no NUL. *)
Record nul_free_names (d : db) : Prop := {
  nf_services : map_Forall (λ _ sn, nul_free (sn_ServiceName sn) ∧ nul_free (sn_ServiceID sn) ∧
                  nul_free (cp_DestinationServiceName (sn_ServiceProxy sn))) (services d);
  nf_checks : map_Forall (λ _ c, nul_free (hc_ServiceID c)) (checks d)
}.

Lemma string_args_prefix a b r : nul_free a → nul_free b →
  String.prefix (string_args true a) (string_args true b +:+ r) = true ↔ same_name a b.
Proof.
  intros Ha Hb. unfold string_args, same_name. rewrite str_app_assoc, prefix_spec.
  split; [|intros ->; exists r; by rewrite str_app_assoc].
  intros [q Hq]. rewrite str_app_assoc in Hq. symmetry.
  apply (terminated_inj _ _ r q) in Hq as [? _]; by rewrite ?nul_free_lower.
Qed.
Lemma string_args_prefix' a b : nul_free a → nul_free b →
  String.prefix (string_args true a) (string_args true b) = true ↔ same_name a b.
Proof. intros Ha Hb. rewrite <- (str_app_nil_r (string_args true b)). by apply string_args_prefix. Qed.
(** A pair of names under a pair, each terminated. *)
Lemma string_args_prefix2 a b x y r : nul_free a → nul_free b →
  String.prefix (string_args true a +:+ x) (string_args true b +:+ (y +:+ r)) = true ↔
  same_name a b ∧ String.prefix x (y +:+ r) = true.
Proof.
  intros Ha Hb. unfold string_args, same_name. rewrite !prefix_spec. split.
  - intros [q Hq]. rewrite !str_app_assoc in Hq.
    apply (terminated_inj _ _ _ (x +:+ q)) in Hq as [? Hq]; rewrite ?nul_free_lower; [|done..].
    split; [done|]. by exists q.
  - intros [-> [q Hq]]. exists q. by rewrite !str_app_assoc, Hq.
Qed.

(** ** The rows an answer is made of *)

(** [sn] is an instance of [name]; for Connect, a proxy for it or a native
    instance. *)
Definition serves (connect : bool) (name : string) (sn : ServiceNode) : Prop :=
  if connect then
    if decide (sn_ServiceKind sn = ServiceKindConnectProxy)
    then same_name name (cp_DestinationServiceName (sn_ServiceProxy sn))
    else sco_Native (sn_ServiceConnect sn) = true ∧ same_name name (sn_ServiceName sn)
  else sn_ServiceName sn ≠ "" ∧ same_name name (sn_ServiceName sn).
(** [c] is a check of the node of [sn], or of [sn] itself. *)
Definition checks_of (sn : ServiceNode) (c : HealthCheck) : Prop :=
  same_name (sn_Node sn) (hc_Node c) ∧ (hc_ServiceID c = "" ∨ hc_ServiceID c ≠ "" ∧ same_name (sn_ServiceID sn) (hc_ServiceID c)).
Definition with_node (d : db) (sn filled : ServiceNode) : Prop :=
  ∃ n, nodes d !! node_key (sn_Node sn) = Some n ∧ filled = sn_fill_node n (ServiceNode_PartialClone sn).
Definition with_checks (d : db) (sn : ServiceNode) (csn : CheckServiceNode) : Prop :=
  nodes d !! node_key (sn_Node sn) = Some (csn_Node csn) ∧
  csn_Service csn = ServiceNode_ToNodeService sn ∧
  ∀ c, c ∈ csn_Checks csn ↔ (∃ k, checks d !! k = Some c) ∧ checks_of sn c.

Section lookups.
Context (d : db) (Hd : catalog_inv d) (Hf : nul_free_names d).

Lemma service_filed name k sn : nul_free name → services d !! k = Some sn →
  filed services_service_index (string_args true name) k sn = true ↔ serves false name sn.
Proof using Hf.
  intros Hn Hk. destruct (nf_services d Hf k sn Hk) as (Hs&_). unfold serves.
  rewrite filed_spec. unfold index_keys. simpl. destruct (decide (sn_ServiceName sn = "")) as [He|He].
  { rewrite He. unfold string_index. simpl. split; [by intros (b&?%elem_of_nil&_)|by intros [? _]]. }
  rewrite string_index_key by done. simpl. setoid_rewrite list_elem_of_singleton.
  split; [intros (b&->&Hp)|intros [_ Hp]; eexists; split; [done|]].
  - split; [done|]. by apply string_args_prefix in Hp.
  - by apply string_args_prefix.
Qed.
Lemma connect_filed name k sn : nul_free name → services d !! k = Some sn →
  filed services_connect_index (string_args true name) k sn = true ↔ serves true name sn.
Proof using Hf.
  intros Hn Hk. destruct (nf_services d Hf k sn Hk) as (Hs&_&Hdest). unfold serves.
  rewrite filed_spec. unfold index_keys. simpl. unfold IndexConnectService_FromObject.
  destruct (decide (sn_ServiceKind sn = ServiceKindConnectProxy)); simpl.
  { setoid_rewrite list_elem_of_singleton. split.
    - intros (b&->&Hp). by apply string_args_prefix in Hp.
    - intros Hp. eexists. split; [done|]. by apply string_args_prefix. }
  destruct (sco_Native _); simpl; [|split; [by intros (b&?%elem_of_nil&_)|by intros [? _]]].
  setoid_rewrite list_elem_of_singleton. split.
  - intros (b&->&Hp). split; [done|]. by apply string_args_prefix in Hp.
  - intros [_ Hp]. eexists. split; [done|]. by apply string_args_prefix.
Qed.
Lemma elem_of_service_lookup (connect : bool) name (sn : ServiceNode) : nul_free name →
  sn ∈ table_scan (if connect then services_connect_index else services_service_index) (string_args true name) (services d) ↔
  ∃ k, services d !! k = Some sn ∧ serves connect name sn.
Proof using Hf.
  intros Hn. rewrite elem_of_table_scan_filed.
  split; intros (k&Hk&Hs); exists k; (split; [exact Hk|]); destruct connect; simpl in *;
    first [by apply (connect_filed _ k) in Hs|by apply (service_filed _ k) in Hs|by apply connect_filed|by apply service_filed].
Qed.

Lemma service_row k sn : services d !! k = Some sn →
  nul_free (sn_Node sn) ∧ nul_free (sn_ServiceID sn) ∧ is_Some (nodes d !! node_key (sn_Node sn)).
Proof using Hd Hf.
  intros Hk. pose proof (ci_service_node d Hd k sn Hk) as [n Hn].
  destruct (nf_services d Hf k sn Hk) as (_&?&_). split; [|by eauto]. by eapply node_nul_free.
Qed.

Lemma check_filed_node sn k c : nul_free (sn_Node sn) → checks d !! k = Some c →
  filed checks_node_service_check_index (string_args true (sn_Node sn) +:+ nul) k c = true ↔
  same_name (sn_Node sn) (hc_Node c) ∧ hc_ServiceID c = "".
Proof using Hd.
  intros Hn Hk. pose proof (check_nul_free d k c Hd Hk) as Hc.
  pose proof (HealthCheck_key c k (ci_checks d Hd k c Hk)) as [_ Hne].
  rewrite filed_spec. unfold index_keys. simpl. rewrite string_index_key by done. unfold field_set_index. simpl.
  setoid_rewrite list_elem_of_singleton.
  assert (∀ b, String.prefix (string_args true (sn_Node sn) +:+ nul) ((string_args true (hc_Node c) +:+ b) +:+ k) = true ↔
    same_name (sn_Node sn) (hc_Node c) ∧ String.prefix nul (b +:+ k) = true) as Hp.
  { intros b. rewrite str_app_assoc. by apply string_args_prefix2. }
  destruct (decide (hc_ServiceID c = "")) as [He|He].
  - split; [intros (b&->&[? _]%Hp); done|]. intros [? _]. eexists. split; [done|]. apply Hp. split; [done|]. apply (prefix_app nul k).
  - split; [|by intros [_ ?]]. intros (b&->&[_ ?]%Hp). done.
Qed.
Lemma check_filed_service sn k c : nul_free (sn_Node sn) → nul_free (sn_ServiceID sn) → checks d !! k = Some c →
  filed checks_node_service_index (service_key (sn_Node sn) (sn_ServiceID sn)) k c = true ↔
  same_name (sn_Node sn) (hc_Node c) ∧ hc_ServiceID c ≠ "" ∧ same_name (sn_ServiceID sn) (hc_ServiceID c).
Proof using Hd Hf.
  intros Hn Hid Hk. pose proof (check_nul_free d k c Hd Hk) as Hc.
  pose proof (HealthCheck_key c k (ci_checks d Hd k c Hk)) as [_ Hne]. pose proof (nf_checks d Hf k c Hk) as Hs.
  rewrite filed_spec. unfold index_keys. simpl. rewrite (string_index_key true (hc_Node c)) by done.
  destruct (decide (hc_ServiceID c = "")) as [He|He].
  { rewrite He. unfold string_index. simpl. split; [by intros (b&?%elem_of_nil&_)|by intros (_&?&_)]. }
  rewrite string_index_key by done. simpl. setoid_rewrite list_elem_of_singleton.
  assert (String.prefix (service_key (sn_Node sn) (sn_ServiceID sn))
    ((string_args true (hc_Node c) +:+ string_args true (hc_ServiceID c)) +:+ k) = true ↔
    same_name (sn_Node sn) (hc_Node c) ∧ same_name (sn_ServiceID sn) (hc_ServiceID c)) as Hp.
  { unfold service_key. rewrite str_app_assoc, string_args_prefix2 by done. by rewrite string_args_prefix. }
  split; [intros (b&->&?%Hp)|intros (?&_&?); eexists; split; [done|]; by apply Hp]. naive_solver.
Qed.

Lemma checkServiceNode_run k sn s : tx_db s = d → services d !! k = Some sn →
  ∃ csn, checkServiceNode sn s = (Ok csn, s) ∧ with_checks d sn csn.
Proof using Hd Hf.
  intros Hs Hk. destruct (service_row k sn Hk) as (Hn&Hid&n&Hnode). unfold checkServiceNode, tx_First, tx_Get, mget.
  unfold mbind' at 1. simpl. rewrite Hs, Hnode. unfold mbind', mreturn. rewrite Hs. eexists. split; [done|]. split; [done|]. split; [done|].
  intros c. simpl. clear Hs. rewrite elem_of_app, !elem_of_table_scan_filed. unfold checks_of. split.
  - intros [(kc&Hkc&Hc)|(kc&Hkc&Hc)]; (split; [by exists kc|]).
    + apply check_filed_node in Hc as [? ?]; [|done..]. auto.
    + apply check_filed_service in Hc as (?&?&?); [|done..]. auto.
  - intros [[kc Hkc] [Hsn Hs]]. destruct Hs as [Hs|[Hs Hs']]; [left|right]; exists kc; (split; [done|]).
    + by apply check_filed_node.
    + by apply check_filed_service.
Qed.
Lemma parseServiceNode_run k sn s : tx_db s = d → services d !! k = Some sn →
  ∃ filled, (let s := ServiceNode_PartialClone sn in
    let* n := tx_First (A := Node) (node_key (sn_Node sn)) in
    match n with
    | Some node => mreturn (sn_fill_node node s)
    | None => mpanic "interface conversion: interface {} is nil, not *structs.Node"
    end) s = (Ok filled, s) ∧ with_node d sn filled.
Proof using Hd Hf.
  intros Hs Hk. destruct (service_row k sn Hk) as (_&_&n&Hn). unfold tx_First, mget, mbind'. simpl.
  rewrite Hs, Hn. eexists. split; [done|]. by exists n.
Qed.
End lookups.

(** A loop of reads, by a relation. *)
Lemma mmap_relates {S A B} (f : A → M S B) (P : A → B → Prop) l s :
  (∀ x, x ∈ l → ∃ y, f x s = (Ok y, s) ∧ P x y) → ∃ ys, mmap f l s = (Ok ys, s) ∧ Forall2 P l ys.
Proof.
  induction l as [|x l IH]; intros Hf; simpl; [by exists []|].
  destruct (Hf x ltac:(by left)) as (y&Hy&HP). destruct IH as (ys&Hys&HF); [intros z Hz; apply Hf; by right|].
  exists (y :: ys). rewrite (run_bind_ok _ _ _ _ _ Hy), (run_bind_ok _ _ _ _ _ Hys). split; [done|]. by constructor.
Qed.

Lemma maxIndexForService_run name e c (s : txn) : ∃ i, maxIndexForService name e c s = (Ok i, s).
Proof.
  unfold maxIndexForService, tx_First, maxIndexTxn, mget, mbind', mreturn.
  destruct e; simpl; repeat case_match; simplify_eq; eauto.
Qed.
Lemma max_names_run names i (s : txn) : ∃ j,
  mfold (λ idx svcName,
    let* svcIdx := maxIndexForService svcName true true in
    mreturn (if (idx <? svcIdx)%N then svcIdx else idx)) i names s = (Ok j, s).
Proof.
  revert i. induction names as [|n l IH]; intros i; simpl; [by eexists|].
  destruct (maxIndexForService_run n true true s) as [j Hj]. unfold mbind' at 1, mbind' at 1. rewrite Hj. apply IH.
Qed.

Lemma single_services : single_valued services_service_index.
Proof. intros k x. unfold index_keys. simpl. unfold string_index. case_decide; simpl; lia. Qed.
Lemma single_connect : single_valued services_connect_index.
Proof. intros k x. unfold index_keys. simpl. unfold IndexConnectService_FromObject.
  destruct (decide _); [simpl; lia|]. destruct (sco_Native _); simpl; lia.
Qed.

(** C17. The answer to "where is this service" is complete and exact: in a
    consistent catalog (the states of C24) whose names hold no NUL, the listing
    of the instances of a name, and the health query for it, both answer,
    without an error or a panic, with the same instances: those registered
    under the name, or for Connect the proxies for it and its native instances,
    without regard to case, each once, each with the registered node, and, in
    the health query, with exactly the checks of the node and of the
    instance. *)
Theorem CheckServiceNodes_spec (st : Store) name connect :
  catalog_inv (st_db st) → nul_free_names (st_db st) → nul_free name →
  ∃ sns, NoDup sns ∧ (∀ sn, sn ∈ sns ↔ ∃ k, services (st_db st) !! k = Some sn ∧ serves connect name sn) ∧
    (∃ i l, serviceNodes name connect st = Ok (i, l) ∧ Forall2 (with_node (st_db st)) sns l) ∧
    (∃ i l, checkServiceNodes name connect st = Ok (i, l) ∧ Forall2 (with_checks (st_db st)) sns l).
Proof.
  intros Hd Hf Hn. set (ix := if connect then services_connect_index else services_service_index).
  set (sns := table_scan ix (string_args true name) (services (st_db st))).
  set (s := begin_txn false 0 st).
  assert (∀ sn, sn ∈ sns ↔ ∃ k, services (st_db st) !! k = Some sn ∧ serves connect name sn) as Hsns
    by (intros sn; by apply elem_of_service_lookup).
  assert (service_lookup connect name s = (Ok sns, s)) as Hl by done.
  exists sns. split; [|split; [done|split]].
  - apply NoDup_table_scan; [|exact (ci_services _ Hd)]. subst ix. destruct connect; [apply single_connect|apply single_services].
  - unfold serviceNodes, read_txn. fold s. rewrite (run_bind_ok _ _ _ _ _ Hl).
    assert (∃ l, parseServiceNodes sns s = (Ok l, s) ∧ Forall2 (with_node (st_db st)) sns l) as (l&Hr&HF).
    { apply mmap_relates. intros sn (k&Hk&_)%Hsns. by apply (parseServiceNode_run _ Hd Hf k). }
    rewrite (run_bind_ok _ _ _ _ _ (run_wrap_ok _ _ _ _ _ Hr)).
    destruct (maxIndexForService_run name (0 <? length l)%nat false s) as [i Hi].
    rewrite (run_bind_ok _ _ _ _ _ Hi). by exists i, l.
  - unfold checkServiceNodes, read_txn. fold s. rewrite (run_bind_ok _ _ _ _ _ Hl).
    assert (∃ l, mmap checkServiceNode sns s = (Ok l, s) ∧ Forall2 (with_checks (st_db st)) sns l) as (l&Hr&HF).
    { apply mmap_relates. intros sn (k&Hk&_)%Hsns. by apply (checkServiceNode_run _ Hd Hf k). }
    unfold parseCheckServiceNodes. case_decide.
    + destruct (maxIndexForService_run name false true s) as [i Hi].
      rewrite (run_bind_ok _ _ _ _ _ Hi), (run_bind_ok _ _ _ _ _ Hr). by exists i, l.
    + destruct (max_names_run (elements (list_to_set (sn_ServiceName <$> sns) : gset string)) 0%N s) as [i Hi].
      rewrite (run_bind_ok _ _ _ _ _ Hi), (run_bind_ok _ _ _ _ _ Hr). by exists i, l.
Qed.

Definition named_service (id name : string) : NodeService :=
  mkNodeService "" id name None "" None None 5432 None false no_proxy (mkServiceConnect false) 0 0.
Definition two_log : list (Z * N * command) :=
  [(0%Z, 5%N, register "a" (Some (named_service "c" "web")) None);
   (0%Z, 6%N, register "b" (Some (named_service "c" "web")) (Some (service_check "b" "up" "c")))].
Definition two_instances : Store := (fsm_run sample_externals two_log (NewStateStore None)).2.
Lemma two_instances_inv : catalog_inv (st_db two_instances).
Proof.
  destruct (fsm_run_sound sample_externals two_log ltac:(discriminate) ltac:(by intros n l) (NewStateStore None)
    ltac:(by repeat constructor) (run_inv_empty None)) as (_&_&H&_). exact H.
Qed.
Lemma two_instances_names : nul_free_names (st_db two_instances).
Proof. split; apply (bool_decide_unpack _); vm_compute; exact I. Qed.
Lemma CheckServiceNodes_spec_witness :
  catalog_inv (st_db two_instances) ∧ nul_free_names (st_db two_instances) ∧ nul_free "WEB" ∧
  (∃ sns, NoDup sns ∧ (∀ sn, sn ∈ sns ↔ ∃ k, services (st_db two_instances) !! k = Some sn ∧ serves false "WEB" sn) ∧
    (∃ i l, serviceNodes "WEB" false two_instances = Ok (i, l) ∧ Forall2 (with_node (st_db two_instances)) sns l) ∧
    (∃ i l, checkServiceNodes "WEB" false two_instances = Ok (i, l) ∧ Forall2 (with_checks (st_db two_instances)) sns l)) ∧
  match CheckServiceNodes "WEB" two_instances with
  | Ok (i, l) => (i, (λ c, (node_Node (csn_Node c), length (csn_Checks c))) <$> l)
  | _ => (0%N, [])
  end = (6%N, [("a", 0); ("b", 1)]).
Proof.
  split; [exact two_instances_inv|]. split; [exact two_instances_names|]. split; [exact I|].
  split; [|vm_compute; reflexivity].
  apply (CheckServiceNodes_spec two_instances "WEB" false two_instances_inv two_instances_names). exact I.
Defined.

(** ** The index a blocking query waits on *)




Section rename.
Context (d : db) (Hd : catalog_inv d) (Hf : nul_free_names d).
Context (node : string) (svc : NodeService) (x : ServiceNode).
Hypothesis Hnode : nul_free node.
Hypothesis Hx : services d !! service_key node (ns_ID svc) = Some x.
Hypothesis Hname : ¬ same_name (sn_ServiceName x) (ns_Service svc).
Hypothesis Hsvc : nul_free (ns_Service svc).

End rename.


