(* ===== verification/TxnProps.v ===== *)
(** * Multi-operation transactions: atomicity, isolation, swallowed errors *)

From S2P Require Import Prelude Memdb ProxyConfig Structs Delay TombstoneGC Store Graveyard Kvs PreparedQuery Session Catalog Coordinate.
From S2P Require Import Intention Txn Fsm Logic MemdbFacts StoreFacts Frames KvSpec KvRefine FsmFacts SessionFacts SessionInv SessionProps.
From S2P Require Import KvProps ListProps.

(** ** Atomicity *)

(** The reference: run the operations in order, stop at the first failure. *)
Fixpoint all_or_nothing (idx : N) (ops : list TxnOp) : Tx (list TxnResult) :=
  match ops with
  | [] => mreturn []
  | op :: ops => let* ret := txnOp idx op in let* results := all_or_nothing idx ops in mreturn (ret ++ results)
  end.

(** After a failure the loop only accumulates errors, or panics. *)
Lemma txn_loop_cases idx i ops s :
  match all_or_nothing idx ops s with
  | (Ok results, s') => txn_loop idx i ops s = (Ok (results, []), s')
  | (Err e, _) =>
      (∃ w, (txn_loop idx i ops s).1 = Panic w) ∨
      (∃ results j errors, (txn_loop idx i ops s).1 = Ok (results, (j, e) :: errors) ∧ i ≤ j < i + length ops)
  | (Panic w, s') => txn_loop idx i ops s = (Panic w, s')
  end.
Proof.
  revert i s. induction ops as [|op ops IH]; intros i s; [done|].
  cbn [all_or_nothing txn_loop]. unfold mbind', mtry.
  destruct (txnOp idx op s) as [[ret|e|w] s1] eqn:Hop; [| |done].
  - specialize (IH (S i) s1). destruct (all_or_nothing idx ops s1) as [[results|e|w] s2].
    + by rewrite IH.
    + destruct IH as [[w Hw]|(results&j&errors&Hr&Hj)];
        destruct (txn_loop idx (S i) ops s1) as [r s2']; simpl in *; subst r; simpl.
      * left. by eexists.
      * right. do 3 eexists. split; [done|lia].
    + by rewrite IH.
  - destruct (txn_loop idx (S i) ops s1) as [[[results errors]|e'|w] s2] eqn:Hl; simpl.
    + right. do 3 eexists. split; [done|lia].
    + exfalso. (* the loop itself never fails *)
      clear -Hl. revert i s1 Hl. induction ops as [|op' ops IH]; intros i s1 Hl; [done|].
      cbn [txn_loop] in Hl. unfold mbind', mtry in Hl.
      destruct (txnOp idx op' s1) as [[]?]; [| |done];
        (destruct (txn_loop idx (S (S i)) ops t) as [[[]| |] ?] eqn:Hl'; simplify_eq; by eapply IH).
    + left. by eexists.
Qed.

(** C14. A read-write transaction is the in-order composition of its
    operations, all or nothing: when they all succeed it commits what running
    them in order gives, with their results concatenated; when one fails, the
    tables stay as they were, no result is returned, and the first error
    reported is that of the operation that failed first, with its position
    (unless a later operation, which is run all the same, panics). *)
Theorem TxnRW_atomic now idx ops st :
  let r := TxnRW now idx ops st in
  match all_or_nothing idx ops (begin_txn true now st) with
  | (Ok results, tx) => r = (Ok (results, []), commit_txn tx st)
  | (Err e, _) => st_db r.2 = st_db st ∧
      ((∃ w, r.1 = Panic w) ∨ (∃ i errors, r.1 = Ok ([], (i, e) :: errors) ∧ i < length ops))
  | (Panic w, _) => r.1 = Panic w ∧ st_db r.2 = st_db st
  end.
Proof.
  intros r. pose proof (txn_loop_cases idx 0 ops (begin_txn true now st)) as H.
  unfold r, TxnRW, write_txn, txnDispatch, mbind'.
  destruct (all_or_nothing idx ops (begin_txn true now st)) as [[results|e|w] tx].
  - by rewrite H.
  - destruct H as [[w Hw]|(results&j&errors&Hr&Hj)];
      destruct (txn_loop idx 0 ops (begin_txn true now st)) as [o tx']; simpl in *; subst o; simpl.
    + split; [done|]. left. by eexists.
    + split; [done|]. right. do 2 eexists. split; [done|lia].
  - by rewrite H.
Qed.

(** ** Isolation of read-only transactions *)

Definition same_snapshot (s s' : txn) : Prop := tx_write s = false → tx_write s' = false ∧ tx_db s' = tx_db s.
#[export] Instance same_snapshot_frame : FrameTx same_snapshot.
Proof. split; [by intros s ?| |done|done]. intros s1 s2 s3 H1 H2 Hw. destruct (H1 Hw) as [Hw2 <-]. by apply H2. Qed.
#[export] Instance same_snapshot_table {A} `{TableSchema A} `{TableOf A} : FrameTable same_snapshot A.
Proof.
  split; intros x s Hw; [unfold tx_Insert|unfold tx_Delete|unfold tx_DeletePrefix]; by rewrite Hw.
Qed.

Lemma ro_txnOp idx o : framed same_snapshot (txnOp idx o).
Proof. apply writes_txnOp; try apply _; intros; writes_tac. Qed.

(** The answer of one operation on the tables of [st]. *)
Definition ro_result (st : Store) (op : TxnOp) : outcome (list TxnResult) :=
  (txnOp 0 op (begin_txn false 0 st)).1.
Fixpoint ro_collect (i : nat) (rs : list (outcome (list TxnResult))) : list TxnResult * TxnErrors :=
  match rs with
  | [] => ([], [])
  | r :: rs =>
      let '(results, errors) := ro_collect (S i) rs in
      match r with
      | Ok ret => (ret ++ results, errors)
      | Err e => (results, (i, e) :: errors)
      | Panic _ => (results, errors)
      end
  end.

Lemma txn_loop_ro st i ops s :
  tx_write s = false → tx_db s = st_db st → (∀ op w, op ∈ ops → ro_result st op ≠ Panic w) →
  (txn_loop 0 i ops s).1 = Ok (ro_collect i (ro_result st <$> ops)).
Proof.
  revert i s. induction ops as [|op ops IH]; intros i s Hw Hd Hp; [done|].
  cbn [txn_loop]. unfold mbind', mtry. simpl.
  destruct (ro_txnOp 0 op s Hw) as [Hw1 Hd1].
  destruct (det_txnOp 0 op s (begin_txn false 0 st)) as [Heq _]; [by split|].
  fold (ro_result st op) in Heq. pose proof (Hp op) as Hpo.
  destruct (txnOp 0 op s) as [r s1]. simpl in *. subst r.
  assert ((txn_loop 0 (S i) ops s1).1 = Ok (ro_collect (S i) (ro_result st <$> ops))) as Hrest.
  { apply IH; [done|congruence|]. intros op' w Hin. apply Hp. by right. }
  change (list_fmap TxnOp _ (ro_result st) ops) with (ro_result st <$> ops).
  destruct (ro_result st op) as [ret|e|w]; [| |by destruct (Hpo w ltac:(by left))];
    destruct (txn_loop 0 (S i) ops s1) as [o s2]; simpl in Hrest; subst o;
    by destruct (ro_collect (S i) (ro_result st <$> ops)).
Qed.

(** C15. A read-only transaction sees one snapshot: each operation answers
    what it would answer alone on the tables of the store, whatever the others
    are (writes among them included, which fail), and the transaction returns
    all the results, or none and every error with its position. *)
Theorem TxnRO_snapshot ops st :
  (∀ op w, op ∈ ops → ro_result st op ≠ Panic w) →
  TxnRO ops st =
    Ok (let '(results, errors) := ro_collect 0 (ro_result st <$> ops) in
        match errors with [] => (results, []) | _ => ([], errors) end).
Proof.
  intros Hp. unfold TxnRO, read_txn, txnDispatch, mbind'.
  pose proof (txn_loop_ro st 0 ops (begin_txn false 0 st) eq_refl eq_refl Hp) as H.
  destruct (txn_loop 0 0 ops (begin_txn false 0 st)) as [o s]. simpl in H. subst o.
  by destruct (ro_collect 0 _) as [results [|]].
Qed.

Definition kv_txn (verb : string) (e : DirEntry) : TxnOp := mkTxnOp (Some (mkTxnKVOp verb e)) None None None None.
Definition ro_ops : list TxnOp :=
  [kv_txn "set" (mkDirEntry 0 "free" 0 "new" "" 0 0); kv_txn "get" (mkDirEntry 0 "free" 0 "" "" 0 0)].
Lemma ro_ops_no_panic op w : op ∈ ro_ops → ro_result (demo_store SessionKeysRelease) op ≠ Panic w.
Proof.
  intros [->|[->|Hin%elem_of_nil]%elem_of_cons]%elem_of_cons; [vm_compute; discriminate..|done].
Qed.
Lemma TxnRO_snapshot_witness :
  TxnRO ro_ops (demo_store SessionKeysRelease) =
    Ok (let '(results, errors) := ro_collect 0 (ro_result (demo_store SessionKeysRelease) <$> ro_ops) in
        match errors with [] => (results, []) | _ => ([], errors) end) ∧
  ro_result (demo_store SessionKeysRelease) (kv_txn "get" (mkDirEntry 0 "free" 0 "" "" 0 0)) =
    Ok [ResKV (mkDirEntry 0 "free" 0 "x" "" 3 3)].
Proof. split; [apply TxnRO_snapshot, ro_ops_no_panic|vm_compute; reflexivity]. Defined.

(** ** Errors that a transaction loses *)

Lemma service_missing_node idx node svc s :
  nodes (tx_db s) !! node_key node = None →
  services (tx_db s) !! service_key node (ns_ID svc) = None →
  ∃ e, ensureServiceTxn idx node svc s = (Err e, s).
Proof.
  intros Hn Hs. unfold ensureServiceTxn, mbind', tx_First, mget, mlift.
  change (tbl (tx_db s)) with (nodes (tx_db s)) at 1.
  destruct (ValidateMetadata (ns_Meta svc) false) as [[]|e|w] eqn:Hv; simpl.
  - change (tbl (tx_db s)) with (nodes (tx_db s)). rewrite Hn. by eexists.
  - by eexists.
  - exfalso. unfold ValidateMetadata in Hv. by repeat case_match.
Qed.

Definition service_txn (verb node : string) (svc : NodeService) : TxnOp :=
  mkTxnOp None None None (Some (mkTxnServiceOp verb node svc)) None.

Lemma service_set_lost idx node svc s :
  nodes (tx_db s) !! node_key node = None →
  services (tx_db s) !! service_key node (ns_ID svc) = None →
  txnDispatch idx [service_txn "set" node svc] s = (Ok ([], []), s).
Proof.
  intros Hn Hs. destruct (service_missing_node idx node svc s Hn Hs) as [e He].
  assert (txnService idx (mkTxnServiceOp "set" node svc) s = (Ok [], s)) as Hop.
  { unfold txnService, mbind', mtry. simpl. rewrite He.
    unfold getNodeServiceTxn, mbind', tx_First, mget, mreturn.
    change (tbl (tx_db s)) with (services (tx_db s)). by rewrite Hs. }
  unfold txnDispatch, txn_loop, txnOp, mbind', mtry. simpl. by rewrite Hop.
Qed.

(** C16. A service registered through a transaction on a node that does not
    exist is lost without an error: the "set" operation overwrites the error
    of the registration by the read that follows it, so that the transaction
    commits, with no result and no error, and leaves the tables unchanged;
    the same registration outside a transaction fails. *)
Theorem txn_service_set_loses_error now idx node svc st :
  nodes (st_db st) !! node_key node = None →
  services (st_db st) !! service_key node (ns_ID svc) = None →
  (∃ e, (EnsureService now idx node svc st).1 = Err e) ∧
  (TxnRW now idx [service_txn "set" node svc] st).1 = Ok ([], []) ∧
  st_db (TxnRW now idx [service_txn "set" node svc] st).2 = st_db st.
Proof.
  intros Hn Hs. destruct (service_missing_node idx node svc (begin_txn true now st) Hn Hs) as [e He].
  split.
  - exists e. unfold EnsureService, write_txn. by rewrite He.
  - pose proof (service_set_lost idx node svc (begin_txn true now st) Hn Hs) as Hrun.
    unfold TxnRW, write_txn. by rewrite Hrun.
Qed.
Definition demo_service : NodeService :=
  mkNodeService "" "db1" "db" None "" None None 5432 None false no_proxy (mkServiceConnect false) 0 0.
Lemma txn_service_set_loses_error_witness :
  let st := demo_store SessionKeysRelease in
  (∃ e, (EnsureService 0 9 "ghost" demo_service st).1 = Err e) ∧
  (TxnRW 0 9 [service_txn "set" "ghost" demo_service] st).1 = Ok ([], []).
Proof.
  destruct (txn_service_set_loses_error 0 9 "ghost" demo_service (demo_store SessionKeysRelease)) as (H1&H2&_);
    [vm_compute; reflexivity|vm_compute; reflexivity|]. split; [exact H1|exact H2].
Defined.

Definition check_txn (verb : string) (c : HealthCheck) : TxnOp :=
  mkTxnOp None None None None (Some (mkTxnCheckOp verb c)).

Lemma check_missing_node idx c s :
  nodes (tx_db s) !! node_key (hc_Node c) = None →
  checks (tx_db s) !! check_key (hc_Node c) (hc_CheckID c) = None →
  ensureCheckTxn idx c s = (Err ErrMissingNode, s).
Proof.
  intros Hn Hc. unfold ensureCheckTxn.
  rewrite (run_bind_ok (tx_First _) _ s None s) by (unfold tx_First, mget; by rewrite <-Hc). cbv zeta.
  rewrite (run_bind_ok (tx_First _) _ s (nodes (tx_db s) !! node_key (hc_Node c)) s)
    by (unfold tx_First, mget; by case_decide).
  by rewrite Hn.
Qed.
Lemma check_cas_lost idx c s :
  nodes (tx_db s) !! node_key (hc_Node c) = None →
  checks (tx_db s) !! check_key (hc_Node c) (hc_CheckID c) = None → hc_ModifyIndex c = 0%N →
  txnDispatch idx [check_txn "cas" c] s = (Ok ([], []), s).
Proof.
  intros Hn Hc Hmi. pose proof (check_missing_node idx c s Hn Hc) as He.
  assert (∃ i, getNodeCheckTxn (hc_Node c) (hc_CheckID c) s = (Ok (i, None), s)) as [i Hget].
  { eexists. unfold getNodeCheckTxn, mbind', maxIndexTxn, tx_First, mget, mreturn. by rewrite <-Hc. }
  assert (ensureCheckCASTxn idx c s = (Err ErrMissingNode, s)) as Hcas.
  { unfold ensureCheckCASTxn. erewrite run_bind_ok by exact Hget. rewrite Hmi. simpl.
    by erewrite run_bind_err by exact He. }
  assert (txnCheck idx (mkTxnCheckOp "cas" c) s = (Ok [], s)) as Hop.
  { assert (mtry (ensureCheckCASTxn idx c) s = (Ok (Err ErrMissingNode), s)) as Htry by (unfold mtry; by rewrite Hcas).
    assert (∀ (get : Tx (option HealthCheck)) r, get s = (Ok r, s) →
      cas_then_get "failed to set check on node, index is stale" (hc_CheckID c) (ensureCheckCASTxn idx c) get s = (Ok r, s)) as Hctg.
    { intros get r Hg. unfold cas_then_get. by rewrite (run_bind_ok _ _ _ _ _ Htry). }
    unfold txnCheck. cbn [tc_Verb tc_Check]. rewrite !decide_False by done. rewrite decide_True by done.
    erewrite run_bind_ok; [|apply Hctg; by erewrite run_bind_ok by exact Hget]. done. }
  unfold txnDispatch, txn_loop, txnOp, mbind', mtry. simpl. by rewrite Hop.
Qed.

(** A compare-and-set in a transaction can lose its error as well: a check
    of a node that does not exist, set with index 0 ("only if absent"), fails
    with the missing node outside a transaction, and in a transaction commits
    with no result, no error and nothing changed. *)
Lemma txn_check_cas_loses_error now idx c st :
  nodes (st_db st) !! node_key (hc_Node c) = None →
  checks (st_db st) !! check_key (hc_Node c) (hc_CheckID c) = None →
  hc_ModifyIndex c = 0%N →
  (EnsureCheck now idx c st).1 = Err ErrMissingNode ∧
  (TxnRW now idx [check_txn "cas" c] st).1 = Ok ([], []) ∧
  st_db (TxnRW now idx [check_txn "cas" c] st).2 = st_db st.
Proof.
  intros Hn Hc Hmi. split.
  - pose proof (check_missing_node idx c (begin_txn true now st) Hn Hc) as He.
    unfold EnsureCheck, write_txn. by rewrite He.
  - pose proof (check_cas_lost idx c (begin_txn true now st) Hn Hc Hmi) as Hrun.
    unfold TxnRW, write_txn. by rewrite Hrun.
Qed.
Definition demo_check : HealthCheck :=
  mkHealthCheck "ghost" "alive" "alive" "passing" "" "" "" "" None "" no_definition 0 0.
Lemma txn_check_cas_loses_error_witness :
  let st := demo_store SessionKeysRelease in
  (EnsureCheck 0 9 demo_check st).1 = Err ErrMissingNode ∧
  (TxnRW 0 9 [check_txn "cas" demo_check] st).1 = Ok ([], []).
Proof.
  destruct (txn_check_cas_loses_error 0 9 demo_check (demo_store SessionKeysRelease)) as (H1&H2&_);
    [vm_compute; reflexivity..|]. split; [exact H1|exact H2].
Defined.

(** A KV "set" in a transaction that does not change the content answers
    with a modify index that the stored entry does not have: the entry keeps
    its own, so that a compare-and-set with the answered index is refused. *)
Theorem txn_set_answers_wrong_index :
  ∃ st e results, reachable st ∧ kvs (st_db st) !! string_args false (de_Key e) = Some (mkDirEntry 0 "free" 0 "x" "" 3 3) ∧
    (TxnRW 0 9 [kv_txn "set" e] st).1 = Ok (results, []) ∧
    results = [ResKV (mkDirEntry 0 "free" 0 "" "" 3 9)] ∧
    let st' := (TxnRW 0 9 [kv_txn "set" e] st).2 in
    kvs (st_db st') !! string_args false (de_Key e) = Some (mkDirEntry 0 "free" 0 "x" "" 3 3) ∧
    ∃ e', (KVSSetCAS 0 10 (mkDirEntry 0 "free" 0 "y" "" 0 9) st').1 = Ok (false, e').
Proof.
  exists (demo_store SessionKeysRelease), (mkDirEntry 0 "free" 0 "x" "" 0 0). eexists.
  split; [apply demo_store_reachable|]. split; [vm_compute; reflexivity|].
  split; [vm_compute; reflexivity|]. split; [reflexivity|].
  split; [vm_compute; reflexivity|]. eexists. vm_compute. reflexivity.
Qed.
