(* ===== verification/GcProps.v ===== *)
(** * Tombstone collection and lock delays

    Runs of the collector are lists of events: hints, timers firing, and the
    leadership changes that enable and disable it. *)

From S2P Require Import Prelude Memdb ProxyConfig Structs Delay TombstoneGC Store Graveyard Kvs PreparedQuery Session Catalog Coordinate.
From S2P Require Import Txn Fsm Logic MemdbFacts StoreFacts Frames KvSpec KvRefine SessionFacts SessionInv SessionProps ListProps.
From S2P Require Import Radix Acl Authorizer Filter Endpoint.

(** ** The collector *)

Inductive gc_event :=
| EHint (now : Z) (index : N)
| EExpire (expires : Z)
| ESetEnabled (enabled : bool).

Definition gc_step (t : TombstoneGC) (e : gc_event) : TombstoneGC :=
  match e with
  | EHint now index => Hint_gc now index t
  | EExpire expires => expireTime expires t
  | ESetEnabled enabled => SetEnabled enabled t
  end.
Definition gc_run (t : TombstoneGC) (es : list gc_event) : TombstoneGC := fold_left gc_step es t.

(** The index [i] waits in a bin, or was sent to the leader, perhaps as part
    of a higher one. *)
Definition covered (i : N) (t : TombstoneGC) : Prop :=
  (∃ e m, gc_expires t !! e = Some m ∧ (i ≤ m)%N) ∨ (∃ m, m ∈ gc_expireCh t ∧ (i ≤ m)%N).

(** The indexes that wait or were sent. *)
Definition emitted (i : N) (t : TombstoneGC) : Prop :=
  (∃ e, gc_expires t !! e = Some i) ∨ i ∈ gc_expireCh t.

Definition keeps_enabled (e : gc_event) : Prop := e ≠ ESetEnabled false.

Lemma step_enabled t e : keeps_enabled e → gc_enabled t = true → gc_enabled (gc_step t e) = true.
Proof.
  intros He Ht. destruct e as [now i|ex|b]; simpl.
  - unfold Hint_gc. rewrite Ht. simpl. repeat case_match; done.
  - unfold expireTime, purgeBin. repeat case_match; simplify_eq/=; done.
  - unfold SetEnabled. destruct b; [|done]. by rewrite Ht.
Qed.

Lemma step_covered i t e : (0 < i)%N → keeps_enabled e → gc_enabled t = true → covered i t → covered i (gc_step t e).
Proof.
  intros Hi He Ht Hc. destruct e as [now j|ex|b]; simpl.
  - unfold Hint_gc. rewrite Ht. simpl. destruct (gc_expires t !! nextExpires t now) as [m|] eqn:Hm.
    + destruct (N.ltb_spec m j); [|done]. destruct Hc as [(e&m'&Hem&Hle)|?]; [left|by right].
      destruct (decide (e = nextExpires t now)) as [->|Hne]; simpl.
      * exists (nextExpires t now), j. rewrite lookup_insert_eq. split; [done|]. simplify_eq. lia.
      * exists e, m'. by rewrite lookup_insert_ne.
    + destruct Hc as [(e&m'&Hem&Hle)|?]; [left|by right].
      exists e, m'. simpl. rewrite lookup_insert_ne; [done|]. intros <-. congruence.
  - unfold expireTime, purgeBin. destruct (gc_expires t !! ex) as [m|] eqn:Hm; [|by destruct (N.ltb_spec 0 0)].
    assert (covered i t → ∀ t', gc_expires t' = delete ex (gc_expires t) → gc_expireCh t' = gc_expireCh t ++ [m] → covered i t') as Hgen.
    { intros _ t' H1 H2. destruct Hc as [(e&m'&Hem&Hle)|(m'&Hin&Hle)].
      - destruct (decide (e = ex)) as [->|Hne].
        + right. exists m. rewrite H2. split; [apply elem_of_app; right; by left|]. by simplify_eq.
        + left. exists e, m'. by rewrite H1, lookup_delete_ne.
      - right. exists m'. rewrite H2. split; [apply elem_of_app; by left|done]. }
    destruct (N.ltb_spec 0 m); [by apply Hgen|]. simpl.
    destruct Hc as [(e&m'&Hem&Hle)|?]; [left|by right].
    exists e, m'. simpl. rewrite lookup_delete_ne; [done|]. intros <-. simplify_eq. lia.
  - unfold SetEnabled. destruct b; [|done]. by rewrite Ht.
Qed.

Lemma hint_covered now i t : gc_enabled t = true → covered i (Hint_gc now i t).
Proof.
  intros Ht. unfold Hint_gc. rewrite Ht. simpl. left.
  destruct (gc_expires t !! nextExpires t now) as [m|] eqn:Hm.
  - destruct (N.ltb_spec m i).
    + exists (nextExpires t now), i. simpl. by rewrite lookup_insert_eq.
    + exists (nextExpires t now), m. split; [done|lia].
  - exists (nextExpires t now), i. simpl. by rewrite lookup_insert_eq.
Qed.

Lemma run_covered i es t :
  (0 < i)%N → Forall keeps_enabled es → gc_enabled t = true → covered i t → covered i (gc_run t es).
Proof.
  intros Hi Hes. revert t. induction Hes as [|e es He _ IH]; intros t Ht Hc; [done|].
  apply IH; [by apply step_enabled|by apply step_covered].
Qed.

Lemma nextExpires_bounds t now :
  (0 < gc_granularity t)%Z → (0 ≤ now + gc_ttl t)%Z →
  (now + gc_ttl t < nextExpires t now ≤ now + gc_ttl t + gc_granularity t)%Z ∧
  (nextExpires t now mod gc_granularity t = 0)%Z.
Proof.
  intros Hg Hn. unfold nextExpires. rewrite Z.rem_mod_nonneg by lia.
  pose proof (Z.mod_pos_bound (now + gc_ttl t) (gc_granularity t) Hg). split; [lia|].
  rewrite Z.add_sub_assoc. replace (now + gc_ttl t + gc_granularity t - (now + gc_ttl t) mod gc_granularity t)%Z
    with ((now + gc_ttl t - (now + gc_ttl t) mod gc_granularity t) + 1 * gc_granularity t)%Z by lia.
  rewrite Z.mod_add by lia. rewrite Zminus_mod_idemp_r, Z.sub_diag. by apply Z.mod_0_l; lia.
Qed.

(** C19. Every tombstone is collected: an index hinted while the collector is
    enabled waits in a bin whose expiration is a multiple of the granularity,
    later than the hint by more than the time to live and by at most one
    granularity more; and however hints and timers go on, as long as the
    collector stays enabled the index is pending or was sent to the leader,
    on its own or under a higher one, so that once nothing is pending it was
    sent. *)
Theorem gc_hint_collected t now i es :
  gc_enabled t = true → (0 < gc_granularity t)%Z → (0 ≤ now + gc_ttl t)%Z → (0 < i)%N →
  Forall keeps_enabled es →
  (∃ e m, gc_expires (Hint_gc now i t) !! e = Some m ∧ (i ≤ m)%N ∧ (e mod gc_granularity t = 0)%Z ∧
     (now + gc_ttl t < e ≤ now + gc_ttl t + gc_granularity t)%Z) ∧
  covered i (gc_run (Hint_gc now i t) es) ∧
  (PendingExpiration (gc_run (Hint_gc now i t) es) = false →
   ∃ m, m ∈ gc_expireCh (gc_run (Hint_gc now i t) es) ∧ (i ≤ m)%N).
Proof.
  intros Ht Hg Hn Hi Hes. pose proof (nextExpires_bounds t now Hg Hn) as [Hb Hm].
  assert (covered i (gc_run (Hint_gc now i t) es)) as Hc.
  { apply run_covered; [done|done| |by apply hint_covered].
    change (gc_enabled (gc_step t (EHint now i)) = true). by apply step_enabled. }
  split_and!; [|done|].
  - unfold Hint_gc. rewrite Ht. simpl. destruct (gc_expires t !! nextExpires t now) as [m|] eqn:Hl.
    + destruct (N.ltb_spec m i); [exists (nextExpires t now), i; simpl; by rewrite lookup_insert_eq|].
      exists (nextExpires t now), m. split; [done|]. split; [lia|done].
    + exists (nextExpires t now), i. simpl. by rewrite lookup_insert_eq.
  - intros Hp. destruct Hc as [(e&m&Hem&_)|?]; [|done]. unfold PendingExpiration in Hp.
    rewrite negb_false_iff, bool_decide_eq_true in Hp. rewrite Hp in Hem. by rewrite lookup_empty in Hem.
Qed.
Lemma gc_hint_collected_witness :
  let t := mkTombstoneGC 900 30 true ∅ [] in
  covered 7 (gc_run (Hint_gc 100 7 t) [EHint 110 9; EExpire 1020]) ∧
  gc_expireCh (gc_run (Hint_gc 100 7 t) [EHint 110 9; EExpire 1020]) = [9%N].
Proof.
  split; [|vm_compute; reflexivity].
  apply (gc_hint_collected (mkTombstoneGC 900 30 true ∅ []) 100 7 [EHint 110 9; EExpire 1020]);
    [reflexivity|simpl; lia..|]. repeat constructor; discriminate.
Defined.

(** Nothing is collected that was not hinted: along any run of events,
    disabling included, every index that waits or was sent was there before
    or was hinted. *)
Lemma gc_only_hinted t es i :
  emitted i (gc_run t es) → emitted i t ∨ ∃ now, EHint now i ∈ es.
Proof.
  revert t. induction es as [|e es IH]; intros t Hi; [by left|].
  destruct (IH (gc_step t e) Hi) as [Hs|[now Hin]]; [|right; exists now; by right].
  destruct e as [now j|ex|b]; simpl in Hs.
  - unfold Hint_gc in Hs. destruct (negb (gc_enabled t)); [by left|].
    assert (∀ t', gc_expires t' = <[nextExpires t now := j]> (gc_expires t) → gc_expireCh t' = gc_expireCh t →
      emitted i t' → emitted i t ∨ ∃ now', EHint now' i ∈ EHint now j :: es) as Hgen.
    { intros t' H1 H2 [[e He]|He]; [|left; right; by rewrite <-H2].
      rewrite H1, lookup_insert_Some in He. destruct He as [[_ ->]|[_ He]]; [right; exists now; by left|].
      left. left. by exists e. }
    destruct (gc_expires t !! nextExpires t now) as [m|]; [|eapply Hgen; [..|exact Hs]; done].
    destruct (m <? j)%N; [eapply Hgen; [..|exact Hs]; done|by left].
  - left. unfold expireTime, purgeBin in Hs. destruct (gc_expires t !! ex) as [m|] eqn:Hm.
    + destruct (0 <? m)%N; destruct Hs as [[e He]|He]; simpl in He.
      * left. exists e. by apply lookup_delete_Some in He as [_ ?].
      * apply elem_of_app in He as [? | ->%list_elem_of_singleton]; [by right|left; by exists ex].
      * left. exists e. by apply lookup_delete_Some in He as [_ ?].
      * by right.
    + by destruct (0 <? 0)%N eqn:Hz.
  - left. unfold SetEnabled in Hs. destruct (Bool.eqb b (gc_enabled t)); [done|].
    destruct Hs as [[e He]|He]; simpl in He; [|by right]. destruct b; [left; by exists e|done].
Qed.
Lemma gc_only_hinted_witness :
  let t := mkTombstoneGC 900 30 true ∅ [] in
  let es := [EHint 100 7; EHint 110 9; EExpire 1020] in
  emitted 9 t ∨ ∃ now, EHint now 9 ∈ es.
Proof. apply gc_only_hinted. right. vm_compute. left. Defined.

(** ** Reaping *)

(** C21. Reaping up to an index always succeeds and removes exactly the
    tombstones whose index is at most that; the rest of the tables stays. *)
Theorem ReapTombstones_spec now idx st :
  reachable st →
  ∃ st', ReapTombstones now idx st = (Ok tt, st') ∧
    (∀ k, tombstones (st_db st') !! k =
       match tombstones (st_db st) !! k with
       | Some s => if decide (ts_Index s ≤ idx)%N then None else Some s
       | None => None
       end) ∧
    kvs (st_db st') = kvs (st_db st) ∧ index (st_db st') = index (st_db st) ∧ kv_frame (st_db st) (st_db st').
Proof.
  intros Hr%reachable_inv%si_tombs. set (s := begin_txn true now st).
  set (l := filter (λ x, (ts_Index x <= idx)%N) (table_prefix "" (tombstones (st_db st)))).
  assert (Graveyard_ReapTxn idx s =
    (Ok tt, tx_set_db (set_tbl (without l (tombstones (st_db st))) (st_db st)) s)) as Hrun.
  { unfold Graveyard_ReapTxn.
    rewrite (run_bind_ok (tx_GetPrefix "") _ s (table_prefix "" (tombstones (st_db st))) s) by done.
    fold l. etrans; [apply (delete_loop_run "failed deleting tombstone" l s); [done| |done|]|reflexivity].
    - eapply sublist_NoDup; [by apply (NoDup_table_prefix "")|apply sublist_filter].
    - intros x [_ (k&Hk&_)%elem_of_table_prefix]%list_elem_of_filter. exists k. split; [by apply Hr|done]. }
  eexists. split; [unfold ReapTombstones, write_txn; fold s; by rewrite Hrun|]. simpl.
  split; [|done]. intros k. rewrite lookup_without.
  destruct (tombstones (st_db st) !! k) as [x|] eqn:Hk; [|done].
  assert (x ∈ l ↔ (ts_Index x ≤ idx)%N) as Hl.
  { unfold l. rewrite list_elem_of_filter, elem_of_table_prefix. split; [by intros [? _]|].
    intros ?. split; [done|]. exists k. split; [done|apply prefix_empty]. }
  destruct (decide (x ∈ l)), (decide (ts_Index x ≤ idx)%N); tauto.
Qed.
Lemma ReapTombstones_spec_witness :
  let st := (applyKVSOperation 0 4 (kv_op "delete" "foo/bar/y") slide_store).2 in
  (∃ st', ReapTombstones 0 2 slide_store = (Ok tt, st')) ∧
  tombstones (st_db (ReapTombstones 0 2 st).2) !! string_args false "foo/bar/x" = None ∧
  tombstones (st_db (ReapTombstones 0 2 st).2) !! string_args false "foo/bar/y" = Some (mkTombstone "foo/bar/y" 4).
Proof.
  split; [|split; vm_compute; reflexivity].
  destruct (ReapTombstones_spec 0 2 slide_store slide_store_reachable) as (st'&Hrun&_). exists st'. exact Hrun.
Defined.

(** ** Lock delays *)

(** A timer of [key] is due at [t]. *)
Definition timer_due (t : Z) (key : string) (d : Delay) : bool :=
  existsb (λ x, bool_decide (x.2 = key ∧ (x.1 ≤ t)%Z)) (delay_timers d).

Lemma lookup_fire d t key :
  GetExpiration (fire_timers t d) key = if timer_due t key d then None else GetExpiration d key.
Proof.
  unfold fire_timers, GetExpiration, timer_due. simpl. generalize (delay_timers d) as l. intros l.
  induction l as [|[x k] l IH]; [done|].
  rewrite filter_cons. cbn [existsb fst snd]. case_decide as Hx; cbn [fst] in Hx;
    rewrite ?fmap_cons; cbn [foldr snd].
  - destruct (decide (k = key)) as [->|Hne].
    + rewrite lookup_delete_eq. by rewrite bool_decide_true.
    + rewrite lookup_delete_ne, IH by done. by rewrite bool_decide_false by tauto.
  - rewrite IH. by rewrite bool_decide_false by tauto.
Qed.
Lemma timer_not_due t key d : (∀ x, (x, key) ∉ delay_timers d) → timer_due t key d = false.
Proof.
  intros Hno. apply not_true_iff_false. intros ([x k]&Hin&Hx)%existsb_exists.
  apply bool_decide_eq_true in Hx as [Hk _]. simpl in Hk. subst k. apply (Hno x). by apply list_elem_of_In.
Qed.

(** C22. A lock delay that is set while no timer is pending for its key, and is
    not set again, holds until it expires and is forgotten then: at any later
    time [t] (the timers that are due having fired), [kvsPreApply] answers a
    token that may write the key that it may try to take the lock exactly when
    the expiration has come. *)
Theorem lock_delay_window d key now delay t :
  (∀ x, (x, key) ∉ delay_timers d) → (0 < delay)%Z → (now ≤ t)%Z →
  let d' := fire_timers t (SetExpiration d key now delay) in
  GetExpiration d' key = (if decide (t < now + delay)%Z then Some (now + delay)%Z else None) ∧
  expires_after (GetExpiration d' key) t = bool_decide (t < now + delay)%Z ∧
  ∀ (T : Type → Type) (radix : RadixOps T) (rule : option (Authorizer T)) e st,
    de_Key e = key → key ≠ "" → denies rule (λ a, KeyWrite a key) = false → st_delay st = d' →
    kvsPreApply t rule "lock" e st = Ok (bool_decide (now + delay ≤ t)%Z).
Proof.
  intros Hno Hd Ht d'. assert (GetExpiration d' key = if decide (t < now + delay)%Z then Some (now + delay)%Z else None) as Hg.
  { unfold d'. rewrite lookup_fire. unfold timer_due. simpl. fold (timer_due t key d).
    rewrite timer_not_due, orb_false_r by done. destruct (decide (t < now + delay)%Z).
    - rewrite bool_decide_false by lia. unfold GetExpiration. simpl. by rewrite lookup_insert_eq.
    - by rewrite bool_decide_true by (split; [done|lia]). }
  split; [done|]. split.
  - rewrite Hg. case_decide; simpl; [by rewrite bool_decide_true by done; apply Z.ltb_lt|by rewrite bool_decide_false].
  - intros T radix rule e st <- Hne Hrule Hst. unfold kvsPreApply. rewrite decide_False by tauto. simpl. rewrite Hrule.
    unfold KVSLockDelay. rewrite Hst, Hg. destruct (decide (t < now + delay)%Z).
    + rewrite bool_decide_false by lia. by rewrite (proj2 (Z.ltb_lt _ _)).
    + by rewrite bool_decide_true by lia.
Qed.
Lemma lock_delay_window_witness :
  (∀ x, (x, "k") ∉ delay_timers NewDelay) ∧
  GetExpiration (fire_timers 5 (SetExpiration NewDelay "k" 0 15)) "k" = Some 15%Z ∧
  kvsPreApply (T := gmap string) 5 (Some ManageAll) "lock" (mkDirEntry 0 "k" 0 "" "s" 0 0)
    (mkStore empty_db (fire_timers 5 (SetExpiration NewDelay "k" 0 15)) None) = Ok false.
Proof.
  assert (∀ x, (x, "k") ∉ delay_timers NewDelay) as Hno by (by intros x ?%elem_of_nil).
  split; [exact Hno|]. destruct (lock_delay_window NewDelay "k" 0 15 5 Hno ltac:(lia) ltac:(lia)) as (Hg&_&Hp).
  split; [exact Hg|]. apply (Hp (gmap string) _ (Some ManageAll) (mkDirEntry 0 "k" 0 "" "s" 0 0)); done.
Defined.

(** Setting a delay does not disarm the timer of an earlier one for the
    same key: when the earlier timer fires, it deletes the later expiration
    too, and the key can be acquired before its lock delay is over. *)
Lemma earlier_timer_ends_later_delay d key now1 delay1 now2 delay2 t :
  (now1 + delay1 ≤ t < now2 + delay2)%Z →
  let d' := SetExpiration (SetExpiration d key now1 delay1) key now2 delay2 in
  expires_after (GetExpiration d' key) t = true ∧
  expires_after (GetExpiration (fire_timers t d') key) t = false.
Proof.
  intros Ht d'. split.
  - unfold d', GetExpiration. simpl. rewrite lookup_insert_eq. simpl. apply Z.ltb_lt, Ht.
  - rewrite lookup_fire. unfold timer_due, d'. simpl.
    rewrite (bool_decide_true (key = key ∧ (now1 + delay1 ≤ t)%Z)) by (split; [done|apply Ht]).
    by rewrite orb_true_r.
Qed.
Lemma earlier_timer_ends_later_delay_witness :
  let d' := SetExpiration (SetExpiration NewDelay "k" 0 15) "k" 5 60 in
  expires_after (GetExpiration d' "k") 16 = true ∧
  expires_after (GetExpiration (fire_timers 16 d') "k") 16 = false.
Proof. apply (earlier_timer_ends_later_delay NewDelay "k" 0 15 5 60 16). split; [discriminate|reflexivity]. Defined.
