(* ===== verification/AclMerge.v ===== *)
(** * Rule trees decide like their reference, and merging policies keeps the
      strongest permission of each segment

    The reference for trees: the exact rule of a name if there is one, else the rule of
    its longest prefix that has one. *)

From S2P Require Import Prelude Memdb MemdbFacts Radix Acl Authorizer.
From S2P Require Import Logic.

(** ** Longest prefixes *)

Fixpoint longest (f : string → option string) (s : string) : option string :=
  match s with
  | EmptyString => f ""
  | String c s =>
      match longest (λ k, f (String c k)) s with
      | Some p => Some p
      | None => f ""
      end
  end.

(** No prefix of [s] longer than [k] has a rule. *)
Definition maximal (f : string → option string) (s k : string) : Prop :=
  ∀ k', String.prefix k' s = true → String.length k < String.length k' → f k' = None.

Lemma longest_spec f s :
  match longest f s with
  | Some p => ∃ k, String.prefix k s = true ∧ f k = Some p ∧ maximal f s k
  | None => ∀ k, String.prefix k s = true → f k = None
  end.
Proof.
  revert f. induction s as [|c s IH]; intros f; cbn [longest].
  { destruct (f "") as [p|] eqn:Hf.
    - exists "". split_and!; [done..|]. intros k' Hk'%prefix_length. simpl in *. lia.
    - intros [|d k] Hk; [done|discriminate]. }
  specialize (IH (λ k, f (String c k))). destruct (longest _ s) as [p|].
  - destruct IH as (k&Hk&Hp&Hmax). exists (String c k). split_and!; [|done|].
    + by rewrite prefix_cons, bool_decide_true.
    + intros [|d k'] Hk' Hlt; simpl in Hlt; [lia|].
      rewrite prefix_cons, andb_true_iff, bool_decide_eq_true in Hk'. destruct Hk' as [-> Hk'].
      apply Hmax; [done|]. lia.
  - assert (∀ k, String.prefix k (String c s) = true → k ≠ "" → f k = None) as Hnone.
    { intros [|d k] Hk Hne; [done|]. rewrite prefix_cons, andb_true_iff, bool_decide_eq_true in Hk.
      destruct Hk as [-> Hk]. by apply IH. }
    destruct (f "") as [p|] eqn:Hf.
    + exists "". split_and!; [done..|]. intros k' Hk' Hlt. apply Hnone; [done|]. intros ->. simpl in Hlt. lia.
    + intros k Hk. destruct (decide (k = "")) as [->|]; [done|by apply Hnone].
Qed.
Lemma longest_Some f s k p :
  String.prefix k s = true → f k = Some p → maximal f s k → longest f s = Some p.
Proof.
  intros Hk Hp Hmax. pose proof (longest_spec f s) as Hs. destruct (longest f s) as [q|].
  - destruct Hs as (k'&Hk'&Hq&Hmax').
    destruct (decide (String.length k < String.length k')) as [Hlt|]; [by rewrite Hmax in Hq|].
    destruct (decide (String.length k' < String.length k)) as [Hlt|]; [by rewrite Hmax' in Hp|].
    assert (k = k') as <- by (eapply prefix_same; [done..|lia]). congruence.
  - by rewrite Hs in Hp.
Qed.
Lemma longest_None f s : (∀ k, String.prefix k s = true → f k = None) → longest f s = None.
Proof.
  intros Hn. pose proof (longest_spec f s) as Hs. destruct (longest f s); [|done].
  destruct Hs as (k&Hk&Hp&_). by rewrite Hn in Hp.
Qed.
Lemma longest_ext f g s : (∀ k, f k = g k) → longest f s = longest g s.
Proof.
  revert f g. induction s as [|c s IH]; intros f g Hfg; simpl; [done|].
  rewrite (IH _ (λ k, g (String c k))) by done. by rewrite Hfg.
Qed.

(** ** Trees *)

Section tree.
Context {T : Type → Type} `{RadixTree T}.
Implicit Types t : T leaf.

Definition exact_at (t : T leaf) (s : string) : option string := radix_Get s t ≫= leaf_exact.
Definition prefix_at (t : T leaf) (s : string) : option string := radix_Get s t ≫= leaf_prefix.
Definition lookup_rule (exact prefix : string → option string) (s : string) : option string :=
  match exact s with Some p => Some p | None => longest prefix s end.

Lemma exact_at_insert t k e p s :
  exact_at (insertPolicyIntoRadix k t e p) s =
    if decide (s = k) then (match e with Some _ => e | None => exact_at t s end) else exact_at t s.
Proof.
  unfold exact_at, insertPolicyIntoRadix. destruct (radix_Get k t) as [x|] eqn:Hx;
    rewrite radix_get_insert; case_decide; subst; simpl; rewrite ?Hx; by destruct e.
Qed.
Lemma prefix_at_insert t k e p s :
  prefix_at (insertPolicyIntoRadix k t e p) s =
    if decide (s = k) then (match p with Some _ => p | None => prefix_at t s end) else prefix_at t s.
Proof.
  unfold prefix_at, insertPolicyIntoRadix. destruct (radix_Get k t) as [x|] eqn:Hx;
    rewrite radix_get_insert; case_decide; subst; simpl; rewrite ?Hx; by destruct p.
Qed.

(** The last rule of a segment in a list. *)
Definition last_rule (acc : option string) (l : list (string * string)) (s : string) : option string :=
  foldl (λ acc r, if decide (s = r.1) then Some r.2 else acc) acc l.

Lemma exact_at_exacts t ex s :
  exact_at (foldl (λ t r, insertPolicyIntoRadix r.1 t (Some r.2) None) t ex) s = last_rule (exact_at t s) ex s.
Proof.
  unfold last_rule. revert t. induction ex as [|r ex IH]; intros t; simpl; [done|].
  rewrite IH, exact_at_insert. done.
Qed.
Lemma exact_at_prefixes t pf s :
  exact_at (foldl (λ t r, insertPolicyIntoRadix r.1 t None (Some r.2)) t pf) s = exact_at t s.
Proof.
  revert t. induction pf as [|r pf IH]; intros t; simpl; [done|]. rewrite IH, exact_at_insert. by case_decide.
Qed.
Lemma prefix_at_exacts t ex s :
  prefix_at (foldl (λ t r, insertPolicyIntoRadix r.1 t (Some r.2) None) t ex) s = prefix_at t s.
Proof.
  revert t. induction ex as [|r ex IH]; intros t; simpl; [done|]. rewrite IH, prefix_at_insert. by case_decide.
Qed.
Lemma prefix_at_prefixes t pf s :
  prefix_at (foldl (λ t r, insertPolicyIntoRadix r.1 t None (Some r.2)) t pf) s = last_rule (prefix_at t s) pf s.
Proof.
  unfold last_rule. revert t. induction pf as [|r pf IH]; intros t; simpl; [done|].
  rewrite IH, prefix_at_insert. done.
Qed.
Lemma exact_at_load ex pf s : exact_at (load_rules ex pf) s = last_rule None ex s.
Proof.
  unfold load_rules. rewrite exact_at_prefixes, exact_at_exacts. unfold exact_at. by rewrite radix_get_new.
Qed.
Lemma prefix_at_load ex pf s : prefix_at (load_rules ex pf) s = last_rule None pf s.
Proof.
  unfold load_rules. rewrite prefix_at_prefixes, prefix_at_exacts. unfold prefix_at. by rewrite radix_get_new.
Qed.

(** The last prefix rule that a walk down a path has seen. *)
Definition last_prefix (acc : option string) (l : list (string * leaf)) : option string :=
  foldl (λ acc e, match leaf_prefix e.2 with Some p => Some p | None => acc end) acc l.

Lemma last_prefix_longest t s : last_prefix None (WalkPath s t) = longest (prefix_at t) s.
Proof.
  symmetry. assert (∀ k x, (k, x) ∈ WalkPath s t → String.prefix k s = true ∧ prefix_at t k = leaf_prefix x) as Hin.
  { intros k x [Hx Hk]%radix_path. unfold prefix_at. by rewrite Hx. }
  assert (∀ k p, String.prefix k s = true → prefix_at t k = Some p →
            ∃ x, (k, x) ∈ WalkPath s t ∧ leaf_prefix x = Some p) as Hall.
  { intros k p Hk Hp. unfold prefix_at in Hp. apply bind_Some in Hp as (x&Hx&Hp).
    exists x. split; [by apply radix_path|done]. }
  pose proof (radix_path_sorted s t) as Hs. revert Hin Hall Hs. generalize (WalkPath s t).
  intros l. induction l as [|[k x] l IH] using rev_ind; intros Hin Hall Hs.
  { apply longest_None. intros k Hk. destruct (prefix_at t k) eqn:Hp; [|done].
    destruct (Hall _ _ Hk Hp) as (x&Hx%elem_of_nil&_). done. }
  apply StronglySorted_app in Hs as (Hlt&Hs&_). unfold last_prefix. rewrite foldl_app. simpl.
  destruct (Hin k x) as [Hk Hpk]; [set_solver|]. destruct (leaf_prefix x) as [p|] eqn:Hx.
  - apply (longest_Some _ _ k); [done..|]. intros k' Hk' Hlen. destruct (prefix_at t k') as [q|] eqn:Hq; [|done].
    destruct (Hall _ _ Hk' Hq) as (x'&[Hx'| [= -> ->]%list_elem_of_singleton]%elem_of_app&_); [|lia].
    assert (above (k', x') (k, x)) by (apply Hlt; [done|by left]). unfold above in *. simpl in *. lia.
  - apply IH; [|  |done].
    + intros k' x' Hin'. apply Hin. set_solver.
    + intros k' q Hk' Hq. destruct (Hall _ _ Hk' Hq) as (x'&[?| [= -> ->]%list_elem_of_singleton]%elem_of_app&Hq'); eauto.
      congruence.
Qed.

Definition getPolicy_step (s path : string) (policies : leaf) (policy : option string) : bool * option string :=
  if bool_decide (is_Some (leaf_exact policies)) && bool_decide (path = s)
  then (true, leaf_exact policies)
  else match leaf_prefix policies with
       | Some p => (false, Some p)
       | None => (false, policy)
       end.
Lemma walk_getPolicy s (exact : option string) l acc :
  (∀ k x, (k, x) ∈ l → k = s → leaf_exact x = exact) → (∀ p, exact = Some p → ∃ x, (s, x) ∈ l) →
  walk l (getPolicy_step s) acc = match exact with Some p => Some p | None => last_prefix acc l end.
Proof.
  revert acc. induction l as [|[k x] l IH]; intros acc Hex Hin; simpl.
  { destruct exact as [p|]; [|done]. by destruct (Hin p eq_refl) as [x ?%elem_of_nil]. }
  unfold getPolicy_step at 1. destruct (decide (k = s)) as [->|Hne].
  - rewrite (Hex s x) by (done || by left). destruct exact as [p|].
    + by rewrite !bool_decide_true.
    + rewrite (bool_decide_false (is_Some _)) by (by intros [? ?]). simpl.
      destruct (leaf_prefix x); apply IH; set_solver.
  - rewrite (bool_decide_false (k = s)), andb_false_r by done.
    assert (∀ p, exact = Some p → ∃ x0, (s, x0) ∈ l) as Hin'.
    { intros p Hp. destruct (Hin p Hp) as [x' [[= -> ->]|?]%elem_of_cons]; [done|eauto]. }
    destruct (leaf_prefix x); (apply IH; [set_solver|done]).
Qed.
Lemma getPolicy_spec s t : getPolicy s t = lookup_rule (exact_at t) (prefix_at t) s.
Proof.
  unfold lookup_rule. rewrite <- last_prefix_longest. apply walk_getPolicy.
  - intros k x [Hx _]%radix_path ->. unfold exact_at. by rewrite Hx.
  - intros p Hp. unfold exact_at in Hp. apply bind_Some in Hp as (x&Hx&_).
    exists x. apply radix_path. split; [done|apply prefix_refl].
Qed.
End tree.

(** * Merging policies keeps the strongest permission of each segment *)

(** ** The strongest of some permissions

    Deny, then write, list and read; the order of the permissions and their
    repetition do not matter. *)

Definition strongest (l : list string) : option string :=
  if decide (PolicyDeny ∈ l) then Some PolicyDeny
  else if decide (PolicyWrite ∈ l) then Some PolicyWrite
  else if decide (PolicyList ∈ l) then Some PolicyList
  else if decide (PolicyRead ∈ l) then Some PolicyRead
  else None.

(** A permission, or none. *)
Definition permission (p : string) : Prop := isKeyPolicyValid p = true.
Lemma permission_cases p : permission p ↔ p = PolicyDeny ∨ p = PolicyWrite ∨ p = PolicyList ∨ p = PolicyRead.
Proof.
  unfold permission, isKeyPolicyValid, isPolicyValid. rewrite !orb_true_iff, !bool_decide_eq_true. tauto.
Qed.
Lemma policy_permission p : isPolicyValid p = true → permission p.
Proof. intros Hp. unfold permission, isKeyPolicyValid. by rewrite Hp, orb_true_r. Qed.

Lemma strongest_ext l l' : (∀ p, p ∈ l ↔ p ∈ l') → strongest l = strongest l'.
Proof. intros Hl. unfold strongest. repeat case_decide; naive_solver. Qed.
#[export] Instance strongest_perm : Proper ((≡ₚ) ==> (=)) strongest.
Proof. intros l l' Hl. apply strongest_ext. intros p. by rewrite Hl. Qed.

Lemma strongest_in l p : strongest l = Some p → p ∈ l ∧ permission p.
Proof. unfold strongest. intros Hs. repeat case_decide; simplify_eq; split; (done || (apply permission_cases; tauto)). Qed.
Lemma strongest_single p : permission p → strongest [p] = Some p.
Proof. intros [->|[->|[->| ->]]]%permission_cases; reflexivity. Qed.

(** A merging step adds a permission (or an empty one). *)
Definition permission_or_none (p : string) : Prop := permission p ∨ p = "".
Lemma permission_or_none_cases p : permission_or_none p →
  p = PolicyDeny ∨ p = PolicyWrite ∨ p = PolicyList ∨ p = PolicyRead ∨ p = "".
Proof. intros [Hp| ->]; [apply permission_cases in Hp|]; tauto. Qed.
Definition strongest_of (l : list string) : string := default "" (strongest l).
Lemma strongest_of_perm l : permission_or_none (strongest_of l).
Proof.
  unfold strongest_of. destruct (strongest l) as [p|] eqn:Hp; [|by right]. left. by apply strongest_in in Hp as [_ ?].
Qed.
Lemma not_elem_cons (x y : string) l : x ∉ y :: l ↔ x ≠ y ∧ x ∉ l.
Proof. rewrite elem_of_cons. tauto. Qed.
Lemma strongest_of_cons p l : permission_or_none p → strongest_of (p :: l) = merge_permission (strongest_of l) p.
Proof.
  intros Hp%permission_or_none_cases. unfold strongest_of, strongest.
  destruct Hp as [->|[->|[->|[->| ->]]]]; repeat case_decide; try reflexivity; exfalso;
    repeat match goal with
      | H : _ ∈ _ :: _ |- _ => apply elem_of_cons in H as [?|?]; [discriminate|]
      | H : _ ∉ _ :: _ |- _ => apply not_elem_cons in H as [??]
      end; try done.
Qed.
Lemma strongest_of_merge l acc :
  permission_or_none acc → Forall permission_or_none l →
  foldl merge_permission acc l = strongest_of (acc :: l).
Proof.
  revert acc. induction l as [|p l IH]; intros acc Ha Hl; simpl.
  { rewrite strongest_of_cons by done. change (acc = merge_permission "" acc).
    by destruct (permission_or_none_cases _ Ha) as [->|[->|[->|[->| ->]]]]. }
  apply list.Forall_cons in Hl as [Hp Hl].
  assert (permission_or_none (merge_permission acc p)) by (unfold merge_permission; by case_match).
  rewrite IH by done. rewrite (strongest_of_cons acc (p :: l)), (strongest_of_cons p l), (strongest_of_cons (merge_permission acc p) l) by done.
  destruct (permission_or_none_cases _ Ha) as [->|[->|[->|[->| ->]]]],
    (permission_or_none_cases _ Hp) as [->|[->|[->|[->| ->]]]],
    (permission_or_none_cases _ (strongest_of_perm l)) as [->|[->|[->|[->| ->]]]]; reflexivity.
Qed.

(** ** Merging rules *)

(** The permissions that some rules give to a segment. *)
Definition perms_at (s : string) (l : list (string * string)) : list string := snd <$> filter (λ r, r.1 = s) l.

Lemma perms_at_app s l l' : perms_at s (l ++ l') = perms_at s l ++ perms_at s l'.
Proof. unfold perms_at. by rewrite list.filter_app, fmap_app. Qed.
Lemma perms_at_cons s r l : perms_at s (r :: l) = if decide (r.1 = s) then r.2 :: perms_at s l else perms_at s l.
Proof. unfold perms_at. rewrite filter_cons. by case_decide. Qed.
Lemma perms_at_forall (P : string → Prop) s l : Forall (λ r, P r.2) l → Forall P (perms_at s l).
Proof.
  intros Hl. induction Hl as [|r l Hr Hl IH]; [constructor|]. rewrite perms_at_cons. case_decide; [by constructor|done].
Qed.

Definition merge_option (acc : option string) (p : string) : option string :=
  Some (match acc with Some a => merge_permission a p | None => p end).
Lemma merge_options_some a l : foldl merge_option (Some a) l = Some (foldl merge_permission a l).
Proof. revert a. induction l as [|p l IH]; intros a; simpl; [done|]. apply IH. Qed.
Lemma merge_options_strongest l : Forall permission l → foldl merge_option None l = strongest l.
Proof.
  intros Hl. destruct Hl as [|p l Hp Hl]; [done|]. simpl.
  change (merge_option None p) with (Some p). rewrite merge_options_some, strongest_of_merge by (by left || (eapply list.Forall_impl; [exact Hl|by left])).
  unfold strongest_of. destruct (strongest (p :: l)) as [q|] eqn:Hs; [done|].
  unfold strongest in Hs. repeat case_decide; try done.
  apply permission_cases in Hp as [->|[->|[->| ->]]]; rewrite elem_of_cons in *; tauto.
Qed.

(** A map of rules by their segment. *)
Definition keyed_rules {A} `{RuleKind A} (m : gmap string A) : Prop := map_Forall (λ s r, rule_segment r = s) m.
Section rules.
Context {A : Type} `{RuleKind A}.
Implicit Types (m : gmap string A) (l : list A).

Lemma merge_rule_keyed m r : keyed_rules m → keyed_rules (merge_rule m r).
Proof. intros Hm. unfold merge_rule. repeat case_match; try done; by apply map_Forall_insert_2. Qed.
Lemma merge_rules_keyed m l : keyed_rules m → keyed_rules (foldl merge_rule m l).
Proof. revert m. induction l as [|r l IH]; intros m Hm; simpl; [done|]. by apply IH, merge_rule_keyed. Qed.
Lemma merge_rule_lookup m r s :
  rule_policy <$> merge_rule m r !! s =
    if decide (rule_segment r = s) then merge_option (rule_policy <$> m !! s) (rule_policy r) else rule_policy <$> m !! s.
Proof.
  unfold merge_rule. case_decide as Hs; [subst s|].
  - destruct (m !! rule_segment r) as [found|] eqn:Hm; simpl; [|by rewrite lookup_insert_eq].
    unfold merge_option, merge_permission. case_match; [by rewrite lookup_insert_eq|by rewrite Hm].
  - repeat case_match; rewrite ?lookup_insert_ne by done; done.
Qed.
Lemma merge_rules_lookup m l s :
  rule_policy <$> foldl merge_rule m l !! s = foldl merge_option (rule_policy <$> m !! s) (perms_at s (rules_of l)).
Proof.
  revert m. induction l as [|r l IH]; intros m; [done|]. cbn [foldl rules_of fmap list_fmap].
  rewrite perms_at_cons, IH, merge_rule_lookup. cbn [fst snd]. by case_decide.
Qed.

(** What the rules of a merged kind say of a segment. *)
Lemma merged_lookup l s :
  Forall (λ r, permission (rule_policy r)) l →
  rule_policy <$> foldl merge_rule (∅ : gmap string A) l !! s = strongest (perms_at s (rules_of l)).
Proof.
  intros Hl. rewrite merge_rules_lookup, lookup_empty. simpl. apply merge_options_strongest, perms_at_forall.
  by apply Forall_fmap.
Qed.
End rules.

(** The rules in a list without repeated segments. *)
Lemma last_rule_NoDup l acc s p : NoDup l.*1 → (s, p) ∈ l → last_rule acc l s = Some p.
Proof.
  revert acc. induction l as [|r l IH]; intros acc Hnd Hin; [by apply elem_of_nil in Hin|].
  apply list.NoDup_cons in Hnd as [Hr Hnd]. simpl. apply elem_of_cons in Hin as [<-|Hin]; [|by apply IH].
  simpl. rewrite decide_True by done. clear IH Hnd. revert Hr. simpl. generalize (Some p).
  induction l as [|r l IH]; intros q Hr; simpl; [done|]. rewrite decide_False by set_solver. apply IH. set_solver.
Qed.
Lemma last_rule_None l s : s ∉ l.*1 → last_rule None l s = None.
Proof.
  induction l as [|r l IH]; intros Hs; simpl; [done|]. rewrite decide_False by set_solver. apply IH. set_solver.
Qed.
Lemma last_rule_lookup {B} (f : B → string * string) (l : list B) (g : string → option B) s :
  NoDup (f <$> l).*1 → (∀ k x, g k = Some x ↔ x ∈ l ∧ (f x).1 = k) →
  last_rule None (f <$> l) s = (λ x, (f x).2) <$> g s.
Proof.
  intros Hnd Hg. destruct (g s) as [x|] eqn:Hx; simpl.
  - apply last_rule_NoDup; [done|]. apply Hg in Hx as [Hx Hk]. subst s. apply list_elem_of_fmap. exists x. by destruct (f x).
  - apply last_rule_None. rewrite <- list_fmap_compose, list_elem_of_fmap. intros (x&Hs&Hin).
    assert (g s = Some x) by (apply Hg; done). congruence.
Qed.
Lemma last_rule_range `{MapRangeSpec} {A} `{RuleKind A} (m : gmap string A) s :
  keyed_rules m → last_rule None (rules_of (range m)) s = rule_policy <$> m !! s.
Proof.
  intros Hm. apply (last_rule_lookup (λ r, (rule_segment r, rule_policy r)) (range m) (λ k, m !! k)).
  - rewrite range_perm, <- list_fmap_compose, <- list_fmap_compose.
    rewrite (list_fmap_ext _ fst); [apply NoDup_fst_map_to_list|]. intros i [k r] Hr%list_elem_of_lookup_2.
    apply elem_of_map_to_list in Hr. apply (Hm _ _ Hr).
  - intros k r. rewrite range_perm, list_elem_of_fmap. simpl. split.
    + intros Hr. split; [|by apply Hm]. exists (k, r). split; [done|]. by apply elem_of_map_to_list.
    + intros [([k' r']&->&Hr%elem_of_map_to_list) <-]. simpl in *. by rewrite (Hm _ _ Hr).
Qed.

(** ** Merging service rules through their pointers *)

(** The service rules that some pointers name in a heap. *)
Definition services_in (h : heap) (ls : list loc) : list ServicePolicy := omap (λ l, h !! l) ls.
Definition service_rules (h : heap) (ls : list loc) : list (string * string) := service_rule <$> services_in h ls.
Definition service_intentions (h : heap) (ls : list loc) : list (string * string) :=
  (λ sp, (sp_Name sp, sp_Intentions sp)) <$> services_in h ls.

(** The merged rules [m] in the heap [h] of the rules [P] of the heap [h0]. *)
Definition merged_services (h0 : heap) (P : list loc) (m : gmap string loc) (h : heap) : Prop := ∀ n,
  match m !! n with
  | Some l => l ∈ P ∧ strongest (perms_at n (service_rules h0 P)) ≠ None ∧
      h !! l = Some (mkServicePolicy n (strongest_of (perms_at n (service_rules h0 P)))
                                       (strongest_of (perms_at n (service_intentions h0 P))))
  | None => perms_at n (service_rules h0 P) = []
  end.
Definition service_ok (h : heap) (l : loc) : Prop := ∃ sp, h !! l = Some sp ∧
  isPolicyValid (sp_Policy sp) = true ∧ (sp_Intentions sp = "" ∨ isPolicyValid (sp_Intentions sp) = true).

Lemma service_rules_snoc h P l sp :
  h !! l = Some sp → service_rules h (P ++ [l]) = service_rules h P ++ [service_rule sp].
Proof. intros Hl. unfold service_rules, services_in. rewrite omap_app, fmap_app. simpl. by rewrite Hl. Qed.
Lemma service_intentions_snoc h P l sp :
  h !! l = Some sp → service_intentions h (P ++ [l]) = service_intentions h P ++ [(sp_Name sp, sp_Intentions sp)].
Proof. intros Hl. unfold service_intentions, services_in. rewrite omap_app, fmap_app. simpl. by rewrite Hl. Qed.
Lemma perms_at_snoc s l r : perms_at s (l ++ [r]) = if decide (r.1 = s) then perms_at s l ++ [r.2] else perms_at s l.
Proof. rewrite perms_at_app, (perms_at_cons s r []). case_decide; [done|]. by rewrite app_nil_r. Qed.
Lemma strongest_of_snoc l p : permission_or_none p → strongest_of (l ++ [p]) = merge_permission (strongest_of l) p.
Proof.
  intros Hp. rewrite <- strongest_of_cons by done. unfold strongest_of.
  by rewrite (strongest_perm (l ++ [p]) (p :: l)) by (by rewrite Permutation_app_comm).
Qed.
Lemma strongest_snoc l p : permission p → strongest (l ++ [p]) ≠ None.
Proof.
  intros Hp Hs. unfold strongest in Hs. repeat case_decide; try done.
  apply permission_cases in Hp as [->|[->|[->| ->]]]; set_solver.
Qed.
Lemma intentions_none h P n : perms_at n (service_rules h P) = [] → perms_at n (service_intentions h P) = [].
Proof.
  unfold service_rules, service_intentions. generalize (services_in h P). intros l.
  induction l as [|sp l IH]; [done|]. simpl. rewrite !perms_at_cons. simpl. by case_decide.
Qed.

(** What other pointers name does not matter. *)
Lemma merged_services_frame h0 P m h h' :
  merged_services h0 P m h → (∀ l, l ∈ P → h' !! l = h !! l) → merged_services h0 P m h'.
Proof.
  intros Hm Hh n. specialize (Hm n). destruct (m !! n) as [l|]; [|done].
  destruct Hm as (Hl&Hs&Hx). split_and!; [done..|]. by rewrite Hh.
Qed.
Lemma merged_services_other (h0 : heap) (P : list loc) l sp n :
  h0 !! l = Some sp → sp_Name sp ≠ n →
  perms_at n (service_rules h0 (P ++ [l])) = perms_at n (service_rules h0 P) ∧
  perms_at n (service_intentions h0 (P ++ [l])) = perms_at n (service_intentions h0 P).
Proof.
  intros Hl Hn. rewrite (service_rules_snoc _ _ _ sp), (service_intentions_snoc _ _ _ sp), !perms_at_snoc by done.
  simpl. by rewrite !decide_False.
Qed.

(** The runs of [merge_service], in terms of the rules in the heap. *)
Lemma load_run l sp (h : heap) : h !! l = Some sp → load l h = (Ok sp, h).
Proof. intros Hl. unfold load. by rewrite Hl. Qed.
Lemma store_if_run (b : bool) l sp sp' (h : heap) :
  h !! l = Some sp → (if b then store l sp' else mreturn tt) h = (Ok tt, <[l := if b then sp' else sp]> h).
Proof. intros Hl. destruct b; [done|]. by rewrite insert_id. Qed.
Lemma merge_service_new m h l sp :
  h !! l = Some sp → m !! sp_Name sp = None → merge_service m l h = (Ok (<[sp_Name sp := l]> m), h).
Proof. intros Hl Hm. unfold merge_service. erewrite run_bind_ok by by apply load_run. by rewrite Hm. Qed.
Definition merged_service (e sp : ServicePolicy) : ServicePolicy :=
  mkServicePolicy (sp_Name e) (merge_permission (sp_Policy e) (sp_Policy sp))
    (merge_permission (sp_Intentions e) (sp_Intentions sp)).
Lemma merge_service_found m h l sp l0 e :
  h !! l = Some sp → m !! sp_Name sp = Some l0 → h !! l0 = Some e → l ≠ l0 →
  merge_service m l h = (Ok m, <[l0 := merged_service e sp]> h).
Proof.
  intros Hl Hm Hl0 Hne. unfold merge_service. erewrite run_bind_ok by by apply load_run. rewrite Hm.
  erewrite run_bind_ok by by apply load_run. erewrite run_bind_ok by by apply store_if_run.
  set (e1 := if takesPrecedenceOver (sp_Policy sp) _ then _ else _).
  erewrite run_bind_ok by (apply load_run; by rewrite lookup_insert_ne).
  erewrite run_bind_ok by (apply load_run, lookup_insert_eq).
  erewrite run_bind_ok by (apply store_if_run, lookup_insert_eq).
  unfold mreturn. rewrite insert_insert_eq. repeat f_equal. unfold merged_service, merge_permission, e1.
  destruct e as [n p i]; simpl. destruct (takesPrecedenceOver (sp_Policy sp) p); simpl;
    by destruct (takesPrecedenceOver (sp_Intentions sp) i).
Qed.

Section merge_step.
Variables (h0 : heap) (P : list loc) (m : gmap string loc) (h : heap) (l : loc) (sp : ServicePolicy).
Hypothesis Hm : merged_services h0 P m h.
Hypothesis Hl : l ∉ P.
Hypothesis Hsp : h0 !! l = Some sp.
Hypothesis Hp : permission (sp_Policy sp).
Hypothesis Hi : permission_or_none (sp_Intentions sp).

Lemma merged_services_new : h !! l = Some sp → m !! sp_Name sp = None →
  merged_services h0 (P ++ [l]) (<[sp_Name sp := l]> m) h.
Proof using Hm Hl Hsp Hp Hi.
  intros Hh Hm0 n. specialize (Hm n). destruct (decide (sp_Name sp = n)) as [<-|Hne].
  - rewrite Hm0 in Hm. rewrite lookup_insert_eq.
    rewrite (service_rules_snoc _ _ _ sp), (service_intentions_snoc _ _ _ sp), !perms_at_snoc by done.
    simpl. rewrite !decide_True by done. rewrite Hm, (intentions_none _ _ _ Hm). simpl.
    split_and!; [set_solver|by rewrite strongest_single|]. rewrite Hh, !strongest_of_cons by (done || by left).
    destruct sp as [n p i]. simpl in *. f_equal. change (strongest_of []) with "". f_equal.
    + by apply permission_cases in Hp as [->|[->|[->| ->]]].
    + by destruct (permission_or_none_cases _ Hi) as [->|[->|[->|[->| ->]]]].
  - rewrite lookup_insert_ne by done. destruct (merged_services_other h0 P l sp n) as [-> ->]; [done..|].
    destruct (m !! n) as [l1|]; [|done]. destruct Hm as (Hl1&Hs1&Hx1). split_and!; [set_solver|done..].
Qed.
Lemma merged_services_found l0 e : m !! sp_Name sp = Some l0 → h !! l0 = Some e →
  merged_services h0 (P ++ [l]) m (<[l0 := merged_service e sp]> h).
Proof using Hm Hl Hsp Hp Hi.
  intros Hm0 He n. pose proof (Hm (sp_Name sp)) as Hn0. rewrite Hm0, He in Hn0. destruct Hn0 as (Hl0&Hs&[= ->]).
  pose proof (Hm n) as Hn. destruct (decide (sp_Name sp = n)) as [<-|Hne].
  - rewrite Hm0. rewrite (service_rules_snoc _ _ _ sp), (service_intentions_snoc _ _ _ sp), !perms_at_snoc by done.
    simpl. rewrite !decide_True by done. rewrite !strongest_of_snoc by (done || by left).
    split_and!; [set_solver|by apply strongest_snoc|]. by rewrite lookup_insert_eq.
  - destruct (merged_services_other h0 P l sp n) as [-> ->]; [done..|].
    destruct (m !! n) as [l1|] eqn:Hm1; [|done]. destruct Hn as (Hl1&Hs1&Hx1). split_and!; [set_solver|done|].
    rewrite lookup_insert_ne; [done|]. intros ->. congruence.
Qed.
End merge_step.

Lemma merge_service_run h0 P m h l :
  merged_services h0 P m h → l ∉ P → h !! l = h0 !! l → service_ok h0 l →
  ∃ m' h', merge_service m l h = (Ok m', h') ∧ merged_services h0 (P ++ [l]) m' h' ∧
    ∀ l', l' ∉ P → h' !! l' = h !! l'.
Proof.
  intros Hm Hl Hh (sp&Hsp&Hv&Hi). rewrite Hsp in Hh.
  assert (permission (sp_Policy sp)) as Hp by by apply policy_permission.
  assert (permission_or_none (sp_Intentions sp)) as Hpi.
  { destruct Hi; [by right|left; by apply policy_permission]. }
  destruct (m !! sp_Name sp) as [l0|] eqn:Hm0.
  - pose proof (Hm (sp_Name sp)) as Hn. rewrite Hm0 in Hn. destruct Hn as (Hl0&_&Hx).
    eexists m, _. split_and!.
    + apply merge_service_found; [done..|]. by intros ->.
    + by apply merged_services_found.
    + intros l' Hl'. rewrite lookup_insert_ne; [done|]. by intros ->.
  - eexists _, h. split_and!; [by apply merge_service_new|by apply merged_services_new|done].
Qed.
Lemma merge_services_run h0 ls P m h :
  merged_services h0 P m h → NoDup ls → ls ## P → (∀ l, l ∈ ls → h !! l = h0 !! l) → Forall (service_ok h0) ls →
  ∃ m' h', mfold merge_service m ls h = (Ok m', h') ∧ merged_services h0 (P ++ ls) m' h' ∧
    ∀ l', l' ∉ P ++ ls → h' !! l' = h !! l'.
Proof.
  revert P m h. induction ls as [|l ls IH]; intros P m h Hm Hnd Hd Hh Hok.
  { exists m, h. by rewrite app_nil_r. }
  apply list.Forall_cons in Hok as [Hl Hok]. apply list.NoDup_cons in Hnd as [Hll Hnd].
  destruct (merge_service_run h0 P m h l Hm) as (m1&h1&Hrun&Hm1&Hh1); [set_solver|apply Hh; by left|done|].
  destruct (IH (P ++ [l]) m1 h1 Hm1 Hnd) as (m2&h2&Hrun2&Hm2&Hh2); [set_solver| |done|].
  { intros l' Hl'. rewrite Hh1 by set_solver. apply Hh. by right. }
  exists m2, h2. rewrite <- (assoc_L (++)) in Hm2, Hh2. split_and!; [|done|].
  - simpl. by erewrite run_bind_ok.
  - intros l' Hl'. rewrite Hh2 by done. apply Hh1. set_solver.
Qed.

(** ** Merging policies *)

(** What parsing guarantees of a policy (see [NewPolicyFromSource]). *)
Definition none_or_valid (p : string) : Prop := p = "" ∨ isPolicyValid p = true.
Definition rules_ok {A} `{RuleKind A} (valid : string → bool) (l : list A) : Prop := Forall (λ r, valid (rule_policy r) = true) l.
Record valid_policy (h : heap) (p : Policy) : Prop := {
  vp_acl : none_or_valid (po_ACL p);
  vp_agents : rules_ok isPolicyValid (Agents p);
  vp_agentPrefixes : rules_ok isPolicyValid (AgentPrefixes p);
  vp_keys : rules_ok isKeyPolicyValid (Keys p);
  vp_keyPrefixes : rules_ok isKeyPolicyValid (KeyPrefixes p);
  vp_nodes : rules_ok isPolicyValid (Nodes p);
  vp_nodePrefixes : rules_ok isPolicyValid (NodePrefixes p);
  vp_services : Forall (service_ok h) (Services p);
  vp_servicePrefixes : Forall (service_ok h) (ServicePrefixes p);
  vp_sessions : rules_ok isPolicyValid (Sessions p);
  vp_sessionPrefixes : rules_ok isPolicyValid (SessionPrefixes p);
  vp_events : rules_ok isPolicyValid (Events p);
  vp_eventPrefixes : rules_ok isPolicyValid (EventPrefixes p);
  vp_queries : rules_ok isPolicyValid (PreparedQueries p);
  vp_queryPrefixes : rules_ok isPolicyValid (PreparedQueryPrefixes p);
  vp_keyring : none_or_valid (po_Keyring p);
  vp_operator : none_or_valid (po_Operator p);
}.

Definition merged_maps (mm : merge_maps) (ps : list Policy) (services prefixes : gmap string loc) : merge_maps :=
  mkMaps (foldl merge_permission (mm_acl mm) (po_ACL <$> ps))
    (foldl merge_rule (mm_agents mm) (ps ≫= Agents)) (foldl merge_rule (mm_agentPrefixes mm) (ps ≫= AgentPrefixes))
    (foldl merge_rule (mm_keys mm) (ps ≫= Keys)) (foldl merge_rule (mm_keyPrefixes mm) (ps ≫= KeyPrefixes))
    (foldl merge_rule (mm_nodes mm) (ps ≫= Nodes)) (foldl merge_rule (mm_nodePrefixes mm) (ps ≫= NodePrefixes))
    services prefixes
    (foldl merge_rule (mm_sessions mm) (ps ≫= Sessions)) (foldl merge_rule (mm_sessionPrefixes mm) (ps ≫= SessionPrefixes))
    (foldl merge_rule (mm_events mm) (ps ≫= Events)) (foldl merge_rule (mm_eventPrefixes mm) (ps ≫= EventPrefixes))
    (foldl merge_rule (mm_queries mm) (ps ≫= PreparedQueries))
    (foldl merge_rule (mm_queryPrefixes mm) (ps ≫= PreparedQueryPrefixes))
    (foldl merge_permission (mm_keyring mm) (po_Keyring <$> ps)) (foldl merge_permission (mm_operator mm) (po_Operator <$> ps)).

Lemma merged_maps_cons mm p ps mS mP mS' mP' :
  merged_maps mm (p :: ps) mS' mP' = merged_maps (merged_maps mm [p] mS mP) ps mS' mP'.
Proof. unfold merged_maps. cbn. by rewrite !app_nil_r, !foldl_app. Qed.

(** The pointers of some policies. *)
Definition service_locs (ps : list Policy) : list loc := ps ≫= λ p, Services p ++ ServicePrefixes p.

Lemma merge_policies_run h0 ps PS PP mm h :
  merged_services h0 PS (mm_services mm) h → merged_services h0 PP (mm_servicePrefixes mm) h →
  PS ## PP → NoDup (service_locs ps) → service_locs ps ## PS → service_locs ps ## PP →
  (∀ l, l ∈ service_locs ps → h !! l = h0 !! l) → Forall (service_ok h0) (service_locs ps) →
  ∃ mS mP h', mfold merge_policy mm ps h = (Ok (merged_maps mm ps mS mP), h') ∧
    merged_services h0 (PS ++ (ps ≫= Services)) mS h' ∧
    merged_services h0 (PP ++ (ps ≫= ServicePrefixes)) mP h'.
Proof.
  revert PS PP mm h. induction ps as [|p ps IH]; intros PS PP mm h HS HP HSP Hnd HdS HdP Hh Hok.
  { exists (mm_services mm), (mm_servicePrefixes mm), h. rewrite !app_nil_r. split_and!; [|done..]. by destruct mm. }
  unfold service_locs in *. cbn [mbind list_bind] in *. fold (ps ≫= λ p, Services p ++ ServicePrefixes p) in *.
  apply list.NoDup_app in Hnd as ((HndS&HSPp&HndP)%list.NoDup_app&Hrest&Hnd).
  apply list.Forall_app in Hok as [[HokS HokP]%list.Forall_app Hok].
  destruct (merge_services_run h0 (Services p) PS (mm_services mm) h) as (mS&h1&Hrun1&HS1&Hh1); [done|done|set_solver..|done|].
  destruct (merge_services_run h0 (ServicePrefixes p) PP (mm_servicePrefixes mm) h1) as (mP&h2&Hrun2&HP2&Hh2).
  { eapply merged_services_frame; [done|]. intros l Hl. apply Hh1. set_solver. }
  { done. }
  { set_solver. }
  { intros l Hl. rewrite Hh1 by set_solver. apply Hh. set_solver. }
  { done. }
  set (mm' := merged_maps mm [p] mS mP).
  destruct (IH (PS ++ Services p) (PP ++ ServicePrefixes p) mm' h2) as (mS'&mP'&h'&Hrun&HS'&HP').
  { eapply merged_services_frame; [done|]. intros l Hl. apply Hh2. set_solver. }
  { done. }
  { set_solver. }
  { done. }
  { set_solver. }
  { set_solver. }
  { intros l Hl. rewrite Hh2, Hh1 by set_solver. apply Hh. set_solver. }
  { done. }
  exists mS', mP', h'. rewrite <- !(assoc_L (++)) in HS', HP'. split_and!; [|done..].
  cbn [mfold]. erewrite run_bind_ok; [by rewrite (merged_maps_cons mm p ps mS mP)|].
  unfold merge_policy. erewrite run_bind_ok by done. erewrite run_bind_ok by done.
  unfold mreturn, mm', merged_maps. cbn. by rewrite !app_nil_r.
Qed.

(** ** The trees of a new authorizer *)

(** What some policies say of a segment, with the rules of one kind. *)
Definition said {A} `{RuleKind A} (kind : Policy → list A) (ps : list Policy) (s : string) : option string :=
  strongest (perms_at s (rules_of (ps ≫= kind))).
Definition said_services (h : heap) (kind : Policy → list loc) (ps : list Policy) (s : string) : option string :=
  strongest (perms_at s (service_rules h (ps ≫= kind))).
Definition said_intentions (h : heap) (kind : Policy → list loc) (ps : list Policy) (s : string) : option string :=
  (λ policy, intention_policy (mkServicePolicy s policy (strongest_of (perms_at s (service_intentions h (ps ≫= kind))))))
    <$> said_services h kind ps s.

Lemma load_all_run (h : heap) ls : Forall (λ l, is_Some (h !! l)) ls → mmap load ls h = (Ok (services_in h ls), h).
Proof.
  intros Hls. induction Hls as [|l ls [sp Hl] Hls IH]; [done|]. simpl.
  erewrite run_bind_ok by by apply load_run. erewrite run_bind_ok by exact IH.
  unfold services_in. simpl. by rewrite Hl.
Qed.

Section merged.
Context `{MapRangeSpec}.
Variables (h0 h : heap) (P : list loc) (m : gmap string loc).
Hypothesis Hm : merged_services h0 P m h.

Definition merged_at (n : string) : option ServicePolicy := m !! n ≫= λ l, h !! l.
Lemma merged_at_spec n : merged_at n =
  (λ p, mkServicePolicy n p (strongest_of (perms_at n (service_intentions h0 P)))) <$> strongest (perms_at n (service_rules h0 P)).
Proof using Hm.
  specialize (Hm n). unfold merged_at. destruct (m !! n) as [l|]; simpl; [|by rewrite Hm].
  destruct Hm as (_&Hs&->). unfold strongest_of. by destruct (strongest _).
Qed.
Lemma merged_name n l : m !! n = Some l → ∃ sp, h !! l = Some sp ∧ sp_Name sp = n.
Proof using Hm. intros Hl. specialize (Hm n). rewrite Hl in Hm. destruct Hm as (_&_&->). eauto. Qed.
Lemma merged_alloc : Forall (λ l, is_Some (h !! l)) (range m).
Proof using All.
  rewrite range_perm. apply Forall_fmap, list.Forall_forall. intros [n l] Hl%elem_of_map_to_list.
  destruct (merged_name n l Hl) as (sp&Hsp&_). simpl. by rewrite Hsp.
Qed.
Lemma services_in_perm ls ls' : ls ≡ₚ ls' → services_in h ls ≡ₚ services_in h ls'.
Proof. intros Hls. unfold services_in. by rewrite Hls. Qed.
Lemma merged_names l : (∀ n p, (n, p) ∈ l → m !! n = Some p) → sp_Name <$> services_in h l.*2 = l.*1.
Proof using Hm.
  unfold services_in. induction l as [|[n p] l IH]; intros Hl; [done|].
  destruct (merged_name n p) as (sp&Hsp&Hn); [apply Hl; by left|]. simpl. rewrite Hsp. simpl. rewrite Hn. f_equal.
  apply IH. intros n' p' Hin. apply Hl. by right.
Qed.
Lemma elem_of_merged n sp : merged_at n = Some sp ↔ sp ∈ services_in h (range m) ∧ sp_Name sp = n.
Proof using All.
  unfold merged_at, services_in. rewrite range_perm, list_elem_of_omap. split.
  - intros (l&Hl&Hsp)%bind_Some. destruct (merged_name n l Hl) as (sp'&Hsp'&Hn). simplify_eq. split; [|done].
    exists l. split; [|done]. apply list_elem_of_fmap. exists (sp_Name sp, l). split; [done|]. by apply elem_of_map_to_list.
  - intros [(l&([n' l']&->&Hl%elem_of_map_to_list)%list_elem_of_fmap&Hsp) Hn].
    destruct (merged_name n' l' Hl) as (sp'&Hsp'&Hn'). simpl in *. simplify_eq. by rewrite Hl.
Qed.
Lemma last_rule_merged (f : ServicePolicy → string * string) n :
  (∀ sp, (f sp).1 = sp_Name sp) →
  last_rule None (f <$> services_in h (range m)) n = (λ sp, (f sp).2) <$> merged_at n.
Proof using All.
  intros Hf. apply last_rule_lookup.
  - rewrite <- list_fmap_compose, (list_fmap_ext _ sp_Name) by (intros; apply Hf).
    rewrite (services_in_perm _ _ (range_perm m)), merged_names; [apply NoDup_fst_map_to_list|].
    intros n' p. by rewrite elem_of_map_to_list.
  - intros k sp. rewrite Hf. apply elem_of_merged.
Qed.
End merged.

(** ** The authorizer of some policies *)

Section build.
Context {T : Type → Type} `{RadixTree T} `{MapRangeSpec}.
Variable sum256 : string → string.

(** A tree holds these exact rules and prefix rules. *)
Definition tree_says (t : T leaf) (exact prefix : string → option string) : Prop :=
  ∀ s, exact_at t s = exact s ∧ prefix_at t s = prefix s.

Record rules_say (h : heap) (ps : list Policy) (r : rule_set T) : Prop := {
  rs_acl : aclRule r = strongest_of (po_ACL <$> ps);
  rs_agents : tree_says (agentRules r) (said Agents ps) (said AgentPrefixes ps);
  rs_intentions : tree_says (intentionRules r) (said_intentions h Services ps) (said_intentions h ServicePrefixes ps);
  rs_keys : tree_says (keyRules r) (said Keys ps) (said KeyPrefixes ps);
  rs_nodes : tree_says (nodeRules r) (said Nodes ps) (said NodePrefixes ps);
  rs_services : tree_says (serviceRules r) (said_services h Services ps) (said_services h ServicePrefixes ps);
  rs_sessions : tree_says (sessionRules r) (said Sessions ps) (said SessionPrefixes ps);
  rs_events : tree_says (eventRules r) (said Events ps) (said EventPrefixes ps);
  rs_queries : tree_says (preparedQueryRules r) (said PreparedQueries ps) (said PreparedQueryPrefixes ps);
  rs_keyring : keyringRule r = strongest_of (po_Keyring <$> ps);
  rs_operator : operatorRule r = strongest_of (po_Operator <$> ps);
}.

Lemma tree_says_rules {A} `{RuleKind A} (ex pf : Policy → list A) valid ps :
  (∀ p, valid p = true → permission p) →
  Forall (λ p, rules_ok valid (ex p)) ps → Forall (λ p, rules_ok valid (pf p)) ps →
  tree_says (load_rules (rules_of (range (foldl merge_rule ∅ (ps ≫= ex)))) (rules_of (range (foldl merge_rule ∅ (ps ≫= pf)))))
    (said ex ps) (said pf ps).
Proof.
  intros Hv Hex Hpf s. rewrite exact_at_load, prefix_at_load.
  rewrite !last_rule_range by apply merge_rules_keyed, map_Forall_empty.
  assert (∀ f : Policy → list A, Forall (λ p, rules_ok valid (f p)) ps →
            Forall (λ r, permission (rule_policy r)) (ps ≫= f)) as Hall.
  { intros f Hf. apply Forall_bind. eapply list.Forall_impl; [exact Hf|].
    intros p Hp. eapply list.Forall_impl; [exact Hp|]. intros r. apply Hv. }
  rewrite !merged_lookup by by apply Hall. done.
Qed.

Lemma tree_says_services (f : ServicePolicy → string * string) h0 h ps mS mP :
  merged_services h0 (ps ≫= Services) mS h → merged_services h0 (ps ≫= ServicePrefixes) mP h →
  (∀ sp, (f sp).1 = sp_Name sp) →
  tree_says (load_rules (f <$> services_in h (range mS)) (f <$> services_in h (range mP)))
    (λ s, (λ sp, (f sp).2) <$> merged_at h mS s) (λ s, (λ sp, (f sp).2) <$> merged_at h mP s).
Proof.
  intros HS HP Hf s. rewrite exact_at_load, prefix_at_load. by erewrite !last_rule_merged.
Qed.

Lemma fold_permissions (f : Policy → string) ps :
  Forall (λ p, none_or_valid (f p)) ps → foldl merge_permission "" (f <$> ps) = strongest_of (f <$> ps).
Proof.
  intros Hf. rewrite strongest_of_merge; [|by right|].
  - rewrite strongest_of_cons by by right. unfold merge_permission, takesPrecedenceOver.
    repeat case_decide; done.
  - apply Forall_fmap. eapply list.Forall_impl; [exact Hf|]. intros p [Hp|Hp]; [by right|left; by apply policy_permission].
Qed.

Ltac acl_fields := cbn [aclRule agentRules intentionRules keyRules nodeRules serviceRules sessionRules eventRules
  preparedQueryRules keyringRule operatorRule po_ACL Agents AgentPrefixes Keys KeyPrefixes Nodes NodePrefixes Services
  ServicePrefixes Sessions SessionPrefixes Events EventPrefixes PreparedQueries PreparedQueryPrefixes po_Keyring po_Operator
  merged_maps mm_acl mm_agents mm_agentPrefixes mm_keys mm_keyPrefixes mm_nodes mm_nodePrefixes mm_services
  mm_servicePrefixes mm_sessions mm_sessionPrefixes mm_events mm_eventPrefixes mm_queries mm_queryPrefixes mm_keyring
  mm_operator empty_maps].
Lemma NewPolicyAuthorizer_run (parent : Authorizer T) ps h :
  Forall (valid_policy h) ps → NoDup (service_locs ps) →
  ∃ r h', NewPolicyAuthorizer sum256 parent ps h = (Ok (PolicyAuthorizer parent r), h') ∧ rules_say h ps r.
Proof.
  intros Hv Hnd.
  assert (∀ l, merged_services l [] ∅ h) as Hempty by (intros ? n; by rewrite lookup_empty).
  destruct (merge_policies_run h ps [] [] empty_maps h) as (mS&mP&h'&Hrun&HS&HP); try done; [set_solver..| |].
  { apply Forall_bind. eapply list.Forall_impl; [exact Hv|]. intros p Hp. apply list.Forall_app. by destruct Hp. }
  eexists _, h'. split.
  - unfold NewPolicyAuthorizer, MergePolicies. erewrite run_bind_ok by by erewrite run_bind_ok.
    acl_fields. erewrite run_bind_ok by by eapply load_all_run, merged_alloc.
    erewrite run_bind_ok by by eapply load_all_run, merged_alloc. reflexivity.
  - simpl in HS, HP. split; acl_fields;
      try (eapply tree_says_rules; [|eapply list.Forall_impl; [exact Hv|by destruct 1]..]; [apply policy_permission || done]);
      try (apply fold_permissions; eapply list.Forall_impl; [exact Hv|by destruct 1]).
    + intros s. destruct (tree_says_services intention_rule h h' ps mS mP HS HP ltac:(done) s) as [He Hp].
      split; (etrans; [exact He || exact Hp|]); unfold said_intentions, said_services;
        erewrite merged_at_spec by done; by rewrite <- !option_fmap_compose.
    + intros s. destruct (tree_says_services service_rule h h' ps mS mP HS HP ltac:(done) s) as [He Hp].
      split; (etrans; [exact He || exact Hp|]); unfold said_services;
        erewrite merged_at_spec by done; rewrite <- !option_fmap_compose; apply option_fmap_id.
Qed.
End build.

(** ** What merging leaves behind

    Merging writes the strongest permissions of a name through the pointer of
    its first rule, so the policy that rule belongs to is changed. *)

Lemma load_inv l (h : heap) sp h' : load l h = (Ok sp, h') → h' = h.
Proof. unfold load. destruct (h !! l); by intros [=]. Qed.
Lemma store_if_inv (b : bool) l sp (h : heap) u h' k : (if b then store l sp else mreturn tt) h = (Ok u, h') → k ≠ l → h' !! k = h !! k.
Proof. destruct b; [intros [= _ <-] Hk; by apply lookup_insert_ne|by intros [= _ <-]]. Qed.
Lemma merge_service_frame m h l m' h' : merge_service m l h = (Ok m', h') →
  m ⊆ m' ∧ ∀ k, (∀ n, m' !! n ≠ Some k) → h' !! k = h !! k.
Proof.
  unfold merge_service. intros (sp&h1&->%load_inv&Hr)%bind_ok_inv. destruct (m !! sp_Name sp) as [l0|] eqn:Hm0.
  - apply bind_ok_inv in Hr as (e&h2&->%load_inv&Hr). apply bind_ok_inv in Hr as (u&h3&Hs1&Hr).
    apply bind_ok_inv in Hr as (sp'&h4&->%load_inv&Hr). apply bind_ok_inv in Hr as (e'&h5&->%load_inv&Hr).
    apply bind_ok_inv in Hr as (u'&h6&Hs2&Hr). apply ret_ok_inv in Hr as [-> ->]. split; [done|]. intros k Hk.
    assert (k ≠ l0) as Hne by (intros ->; by apply (Hk (sp_Name sp))).
    by rewrite (store_if_inv _ _ _ _ _ _ _ Hs2 Hne), (store_if_inv _ _ _ _ _ _ _ Hs1 Hne).
  - apply ret_ok_inv in Hr as [<- ->]. split; [by apply insert_subseteq|done].
Qed.
Lemma merge_services_frame ls : ∀ m h m' h', mfold merge_service m ls h = (Ok m', h') →
  m ⊆ m' ∧ ∀ k, (∀ n, m' !! n ≠ Some k) → h' !! k = h !! k.
Proof.
  induction ls as [|l ls IH]; intros m h m' h'; cbn [mfold]; [intros [-> ->]%ret_ok_inv; by split|].
  intros (m1&h1&[Hm1 Hh1]%merge_service_frame&[Hm2 Hh2]%IH)%bind_ok_inv. split; [by etrans|].
  intros k Hk. rewrite Hh2, Hh1; [done| |done]. intros n Hn. by apply (Hk n), (lookup_weaken _ _ _ _ Hn Hm2).
Qed.
Lemma merge_policies_frame ps : ∀ mm h mm' h', mfold merge_policy mm ps h = (Ok mm', h') →
  mm_services mm ⊆ mm_services mm' ∧ mm_servicePrefixes mm ⊆ mm_servicePrefixes mm' ∧
  ∀ k, (∀ n, mm_services mm' !! n ≠ Some k) → (∀ n, mm_servicePrefixes mm' !! n ≠ Some k) → h' !! k = h !! k.
Proof.
  induction ps as [|p ps IH]; intros mm h mm' h'; cbn [mfold]; [intros [-> ->]%ret_ok_inv; by split_and!|].
  intros (mm1&h1&Hp&(HS2&HP2&Hh2)%IH)%bind_ok_inv. unfold merge_policy in Hp.
  apply bind_ok_inv in Hp as (mS&h2&[HS HhS]%merge_services_frame&Hp). apply bind_ok_inv in Hp as (mP&h3&[HP HhP]%merge_services_frame&Hp).
  apply ret_ok_inv in Hp as [<- ->]. simpl in *. split_and!; [by etrans..|]. intros k HkS HkP.
  rewrite Hh2, HhP, HhS; [done|..]; try done; intros n Hn; [by apply (HkS n), (lookup_weaken _ _ _ _ Hn HS2)|by apply (HkP n), (lookup_weaken _ _ _ _ Hn HP2)].
Qed.

Lemma strongest_within L l p : strongest L = Some p → p ∈ l → (∀ x, x ∈ l → x ∈ L) → strongest l = Some p.
Proof.
  unfold strongest. intros HL Hp Hl. repeat case_decide; simplify_eq; try done; exfalso; naive_solver.
Qed.
Lemma elem_of_perms_at s l p : p ∈ perms_at s l ↔ (s, p) ∈ l.
Proof.
  unfold perms_at. rewrite list_elem_of_fmap. split.
  - intros ([s' p']&->&[Hs Hin]%list_elem_of_filter). simpl in *. by subst.
  - intros Hin. exists (s, p). split; [done|]. by apply list_elem_of_filter.
Qed.
Lemma elem_of_service_rules h ls s p : (s, p) ∈ service_rules h ls ↔ ∃ l sp, l ∈ ls ∧ h !! l = Some sp ∧ sp_Name sp = s ∧ sp_Policy sp = p.
Proof.
  unfold service_rules, services_in. rewrite list_elem_of_fmap. setoid_rewrite list_elem_of_omap. unfold service_rule. split.
  - intros (sp&[= -> ->]&l&Hl&Hsp). by exists l, sp.
  - intros (l&sp&Hl&Hsp&<-&<-). by exists sp; eauto.
Qed.

(** The merged rules are valid. *)
Lemma merged_ok h0 P m h n l : merged_services h0 P m h → Forall (service_ok h0) P → m !! n = Some l → service_ok h l.
Proof.
  intros Hm Hok Hl. specialize (Hm n). rewrite Hl in Hm. destruct Hm as (_&Hs&Hx). eexists. split; [exact Hx|]. simpl.
  unfold strongest_of at 1. destruct (strongest _) as [p|] eqn:Hp; [|done]. simpl.
  apply strongest_in in Hp as [(l1&sp&Hl1&Hsp&_&<-)%elem_of_perms_at%elem_of_service_rules _].
  rewrite list.Forall_forall in Hok. destruct (Hok l1 Hl1) as (sp'&Hsp'&Hv&_). split; [by simplify_eq|]. clear -Hok.
  unfold strongest_of. destruct (strongest _) as [p|] eqn:Hp; [|by left]. simpl.
  apply strongest_in in Hp as [Hp _]. apply elem_of_perms_at in Hp. unfold service_intentions, services_in in Hp.
  apply list_elem_of_fmap in Hp as (sp&[= _ ->]&(l1&Hl1&Hsp)%list_elem_of_omap). destruct (Hok l1 Hl1) as (sp'&Hsp'&_&Hv). by simplify_eq.
Qed.

(** The pointers of exact rules and of prefix rules are apart. *)
Lemma service_locs_apart ps : NoDup (service_locs ps) → (ps ≫= Services) ## (ps ≫= ServicePrefixes).
Proof.
  induction ps as [|p ps IH]; [set_solver|]. unfold service_locs in *. cbn [mbind list_bind] in *.
  fold (ps ≫= λ p, Services p ++ ServicePrefixes p) (ps ≫= Services) (ps ≫= ServicePrefixes) in *.
  intros ((_&Hp&_)%list.NoDup_app&Hx&Hd)%list.NoDup_app. specialize (IH Hd). clear Hd.
  assert (∀ l, l ∈ ps ≫= Services ∨ l ∈ ps ≫= ServicePrefixes → l ∈ ps ≫= λ p, Services p ++ ServicePrefixes p) as Hin.
  { intros l. rewrite !list_elem_of_bind. setoid_rewrite elem_of_app. naive_solver. }
  set_solver.
Qed.

Section first.
Variables (h h' : heap) (p : Policy) (ps : list Policy) (mS mP : gmap string loc).
Hypothesis Hv : Forall (valid_policy h) (p :: ps).
Hypothesis Hnd : NoDup (service_locs (p :: ps)).
Hypothesis HS : merged_services h ((p :: ps) ≫= Services) mS h'.
Hypothesis HP : merged_services h ((p :: ps) ≫= ServicePrefixes) mP h'.
Hypothesis Hfr : ∀ k, (∀ n, mS !! n ≠ Some k) → (∀ n, mP !! n ≠ Some k) → h' !! k = h !! k.

Lemma first_service_case k : k ∈ Services p → h' !! k = h !! k ∨ ∃ n, mS !! n = Some k.
Proof using All.
  intros Hk. destruct (decide (k ∈ (map_to_list mS).*2)) as [([n k']&Hkk&Hn%elem_of_map_to_list)%list_elem_of_fmap|Hn].
  { simpl in Hkk. subst k'. eauto. }
  left. apply Hfr; intros n Hn'.
  - apply Hn, list_elem_of_fmap. exists (n, k). by rewrite elem_of_map_to_list.
  - pose proof (HP n) as HPn. rewrite Hn' in HPn. destruct HPn as (HkP&_).
    apply (service_locs_apart _ Hnd k); [|done]. simpl. by apply elem_of_app; left.
Qed.
Lemma first_prefix_case k : k ∈ ServicePrefixes p → h' !! k = h !! k ∨ ∃ n, mP !! n = Some k.
Proof using All.
  intros Hk. destruct (decide (k ∈ (map_to_list mP).*2)) as [([n k']&Hkk&Hn%elem_of_map_to_list)%list_elem_of_fmap|Hn].
  { simpl in Hkk. subst k'. eauto. }
  left. apply Hfr; intros n Hn'.
  - pose proof (HS n) as HSn. rewrite Hn' in HSn. destruct HSn as (HkS&_).
    apply (service_locs_apart _ Hnd k); [done|]. simpl. by apply elem_of_app; left.
  - apply Hn, list_elem_of_fmap. exists (n, k). by rewrite elem_of_map_to_list.
Qed.
Lemma first_services_ok (kind : Policy → list loc) m :
  merged_services h ((p :: ps) ≫= kind) m h' → Forall (λ p, Forall (service_ok h) (kind p)) (p :: ps) →
  (∀ k, k ∈ kind p → h' !! k = h !! k ∨ ∃ n, m !! n = Some k) → Forall (service_ok h') (kind p).
Proof using.
  intros Hm Hok Hcase. apply list.Forall_forall. intros k Hk. destruct (Hcase k Hk) as [Heq|[n Hn]].
  - apply list.Forall_cons in Hok as [Hok _]. rewrite list.Forall_forall in Hok.
    destruct (Hok k Hk) as (sp&Hsp&Hx). exists sp. by rewrite Heq.
  - eapply merged_ok; [exact Hm| |exact Hn]. by apply Forall_bind.
Qed.
Lemma first_valid : valid_policy h' p.
Proof using All.
  assert (Forall (service_ok h') (Services p)) as HokS.
  { eapply first_services_ok; [exact HS| |exact first_service_case].
    eapply list.Forall_impl; [exact Hv|]. by destruct 1. }
  assert (Forall (service_ok h') (ServicePrefixes p)) as HokP.
  { eapply first_services_ok; [exact HP| |exact first_prefix_case].
    eapply list.Forall_impl; [exact Hv|]. by destruct 1. }
  apply list.Forall_cons in Hv as [Hvp _]. by destruct Hvp.
Qed.
Lemma first_says n l : mS !! n = Some l → l ∈ Services p →
  said_services h' Services [p] n = said_services h Services (p :: ps) n.
Proof using All.
  intros Hl Hlp. pose proof (HS n) as HSn. rewrite Hl in HSn. destruct HSn as (_&Hs&Hx).
  unfold said_services. destruct (strongest (perms_at n (service_rules h ((p :: ps) ≫= Services)))) as [q|] eqn:Hq; [|done].
  assert (strongest_of (perms_at n (service_rules h ((p :: ps) ≫= Services))) = q) as Hqo by (unfold strongest_of; by rewrite Hq).
  rewrite Hqo in Hx. apply (strongest_within _ _ _ Hq).
  - apply elem_of_perms_at, elem_of_service_rules. exists l. eexists. split; [simpl; by apply elem_of_app; left|]. by split.
  - intros x (k&sp&Hk&Hsp&Hn&<-)%elem_of_perms_at%elem_of_service_rules. simpl in Hk. rewrite app_nil_r in Hk.
    destruct (first_service_case k Hk) as [Heq|[n' Hn']].
    + apply elem_of_perms_at, elem_of_service_rules. exists k, sp. rewrite <- Heq. split; [|done].
      simpl. by apply elem_of_app; left.
    + pose proof (HS n') as HSn'. rewrite Hn' in HSn'. destruct HSn' as (_&_&Hx'). rewrite Hsp in Hx'. simplify_eq.
      cbn [sp_Name sp_Policy] in *. unfold strongest_of. rewrite Hq. by apply strongest_in in Hq as [? _].
Qed.
End first.

(** After merging, the first policy alone says of the services it has a rule
    for what all of them together said before. *)
Lemma merge_changes_first p ps h : Forall (valid_policy h) (p :: ps) → NoDup (service_locs (p :: ps)) →
  ∃ mm h', mfold merge_policy empty_maps (p :: ps) h = (Ok mm, h') ∧ valid_policy h' p ∧
    ∀ n, said_services h Services [p] n ≠ None → said_services h' Services [p] n = said_services h Services (p :: ps) n.
Proof.
  intros Hv Hnd.
  assert (∀ l, merged_services l [] ∅ h) as Hempty by (intros ? n; by rewrite lookup_empty).
  assert (Hok : Forall (service_ok h) (service_locs (p :: ps))).
  { apply Forall_bind. eapply list.Forall_impl; [exact Hv|]. intros q Hq. apply list.Forall_app. by destruct Hq. }
  assert (Hnd1 : NoDup (service_locs [p])).
  { unfold service_locs in *. simpl in *. rewrite app_nil_r. by apply list.NoDup_app in Hnd as [? _]. }
  assert (Hok1 : Forall (service_ok h) (service_locs [p])).
  { unfold service_locs in *. simpl in *. rewrite app_nil_r. by apply list.Forall_app in Hok as [? _]. }
  destruct (merge_policies_run h (p :: ps) [] [] empty_maps h) as (mS&mP&h'&Hrun&HS&HP); try done; [set_solver..|].
  destruct (merge_policies_run h [p] [] [] empty_maps h) as (mS1&mP1&h1&Hrun1&HS1&_); try done; [set_solver..|].
  cbn [app] in HS, HP, HS1.
  assert (Hfr : ∀ k, (∀ n, mS !! n ≠ Some k) → (∀ n, mP !! n ≠ Some k) → h' !! k = h !! k).
  { apply (merge_policies_frame (p :: ps) _ _ _ _ Hrun). }
  assert (mS1 ⊆ mS) as Hkeep.
  { cbn [mfold] in Hrun, Hrun1. apply bind_ok_inv in Hrun1 as (mm1&h1'&Hp1&[-> ->]%ret_ok_inv).
    apply bind_ok_inv in Hrun as (mm1'&h1''&Hp1'&Hrest). rewrite Hp1 in Hp1'. injection Hp1' as <- <-.
    by apply merge_policies_frame in Hrest as (Hkeep&_&_). }
  exists (merged_maps empty_maps (p :: ps) mS mP), h'. split; [exact Hrun|].
  split; [by eapply (first_valid h h' p ps mS mP)|]. intros n Hn. specialize (HS1 n).
  destruct (mS1 !! n) as [l|] eqn:Hl.
  - destruct HS1 as (Hlp&_). eapply (first_says h h' p ps mS mP); [done..| |].
    + by eapply lookup_weaken.
    + simpl in Hlp. by rewrite app_nil_r in Hlp.
  - unfold said_services in Hn. by rewrite HS1 in Hn.
Qed.
