(* ===== verification/AclProps.v ===== *)
(** * What authorizers decide *)

From S2P Require Import Prelude Memdb AclTables MemdbFacts Radix Acl Authorizer AclCache Logic AclMerge.

(** ** Decisions *)

(** A permission grants those below it; deny grants nothing. *)
Definition grants (rule perm : string) : bool :=
  bool_decide (rule = PolicyWrite) ||
  bool_decide (rule = PolicyList) && (bool_decide (perm = PolicyList) || bool_decide (perm = PolicyRead)) ||
  bool_decide (rule = PolicyRead) && bool_decide (perm = PolicyRead).
(** The decision on a name, by the rules of its kind, or else by the parent. *)
Definition decision (exact prefix : string → option string) (name perm : string) (parent : bool) : bool :=
  match lookup_rule exact prefix name with Some rule => grants rule perm | None => parent end.
Definition decision_one (rules : list string) (perm : string) (parent : bool) : bool :=
  match strongest rules with Some rule => grants rule perm | None => parent end.

Lemma enforce_or_grants rule perm parent : permission rule → enforce_or rule perm parent = grants rule perm.
Proof.
  intros [->|[->|[->| ->]]]%permission_cases; unfold enforce_or, enforce, grants; simpl; try done.
  - destruct (decide (perm = PolicyList ∨ perm = PolicyRead)) as [H|H]; cbn.
    + rewrite orb_false_r. symmetry. apply orb_true_iff. rewrite !bool_decide_eq_true. tauto.
    + rewrite !bool_decide_eq_false_2 by tauto. done.
  - destruct (decide (perm = PolicyRead)); cbn; by rewrite ?bool_decide_eq_true_2, ?bool_decide_eq_false_2 by done.
Qed.
Lemma enforce_or_none perm parent : enforce_or "" perm parent = parent.
Proof. done. Qed.
Lemma enforce_or_decision l perm parent : enforce_or (strongest_of l) perm parent = decision_one l perm parent.
Proof.
  unfold decision_one, strongest_of. destruct (strongest l) as [r|] eqn:Hr; [|done].
  apply enforce_or_grants. by apply strongest_in in Hr as [_ ?].
Qed.

Definition permissions (f : string → option string) : Prop := ∀ s p, f s = Some p → permission p.
Lemma said_permissions {A} `{RuleKind A} (kind : Policy → list A) ps : permissions (said kind ps).
Proof. intros s p Hp. by apply strongest_in in Hp as [_ ?]. Qed.
Lemma said_services_permissions h kind ps : permissions (said_services h kind ps).
Proof. intros s p Hp. by apply strongest_in in Hp as [_ ?]. Qed.
Lemma said_intentions_permissions h kind ps : permissions (said_intentions h kind ps).
Proof.
  intros s p (q&Hq&->)%fmap_Some. unfold intention_policy. simpl. case_decide; [case_decide; by apply permission_cases; auto|].
  match goal with |- permission (strongest_of ?l) => by destruct (strongest_of_perm l) end.
Qed.
Lemma lookup_rule_permissions exact prefix : permissions exact → permissions prefix → permissions (lookup_rule exact prefix).
Proof.
  intros He Hp s p. unfold lookup_rule. destruct (exact s) as [q|] eqn:Hq; [intros [= <-]; by apply (He s)|].
  intros Hl. pose proof (longest_spec prefix s) as Hs. rewrite Hl in Hs. destruct Hs as (k&_&Hk&_). by apply (Hp k).
Qed.
#[export] Hint Resolve said_permissions said_services_permissions said_intentions_permissions lookup_rule_permissions : acl.

Section props.
Context {T : Type → Type} `{RadixTree T}.

Lemma enforce_path_decision (t : T leaf) exact prefix name perm parent :
  tree_says t exact prefix → permissions exact → permissions prefix →
  enforce_path t name perm parent = decision exact prefix name perm parent.
Proof.
  intros Ht He Hp. unfold enforce_path, decision. rewrite getPolicy_spec.
  assert (lookup_rule (exact_at t) (prefix_at t) name = lookup_rule exact prefix name) as ->.
  { unfold lookup_rule. rewrite (proj1 (Ht name)). case_match; [done|]. apply longest_ext. intros k. apply Ht. }
  destruct (lookup_rule exact prefix name) as [r|] eqn:Hr; [|done].
  apply enforce_or_grants. by apply (lookup_rule_permissions exact prefix He Hp name).
Qed.

Section build.
Context `{MapRangeSpec}.
Variable sum256 : string → string.

(** C27. An authorizer decides by the strongest rule.  Building one from
    parsed policies always succeeds; for agents, events, keys, nodes, queries
    and sessions it finds the exact rules of the name in all the policies, or
    else the rules of its longest prefix that has any, takes the strongest of
    them (deny over write over list over read), and asks the parent when there
    is none; for ACLs, snapshots, the keyring and the operator it takes the
    strongest permission of the policies.  Go's order of iterating over maps
    does not matter. *)
Theorem NewPolicyAuthorizer_spec (parent : Authorizer T) ps h :
  Forall (valid_policy h) ps → NoDup (service_locs ps) →
  ∃ a h', NewPolicyAuthorizer sum256 parent ps h = (Ok a, h') ∧
    (∀ n, AgentRead a n = decision (said Agents ps) (said AgentPrefixes ps) n PolicyRead (AgentRead parent n)) ∧
    (∀ n, AgentWrite a n = decision (said Agents ps) (said AgentPrefixes ps) n PolicyWrite (AgentWrite parent n)) ∧
    (∀ n, EventRead a n = decision (said Events ps) (said EventPrefixes ps) n PolicyRead (EventRead parent n)) ∧
    (∀ n, EventWrite a n = decision (said Events ps) (said EventPrefixes ps) n PolicyWrite (EventWrite parent n)) ∧
    (∀ k, KeyRead a k = decision (said Keys ps) (said KeyPrefixes ps) k PolicyRead (KeyRead parent k)) ∧
    (∀ k, KeyList a k = decision (said Keys ps) (said KeyPrefixes ps) k PolicyList (KeyList parent k)) ∧
    (∀ k, KeyWrite a k = decision (said Keys ps) (said KeyPrefixes ps) k PolicyWrite (KeyWrite parent k)) ∧
    (∀ n, NodeRead a n = decision (said Nodes ps) (said NodePrefixes ps) n PolicyRead (NodeRead parent n)) ∧
    (∀ n, NodeWrite a n = decision (said Nodes ps) (said NodePrefixes ps) n PolicyWrite (NodeWrite parent n)) ∧
    (∀ q, PreparedQueryRead a q =
       decision (said PreparedQueries ps) (said PreparedQueryPrefixes ps) q PolicyRead (PreparedQueryRead parent q)) ∧
    (∀ q, PreparedQueryWrite a q =
       decision (said PreparedQueries ps) (said PreparedQueryPrefixes ps) q PolicyWrite (PreparedQueryWrite parent q)) ∧
    (∀ n, SessionRead a n = decision (said Sessions ps) (said SessionPrefixes ps) n PolicyRead (SessionRead parent n)) ∧
    (∀ n, SessionWrite a n = decision (said Sessions ps) (said SessionPrefixes ps) n PolicyWrite (SessionWrite parent n)) ∧
    ACLRead a = decision_one (po_ACL <$> ps) PolicyRead (ACLRead parent) ∧
    ACLWrite a = decision_one (po_ACL <$> ps) PolicyWrite (ACLWrite parent) ∧
    Snapshot a = decision_one (po_ACL <$> ps) PolicyWrite (Snapshot parent) ∧
    KeyringRead a = decision_one (po_Keyring <$> ps) PolicyRead (KeyringRead parent) ∧
    KeyringWrite a = decision_one (po_Keyring <$> ps) PolicyWrite (KeyringWrite parent) ∧
    OperatorRead a = decision_one (po_Operator <$> ps) PolicyRead (OperatorRead parent) ∧
    OperatorWrite a = decision_one (po_Operator <$> ps) PolicyWrite (OperatorWrite parent).
Proof.
  intros Hv Hnd. destruct (NewPolicyAuthorizer_run sum256 parent ps h Hv Hnd) as (r&h'&Hrun&Hr).
  exists (PolicyAuthorizer parent r), h'. split; [done|].
  split_and!; intros; cbn;
    (apply enforce_path_decision; [by destruct Hr|auto with acl..]) || (destruct Hr as [Ha _ _ _ _ _ _ _ _ Hk Ho];
      rewrite ?Ha, ?Hk, ?Ho; apply enforce_or_decision).
Qed.

(** C28. The same for services and intentions: on the service rules as they
    are when the authorizer is built, the strongest rule of the name decides;
    the intentions with the service as destination are decided by the
    strongest intention permission of the name, which by default is read for
    a service that may be read or written and deny otherwise. *)
Theorem NewPolicyAuthorizer_services (parent : Authorizer T) ps h :
  Forall (valid_policy h) ps → NoDup (service_locs ps) →
  ∃ a h', NewPolicyAuthorizer sum256 parent ps h = (Ok a, h') ∧
    (∀ n, ServiceRead a n =
       decision (said_services h Services ps) (said_services h ServicePrefixes ps) n PolicyRead (ServiceRead parent n)) ∧
    (∀ n, ServiceWrite a n =
       decision (said_services h Services ps) (said_services h ServicePrefixes ps) n PolicyWrite (ServiceWrite parent n)) ∧
    (∀ n, IntentionRead a n =
       decision (said_intentions h Services ps) (said_intentions h ServicePrefixes ps) n PolicyRead (IntentionRead parent n)) ∧
    (∀ n, IntentionWrite a n =
       decision (said_intentions h Services ps) (said_intentions h ServicePrefixes ps) n PolicyWrite (IntentionWrite parent n)).
Proof.
  intros Hv Hnd. destruct (NewPolicyAuthorizer_run sum256 parent ps h Hv Hnd) as (r&h'&Hrun&Hr).
  exists (PolicyAuthorizer parent r), h'. split; [done|].
  split_and!; intros; cbn; (apply enforce_path_decision; [by destruct Hr|auto with acl..]).
Qed.
(** ** Merging writes into the cached policies *)

Variable decode : string → M heap Policy.
Variable decodeLegacy : string → M heap LegacyPolicy.

(** The policy is cached under the hash of its source. *)
Definition parsed_in (s : acl_state T) (p : ACLPolicy) (P : Policy) : Prop :=
  GetParsedPolicy (as_caches s) (hex_encode (ACLPolicy_SetHash sum256 p)) = Some P.
Definition not_compiled (s : acl_state T) (ps : list ACLPolicy) : Prop :=
  GetAuthorizer (as_caches s) (ACLPolicies_HashKey sum256 ps) = None.

Lemma resolve_parsed s ps Ps : Forall2 (parsed_in s) ps Ps → resolveWithCache decode decodeLegacy sum256 ps s = (Ok Ps, s).
Proof using.
  unfold resolveWithCache. induction 1 as [|p P ps Ps Hp Hps IH]; [done|]. cbn [mmap].
  erewrite run_bind_ok by (unfold resolve_policy; erewrite run_bind_ok by done; unfold parsed_in in Hp; by rewrite Hp).
  by erewrite run_bind_ok by exact IH.
Qed.
Lemma load_all_inv ls : ∀ (h : heap) sps h', mmap load ls h = (Ok sps, h') → h' = h.
Proof using.
  induction ls as [|l ls IH]; intros h sps h'; cbn [mmap]; [by intros [_ ->]%ret_ok_inv|].
  intros (sp&h1&->%load_inv&(sps'&h2&->%IH&[_ ->]%ret_ok_inv)%bind_ok_inv)%bind_ok_inv. done.
Qed.
Lemma NewPolicyAuthorizer_merges (parent a : Authorizer T) ps h h' : NewPolicyAuthorizer sum256 parent ps h = (Ok a, h') →
  ∃ mm, mfold merge_policy empty_maps ps h = (Ok mm, h').
Proof using.
  unfold NewPolicyAuthorizer, MergePolicies. intros (m&h1&(mm&h2&Hmm&[_ ->]%ret_ok_inv)%bind_ok_inv&Hr)%bind_ok_inv.
  apply bind_ok_inv in Hr as (x&h3&->%load_all_inv&Hr). apply bind_ok_inv in Hr as (y&h4&->%load_all_inv&[_ ->]%ret_ok_inv).
  by exists mm.
Qed.
Lemma Compile_parsed (parent : Authorizer T) s ps Ps : Forall2 (parsed_in s) ps Ps → not_compiled s ps →
  Forall (valid_policy (as_heap s)) Ps → NoDup (service_locs Ps) →
  ∃ r h', Compile decode decodeLegacy sum256 parent ps s =
      (Ok (PolicyAuthorizer parent r),
       mkAclState h' (PutAuthorizer (ACLPolicies_HashKey sum256 ps) (PolicyAuthorizer parent r) (as_caches s))) ∧
    NewPolicyAuthorizer sum256 parent Ps (as_heap s) = (Ok (PolicyAuthorizer parent r), h') ∧ rules_say (as_heap s) Ps r.
Proof using All.
  intros Hps Hn Hv Hnd. destruct (NewPolicyAuthorizer_run sum256 parent Ps (as_heap s) Hv Hnd) as (r&h'&Hrun&Hr).
  exists r, h'. split_and!; [|done..]. unfold Compile. erewrite run_bind_ok by done. unfold not_compiled in Hn. rewrite Hn.
  erewrite run_bind_ok by (apply run_wrap_ok; by apply resolve_parsed).
  erewrite run_bind_ok by (apply run_wrap_ok; unfold on_heap; by rewrite Hrun). done.
Qed.
Lemma Compile_compiled (parent a : Authorizer T) s ps : GetAuthorizer (as_caches s) (ACLPolicies_HashKey sum256 ps) = Some a →
  Compile decode decodeLegacy sum256 parent ps s = (Ok a, s).
Proof using. intros Ha. unfold Compile, mget, mbind'. by rewrite Ha. Qed.
Lemma service_write_exact (parent : Authorizer T) h ps r n q : rules_say h ps r → said_services h Services ps n = Some q →
  ServiceWrite (PolicyAuthorizer parent r) n = bool_decide (q = PolicyWrite).
Proof using All.
  intros Hr Hq. cbn. erewrite enforce_path_decision by (apply Hr || auto with acl).
  unfold decision, lookup_rule. rewrite Hq. unfold grants. by rewrite !andb_false_r, !orb_false_r.
Qed.

(** C32. Merging policies writes into them: when a server has parsed some
    policies but not compiled them, a token with the first of them alone may
    write a service it has an exact rule for if the strongest of its own rules
    for the service is write; but once a token with all the policies has been
    used, the cached first policy has changed, and the first token may write
    the service if the strongest rule of all the policies is write.  So a
    token that may only read a service can write it after a token that has
    its policy and one that lets the service be written was used. *)
Theorem merge_escalates (parent : Authorizer T) (p : ACLPolicy) (qs : list ACLPolicy) (P : Policy) (Qs : list Policy)
    (s : acl_state T) (n r r' : string) :
  parsed_in s p P → Forall2 (parsed_in s) qs Qs → not_compiled s [p] → not_compiled s (p :: qs) →
  Forall (valid_policy (as_heap s)) (P :: Qs) → NoDup (service_locs (P :: Qs)) →
  said_services (as_heap s) Services [P] n = Some r → said_services (as_heap s) Services (P :: Qs) n = Some r' →
  (∃ a s', Compile decode decodeLegacy sum256 parent [p] s = (Ok a, s') ∧ ServiceWrite a n = bool_decide (r = PolicyWrite)) ∧
  ∃ a s1 a' s2, Compile decode decodeLegacy sum256 parent (p :: qs) s = (Ok a, s1) ∧
    Compile decode decodeLegacy sum256 parent [p] s1 = (Ok a', s2) ∧ ServiceWrite a' n = bool_decide (r' = PolicyWrite).
Proof using All.
  intros HP HQs Hp Hpqs Hv Hnd Hr Hr'.
  assert (Forall (valid_policy (as_heap s)) [P]) as Hv1 by by apply list.Forall_cons in Hv as [Hv _]; constructor.
  assert (Forall2 (parsed_in s) (p :: qs) (P :: Qs)) as HPQs by by constructor.
  assert (NoDup (service_locs [P])) as Hnd1.
  { unfold service_locs in *. simpl in *. rewrite app_nil_r. by apply list.NoDup_app in Hnd as [? _]. }
  split.
  { destruct (Compile_parsed parent s [p] [P]) as (x&h'&->&_&Hx); [by repeat constructor|done..|].
    eexists _, _. split; [done|]. by eapply service_write_exact. }
  destruct (Compile_parsed parent s (p :: qs) (P :: Qs)) as (x&h'&Hc&Hm&Hx); [done..|].
  destruct (merge_changes_first P Qs (as_heap s) Hv Hnd) as (mm&h1&Hmm&Hv'&Hsays).
  apply NewPolicyAuthorizer_merges in Hm as (mm'&Hm). rewrite Hmm in Hm. injection Hm as <- <-.
  eexists _, _. match type of Hc with _ = (_, ?t) => set (s1 := t) in Hc end.
  assert (parsed_in s1 p P) as HP1 by done. assert (Hsays1 := Hsays n). rewrite Hr, Hr' in Hsays1.
  destruct (GetAuthorizer (as_caches s1) (ACLPolicies_HashKey sum256 [p])) as [a|] eqn:Ha.
  - exists a, s1. split; [exact Hc|]. split.
    { by apply Compile_compiled. }
    assert (a = PolicyAuthorizer parent x) as ->; [|by eapply service_write_exact].
    unfold not_compiled, GetAuthorizer in Hp, Ha. unfold s1 in Ha. simpl in Ha.
    destruct (authorizers (as_caches s)) as [m|]; [|done]. simpl in *. apply lookup_insert_Some in Ha as [[_ <-]|[_ Ha]]; [done|].
    by rewrite Ha in Hp.
  - destruct (Compile_parsed parent s1 [p] [P]) as (y&h2&Hc2&_&Hy);
      [by constructor; [exact HP1|constructor]|exact Ha|by constructor; [exact Hv'|constructor]|exact Hnd1|].
    eexists _, _. split; [exact Hc|]. split; [exact Hc2|]. eapply service_write_exact; [exact Hy|]. by apply Hsays1.
Qed.
End build.

(** ** Deleting whole subtrees *)

Lemma prefix_rules_above_spec prefix (t : T leaf) parentAllows :
  prefix_rules_above prefix t parentAllows =
    match longest (prefix_at t) prefix with
    | Some p => (bool_decide (p = PolicyWrite), true)
    | None => (parentAllows, false)
    end.
Proof.
  rewrite <- last_prefix_longest. unfold prefix_rules_above, last_prefix.
  generalize (WalkPath prefix t). intros l.
  assert (∀ acc q, acc = match q with Some p => (bool_decide (p = PolicyWrite), true) | None => (parentAllows, false) end →
    walk l (λ _ rule acc, match leaf_prefix rule with
      | Some p => (false, (bool_decide (p = PolicyWrite), true)) | None => (false, acc) end) acc =
    match foldl (λ acc (e : string * leaf), match leaf_prefix e.2 with Some p => Some p | None => acc end) q l with
      | Some p => (bool_decide (p = PolicyWrite), true) | None => (parentAllows, false) end) as Hl.
  { induction l as [|[k x] l IH]; intros acc q ->; [done|]. simpl. destruct (leaf_prefix x); by apply IH. }
  by apply Hl.
Qed.
Lemma rules_under_deny_false prefix (t : T leaf) k :
  rules_under_deny prefix t = false → String.prefix prefix k = true →
  denies_write (exact_at t k) = false ∧ denies_write (prefix_at t k) = false.
Proof.
  intros Hd Hk. unfold exact_at, prefix_at. destruct (radix_Get k t) as [x|] eqn:Hx; [|done]. simpl.
  assert ((k, x) ∈ WalkPrefix prefix t) as Hin by by apply radix_prefix.
  unfold rules_under_deny in Hd. revert Hd Hin. induction (WalkPrefix prefix t) as [|[k' x'] l IH]; intros Hd Hin.
  { by apply elem_of_nil in Hin. }
  simpl in Hd. destruct (denies_write (leaf_prefix x')) eqn:Hp; [done|].
  destruct (denies_write (leaf_exact x')) eqn:He; [done|].
  apply elem_of_cons in Hin as [[= -> ->]|Hin]; [done|by apply IH].
Qed.

(** A longest rule for a key under a prefix is under the prefix, or it is the
    longest for the prefix. *)
Lemma longest_under f prefix k p :
  String.prefix prefix k = true → longest f k = Some p →
  (∃ k', String.prefix prefix k' = true ∧ f k' = Some p) ∨ longest f prefix = Some p.
Proof.
  intros Hpk Hl. pose proof (longest_spec f k) as Hs. rewrite Hl in Hs. destruct Hs as (k'&Hk'&Hp&Hmax).
  destruct (prefix_comparable prefix k' k Hpk Hk') as [Hle|Hle]; [eauto|].
  right. apply (longest_Some _ _ k'); [done..|]. intros k'' Hk'' Hlt. apply Hmax; [|done]. by eapply prefix_trans.
Qed.

Lemma KeyWritePrefix_under (a : Authorizer T) prefix k :
  KeyWritePrefix a prefix = true → String.prefix prefix k = true → KeyWrite a k = true.
Proof.
  intros Ha Hk. induction a as [m d|parent IH r]; [done|]. simpl in *.
  rewrite prefix_rules_above_spec in Ha. unfold enforce_path. rewrite getPolicy_spec.
  set (t := keyRules r) in *.
  assert (rules_under_deny prefix t = false) as Hd.
  { destruct (longest (prefix_at t) prefix); [case_bool_decide|destruct (KeyWritePrefix parent prefix)];
      simpl in Ha; by destruct (rules_under_deny prefix t). }
  assert (∀ p, lookup_rule (exact_at t) (prefix_at t) k = Some p → p = PolicyWrite) as Hw.
  { intros p. unfold lookup_rule. destruct (exact_at t k) as [q|] eqn:Hq.
    - intros [= ->]. destruct (rules_under_deny_false prefix t k Hd Hk) as [He _]. rewrite Hq in He. simpl in He.
      by case_bool_decide.
    - intros Hl. destruct (longest_under _ prefix k p Hk Hl) as [(k'&Hk'&Hp)|Hp].
      + destruct (rules_under_deny_false prefix t k' Hd Hk') as [_ He]. rewrite Hp in He. simpl in He. by case_bool_decide.
      + rewrite Hp in Ha. by case_bool_decide. }
  destruct (lookup_rule _ _ k) as [p|] eqn:Hr; [by rewrite (Hw p eq_refl)|].
  apply IH. unfold lookup_rule in Hr. destruct (exact_at t k); [done|].
  assert (longest (prefix_at t) prefix = None) as Hn.
  { apply longest_None. intros k' Hk'. pose proof (longest_spec (prefix_at t) k) as Hs. rewrite Hr in Hs.
    apply Hs. by eapply prefix_trans. }
  rewrite Hn, Hd in Ha. simpl in Ha. by destruct (KeyWritePrefix parent prefix).
Qed.

(** C29. Permission to write a whole prefix (to delete a tree of keys) is
    permission to write every key under it: when [KeyWritePrefix] allows a
    prefix, [KeyWrite] allows each key that starts with it, in any chain of
    authorizers. *)
Theorem KeyWritePrefix_sound (a : Authorizer T) prefix k :
  KeyWritePrefix a prefix = true → String.prefix prefix k = true → KeyWrite a k = true.
Proof. apply KeyWritePrefix_under. Qed.

(** ** Permissions are ordered *)

Lemma enforce_weaker rule strong weak p q :
  (strong = PolicyWrite ∨ strong = PolicyList ∧ weak = PolicyRead) → (p = true → q = true) →
  enforce_or rule strong p = true → enforce_or rule weak q = true.
Proof.
  intros Hs Hpq. unfold enforce_or, enforce. destruct (decide (rule = PolicyWrite)); [done|].
  destruct (decide (rule = PolicyList)).
  { destruct Hs as [->|[-> ->]]; [done|]. by rewrite !decide_True by auto. }
  destruct (decide (rule = PolicyRead)); [|by case_decide].
  rewrite (decide_False (P := strong = PolicyRead)); [done|]. by destruct Hs as [->|[-> _]].
Qed.
Lemma enforce_path_weaker (t : T leaf) name strong weak p q :
  (strong = PolicyWrite ∨ strong = PolicyList ∧ weak = PolicyRead) → (p = true → q = true) →
  enforce_path t name strong p = true → enforce_path t name weak q = true.
Proof. intros Hs Hpq. unfold enforce_path. case_match; [by apply enforce_weaker|done]. Qed.

(** Who may write may read: in any chain of authorizers, permission to
    write an agent, event, intention, node, query, service, session, key, the
    ACLs, the keyring or the operator comes with permission to read it; and
    listing keys lies between writing and reading them. *)
Lemma write_implies_read (a : Authorizer T) n :
  (AgentWrite a n = true → AgentRead a n = true) ∧ (EventWrite a n = true → EventRead a n = true) ∧
  (IntentionWrite a n = true → IntentionRead a n = true) ∧ (NodeWrite a n = true → NodeRead a n = true) ∧
  (PreparedQueryWrite a n = true → PreparedQueryRead a n = true) ∧ (ServiceWrite a n = true → ServiceRead a n = true) ∧
  (SessionWrite a n = true → SessionRead a n = true) ∧
  (KeyWrite a n = true → KeyList a n = true) ∧ (KeyList a n = true → KeyRead a n = true) ∧
  (ACLWrite a = true → ACLRead a = true) ∧ (KeyringWrite a = true → KeyringRead a = true) ∧
  (OperatorWrite a = true → OperatorRead a = true).
Proof.
  induction a as [m d|parent IH r]; [done|]. simpl.
  split_and!; (apply enforce_path_weaker || apply enforce_weaker); tauto.
Qed.
End props.

(** ** Parsing *)

Lemma validate_one_ok msg p h h' : validate_one msg p h = (Ok tt, h') → h' = h ∧ none_or_valid p.
Proof.
  unfold validate_one, none_or_valid, mthrow, mreturn.
  case_bool_decide; simpl; [|destruct (isPolicyValid p)]; intros [= <-]; auto.
Qed.
Lemma validate_ok {A} `{RuleKind A} msg valid (l : list A) h h' :
  validate msg valid l h = (Ok tt, h') → h' = h ∧ rules_ok valid l.
Proof.
  unfold validate. induction l as [|r l IH]; simpl; [intros [= <-]; split; [done|constructor]|].
  intros ([]&h1&Hr&Hl)%bind_ok_inv. destruct (valid (rule_policy r)) eqn:Hv; [|done].
  injection Hr as <-. destruct (IH Hl) as [-> Hok]. split; [done|]. by constructor.
Qed.
Lemma validate_services_ok msg msgi ls h h' :
  validate_services msg msgi ls h = (Ok tt, h') → h' = h ∧ Forall (service_ok h) ls.
Proof.
  unfold validate_services. induction ls as [|l ls IH]; simpl; [intros [= <-]; split; [done|constructor]|].
  intros ([]&h1&(sp&h2&Hl&Hr)%bind_ok_inv&Hls)%bind_ok_inv.
  unfold load in Hl. destruct (h !! l) as [sp'|] eqn:Hsp; [|done]. injection Hl as <- <-.
  destruct (isPolicyValid (sp_Policy sp')) eqn:Hp; [|done]. simpl in Hr.
  case_bool_decide as Hi; simpl in Hr.
  - injection Hr as <-. destruct (IH Hls) as [-> Hok]. split; [done|]. constructor; [|done]. exists sp'. auto.
  - destruct (isPolicyValid (sp_Intentions sp')) eqn:Hi'; [|done]. injection Hr as <-.
    destruct (IH Hls) as [-> Hok]. split; [done|]. constructor; [|done]. exists sp'. auto.
Qed.
(** Runs a chain of validations that succeeded. *)
Ltac validated H :=
  repeat (let h1 := fresh "h1" in let Hv := fresh "Hv" in
    apply bind_ok_inv in H as ([]&h1&Hv&H);
    first [apply validate_ok in Hv as [-> Hv] | apply validate_one_ok in Hv as [-> Hv]
          | apply validate_services_ok in Hv as [-> Hv]]).

Lemma rules_ok_nil {A} `{RuleKind A} valid : rules_ok valid (@nil A).
Proof. constructor. Qed.
#[export] Hint Resolve rules_ok_nil : acl.
#[export] Hint Constructors Forall : acl.

Lemma valid_set_id h p id rev : valid_policy h p → valid_policy h (policy_set_id id rev p).
Proof. by destruct 1. Qed.
Lemma parseCurrent_ok decode rules h p h' : parseCurrent decode rules h = (Ok p, h') → valid_policy h' p.
Proof.
  unfold parseCurrent. intros (p0&h0&_&H)%bind_ok_inv. validated H. unfold mreturn in H. simplify_eq. by split.
Qed.
Definition no_exact_rules (p : Policy) : Prop :=
  po_ACL p = "" ∧ Agents p = [] ∧ Keys p = [] ∧ Nodes p = [] ∧ Services p = [] ∧ Sessions p = [] ∧ Events p = [] ∧
  PreparedQueries p = [].
Lemma parseLegacy_ok decodeLegacy rules h p h' :
  parseLegacy decodeLegacy rules h = (Ok p, h') → valid_policy h' p ∧ no_exact_rules p.
Proof.
  unfold parseLegacy. intros (p0&h0&_&H)%bind_ok_inv. validated H. unfold mreturn in H. simplify_eq.
  split; [|done]. split; cbn; auto with acl; by left.
Qed.

(** C31. What parsing accepts is valid: whatever the rules decode to, a policy
    that [NewPolicyFromSource] returns has the given ID and revision, only
    known permissions (list for keys only), and only allocated service rules
    with known permissions; parsed as legacy rules it has prefix rules only
    and says nothing of ACLs. *)
Theorem NewPolicyFromSource_valid decode decodeLegacy id revision rules syntax h p h' :
  NewPolicyFromSource decode decodeLegacy id revision rules syntax h = (Ok p, h') →
  po_ID p = id ∧ po_Revision p = revision ∧ valid_policy h' p ∧ (syntax = SyntaxLegacy → no_exact_rules p).
Proof.
  unfold NewPolicyFromSource. case_decide as Hr.
  { intros [= <- <-]. split_and!; try done. split; cbn; auto with acl; by left. }
  intros (p0&h0&Hp&[= <- <-])%bind_ok_inv. split; [done|]. split; [done|].
  destruct (decide (syntax = SyntaxLegacy)) as [->|Hs].
  - apply parseLegacy_ok in Hp as [Hv Hn]. split; [by apply valid_set_id|done].
  - destruct (decide (syntax = SyntaxCurrent)); [|done]. split; [|done]. by eapply valid_set_id, parseCurrent_ok.
Qed.

(** ** Sharing and caching *)

(** A decoder for the demonstrations: r and w are the rules that let the
    service web be read and written, k the one that lets keys be written. *)
Definition alloc (sp : ServicePolicy) : M heap loc := λ h,
  let l := Pos.of_succ_nat (size h) in (Ok l, <[l := sp]> h).
Definition add_rules (services : list loc) (keys : list KeyPolicy) (p : Policy) : Policy :=
  mkPolicy (po_ID p) (po_Revision p) (po_ACL p) (Agents p) (AgentPrefixes p) (Keys p) (keys ++ KeyPrefixes p)
    (Nodes p) (NodePrefixes p) (services ++ Services p) (ServicePrefixes p) (Sessions p) (SessionPrefixes p)
    (Events p) (EventPrefixes p) (PreparedQueries p) (PreparedQueryPrefixes p) (po_Keyring p) (po_Operator p).
Fixpoint demo_decode (rules : string) : M heap Policy :=
  match rules with
  | EmptyString => mreturn (empty_policy "" 0)
  | String c rules =>
      let* p := demo_decode rules in
      if decide (c = "r"%char) then let* l := alloc (mkServicePolicy "web" PolicyRead "") in mreturn (add_rules [l] [] p)
      else if decide (c = "w"%char) then let* l := alloc (mkServicePolicy "web" PolicyWrite "") in mreturn (add_rules [l] [] p)
      else if decide (c = "k"%char) then mreturn (add_rules [] [mkKeyPolicy "" PolicyWrite] p)
      else mthrow (EMsg "syntax" [])
  end.
Definition demo_range : MapRange := λ A m, (map_to_list m).*2.
#[export] Existing Instance demo_range.
#[export] Instance demo_range_spec : MapRangeSpec.
Proof. by intros A m. Qed.
Definition no_legacy (_ : string) : M heap LegacyPolicy := mthrow (EMsg "syntax" []).

Definition demo_policy (name description rules : string) : ACLPolicy :=
  mkACLPolicy name name description rules SyntaxCurrent [] None 1 1.
Definition fresh_caches : acl_state (gmap string) := mkAclState ∅ (mkACLCaches (Some ∅) (Some ∅)).
(** The authorizers of some tokens, compiled one after the other by a server
    whose default is to deny, with a hash that never collides. *)
Fixpoint compile_all (tokens : list (list ACLPolicy)) (s : acl_state (gmap string)) : list (outcome (Authorizer (gmap string))) :=
  match tokens with
  | [] => []
  | policies :: tokens =>
      let (r, s) := Compile demo_decode no_legacy (λ s, s) DenyAll policies s in r :: compile_all tokens s
  end.
Definition allows (f : Authorizer (gmap string) → bool) (r : outcome (Authorizer (gmap string))) : bool :=
  match r with Ok a => f a | _ => false end.

Definition reader : ACLPolicy := demo_policy "reader" "" "r".
Definition writer : ACLPolicy := demo_policy "writer" "" "w".

Definition version (v : N) (description rules : string) : ACLPolicy :=
  mkACLPolicy "id" "name" description rules SyntaxCurrent [] None 1 v.

(** The content hash of a policy does not tell its description from its
    rules: a policy whose first rule moves to its description keeps its hash,
    and with the parsed policies cached by that hash the old rules stay in
    force for the new version. *)
Lemma hash_conflates_versions :
  allows (λ a, KeyWrite a "a") <$> compile_all [[version 2 "k" "r"]] fresh_caches = [false] ∧
  allows (λ a, KeyWrite a "a") <$> compile_all [[version 1 "" "kr"]; [version 2 "k" "r"]] fresh_caches = [true; true].
Proof. split; vm_compute; reflexivity. Qed.

(** ** Concrete policies *)

Definition key_policy (exacts prefixes : list KeyPolicy) (services : list loc) : Policy :=
  mkPolicy "" 0 "" [] [] exacts prefixes [] [] services [] [] [] [] [] [] [] "" "".
(** Everything may be written but the key a and what is under a/. *)
Definition demo_policies : list Policy :=
  [key_policy [] [mkKeyPolicy "" PolicyWrite; mkKeyPolicy "a/" PolicyRead] [1%positive];
   key_policy [mkKeyPolicy "a" PolicyDeny] [mkKeyPolicy "a/" PolicyList] [2%positive]].
Definition demo_heap : heap :=
  <[1%positive := mkServicePolicy "web" PolicyRead ""]> (<[2%positive := mkServicePolicy "web" PolicyWrite PolicyWrite]> ∅).
Lemma demo_valid : Forall (valid_policy demo_heap) demo_policies.
Proof.
  repeat constructor; eexists; (split; [vm_compute; reflexivity|]); split; auto; by right.
Qed.
Lemma demo_locs : NoDup (service_locs demo_policies).
Proof. apply (bool_decide_unpack _). vm_compute. exact I. Qed.

Lemma NewPolicyAuthorizer_spec_witness :
  ∃ (a : Authorizer (gmap string)) h', NewPolicyAuthorizer (λ s, s) DenyAll demo_policies demo_heap = (Ok a, h') ∧
    KeyRead a "a" = false ∧ KeyWrite a "ab" = true ∧ KeyList a "a/b" = true ∧ KeyWrite a "a/b" = false.
Proof.
  destruct (NewPolicyAuthorizer_spec (T := gmap string) (λ s, s) DenyAll demo_policies demo_heap demo_valid demo_locs)
    as (a&h'&Hrun&_&_&_&_&Hr&Hl&Hw&_).
  exists a, h'. split; [exact Hrun|]. rewrite Hr, Hl, !Hw. split_and!; vm_compute; reflexivity.
Defined.
Lemma NewPolicyAuthorizer_services_witness :
  ∃ (a : Authorizer (gmap string)) h', NewPolicyAuthorizer (λ s, s) DenyAll demo_policies demo_heap = (Ok a, h') ∧
    ServiceWrite a "web" = true ∧ IntentionWrite a "web" = true ∧ ServiceRead a "db" = false.
Proof.
  destruct (NewPolicyAuthorizer_services (T := gmap string) (λ s, s) DenyAll demo_policies demo_heap demo_valid demo_locs)
    as (a&h'&Hrun&Hr&Hw&_&Hi).
  exists a, h'. split; [exact Hrun|]. rewrite Hr, Hw, Hi. split_and!; vm_compute; reflexivity.
Defined.

Definition demo_authorizer : Authorizer (gmap string) :=
  match NewPolicyAuthorizer (λ s, s) DenyAll demo_policies demo_heap with (Ok a, _) => a | _ => DenyAll end.
Lemma KeyWritePrefix_sound_witness :
  KeyWritePrefix demo_authorizer "b" = true ∧ KeyWritePrefix demo_authorizer "a" = false ∧
  KeyWrite demo_authorizer "b/c" = true.
Proof.
  split; [vm_compute; reflexivity|]. split; [vm_compute; reflexivity|].
  apply (KeyWritePrefix_sound demo_authorizer "b" "b/c"); vm_compute; reflexivity.
Defined.
Lemma NewPolicyFromSource_valid_witness :
  ∃ p h', NewPolicyFromSource demo_decode no_legacy "id" 7 "rk" SyntaxCurrent ∅ = (Ok p, h') ∧ valid_policy h' p ∧
    Services p = [1%positive].
Proof.
  destruct (NewPolicyFromSource demo_decode no_legacy "id" 7 "rk" SyntaxCurrent ∅) as [[p|e|w] h'] eqn:Hrun;
    [|vm_compute in Hrun; discriminate..].
  exists p, h'. destruct (NewPolicyFromSource_valid _ _ _ _ _ _ _ _ _ Hrun) as (_&_&Hv&_).
  split; [reflexivity|]. split; [exact Hv|]. vm_compute in Hrun. by injection Hrun as <- _.
Defined.

(** The state of a server that has parsed the two policies. *)
Definition parsed_state : acl_state (gmap string) :=
  (resolveWithCache demo_decode no_legacy (λ s, s) [reader; writer] fresh_caches).2.
Definition parsed_policy (p : ACLPolicy) : Policy :=
  default (empty_policy "" 0) (GetParsedPolicy (as_caches parsed_state) (hex_encode (ACLPolicy_SetHash (λ s, s) p))).
Definition may_write (tokens : list (list ACLPolicy)) (s : acl_state (gmap string)) : list bool :=
  allows (λ a, ServiceWrite a "web") <$> compile_all tokens s.
Lemma merge_escalates_witness :
  may_write [[reader]] parsed_state = [false] ∧ may_write [[reader; writer]; [reader]] parsed_state !! 1%nat = Some true.
Proof.
  destruct (merge_escalates (T := gmap string) (λ s, s) demo_decode no_legacy DenyAll reader [writer] (parsed_policy reader)
    [parsed_policy writer] parsed_state "web" PolicyRead PolicyWrite) as [(a&s'&Ha&Hw)(b&s1&b'&s2&Hb&Hb'&Hw')].
  - vm_compute. reflexivity.
  - constructor; [vm_compute; reflexivity|constructor].
  - vm_compute. reflexivity.
  - vm_compute. reflexivity.
  - repeat constructor; eexists; (split; [vm_compute; reflexivity|]); split; auto; by left.
  - apply (bool_decide_unpack _). vm_compute. exact I.
  - vm_compute. reflexivity.
  - vm_compute. reflexivity.
  - unfold may_write, compile_all. rewrite Ha, Hb, Hb'. cbn [fmap list_fmap allows lookup list_lookup]. rewrite Hw, Hw'. split; reflexivity.
Defined.
