(* ===== verification/EndpointProps.v ===== *)
(** * What a token may do through the write endpoints *)

From S2P Require Import Prelude Memdb ProxyConfig Structs ConnectTables AclTables ConfigEntries Delay TombstoneGC Store Kvs PreparedQuery Catalog Intention Txn Fsm.
From S2P Require Import Radix Acl Authorizer AclCache Filter CatalogRead ServiceValidate Endpoint Logic MemdbFacts StoreFacts KvSpec KvRefine CatalogProps.
From S2P Require Import Frames SnapshotFacts SnapshotCatalog KvProps CatalogInv CatalogSound.
From S2P Require Import AclMerge AclProps.

(** ** Keys *)

(** The keys a command can change: those under the prefix for a delete-tree,
    its own key otherwise. *)
Definition in_reach (req : KVSRequest) (k : string) : Prop :=
  if decide (kr_Op req = "delete-tree") then covers (de_Key (kr_DirEnt req)) k = true else k = de_Key (kr_DirEnt req).

Lemma spec_set_reach idx e b a a' k :
  spec_set idx e b a = Some a' → a_kv a' !! k ≠ a_kv a !! k → k = de_Key e.
Proof.
  unfold spec_set. intros Hs Hk. destruct (unchanged _ _); [by simplify_eq|].
  destruct (storable _); [|done]. injection Hs as <-. simpl in Hk.
  destruct (decide (k = de_Key e)) as [|Hne]; [done|]. by rewrite lookup_insert_ne in Hk.
Qed.
Lemma spec_delete_reach idx key a k : a_kv (spec_delete idx key a) !! k ≠ a_kv a !! k → k = key.
Proof.
  unfold spec_delete. case_match; [|done]. simpl. intros Hk.
  destruct (decide (k = key)) as [|Hne]; [done|]. by rewrite lookup_delete_ne in Hk.
Qed.
Lemma spec_delete_tree_reach idx p a k : a_kv (spec_delete_tree idx p a) !! k ≠ a_kv a !! k → covers p k = true.
Proof.
  unfold spec_delete_tree. case_decide; [|done]. simpl. intros Hk.
  destruct (covers p k) eqn:Hc; [done|]. destruct Hk. destruct (a_kv a !! k) as [x|] eqn:Hx.
  - apply map_lookup_filter_Some. split; [done|]. simpl. rewrite Hc. by intros [].

  - apply map_lookup_filter_None. by left.
Qed.
Lemma spec_lock_reach live idx e a b a' k :
  spec_lock live idx e a = Some (b, a') → a_kv a' !! k ≠ a_kv a !! k → k = de_Key e.
Proof.
  unfold spec_lock. intros Hs Hk. repeat case_match; try discriminate Hs; try (injection Hs as <- <-; done);
    apply fmap_Some in Hs as (a1&Ha&[= -> ->]); exact (spec_set_reach _ _ _ _ _ _ Ha Hk).
Qed.
Lemma spec_unlock_reach idx e a b a' k :
  spec_unlock idx e a = Some (b, a') → a_kv a' !! k ≠ a_kv a !! k → k = de_Key e.
Proof.
  unfold spec_unlock. intros Hs Hk. repeat case_match; try discriminate Hs; try (injection Hs as <- <-; done);
    apply fmap_Some in Hs as (a1&Ha&[= -> ->]); exact (spec_set_reach _ _ _ _ _ _ Ha Hk).
Qed.
Lemma spec_kv_reach live idx req a r a' k :
  spec_kv live idx req a = Some (r, a') → a_kv a' !! k ≠ a_kv a !! k → in_reach req k.
Proof.
  unfold spec_kv, in_reach. destruct req as [op d]. simpl. intros Hs Hk.
  case_decide as H1; [subst; simpl; apply fmap_Some in Hs as (a1&Ha&[= -> ->]); exact (spec_set_reach _ _ _ _ _ _ Ha Hk)|].
  case_decide as H2; [subst; simplify_eq; by apply spec_delete_reach in Hk|].
  case_decide as H3; [subst; repeat case_match; injection Hs as <- <-; try done; exact (spec_delete_reach _ _ _ _ Hk)|].
  case_decide as H4; [simplify_eq; by apply spec_delete_tree_reach in Hk|].
  case_decide as H5; [subst; case_match; [|by injection Hs as <- <-]; apply fmap_Some in Hs as (a1&Ha&[= -> ->]); exact (spec_set_reach _ _ _ _ _ _ Ha Hk)|].
  case_decide as H6; [apply fmap_Some in Hs as ([b a1]&Ha&[= -> ->]); exact (spec_lock_reach _ _ _ _ _ _ _ Ha Hk)|].
  case_decide as H7; [apply fmap_Some in Hs as ([b a1]&Ha&[= -> ->]); exact (spec_unlock_reach _ _ _ _ _ _ Ha Hk)|].
  done.
Qed.

(** What [kvsPreApply] lets through can be written. *)
Lemma prefix_of_key p k : nul_free p → covers p k = true → String.prefix p k = true.
Proof. intros Hp. unfold covers. by rewrite prefix_terminated. Qed.

(** What submitting a KV request does to the keys. *)
Lemma KVS_submit ext before now idx req st st1 :
  replay ext before st = (Ok tt, st1) → reachable st1 →
  ∃ (o : outcome response) st2, raftApply ext (Committed before now idx) (KVSRequestType req) st = (Ok o, st2) ∧
    (∀ w, o ≠ Panic w) ∧ kv_frame (st_db st1) (st_db st2) ∧
    ∀ k, kvs (st_db st2) !! string_args false k ≠ kvs (st_db st1) !! string_args false k →
      in_reach req k ∧ kr_Op req ∉ ["get"; "get-tree"; "check-session"; "check-index"].
Proof.
  intros Hrep Hst1. unfold raftApply. rewrite (run_bind_ok _ _ _ _ _ Hrep). unfold mtry. simpl.
  pose proof (reachable_rel st1 Hst1) as Hrel.
  pose proof (kv_command_refines now idx req st1 _ Hrel) as H. unfold command_refines in H.
  destruct (applyKVSOperation now idx req st1) as [o st2]. simpl in H.
  destruct (spec_kv _ idx req _) as [[resp a']|] eqn:Hs.
  - destruct H as (->&Hrel'&Hf). exists (Ok resp), st2. split; [done|]. split; [done|]. split; [done|].
    intros k Hk. split.
    + apply (spec_kv_reach _ _ _ _ _ _ _ Hs). by rewrite (rel_kv _ _ Hrel'), (rel_kv _ _ Hrel).
    + intros Hop. unfold spec_kv in Hs.
      repeat (apply elem_of_cons in Hop as [Hop|Hop]; [rewrite Hop in Hs; discriminate Hs|]). by apply elem_of_nil in Hop.
  - destruct H as [[e ->] Hd]. exists (Err e), st2. rewrite Hd. by split_and!.
Qed.

Section vetted.
Context {T : Type → Type} `{RadixTree T} (a : Authorizer T).

Lemma kvsPreApply_cases now req st :
  let r := kvsPreApply now (Some a) (kr_Op req) (kr_DirEnt req) st in
  (∀ w, r ≠ Panic w) ∧
  (r = Ok true → (kr_Op req = "delete-tree" → nul_free (de_Key (kr_DirEnt req))) →
   kr_Op req ∈ ["get"; "get-tree"; "check-session"; "check-index"] ∨
   ∀ k, in_reach req k → KeyWrite a k = true).
Proof.
  destruct req as [op d]. unfold kvsPreApply, in_reach. simpl.
  destruct (decide _); [by split|]. split; [by repeat case_match|].
  destruct (decide (op = "delete-tree")) as [->|Hdt].
  { intros Hr Hn. right. intros k Hk. apply (KeyWritePrefix_under _ (de_Key d)); [|by apply prefix_of_key; auto].
    destruct (KeyWritePrefix a (de_Key d)); [done|]. discriminate Hr. }
  intros Hr _. destruct (decide (op = "get" ∨ op = "get-tree")) as [[->| ->]|]; [left; set_solver..|].
  destruct (decide (op = "check-session" ∨ op = "check-index")) as [[->| ->]|]; [left; set_solver..|].
  right. intros k ->. simpl in Hr. destruct (KeyWrite a (de_Key d)); [done|]. discriminate Hr.
Qed.

(** C20. A token is confined to its keys: whatever request [KVS.Apply] is sent,
    and whatever other entries are committed before it, it either leaves the
    store as it was, or, next to what those entries do, changes only keys that
    the token may write, and none of the tables of sessions and of the
    catalog; and it does not crash.  A write of a key that the token may not
    write is refused.  The prefix of a delete-tree must hold no NUL byte:
    [delete_tree_beyond_prefix] shows a token that deletes a key it may not
    write with one that does. *)
Theorem KVS_Apply_confined ext before now idx t args st st1 r st2 :
  replay ext before st = (Ok tt, st1) → reachable st1 →
  (kr_Op args = "delete-tree" → nul_free (de_Key (kr_DirEnt args))) →
  KVS_Apply ext (Ok (Some a)) (Committed before now idx) t args st = (r, st2) →
  (∀ w, r ≠ Panic w) ∧
  (kr_Op args ∈ ["set"; "delete"; "delete-cas"; "cas"; "lock"; "unlock"] → de_Key (kr_DirEnt args) ≠ "" →
   KeyWrite a (de_Key (kr_DirEnt args)) = false → r = Err ErrPermissionDenied ∧ st2 = st) ∧
  (st2 = st ∨
   kv_frame (st_db st1) (st_db st2) ∧
   ∀ k, kvs (st_db st2) !! string_args false k ≠ kvs (st_db st1) !! string_args false k → KeyWrite a k = true).
Proof.
  intros Hrep Hst1 Hnul. unfold KVS_Apply. unfold mlift at 1, mbind' at 1.
  destruct (kvsPreApply_cases t args st) as [Hnp Hok].
  unfold mread at 1, mbind' at 1. intros Hrun.
  assert (kr_Op args ∈ ["set"; "delete"; "delete-cas"; "cas"; "lock"; "unlock"] → de_Key (kr_DirEnt args) ≠ "" →
    KeyWrite a (de_Key (kr_DirEnt args)) = false →
    kvsPreApply t (Some a) (kr_Op args) (kr_DirEnt args) st = Err ErrPermissionDenied) as Hden.
  { intros Hop Hk Hw. unfold kvsPreApply. rewrite decide_False by tauto. simpl. rewrite Hw. simpl.
    repeat (apply elem_of_cons in Hop as [->|Hop]; [by simpl|]). by apply elem_of_nil in Hop. }
  destruct (kvsPreApply _ _ _ _ st) as [[]|e|w] eqn:Hpre; [|injection Hrun as <- <-..|by destruct (Hnp w)].
  - destruct (KVS_submit ext before now idx args st st1 Hrep Hst1) as (o&st2'&Hsub&Ho&Hf&Hk).
    rewrite (run_bind_ok _ _ _ _ _ Hsub) in Hrun.
    assert (st2 = st2' ∧ ∀ w, r ≠ Panic w) as [-> Hr].
    { unfold response_of, mlift, mbind', mreturn in Hrun. destruct o; [..|by destruct (Ho what)]; by injection Hrun as <- <-. }
    split; [done|]. split; [intros Hop Hne Hw; specialize (Hden Hop Hne Hw); discriminate Hden|].
    right. split; [done|]. intros k [Hin Hop]%Hk. destruct (Hok eq_refl Hnul) as [|Hall]; [done|]. by apply Hall.
  - split; [done|]. split; [|by left]. intros Hop Hne Hw. specialize (Hden Hop Hne Hw). discriminate Hden.
  - split; [done|]. split; [|by left]. intros Hop Hne Hw. by rewrite <- (Hden Hop Hne Hw).
Qed.
End vetted.

Definition set_request (key : string) : KVSRequest := mkKVSRequest "set" (mkDirEntry 0 key 0 "v" "" 0 0).
Lemma reachable_empty : reachable (NewStateStore None).
Proof. by exists sample_externals, [], None. Qed.
Lemma KVS_Apply_confined_witness :
  (∃ r st2, KVS_Apply sample_externals (Ok (Some demo_authorizer)) (Committed [] 0 7) 0 (set_request "b/c") (NewStateStore None) = (r, st2) ∧
    r = Ok false ∧ de_Value <$> kvs (st_db st2) !! string_args false "b/c" = Some "v" ∧
    (st2 = NewStateStore None ∨ kv_frame empty_db (st_db st2) ∧
     ∀ k, kvs (st_db st2) !! string_args false k ≠ kvs empty_db !! string_args false k → KeyWrite demo_authorizer k = true)) ∧
  (KVS_Apply sample_externals (Ok (Some demo_authorizer)) (Committed [] 0 7) 0 (set_request "a") (NewStateStore None)).1 =
    Err ErrPermissionDenied.
Proof.
  split; [|vm_compute; reflexivity].
  destruct (KVS_Apply sample_externals (Ok (Some demo_authorizer)) (Committed [] 0 7) 0 (set_request "b/c") (NewStateStore None))
    as [r st2] eqn:Hrun.
  exists r, st2. split; [reflexivity|].
  destruct (KVS_Apply_confined demo_authorizer sample_externals [] 0 7 0 (set_request "b/c") (NewStateStore None) (NewStateStore None)
    r st2 eq_refl reachable_empty ltac:(discriminate) Hrun) as (_&_&Hc).
  vm_compute in Hrun. injection Hrun as <- <-. split; [reflexivity|]. split; [vm_compute; reflexivity|]. exact Hc.
Defined.

(** ** What the vetting misses *)

Definition victim_id : string := "11111111-2222-3333-4444-555555555555".
Definition node_registration (node id addr : string) (svc : option NodeService) (skip : bool) : RegisterRequest :=
  mkRegisterRequest "dc1" id node addr None None svc None [] skip.
Definition victim_log : list (Z * N * command) :=
  [(0%Z, 5%N, RegisterRequestType (node_registration "victim" victim_id "10.0.0.1" (Some (db_service "db1")) false))].
Definition victim_store : Store := (fsm_run sample_externals victim_log (NewStateStore None)).2.
Definition service_names (st : Store) : list (string * string * string) :=
  (λ x, (sn_Node x.2, sn_ServiceID x.2, sn_ServiceName x.2)) <$> map_to_list (services (st_db st)).

Section holes.
Context {T : Type → Type} `{RadixOps T}.







(** An intention operation of a transaction is not vetted. *)
Definition any_intention : Intention :=
  mkIntention "aaaaaaaa-2222-3333-4444-555555555555" "" "default" "web" "default" "db" "consul" "allow" "" 0 None 9 0 0 None 0 0.
Definition intention_op : TxnOp := mkTxnOp None (Some (mkTxnIntentionOp "create" (Some any_intention))) None None None.
Lemma txn_intention_unvetted (a : Authorizer T) :
  let '(r, st) := Txn_Apply sample_externals (Ok (Some a)) (Committed [] 0 6) 0 [intention_op] (NewStateStore None) in
  r = Ok ([], []) ∧ (λ x, (ixn_SourceName x.2, ixn_DestinationName x.2)) <$> map_to_list (intentions (connect (st_db st))) = [("web", "db")].
Proof. vm_compute. repeat split. Qed.

(** A service operation is vetted by the name in the request, although it
    finds the service by its ID: who may write one service may delete any. *)
Definition delete_op (name id : string) : TxnOp :=
  mkTxnOp None None None (Some (mkTxnServiceOp "delete" "victim"
    (mkNodeService "" id name None "" None None 0 None false no_proxy (mkServiceConnect false) 0 0))) None.
Lemma txn_deletes_foreign_service (a : Authorizer T) :
  ServiceWrite a "web" = true →
  let '(r, st) := Txn_Apply sample_externals (Ok (Some a)) (Committed [] 0 6) 0 [delete_op "web" "db1"] victim_store in
  r = Ok ([], []) ∧ service_names st = [].
Proof.
  intros Ha.
  assert (preCheck 0 (Some a) victim_store 0 [delete_op "web" "db1"] = Ok ([delete_op "web" "db1"], [])) as Hp.
  { lazy -[ServiceWrite]. by rewrite Ha. }
  unfold Txn_Apply, mread, mbind', mlift. rewrite Hp. vm_compute. repeat split.
Qed.
End holes.


(** A key matches, through the terminator of the index, a prefix that is the
    key and a NUL: a token that may write everything but the key "a" deletes
    it with a delete-tree of "a\0", under which no rule denies anything. *)
Lemma delete_tree_beyond_prefix :
  let st := (fsm_run sample_externals [(0%Z, 5%N, KVSRequestType (set_request "a"))] (NewStateStore None)).2 in
  let '(r, st') := KVS_Apply sample_externals (Ok (Some demo_authorizer)) (Committed [] 0 6) 0
                     (mkKVSRequest "delete-tree" (mkDirEntry 0 ("a" +:+ nul) 0 "" "" 0 0)) st in
  KeyWrite demo_authorizer "a" = false ∧ is_Some (kvs (st_db st) !! string_args false "a") ∧
  r = Ok false ∧ kvs (st_db st') !! string_args false "a" = None.
Proof. vm_compute. repeat split. by eexists. Qed.

(** Rules compare names byte by byte, the catalog without regard to case: a
    token that may write every service but "web" registers an instance that is
    served to whoever asks for "web". *)
Definition web_denied : Authorizer (gmap string) :=
  match NewPolicyAuthorizer (λ s, s) AllowAll [key_policy [] [] [1%positive]]
          {[1%positive := mkServicePolicy "web" PolicyDeny ""]} with
  | (Ok a, _) => a
  | _ => DenyAll
  end.
Lemma respelled_service_escapes_deny :
  let request := node_registration "rogue" "" "10.6.6.6"
    (Some (mkNodeService "" "x" "WEB" None "" None None 80 None false no_proxy (mkServiceConnect false) 0 0)) false in
  let '(r, st) := Catalog_Register sample_externals true (Ok (Some web_denied)) (Committed [] 0 6) request (NewStateStore None) in
  ServiceWrite web_denied "web" = false ∧ r = Ok tt ∧
  match CheckServiceNodes "web" st with
  | Ok (_, l) => (λ c, node_Address (csn_Node c)) <$> l = ["10.6.6.6"]
  | _ => False
  end.
Proof. vm_compute. repeat split. Qed.

(** The services of a node are filtered by their IDs: an instance of "web"
    with another ID is shown to a token that may not read "web". *)
Lemma node_services_filtered_by_id :
  let web := mkNodeService "" "x" "web" None "" None None 80 None false no_proxy (mkServiceConnect false) 0 0 in
  let reply := Some (mkNodeServices (mkNode "" "n" "10.0.0.1" "dc1" None None 0 0) {["x" := web]}) in
  ServiceRead web_denied "web" = false ∧
  filterACLWithAuthorizer true (Some web_denied) (SubjNodeServices reply) = Ok (SubjNodeServices reply).
Proof. split; vm_compute; reflexivity. Qed.
