(* ===== verification/SessionTimerProps.v ===== *)
(** * The timers of the leader keep the contract of session TTLs

    The comment of [createSessionTimer] gives it: a session is not expired
    before its TTL, and nothing is promised about how long after.  The steps
    below are the calls the server makes on its timers, between which time
    passes and the rest of the server runs. *)

From S2P Require Import Prelude Memdb ProxyConfig Structs ConnectTables AclTables ConfigEntries Delay TombstoneGC Store Session Txn Fsm SessionEndpoint.
From S2P Require Import Radix Acl Authorizer Filter Endpoint SessionEndpoint.

(** The leader: its clock, the server, the goroutines of [invalidateSession]
    that have not run their first statement, and the deadline that the last
    renewal of each session set. *)
Record leader := mkLeader {
  ld_now : Z;
  ld_srv : Server;
  ld_started : list string;
  ld_due : gmap string Z
}.
Definition ld_timers (s : leader) : gmap positive (string * option Z) := t_timers (sessionTimers (ld_srv s)).
Definition ld_map (s : leader) : gmap string positive := t_m (sessionTimers (ld_srv s)).
Definition due (now ttl : Z) : Z := timer_when now (i64_wrap (ttl * SessionTTLMultiplier)).

Inductive event :=
| Tick (t : Z)                      (* time passes *)
| Requests (st : Store)             (* the store changes *)
| Renew (id : string) (ttl : Z)     (* [createSessionTimer] *)
| Clear (id : string)               (* [clearSessionTimer] *)
| ClearAll                          (* [clearAllSessionTimers] *)
| Fire (l : positive)               (* a timer runs its function *)
| Forget (id : string).             (* that function deletes the entry *)

Inductive step : leader → event → leader → Prop :=
| step_tick s t : (ld_now s <= t)%Z →
    step s (Tick t) (mkLeader t (ld_srv s) (ld_started s) (ld_due s))
| step_requests s st :
    step s (Requests st) (mkLeader (ld_now s) (mkServer st (sessionTimers (ld_srv s))) (ld_started s) (ld_due s))
| step_renew s id ttl srv : createSessionTimer (ld_now s) id ttl (ld_srv s) = (Ok tt, srv) →
    step s (Renew id ttl) (mkLeader (ld_now s) srv (ld_started s) (<[id := due (ld_now s) ttl]> (ld_due s)))
| step_clear s id srv : clearSessionTimer id (ld_srv s) = (Ok tt, srv) →
    step s (Clear id) (mkLeader (ld_now s) srv (ld_started s) (delete id (ld_due s)))
| step_clear_all s srv : clearAllSessionTimers (ld_srv s) = (Ok tt, srv) →
    step s ClearAll (mkLeader (ld_now s) srv (ld_started s) ∅)
| step_fire s l id d : ld_timers s !! l = Some (id, Some d) → (d <= ld_now s)%Z →
    step s (Fire l) (mkLeader (ld_now s) (mkServer (srv_store (ld_srv s)) (set_deadline l None (sessionTimers (ld_srv s))))
                       (id :: ld_started s) (ld_due s))
| step_forget s id srv rest : ld_started s ≡ₚ id :: rest →
    on_timers (Timers_Del id) (ld_srv s) = (Ok tt, srv) →
    step s (Forget id) (mkLeader (ld_now s) srv rest (delete id (ld_due s))).

(** A renewal that does not meet a timer of the session that has just fired. *)
Definition undisturbed (s : leader) (e : event) : Prop :=
  match e with Renew id _ => id ∉ ld_started s | _ => True end.
Definition new_leader (now : Z) (st : Store) : leader := mkLeader now (mkServer st NewSessionTimers) [] ∅.
Inductive reaches (now : Z) (st : Store) : leader → Prop :=
| reaches_start : reaches now st (new_leader now st)
| reaches_step s e s' : reaches now st s → undisturbed s e → step s e s' → reaches now st s'.

(** ** The invariant *)

Record timers_ok (s : leader) : Prop := {
  armed_due : ∀ l id d, ld_timers s !! l = Some (id, Some d) → ld_map s !! id = Some l ∧ ld_due s !! id = Some d;
  mapped : ∀ id l, ld_map s !! id = Some l → ∃ d, ld_timers s !! l = Some (id, d) ∧ (d = None ↔ id ∈ ld_started s);
  due_mapped : ∀ id, is_Some (ld_due s !! id) ↔ is_Some (ld_map s !! id);
  started_once : NoDup (ld_started s)
}.

Lemma new_leader_ok now st : timers_ok (new_leader now st).
Proof. split; unfold new_leader, ld_timers, ld_map; simpl; intros; rewrite ?lookup_empty in *; try done. constructor. Qed.


Lemma renew_ok s id ttl srv : timers_ok s → id ∉ ld_started s → createSessionTimer (ld_now s) id ttl (ld_srv s) = (Ok tt, srv) →
  timers_ok (mkLeader (ld_now s) srv (ld_started s) (<[id := due (ld_now s) ttl]> (ld_due s))).
Proof.
  destruct s as [now [st [m tm]] started dues]. intros [Harm Hmap Hdue Hone] Hid [= <-]. unfold ld_timers, ld_map in *; simpl in *.
  unfold ResetOrCreate, set_deadline, due; simpl. destruct (m !! id) as [l|] eqn:Hl.
  - destruct (Hmap _ _ Hl) as (d0&Hd0&Hiff). split; unfold ld_timers, ld_map; simpl.
    + intros l' id' d. destruct (decide (l' = l)) as [->|Hne].
      * rewrite lookup_alter_eq, Hd0. simpl. intros [= <- <-]. by rewrite lookup_insert_eq.
      * rewrite lookup_alter_ne by done. intros [H1 H2]%Harm. rewrite lookup_insert_ne by congruence. done.
    + intros id' l' H'. destruct (decide (l' = l)) as [->|Hne].
      * destruct (Hmap _ _ H') as (?&?&?). rewrite lookup_alter_eq, Hd0. simpl.
        assert (id' = id) as -> by congruence. eexists; split; [done|]. split; done.
      * rewrite lookup_alter_ne by done. by apply Hmap.
    + intros id'. rewrite lookup_insert_is_Some', Hdue. naive_solver.
    + done.
  - pose proof (is_fresh (dom tm)) as Hf. set (l := fresh (dom tm)) in *. apply not_elem_of_dom in Hf.
    split; unfold ld_timers, ld_map; simpl.
    + intros l' id' d. destruct (decide (l' = l)) as [->|Hne].
      * rewrite lookup_insert_eq. intros [= <- <-]. by rewrite !lookup_insert_eq.
      * rewrite lookup_insert_ne by done. intros [H1 H2]%Harm. by rewrite !lookup_insert_ne by congruence.
    + intros id' l'. destruct (decide (id' = id)) as [->|Hne].
      * rewrite lookup_insert_eq. intros [= <-]. rewrite lookup_insert_eq. eexists; split; [done|]. split; done.
      * rewrite lookup_insert_ne by done. intros H'. destruct (Hmap _ _ H') as (d&Hd&?).
        rewrite lookup_insert_ne by congruence. by exists d.
    + intros id'. by rewrite !lookup_insert_is_Some', Hdue.
    + done.
Qed.

Lemma clear_ok s id srv : timers_ok s → clearSessionTimer id (ld_srv s) = (Ok tt, srv) →
  timers_ok (mkLeader (ld_now s) srv (ld_started s) (delete id (ld_due s))).
Proof.
  destruct s as [now [st [m tm]] started dues]. intros [Harm Hmap Hdue Hone] [= <-]. unfold ld_timers, ld_map in *; simpl in *.
  unfold Timers_Stop, Timers_Del, Timers_Set, set_deadline; simpl. destruct (m !! id) as [l|] eqn:Hl; split; unfold ld_timers, ld_map; simpl.
  - intros l' id' d. destruct (decide (l' = l)) as [->|Hne].
    + rewrite lookup_alter_eq. by destruct (tm !! l).
    + rewrite lookup_alter_ne by done. intros [H1 H2]%Harm. by rewrite !lookup_delete_ne by congruence.
  - intros id' l' [Hne H']%lookup_delete_Some. destruct (Hmap _ _ Hl) as (?&?&?), (Hmap _ _ H') as (d&?&?).
    rewrite lookup_alter_ne by congruence. by exists d.
  - intros id'. by rewrite !lookup_delete_is_Some, Hdue.
  - done.
  - intros l' id' d [H1 H2]%Harm. by rewrite lookup_delete_ne by congruence.
  - done.
  - intros id'. rewrite lookup_delete_is_Some, Hdue. split; [naive_solver|]. intros [l H]. split; [congruence|eauto].
  - done.
Qed.

Lemma stopped_timers L : ∀ t l id d, t_timers (foldl (λ t kl, set_deadline kl.2 None t) t L) !! l = Some (id, Some d) →
  t_timers t !! l = Some (id, Some d) ∧ l ∉ (L : list (string * positive)).*2.
Proof.
  induction L as [|[k l0] L IH]; intros t l id d; simpl; [set_solver|]. intros [H Hn]%IH; revert H. unfold set_deadline; simpl.
  destruct (decide (l = l0)) as [->|Hne].
  - rewrite lookup_alter_eq. by destruct (t_timers t !! l0).
  - rewrite lookup_alter_ne by done. intros ->. split; [done|]. set_solver.
Qed.
Lemma clear_all_ok s srv : timers_ok s → clearAllSessionTimers (ld_srv s) = (Ok tt, srv) →
  timers_ok (mkLeader (ld_now s) srv (ld_started s) ∅).
Proof.
  destruct s as [now [st [m tm]] started dues]. intros [Harm Hmap Hdue Hone] [= <-]. unfold ld_timers, ld_map in *; simpl in *.
  split; unfold ld_timers, ld_map; simpl; [|done| |done].
  - intros l id d [H Hn]%stopped_timers. apply Harm in H as [H _]. destruct Hn. apply list_elem_of_fmap. exists (id, l).
    split; [done|]. by apply elem_of_map_to_list.
  - intros id. rewrite !lookup_empty. done.
Qed.

Lemma fire_ok s l id d : timers_ok s → ld_timers s !! l = Some (id, Some d) →
  timers_ok (mkLeader (ld_now s) (mkServer (srv_store (ld_srv s)) (set_deadline l None (sessionTimers (ld_srv s)))) (id :: ld_started s) (ld_due s)).
Proof.
  destruct s as [now [st [m tm]] started dues]. intros [Harm Hmap Hdue Hone] Hl. unfold ld_timers, ld_map in *; simpl in *.
  destruct (Harm _ _ _ Hl) as [Hm Hd]. destruct (Hmap _ _ Hm) as (d'&Hd'&Hiff).
  assert (id ∉ started) as Hid by (rewrite Hl in Hd'; naive_solver). split; unfold ld_timers, ld_map, set_deadline; simpl.
  - intros l' id' e. destruct (decide (l' = l)) as [->|Hne]; [rewrite lookup_alter_eq, Hl; done|].
    rewrite lookup_alter_ne by done. apply Harm.
  - intros id' l' H'. destruct (decide (l' = l)) as [->|Hne].
    + destruct (Hmap _ _ H') as (?&?&?). assert (id' = id) as -> by congruence. rewrite lookup_alter_eq, Hl. simpl.
      eexists; split; [done|]. split; [left|done].
    + rewrite lookup_alter_ne by done. destruct (Hmap _ _ H') as (e&He&He'). exists e. split; [done|].
      rewrite He', elem_of_cons. assert (id' ≠ id) by congruence. naive_solver.
  - done.
  - by constructor.
Qed.

Lemma forget_ok s id srv rest : timers_ok s → ld_started s ≡ₚ id :: rest → on_timers (Timers_Del id) (ld_srv s) = (Ok tt, srv) →
  timers_ok (mkLeader (ld_now s) srv rest (delete id (ld_due s))).
Proof.
  destruct s as [now [st [m tm]] started dues]. intros [Harm Hmap Hdue Hone] Hp [= <-]. unfold ld_timers, ld_map in *; simpl in *.
  rewrite Hp in Hone. apply list.NoDup_cons in Hone as [Hid Hrest].
  assert (∀ x, x ∈ started ↔ x = id ∨ x ∈ rest) as Hst by (intros x; by rewrite Hp, elem_of_cons).
  split; unfold ld_timers, ld_map, Timers_Del, Timers_Set; simpl.
  - intros l id' d H. destruct (Harm _ _ _ H) as [H1 H2]. destruct (Hmap _ _ H1) as (d'&Hd'&Hiff).
    assert (id' ≠ id) by (intros ->; naive_solver). by rewrite !lookup_delete_ne by done.
  - intros id' l [Hne H']%lookup_delete_Some. destruct (Hmap _ _ H') as (d&Hd&Hiff). exists d. split; [done|].
    rewrite Hiff, Hst. naive_solver.
  - intros id'. by rewrite !lookup_delete_is_Some, Hdue.
  - done.
Qed.

Lemma step_ok s e s' : timers_ok s → undisturbed s e → step s e s' → timers_ok s'.
Proof.
  intros Hok Hu Hs. destruct Hs; simpl in Hu; eauto using renew_ok, clear_ok, clear_all_ok, fire_ok, forget_ok.
  - by destruct Hok; split.
  - by destruct Hok; split.
Qed.
Lemma reaches_ok now st s : reaches now st s → timers_ok s.
Proof. induction 1; eauto using new_leader_ok, step_ok. Qed.

(** ** The contract *)

(** C23. Session TTLs are kept: however renewals, clears, expiries and the rest of the server interleave, as long
    as no renewal meets a timer of the same session that has just fired, a timer that can fire belongs to a
    session whose last renewal set a deadline that has passed; and every session that has a deadline still has a
    timer armed for exactly that deadline, unless its expiry has already started. *)
Theorem session_timer_waits now st s : reaches now st s →
  (∀ l s', step s (Fire l) s' → ∃ id d, ld_timers s !! l = Some (id, Some d) ∧ ld_due s !! id = Some d ∧ (d <= ld_now s)%Z) ∧
  (∀ id d, ld_due s !! id = Some d →
    id ∈ ld_started s ∨ ∃ l, ld_map s !! id = Some l ∧ ld_timers s !! l = Some (id, Some d)).
Proof.
  intros [Harm Hmap Hdue Hone]%reaches_ok. split.
  - intros l s' Hs. inversion Hs; subst. edestruct Harm; [done|]. eauto.
  - intros id d Hd. destruct (proj1 (Hdue id)) as [l Hl]; [by eexists|]. destruct (Hmap _ _ Hl) as ([d'|]&Hd'&Hiff).
    + right. exists l. destruct (Harm _ _ _ Hd'). split; congruence.
    + left. by apply Hiff.
Qed.

(** The deadline is twice the TTL away, for every TTL that the endpoint accepts. *)
Lemma due_exact now ttl : (0 <= ttl <= SessionTTLMax)%Z → (0 <= now < 2 ^ 62)%Z → due now ttl = (now + 2 * ttl)%Z.
Proof.
  unfold due, timer_when, i64_wrap, SessionTTLMax, SessionTTLMultiplier. intros Ht Hn.
  rewrite Z.mod_small by lia. lia.
Qed.

(** A renewal of a session with a TTL is the step [Renew]. *)
Lemma Session_Renew_renews {T : Type → Type} `{RadixOps T} v8 (a : outcome (option (Authorizer T))) now id srv i s d rule :
  a = Ok rule → SessionGet id (srv_store srv) = Ok (i, Some s) →
  v8 && denies rule (λ a, SessionWrite a (sess_Node s)) = false →
  sess_TTL s ∉ [""; "0"; "0s"; "0m"; "0h"] → ParseDuration (sess_TTL s) = Ok d → (d =? 0)%Z = false →
  Session_Renew v8 a now id srv = (Ok (i, Some s), (createSessionTimer now (sess_ID s) d srv).2).
Proof.
  intros -> Hget Hrule Httl Hd Hz. destruct srv as [st tm]. cbn [srv_store] in Hget.
  unfold Session_Renew, resetSessionTimer, on_store, mread, mlift, mreturn, mthrow, mbind'. cbn [srv_store sessionTimers].
  rewrite Hget. cbn -[decide ParseDuration]. rewrite Hrule, decide_False by done. rewrite Hd. cbn. by rewrite Hz.
Qed.

(** ** Examples *)

Definition second : Z := 1000000000.
Definition demo_store : Store := NewStateStore None.
Definition renewed (srv : Server) (now : Z) (id : string) (ttl : Z) : Server := (createSessionTimer now id ttl srv).2.
Definition run_leader (st : Store) : leader :=
  mkLeader (10 * second) (renewed (mkServer st NewSessionTimers) 0 "s" (10 * second)) [] {[ "s" := (20 * second)%Z ]}.

Lemma session_timer_waits_witness :
  reaches 0 demo_store (run_leader demo_store) ∧
  (∃ l, ld_timers (run_leader demo_store) !! l = Some ("s", Some (20 * second)%Z)).
Proof.
  assert (reaches 0 demo_store (run_leader demo_store)) as Hr.
  { refine (reaches_step _ _ _ (Tick (10 * second)) _ (reaches_step _ _ _ (Renew "s" (10 * second)) _ (reaches_start _ _) _ (step_renew _ _ _ _ _)) I (step_tick _ _ _)).
    - simpl. set_solver.
    - reflexivity.
    - vm_compute. discriminate. }
  split; [exact Hr|].
  destruct (session_timer_waits 0 demo_store (run_leader demo_store) Hr) as [_ Hdue].
  destruct (Hdue "s" (20 * second)%Z) as [Hin|(l&_&Hl)]; [vm_compute; reflexivity| |exact (ex_intro _ l Hl)].
  simpl in Hin. by apply not_elem_of_nil in Hin.
Defined.

(** A renewal that does meet a timer that has just fired arms it again, and then the expiry deletes its map entry:
    nothing can stop or reset that timer any more, and it fires before a later renewal's deadline. *)
Lemma leaked_timer_fires_early :
  ∃ s l d d', rtc (λ s s', ∃ e, step s e s') (new_leader 0 demo_store) s ∧
    ld_timers s !! l = Some ("s", Some d) ∧ (d <= ld_now s)%Z ∧ ld_due s !! "s" = Some d' ∧ (ld_now s < d')%Z.
Proof.
  do 4 eexists. split.
  { eapply rtc_l; [exists (Renew "s" (10 * second)); eapply step_renew; reflexivity|].
    eapply rtc_l; [exists (Tick (20 * second)); apply step_tick; vm_compute; discriminate|].
    eapply rtc_l; [exists (Fire 1); eapply step_fire; [vm_compute; reflexivity|vm_compute; discriminate]|].
    eapply rtc_l; [exists (Renew "s" (10 * second)); eapply step_renew; reflexivity|].
    eapply rtc_l; [exists (Forget "s"); eapply (step_forget _ _ _ []); [vm_compute; reflexivity|reflexivity]|].
    eapply rtc_l; [exists (Tick (30 * second)); apply step_tick; vm_compute; discriminate|].
    eapply rtc_l; [exists (Renew "s" (10 * second)); eapply step_renew; reflexivity|].
    eapply rtc_l; [exists (Tick (40 * second)); apply step_tick; vm_compute; discriminate|]. apply rtc_refl. }
  split; [instantiate (2 := 1%positive); vm_compute; reflexivity|].
  split; [vm_compute; discriminate|]. split; [vm_compute; reflexivity|]. vm_compute. reflexivity.
Qed.
