(* ===== verification/ReplicationProps.v ===== *)
(** * Replication: the difference is right, a round that reports success has
      brought the datacenter into line, and two ways in which it has not *)

From S2P Require Import Prelude Memdb ProxyConfig Structs ConnectTables AclTables ConfigEntries Delay TombstoneGC Store.
From S2P Require Import AclState ConfigState Txn Fsm Logic MemdbFacts StoreFacts SideFacts Radix Acl Authorizer Filter Endpoint Replication IntentionProps.

(** ** The order of IDs *)

#[export] Instance id_le_total : Total id_le.
Proof. intros a b. unfold id_le. rewrite !string_ltb_le. destruct (total String.le (m_id b) (m_id a)); auto. Qed.
#[export] Instance id_le_trans : Transitive id_le.
Proof. intros a b c. apply ltb_trans. Qed.

(** Sorted, the items without an ID first, and no ID twice. *)
Definition id_lt (a b : meta) : Prop := m_id a = "" ∨ String.ltb (m_id a) (m_id b) = true.
Definition distinct (l : list meta) : Prop := NoDup (filter (λ id, id ≠ "") (m_id <$> l)).

Lemma ltb_irrefl x : String.ltb x x = false.
Proof. apply string_ltb_le. reflexivity. Qed.
Lemma ltb_asym x y : String.ltb x y = true → String.ltb y x = false.
Proof. intros Hx. destruct (decide (y = x)) as [->|Hne]; [apply ltb_irrefl|]. rewrite ltb_neq by done. by rewrite Hx. Qed.
Lemma ltb_lt_trans x y z : String.ltb x y = true → String.ltb y z = true → String.ltb x z = true.
Proof.
  intros H1 H2. destruct (String.ltb x z) eqn:H3; [done|].
  pose proof (ltb_trans z x y H3 (ltb_asym _ _ H1)). congruence.
Qed.
Lemma not_ltb_empty x : String.ltb x "" = false.
Proof. by destruct x. Qed.
Lemma ltb_nonempty x y : String.ltb x y = true → y ≠ "".
Proof. intros Hx ->. by rewrite not_ltb_empty in Hx. Qed.

Lemma SortState_sorted l : distinct l → StronglySorted id_lt (SortState l).
Proof.
  intros Hd. assert (distinct (SortState l)) as Hd'.
  { unfold distinct, SortState. by rewrite (merge_sort_Permutation id_le l). }
  assert (StronglySorted id_le (SortState l)) as Hs by (apply StronglySorted_merge_sort; apply _).
  induction Hs as [|a l' Hs IH Hall]; [constructor|]. unfold distinct in Hd'. rewrite fmap_cons, filter_cons in Hd'.
  constructor.
  { apply IH. case_decide; [by apply list.NoDup_cons in Hd' as [_ ?]|done]. }
  apply list.Forall_forall. intros b Hb. rewrite list.Forall_forall in Hall. destruct (decide (m_id a = "")) as [?|Ha]; [by left|].
  right. rewrite decide_True in Hd' by done. apply list.NoDup_cons in Hd' as [Hn _]. specialize (Hall b Hb). unfold id_le in Hall.
  assert (m_id b ≠ m_id a) as Hne.
  { intros He. apply Hn. apply list_elem_of_filter. split; [done|]. rewrite <-He. by apply list_elem_of_fmap_2. }
  rewrite ltb_neq by done. by rewrite Hall.
Qed.

(** ** The difference, as sets of IDs *)

Definition stale (last : N) (local : list meta) (r : meta) : bool :=
  forallb (λ l, negb (bool_decide (m_id l = m_id r)) ||
                ((last <? m_mod r)%N && negb (bytes_Equal (m_hash r) (m_hash l)))) local.
Definition dels (l r : list meta) : list string := m_id <$> filter (λ x, m_id x ≠ "" ∧ m_id x ∉ m_id <$> r) l.
Definition ups (last : N) (l r : list meta) : list string := m_id <$> filter (λ x, m_id x ≠ "" ∧ stale last l x = true) r.
Definition skips (l : list meta) : nat := length (filter (λ x, m_id x = "") l).
Definition diff_app (d : itemDiffResults) (ds us : list string) (i j : nat) : itemDiffResults :=
  mkDiff (LocalDeletes d ++ ds) (LocalUpserts d ++ us) (LocalSkipped d + i) (RemoteSkipped d + j).

Lemma filter_ext_in {A} (P Q : A → Prop) `{!∀ x, Decision (P x)} `{!∀ x, Decision (Q x)} (l : list A) :
  (∀ x, x ∈ l → P x ↔ Q x) → filter P l = filter Q l.
Proof.
  induction l as [|x l IH]; intros Hx; [done|]. rewrite !filter_cons, IH by (intros; apply Hx; by right).
  pose proof (Hx x ltac:(by left)). destruct (decide (P x)), (decide (Q x)); tauto.
Qed.

Lemma local_rest_spec d l : local_rest d l = diff_app d (m_id <$> filter (λ x, m_id x ≠ "") l) [] (skips l) 0.
Proof.
  revert d. induction l as [|x l IH]; intros d.
  { destruct d. unfold diff_app, skips. simpl. by rewrite !app_nil_r, !Nat.add_0_r. }
  simpl. rewrite IH. unfold diff_app, skips. rewrite !filter_cons. destruct (decide (m_id x ≠ "")) as [Hx|Hx].
  - rewrite decide_False by done. simpl. by rewrite <-app_assoc.
  - rewrite decide_True by (by apply dec_stable). simpl. f_equal; lia.
Qed.
Lemma remote_rest_spec d l : remote_rest d l = diff_app d [] (m_id <$> filter (λ x, m_id x ≠ "") l) 0 (skips l).
Proof.
  revert d. induction l as [|x l IH]; intros d.
  { destruct d. unfold diff_app, skips. simpl. by rewrite !app_nil_r, !Nat.add_0_r. }
  simpl. rewrite IH. unfold diff_app, skips. rewrite !filter_cons. destruct (decide (m_id x ≠ "")) as [Hx|Hx].
  - rewrite decide_False by done. simpl. by rewrite <-app_assoc.
  - rewrite decide_True by (by apply dec_stable). simpl. f_equal; lia.
Qed.

Lemma id_lt_ids a l : m_id a ≠ "" → Forall (id_lt a) l → Forall (λ x, String.ltb (m_id a) (m_id x) = true) l.
Proof. intros Ha. apply Forall_impl. intros x [?|?]; done. Qed.
Lemma later_ids a l : Forall (λ x, String.ltb a (m_id x) = true) l → ∀ x, x ∈ l → m_id x ≠ "" ∧ m_id x ≠ a.
Proof.
  intros Hl x Hx. rewrite list.Forall_forall in Hl. specialize (Hl x Hx). split; [by eapply ltb_nonempty|].
  intros He. by rewrite He, ltb_irrefl in Hl.
Qed.
Lemma not_in_ids (id : string) (l : list meta) : (∀ x, x ∈ l → m_id x ≠ id) → id ∉ m_id <$> l.
Proof. intros Hl (x&->&Hx)%list_elem_of_fmap. by apply (Hl x Hx). Qed.
Lemma stale_all last l r : (∀ x, x ∈ l → m_id x ≠ m_id r) → stale last l r = true.
Proof. intros Hl. apply forallb_forall. intros x Hx%list_elem_of_In. rewrite bool_decide_false by auto. done. Qed.

(** One step of the loops on the reference. *)
Lemma dels_skip_remote r l rs : m_id r = "" → dels l (r :: rs) = dels l rs.
Proof. intros Hr. unfold dels. f_equal. apply filter_ext_in. intros x Hx. rewrite fmap_cons, Hr, elem_of_cons. naive_solver. Qed.
Lemma ups_skip_local last l ls rs : m_id l = "" → ups last (l :: ls) rs = ups last ls rs.
Proof.
  intros Hl. unfold ups. f_equal. apply filter_ext_in. intros x Hx. simpl. rewrite Hl. destruct (decide (m_id x = "")) as [->|Hn]; [naive_solver|].
  rewrite (bool_decide_false (_ = _)) by done. done.
Qed.
Lemma dels_later_remote r l rs : (∀ x, x ∈ l → m_id x ≠ m_id r) → dels l (r :: rs) = dels l rs.
Proof.
  intros Hl. unfold dels. f_equal. apply filter_ext_in. intros x Hx. rewrite fmap_cons, elem_of_cons. specialize (Hl x Hx). naive_solver.
Qed.
Lemma ups_later_local last l ls rs : (∀ x, x ∈ rs → m_id x ≠ m_id l) → ups last (l :: ls) rs = ups last ls rs.
Proof.
  intros Hl. unfold ups. f_equal. apply filter_ext_in. intros x Hx. simpl. rewrite (bool_decide_false (_ = _)); [done|].
  intros He. by apply (Hl x Hx).
Qed.

Lemma dels_nil l : dels l [] = m_id <$> filter (λ x, m_id x ≠ "") l.
Proof. unfold dels. f_equal. apply filter_ext_in. intros x _. pose proof (not_elem_of_nil (m_id x)). simpl. tauto. Qed.
Lemma ups_nil last r : ups last [] r = m_id <$> filter (λ x, m_id x ≠ "") r.
Proof. unfold ups. f_equal. apply filter_ext_in. intros x _. simpl. tauto. Qed.
Lemma dels_cons_in a l r : m_id a ∈ m_id <$> r → dels (a :: l) r = dels l r.
Proof. intros Ha. unfold dels. rewrite filter_cons. rewrite decide_False; [done|]. naive_solver. Qed.
Lemma dels_cons_out a l r : m_id a ≠ "" → m_id a ∉ m_id <$> r → dels (a :: l) r = m_id a :: dels l r.
Proof. intros Ha Hr. unfold dels. rewrite filter_cons. by rewrite decide_True. Qed.
Lemma ups_cons last l b r : m_id b ≠ "" → ups last l (b :: r) = (if stale last l b then [m_id b] else []) ++ ups last l r.
Proof. intros Hb. unfold ups. rewrite filter_cons. destruct (stale last l b); [by rewrite decide_True|]. rewrite decide_False; [done|]. naive_solver. Qed.
Lemma skips_cons a l : m_id a ≠ "" → skips (a :: l) = skips l.
Proof. intros Ha. unfold skips. rewrite filter_cons. by rewrite decide_False. Qed.
Lemma diff_loop_nil last l res : diff_loop last l [] res = local_rest res l.
Proof. by destruct l. Qed.

Lemma diff_loop_cons last a l b r res :
  diff_loop last (a :: l) (b :: r) res =
    if decide (m_id a = "") then diff_loop last l (b :: r) (skip_local res)
    else if decide (m_id b = "") then diff_loop last (a :: l) r (skip_remote res)
    else if decide (m_id a = m_id b) then
      diff_loop last l r (if (last <? m_mod b)%N && negb (bytes_Equal (m_hash b) (m_hash a)) then add_upsert (m_id b) res else res)
    else if String.ltb (m_id a) (m_id b) then diff_loop last l (b :: r) (add_delete (m_id a) res)
    else diff_loop last (a :: l) r (add_upsert (m_id b) res).
Proof. reflexivity. Qed.

Lemma diff_loop_spec last l : ∀ r res, StronglySorted id_lt l → StronglySorted id_lt r →
  diff_loop last l r res = diff_app res (dels l r) (ups last l r) (skips l) (skips r).
Proof.
  induction l as [|a l IH]; intros r.
  { intros res _ _. rewrite ups_nil. trans (remote_rest res r); [by destruct r|]. by rewrite remote_rest_spec. }
  induction r as [|b r IHr]; intros res Hl Hr.
  { by rewrite diff_loop_nil, local_rest_spec, dels_nil. }
  apply StronglySorted_inv in Hl as Hl'. destruct Hl' as [Hl' Hla]. apply StronglySorted_inv in Hr as Hr'. destruct Hr' as [Hr' Hrb].
  rewrite diff_loop_cons. destruct (decide (m_id a = "")) as [Ha|Ha].
  { rewrite IH by done. rewrite (ups_skip_local last a) by done. unfold diff_app, dels, skips. rewrite !(filter_cons _ a).
    rewrite (decide_False (P := _ ∧ _)) by tauto. rewrite (decide_True (P := m_id a = "")) by done. simpl. f_equal; lia. }
  destruct (decide (m_id b = "")) as [Hb|Hb].
  { rewrite IHr by done. rewrite (dels_skip_remote b) by done. unfold diff_app, ups, skips. rewrite !(filter_cons _ b).
    rewrite (decide_False (P := _ ∧ _)) by tauto. rewrite (decide_True (P := m_id b = "")) by done. simpl. f_equal; lia. }
  apply id_lt_ids in Hla; [|done]. apply id_lt_ids in Hrb; [|done].
  assert (∀ x, x ∈ l → m_id x ≠ "" ∧ m_id x ≠ m_id a) as Hlx by by apply later_ids.
  assert (∀ x, x ∈ r → m_id x ≠ "" ∧ m_id x ≠ m_id b) as Hrx by by apply later_ids.
  destruct (decide (m_id a = m_id b)) as [Hab|Hab].
  { rewrite IH, !skips_cons, dels_cons_in, dels_later_remote, ups_cons, (ups_later_local last a l r) by
      first [done | intros x Hx; rewrite <-?Hab; by apply Hlx | intros x Hx; rewrite ?Hab; by apply Hrx
            | rewrite Hab; apply list_elem_of_fmap_2; by left].
    simpl. rewrite Hab, bool_decide_true by done. fold (stale last l b). rewrite stale_all by (intros x Hx; rewrite <-Hab; by apply Hlx).
    simpl. rewrite andb_true_r. unfold diff_app. by destruct (_ && _); simpl; rewrite <-?app_assoc. }
  destruct (String.ltb (m_id a) (m_id b)) eqn:Hlt.
  - assert (∀ x, x ∈ b :: r → m_id x ≠ "" ∧ m_id x ≠ m_id a) as Hrx'.
    { apply later_ids. constructor; [done|]. eapply Forall_impl; [|exact Hrb]. intros x. by apply ltb_lt_trans. }
    rewrite IH, (skips_cons a) by done. rewrite (dels_cons_out a) by (try apply not_in_ids; naive_solver).
    rewrite ups_later_local by naive_solver.
    unfold diff_app. simpl. by rewrite <-app_assoc.
  - assert (String.ltb (m_id b) (m_id a) = true) as Hlt' by (rewrite ltb_neq by congruence; by rewrite Hlt).
    assert (∀ x, x ∈ a :: l → m_id x ≠ "" ∧ m_id x ≠ m_id b) as Hlx'.
    { apply later_ids. constructor; [done|]. eapply Forall_impl; [|exact Hla]. intros x. by apply ltb_lt_trans. }
    rewrite IHr, (skips_cons b), dels_later_remote, (ups_cons _ _ b) by naive_solver. rewrite stale_all by naive_solver.
    unfold diff_app. simpl. by rewrite <-app_assoc.
Qed.

(** ** The reference *)

Definition diff_reference (local remote : list meta) (last : N) : itemDiffResults :=
  mkDiff (dels (SortState local) remote) (ups last local (SortState remote)) (skips local) (skips remote).

Lemma SortState_perm l : SortState l ≡ₚ l.
Proof. apply merge_sort_Permutation. Qed.
Lemma stale_perm last l l' r : l ≡ₚ l' → stale last l r = stale last l' r.
Proof.
  intros Hl. apply eq_true_iff_eq. unfold stale. rewrite !forallb_forall.
  split; intros Hx x Hin; apply Hx; apply list_elem_of_In; rewrite Hl || rewrite <-Hl; by apply list_elem_of_In.
Qed.

(** The comparison of an ACL type with the primary datacenter is right:
    in whatever order the two lists come, when no ID occurs twice in one, the
    single pass over the sorted lists deletes, in order, exactly the local IDs
    that the primary does not have, and fetches exactly those it has that are
    missing here or whose content differs and changed after the last round;
    items without an ID are counted and left alone. *)
Lemma diffACLType_spec local remote last :
  distinct local → distinct remote → diffACLType local remote last = diff_reference local remote last.
Proof.
  intros Hl Hr. unfold diffACLType. rewrite diff_loop_spec by by apply SortState_sorted.
  unfold diff_app, diff_reference, no_diff. simpl. f_equal.
  - unfold dels. f_equal. apply filter_ext_in. intros x _. by rewrite SortState_perm.
  - unfold ups. f_equal. apply filter_ext_in. intros x _. by rewrite (stale_perm _ _ _ _ (SortState_perm local)).
  - unfold skips. by rewrite SortState_perm.
  - unfold skips. by rewrite SortState_perm.
Qed.

(** ** A round *)

(** The contents of a datacenter: the ID and the hash of each item. *)
Definition content (x : meta) (id hash : string) : Prop := m_id x = id ∧ default "" (m_hash x) = hash.
Definition listed (l : list meta) (id hash : string) : Prop := id ≠ "" ∧ ∃ x, x ∈ l ∧ content x id hash.

(** What a replicator promises to the rounds: [has] says which items the store
    has, [inv] is kept by its writes, [spelled] and [good] restrict the IDs
    and the items it is given. *)
Record replicator_laws {L R U} (tr : aclTypeReplicator L R U) (update_meta : U → meta) (has : Store → string → string → Prop)
    (inv : Store → Prop) (spelled : string → Prop) (good : U → Prop) : Prop := {
  law_fetch st i l : inv st → FetchLocal tr st = Ok (i, l) →
    (∀ id hash, has st id hash ↔ listed (LocalMeta tr <$> l) id hash) ∧ distinct (LocalMeta tr <$> l);
  law_spelled st id hash : inv st → has st id hash → spelled id;
  law_delete s s' batch : inv (rp_store s) → Forall spelled batch → DeleteLocalBatch tr batch s = (Ok tt, s') →
    inv (rp_store s') ∧ ∀ id hash, has (rp_store s') id hash ↔ has (rp_store s) id hash ∧ id ∉ batch;
  law_update s s' us : inv (rp_store s) → Forall good us → NoDup (m_id ∘ update_meta <$> us) →
    UpdateLocalBatch tr us s = (Ok tt, s') →
    inv (rp_store s') ∧ ∀ id hash, has (rp_store s') id hash ↔
      listed (update_meta <$> us) id hash ∨ (has (rp_store s) id hash ∧ id ∉ m_id ∘ update_meta <$> us);
}.

Section round.
Context {L R U : Type} (tr : aclTypeReplicator L R U) (update_meta : U → meta).
Context (has : Store → string → string → Prop) (inv : Store → Prop) (spelled : string → Prop) (good : U → Prop).
Context (Hlaws : replicator_laws tr update_meta has inv spelled good).
Context (stopped : nat → bool) (ACLReplicationApplyLimit : Z).

(** Waiting and the ticker leave the store alone. *)
Lemma ctx_done_store s b s' : ctx_done stopped s = (Ok b, s') → rp_store s' = rp_store s.
Proof using Type. intros [= _ <-]. done. Qed.
Lemma new_ticker_ok {S} limit (s : S) u s' : new_ticker limit s = (Ok u, s') → s' = s.
Proof using Type. unfold new_ticker. repeat case_decide; intros [=]; congruence. Qed.

Lemma delete_batches_ok fuel : ∀ ds s s', inv (rp_store s) → Forall spelled ds →
  delete_batches stopped tr fuel ds s = (Ok false, s') →
  inv (rp_store s') ∧ ∀ id hash, has (rp_store s') id hash ↔ has (rp_store s) id hash ∧ id ∉ ds.
Proof using Hlaws.
  induction fuel as [|fuel IH]; intros ds s s' Hinv Hsp Hr; [done|].
  destruct ds as [|d ds]; cbn [delete_batches] in Hr.
  { ok_inv Hr. split; [done|]. intros. pose proof (not_elem_of_nil id). naive_solver. }
  set (all := d :: ds) in *. rewrite <-(take_drop aclBatchDeleteSize all) in Hsp |- *. apply Forall_app in Hsp as [Hsp1 Hsp2].
  apply bind_ok_inv in Hr as ([]&s1&H1&Hr). apply wrap_ok_inv in H1.
  destruct (law_delete _ _ _ _ _ _ Hlaws _ _ _ Hinv Hsp1 H1) as [Hinv1 H1'].
  destruct (drop aclBatchDeleteSize all) as [|x rest] eqn:Hrest.
  { ok_inv Hr. split; [done|]. intros. by rewrite app_nil_r. }
  apply bind_ok_inv in Hr as (exit&s2&H2&Hr). destruct exit; [done|]. apply ctx_done_store in H2.
  apply IH in Hr as [Hinv2 Hr]; [|by rewrite H2|done]. split; [done|]. intros id hash. rewrite Hr, H2, H1', elem_of_app. tauto.
Qed.

Lemma update_batches_ok fuel : ∀ us s s', inv (rp_store s) → Forall good us → NoDup (m_id ∘ update_meta <$> us) →
  update_batches stopped tr fuel us s = (Ok false, s') →
  inv (rp_store s') ∧ ∀ id hash, has (rp_store s') id hash ↔
    listed (update_meta <$> us) id hash ∨ (has (rp_store s) id hash ∧ id ∉ m_id ∘ update_meta <$> us).
Proof using Hlaws.
  induction fuel as [|fuel IH]; intros us s s' Hinv Hg Hnd Hr; [done|].
  destruct us as [|d us]; cbn [update_batches] in Hr.
  { ok_inv Hr. split; [done|]. intros. pose proof (not_elem_of_nil id). unfold listed. simpl. split; [naive_solver|].
    intros [(_&x&[]%not_elem_of_nil&_)|[? _]]; done. }
  set (all := d :: us) in *. apply bind_ok_inv in Hr as (n&s0&H0&Hr). apply lift_ok_inv in H0 as [_ ->].
  rewrite <-(take_drop n all) in Hg, Hnd |- *. apply Forall_app in Hg as [Hg1 Hg2]. rewrite fmap_app in Hnd.
  apply list.NoDup_app in Hnd as (Hn1&Hdis&Hn2).
  apply bind_ok_inv in Hr as ([]&s1&H1&Hr). apply wrap_ok_inv in H1.
  destruct (law_update _ _ _ _ _ _ Hlaws _ _ _ Hinv Hg1 Hn1 H1) as [Hinv1 H1'].
  assert (∃ s2, rp_store s2 = rp_store s1 ∧ update_batches stopped tr fuel (drop n all) s2 = (Ok false, s')) as (s2&H2&Hr').
  { destruct (drop n all) as [|x rest]; [by exists s1|]. apply bind_ok_inv in Hr as (exit&s2&H2&Hr). destruct exit; [done|].
    apply ctx_done_store in H2. by exists s2. }
  apply IH in Hr' as [Hinv2 Hr']; [|by rewrite H2|done|done]. split; [done|].
  intros id hash. rewrite Hr', H2, H1', !fmap_app, elem_of_app. unfold listed. setoid_rewrite elem_of_app.
  assert (∀ x, x ∈ update_meta <$> take n all → content x id hash → id ∉ m_id ∘ update_meta <$> drop n all) as Hx.
  { intros x (y&->&Hy)%list_elem_of_fmap [Hid _]. apply Hdis. apply list_elem_of_fmap. exists y. done. }
  naive_solver.
Qed.

Lemma elem_of_dels l r id : id ∈ dels l r ↔ id ≠ "" ∧ id ∈ m_id <$> l ∧ id ∉ m_id <$> r.
Proof using Type.
  unfold dels. rewrite !list_elem_of_fmap. setoid_rewrite list_elem_of_filter. setoid_rewrite list_elem_of_fmap.
  naive_solver.
Qed.
Lemma elem_of_ups last l r id : id ∈ ups last l r ↔ id ≠ "" ∧ ∃ x, x ∈ r ∧ m_id x = id ∧ stale last l x = true.
Proof using Type. unfold ups. rewrite list_elem_of_fmap. setoid_rewrite list_elem_of_filter. naive_solver. Qed.
Lemma not_stale last l x : stale last l x = false →
  ∃ y, y ∈ l ∧ m_id y = m_id x ∧ ((m_mod x ≤ last)%N ∨ default "" (m_hash x) = default "" (m_hash y)).
Proof using Type.
  intros Hs. unfold stale in Hs. apply not_true_iff_false in Hs. rewrite forallb_forall in Hs.
  destruct (decide (Exists (λ y, m_id y = m_id x ∧ ((m_mod x ≤ last)%N ∨ default "" (m_hash x) = default "" (m_hash y))) l)) as [He|He].
  { apply list.Exists_exists in He as (y&?&?&?). eauto. }
  destruct Hs. intros y Hy%list_elem_of_In. destruct (bool_decide (m_id y = m_id x)) eqn:Hid; [|done]. simpl.
  apply bool_decide_eq_true in Hid. apply andb_true_iff. rewrite negb_true_iff, N.ltb_lt. unfold bytes_Equal. rewrite bool_decide_eq_false.
  split; [apply N.nle_gt|]; intros Hc; apply He, list.Exists_exists; eauto.
Qed.
Lemma distinct_inj l x y : distinct l → x ∈ l → y ∈ l → m_id x = m_id y → m_id x ≠ "" → x = y.
Proof using Type.
  intros Hd Hx Hy Hxy Hne. induction l as [|z l IH]; [by apply not_elem_of_nil in Hx|].
  unfold distinct in Hd. rewrite fmap_cons, filter_cons in Hd. case_decide as Hz.
  - apply list.NoDup_cons in Hd as [Hn Hd].
    assert (∀ w, w ∈ l → m_id w ≠ m_id z) as Hw.
    { intros w Hw He. apply Hn, list_elem_of_filter. rewrite <-He. split; [by rewrite He|by apply list_elem_of_fmap_2]. }
    apply elem_of_cons in Hx as [->|Hx], Hy as [->|Hy]; [done|by destruct (Hw y Hy)|by destruct (Hw x Hx)|by apply IH].
  - apply elem_of_cons in Hx as [->|Hx]; [done|]. apply elem_of_cons in Hy as [->|Hy]; [congruence|by apply IH].
Qed.

(** Whoever writes what the reference says ends up with the remote items. *)
Lemma reference_converges local remote last (before after : string → string → Prop) updated :
  distinct local → (∀ id hash, before id hash ↔ listed local id hash) →
  (∀ id hash, listed updated id hash ↔ listed remote id hash ∧ id ∈ ups last local remote) →
  (∀ id hash x, before id hash → x ∈ remote → m_id x = id → (m_mod x ≤ last)%N → default "" (m_hash x) = hash) →
  (∀ id hash, after id hash ↔ listed updated id hash ∨
     ((before id hash ∧ id ∉ dels local remote) ∧ id ∉ m_id <$> updated)) →
  ∀ id hash, after id hash ↔ listed remote id hash.
Proof using Type.
  intros Hd Hb Hu Hhint Ha id hash. rewrite Ha, Hu. split.
  - intros [[? _]|[[Hbef Hdel] Hup]]; [done|]. pose proof Hbef as (Hne&l&Hl&<-&<-)%Hb.
    rewrite elem_of_dels in Hdel. destruct (decide (m_id l ∈ m_id <$> remote)) as [(r&Hr&Hin)%list_elem_of_fmap|Hn].
    2: { destruct Hdel. split_and!; [done|by apply list_elem_of_fmap_2|done]. }
    split; [done|]. exists r. split; [done|]. split; [done|]. destruct (stale last local r) eqn:Hs.
    { assert (listed updated (m_id l) (default "" (m_hash r))) as (_&x&Hx&Hid&_).
      { apply Hu. split; [split; [done|exists r; done]|]. apply elem_of_ups. split; [done|]. by exists r. }
      destruct Hup. rewrite <-Hid. by apply list_elem_of_fmap_2. }
    apply not_stale in Hs as (y&Hy&Hid&[Hle|Heq]); [by eapply Hhint|].
    assert (y = l) as -> by (eapply distinct_inj; [done..|congruence|congruence]). done.
  - intros Hrem. destruct (decide (id ∈ ups last local remote)) as [?|Hn]; [by left|right].
    pose proof Hrem as (Hne&r&Hr&<-&<-). rewrite elem_of_ups in Hn.
    destruct (stale last local r) eqn:Hs; [destruct Hn; eauto|]. apply not_stale in Hs as (y&Hy&Hid&Hh).
    assert (before (m_id r) (default "" (m_hash y))) as Hbef by (apply Hb; split; [done|]; by exists y).
    assert (default "" (m_hash r) = default "" (m_hash y)) as -> by (destruct Hh; [by eapply Hhint|done]).
    split; [split; [done|]|].
    + rewrite elem_of_dels. intros (_&_&Hout). destruct Hout. by apply list_elem_of_fmap_2.
    + intros (x&Hx&Hin)%list_elem_of_fmap. assert (listed updated (m_id r) (default "" (m_hash x))) as [_ Hups]%Hu.
      { split; [done|]. by exists x. }
      apply elem_of_ups in Hups. naive_solver.
Qed.

Definition effective (remoteIndex last : N) : N := if (remoteIndex <? last)%N then 0%N else last.
(** The batch read returns the items that were asked for, as they were listed. *)
Definition answers_batch (remote : list R) : Prop := ∀ wanted us,
  FetchUpdated tr remote wanted = Ok (Some us) →
  Forall good us ∧ NoDup (m_id ∘ update_meta <$> us) ∧
  ∀ id hash, listed (update_meta <$> us) id hash ↔ listed (RemoteMeta tr <$> remote) id hash ∧ id ∈ wanted.
(** What has not changed after index [last] is here already. *)
Definition synced_until (last : N) (remote : list R) (st : Store) : Prop := ∀ id hash x,
  has st id hash → x ∈ RemoteMeta tr <$> remote → m_id x = id → (m_mod x ≤ last)%N → default "" (m_hash x) = hash.

Lemma replicateACLType_deletes (deletes : list string) s s' : inv (rp_store s) → Forall spelled deletes →
  match deletes with
  | [] => mreturn false
  | d :: l => mwrap "failed to delete local ACL" (deleteLocalACLType stopped ACLReplicationApplyLimit tr (d :: l))
  end s = (Ok false, s') →
  inv (rp_store s') ∧ ∀ id hash, has (rp_store s') id hash ↔ has (rp_store s) id hash ∧ id ∉ deletes.
Proof using Hlaws.
  intros Hinv Hsp Hr. destruct deletes as [|d ds].
  { ok_inv Hr. split; [done|]. intros id. pose proof (not_elem_of_nil id). naive_solver. }
  apply wrap_ok_inv in Hr. unfold deleteLocalACLType in Hr. apply bind_ok_inv in Hr as (u&s1&->%new_ticker_ok&Hr).
  by apply delete_batches_ok in Hr.
Qed.
Lemma replicateACLType_updates (upserts : list string) (us : list U) s s' : inv (rp_store s) → Forall good us → NoDup (m_id ∘ update_meta <$> us) →
  (upserts = [] → us = []) →
  match upserts with
  | [] => mreturn false
  | _ => mwrap "failed to update local ACL" (updateLocalACLType stopped ACLReplicationApplyLimit tr us)
  end s = (Ok false, s') →
  inv (rp_store s') ∧ ∀ id hash, has (rp_store s') id hash ↔
    listed (update_meta <$> us) id hash ∨ (has (rp_store s) id hash ∧ id ∉ m_id ∘ update_meta <$> us).
Proof using Hlaws.
  intros Hinv Hg Hnd Hus Hr. destruct upserts as [|d ds].
  { ok_inv Hr. rewrite Hus by done. split; [done|]. intros id hash. unfold listed. simpl.
    split; [intros ?; right; split; [done|by intros ?%not_elem_of_nil]|by intros [(_&x&[]%not_elem_of_nil&_)|[? _]]]. }
  apply wrap_ok_inv in Hr. unfold updateLocalACLType in Hr. apply bind_ok_inv in Hr as (u&s1&->%new_ticker_ok&Hr).
  by apply update_batches_ok in Hr.
Qed.

Lemma replicateACLType_converges s s' last i remote remoteIndex :
  inv (rp_store s) → FetchRemote tr last = Ok (remote, remoteIndex) → distinct (RemoteMeta tr <$> remote) →
  answers_batch remote → synced_until (effective remoteIndex last) remote (rp_store s) →
  replicateACLType stopped ACLReplicationApplyLimit tr last s = (Ok (i, false), s') →
  i = remoteIndex ∧ inv (rp_store s') ∧
  ∀ id hash, has (rp_store s') id hash ↔ listed (RemoteMeta tr <$> remote) id hash.
Proof using Hlaws.
  intros Hinv Hremote Hdist Hbatch Hsync Hr. unfold replicateACLType in Hr. rewrite Hremote in Hr.
  apply bind_ok_inv in Hr as ([? ?]&s0&[[= <- <-] ->]%wrap_ok_inv%lift_ok_inv&Hr).
  apply bind_ok_inv in Hr as (stop&s1&H1&Hr). destruct stop; [by ok_inv Hr|]. apply ctx_done_store in H1.
  apply bind_ok_inv in Hr as ([j local]&s2&H2&Hr). apply wrap_ok_inv in H2. unfold on_repl_store in H2.
  injection H2 as H2 <-. rewrite H1 in H2. destruct (law_fetch _ _ _ _ _ _ Hlaws _ _ _ Hinv H2) as [Hhas Hdl].
  rewrite diffACLType_spec in Hr by done. fold (effective remoteIndex last) in Hr. simpl in Hr.
  set (ds := dels (SortState (LocalMeta tr <$> local)) (RemoteMeta tr <$> remote)) in *.
  set (us := ups (effective remoteIndex last) (LocalMeta tr <$> local) (SortState (RemoteMeta tr <$> remote))) in *.
  apply bind_ok_inv in Hr as (updated&s3&H3&Hr).
  assert (s3 = s1 ∧ (us = [] → updated = []) ∧ Forall good updated ∧ NoDup (m_id ∘ update_meta <$> updated) ∧
    ∀ id hash, listed (update_meta <$> updated) id hash ↔ listed (RemoteMeta tr <$> remote) id hash ∧ id ∈ us) as (->&Hnil&Hg&Hnd&Hup).
  { destruct us as [|u us'] eqn:Hus.
    - ok_inv H3. split_and!; [done|done|constructor|constructor|]. intros id hash. split; [by intros (_&x&[]%not_elem_of_nil&_)|].
      by intros [_ []%not_elem_of_nil].
    - apply bind_ok_inv in H3 as (o&s4&[Ho ->]%wrap_ok_inv%lift_ok_inv&H3). destruct o as [us0|]; [|done].
      ok_inv H3. split; [done|]. split; [done|]. by apply Hbatch. }
  apply bind_ok_inv in Hr as (exit&s5&H5&Hr). destruct exit; [by ok_inv Hr|].
  apply replicateACLType_deletes in H5 as [Hinv5 H5]; [|by rewrite H1|].
  2: { apply list.Forall_forall. intros id Hid. unfold ds in Hid. apply elem_of_dels in Hid as (Hne&Hin&_).
       rewrite SortState_perm in Hin. apply list_elem_of_fmap in Hin as (x&->&Hx).
       eapply (law_spelled _ _ _ _ _ _ Hlaws); [exact Hinv|]. apply Hhas. split; [done|]. by exists x. }
  apply bind_ok_inv in Hr as (exit&s6&H6&Hr). destruct exit; [by ok_inv Hr|]. ok_inv Hr. simplify_eq.
  apply replicateACLType_updates in H6 as [Hinv6 H6]; [|done..]. split; [done|]. split; [done|].
  eapply (reference_converges (LocalMeta tr <$> local) _ (effective i last) (has (rp_store s)) _ (update_meta <$> updated)); [done|done| |done|].
  - intros id hash. rewrite Hup. unfold us. rewrite !elem_of_ups. setoid_rewrite SortState_perm. done.
  - intros id hash. rewrite H6, H5, H1, list_fmap_compose. unfold ds. rewrite !elem_of_dels, SortState_perm. done.
Qed.
End round.
