(* ===== verification/ReplicationTokens.v ===== *)
(** * Replicated tokens

    The replicator of tokens keeps its promises to the rounds, so a round that
    succeeds leaves the global tokens of the primary datacenter.  The other two
    replicators do not: they ignore what the state machine answers. *)

From S2P Require Import Prelude Memdb ProxyConfig Structs ConnectTables AclTables ConfigEntries Delay TombstoneGC Store.
From S2P Require Import AclState ConfigState Txn Fsm Logic MemdbFacts StoreFacts SideFacts SessionInv Radix Acl Authorizer Filter Endpoint Replication ReplicationProps.

(** ** Reads *)

Lemma read_resolve_links {L} `{Link L} lookup what allow (links : list L) :
  (∀ id, framed eq (lookup id)) → framed eq (resolve_links lookup what allow links).
Proof.
  intros Hl. induction links as [|link links IH]; [by intros s|]. cbn [resolve_links]. case_decide; [|by intros s].
  apply framed_bind; [apply _|done|]. intros [name|]; [|case_match; [|by intros s]];
    (apply framed_bind; [apply _|done|by intros [] s]).
Qed.
Lemma read_fixup_loop {L} `{Link L} lookup what (links : list L) : (∀ id, framed eq (lookup id)) →
  ∀ copied owned, framed eq (fixup_loop lookup what copied owned links).
Proof.
  intros Hl. induction links as [|link links IH]; intros copied owned; [by intros s|]. cbn [fixup_loop]. case_decide; [by intros s|].
  apply framed_bind; [apply _|done|]. intros name. apply IH.
Qed.
Lemma read_policy_name id : framed eq (policy_name id).
Proof. unfold policy_name, getPolicyWithTxn, policy_First. simpl. frame_tac. Qed.
Lemma read_role_name id : framed eq (role_name id).
Proof.
  unfold role_name, getRoleWithTxn, role_First, fixupRolePolicyLinks, fixup_links. simpl.
  frame_tac; apply read_fixup_loop; intros; apply read_policy_name.
Qed.
Lemma read_resolveTokenPolicyLinks t b : framed eq (resolveTokenPolicyLinks t b).
Proof. unfold resolveTokenPolicyLinks. frame_tac. apply read_resolve_links. intros. apply read_policy_name. Qed.
Lemma read_resolveTokenRoleLinks t b : framed eq (resolveTokenRoleLinks t b).
Proof. unfold resolveTokenRoleLinks. frame_tac. apply read_resolve_links. intros. apply read_role_name. Qed.
Lemma read_getAuthMethodWithTxn v : framed eq (getAuthMethodWithTxn v).
Proof. unfold getAuthMethodWithTxn. frame_tac. Qed.

Lemma framed_eq_ok {A} (m : Tx A) s a s' : framed eq m → m s = (Ok a, s') → s' = s.
Proof. intros Hm Hr. specialize (Hm s). by rewrite Hr in Hm. Qed.

(** ** Tokens by accessor *)

Definition tokens_of (s : txn) : gmap string ACLToken := acl_tokens (acls (tx_db s)).

Section tokens.
(** [spelled]: accessor IDs are UUIDs in one spelling; [owner]: an accessor ID
    always comes with the same secret. *)
Context (spelled : string → Prop) (owner : string → string).
Context (Hspelled : ∀ a b, spelled a → spelled b → uuid_parse a = uuid_parse b → a = b).

Definition token_ok (k : string) (t : ACLToken) : Prop :=
  primary_key t = Some k ∧ (act_AccessorID t ≠ "" → spelled (act_AccessorID t) ∧ act_SecretID t = owner (act_AccessorID t)).
Definition tokens_ok (T : gmap string ACLToken) : Prop := map_Forall token_ok T.
(** The global tokens with an accessor ID. *)
Definition has_token (T : gmap string ACLToken) (id hash : string) : Prop :=
  id ≠ "" ∧ ∃ k t, T !! k = Some t ∧ act_Local t = false ∧ content (token_meta t) id hash.
Definition replicable (t : ACLToken) : Prop :=
  spelled (act_AccessorID t) ∧ act_SecretID t = owner (act_AccessorID t) ∧ act_Local t = false.

Lemma token_owner_key T k t : tokens_ok T → T !! k = Some t → act_AccessorID t ≠ "" →
  k = string_args false (owner (act_AccessorID t)).
Proof using owner. intros HT Ht Ha. destruct (HT _ _ Ht) as [Hk%token_key Ho]. rewrite Hk. by rewrite (proj2 (Ho Ha)). Qed.

Lemma accessor_index_keys k t b : b ∈ index_keys tokens_accessor_index k t ↔ act_AccessorID t ≠ "" ∧ uuid_parse (act_AccessorID t) = Ok b.
Proof using owner.
  unfold index_keys. simpl. unfold uuid_index. case_decide as Ha; simpl.
  - split; [by intros ?%not_elem_of_nil|tauto].
  - destruct (uuid_parse _) as [b'| |]; rewrite ?list_elem_of_singleton; split; try naive_solver; by intros ?%not_elem_of_nil.
Qed.

(** A lookup by accessor finds the one token that has it. *)
Lemma token_First_accessor a s o s' : tokens_ok (tokens_of s) → spelled a → a ≠ "" →
  token_First a "accessor" s = (Ok o, s') →
  s' = s ∧ match o with
           | Some t => ∃ k, tokens_of s !! k = Some t ∧ act_AccessorID t = a
           | None => ∀ k t, tokens_of s !! k = Some t → act_AccessorID t ≠ a
           end.
Proof using Hspelled owner.
  intros HT Ha Hne Hr. unfold token_First in Hr. simpl in Hr. apply bind_ok_inv in Hr as (b&s1&[Hb ->]%lift_ok_inv&Hr).
  unfold tx_FirstUnique, mget in Hr. injection Hr as Ho <-. split; [done|].
  assert (uuid_parse a = Ok b) as Hp by (destruct (uuid_parse a); simpl in Hb; congruence).
  change (tbl (tx_db s)) with (tokens_of s) in Ho.
  assert (∀ kx, kx ∈ filter (λ kx, bool_decide (b ∈ index_keys tokens_accessor_index kx.1 kx.2)) (map_to_list (tokens_of s)) ↔
    tokens_of s !! kx.1 = Some kx.2 ∧ act_AccessorID kx.2 = a) as Hin.
  { intros [k t]. rewrite list_elem_of_filter, elem_of_map_to_list, bool_decide_spec, accessor_index_keys. simpl. split.
    - intros [[Hta Htb] Hk]. split; [done|]. destruct (HT _ _ Hk) as [_ Hsp]. apply Hspelled; [by apply Hsp|done|congruence].
    - intros [? ->]. done. }
  destruct (filter _ _) as [|[k t] l]; simpl in Ho; subst o.
  - intros k t Hk Hta. apply (not_elem_of_nil (k, t)), Hin. done.
  - exists k. apply (Hin (k, t)). by left.
Qed.

Lemma aclTokenDeleteTxn_ok idx a s u s' : tokens_ok (tokens_of s) → spelled a → a ≠ "" →
  aclTokenDeleteTxn idx a "accessor" s = (Ok u, s') →
  tokens_ok (tokens_of s') ∧ ∀ id h, has_token (tokens_of s') id h ↔ has_token (tokens_of s) id h ∧ id ≠ a.
Proof using Hspelled owner.
  intros HT Ha Hne Hr. unfold aclTokenDeleteTxn in Hr. apply bind_ok_inv in Hr as (o&s1&Ho&Hr). apply wrap_ok_inv in Ho.
  apply token_First_accessor in Ho as [-> Ho]; [|done..]. destruct o as [t|].
  2: { ok_inv Hr. split; [done|]. intros id h. split; [|tauto]. intros Hid. split; [done|]. intros ->.
       destruct Hid as (_&k&t&Hk&_&Hid&_). by apply (Ho k t). }
  destruct Ho as (k&Hk&Hta). case_decide; [done|]. apply bind_ok_inv in Hr as ([]&s1&H1&Hr). apply wrap_ok_inv in H1.
  unfold tx_Delete in H1. destruct (tx_write s); [|done]. pose proof (table_delete_inv (tokens_of s) t _ eq_refl) as Hi.
  change (tbl (tx_db s)) with (tokens_of s) in H1.
  destruct (table_delete _ t) as [T'| |]; [|done..]. injection H1 as <-. destruct Hi as (k'&Hk'&_&->).
  apply update_acl_index_tokens in Hr. assert (tokens_of s' = delete k' (tokens_of s)) as -> by exact Hr.
  assert (k' = k) as -> by (destruct (HT _ _ Hk) as [? _]; congruence).
  split; [by apply map_Forall_delete|]. intros id h. unfold has_token. split.
  - intros (Hid&k1&t1&[Hne1 H1]%lookup_delete_Some&Hl&Hc&Hh). split; [split; [done|]; by exists k1, t1|]. intros ->. apply Hne1.
    unfold content in Hc. simpl in Hc.
    rewrite (token_owner_key _ _ _ HT Hk), (token_owner_key _ _ _ HT H1) by congruence. congruence.
  - intros [(Hid&k1&t1&H1&Hl&Hc&Hh) Hida]. split; [done|]. exists k1, t1. rewrite lookup_delete_ne; [done|].
    intros <-. simpl in Hc. congruence.
Qed.

(** What a successful write of a token has done. *)
Lemma aclTokenSetTxn_run idx t allow prohibit s u s' : aclTokenSetTxn idx t false allow prohibit false s = (Ok u, s') →
  let k := string_args false (act_SecretID t) in
  act_AccessorID t ≠ "" ∧
  (∀ o, tokens_of s !! k = Some o → act_AccessorID o = "" ∨ act_AccessorID o = act_AccessorID t) ∧
  ∃ t', tokens_of s' = <[k := t']> (tokens_of s) ∧ primary_key t' = Some k ∧ token_meta t' = mkMeta (act_AccessorID t) (act_ModifyIndex t') (act_Hash t) ∧
    act_Local t' = act_Local t ∧ act_SecretID t' = act_SecretID t ∧
    ∃ ps rs create, t' = act_set_indexes create idx (act_set_links ps rs t).
Proof using Type.
  unfold aclTokenSetTxn. intros Hr. case_decide; [by ok_inv Hr|]. case_decide as Hacc; [by ok_inv Hr|].
  assert (act_AccessorID t ≠ "") as Hne by tauto.
  apply bind_ok_inv in Hr as (o&s1&Ho&Hr). apply wrap_ok_inv in Ho. unfold token_First in Ho. simpl in Ho. injection Ho as Ho <-.
  simpl in Hr. change (tbl (tx_db s)) with (tokens_of s) in Ho.
  apply bind_ok_inv in Hr as (t0&s2&H2&Hr). assert (t0 = t ∧ s2 = s) as [-> ->] by (destruct o; by ok_inv H2).
  apply bind_ok_inv in Hr as ([n t1]&s2&H3&Hr). pose proof H3 as ->%(framed_eq_ok _ _ _ _ (read_resolveTokenPolicyLinks t allow)).
  apply resolveTokenPolicyLinks_inv in H3 as [ps ->].
  apply bind_ok_inv in Hr as ([n' t2]&s2&H4&Hr). pose proof H4 as ->%(framed_eq_ok _ _ _ _ (read_resolveTokenRoleLinks _ allow)).
  apply resolveTokenRoleLinks_inv in H4 as [rs ->]. simpl in Hr.
  apply bind_ok_inv in Hr as ([]&s2&H5&Hr).
  assert (s2 = s) as ->.
  { case_decide; [|by ok_inv H5]. apply bind_ok_inv in H5 as (m&s3&->%(framed_eq_ok _ _ _ _ (read_getAuthMethodWithTxn _))&H5).
    destruct m; by ok_inv H5. }
  apply bind_ok_inv in Hr as ([]&s2&H6&Hr). assert (s2 = s) as -> by (destruct (existsb _ _); by ok_inv H6).
  apply bind_ok_inv in Hr as ([]&s2&H7&Hr). assert (s2 = s) as -> by (destruct (_ && _); by ok_inv H7).
  apply bind_ok_inv in Hr as (t3&s2&H8&Hr). apply wrap_ok_inv, tx_Insert_ok_inv in Hr as (k&Hk&_&_&->).
  assert (tokens_of s !! string_args false (act_SecretID t) = o) as Ho' by exact Ho. cbv zeta.
  split; [done|]. rewrite Ho'. destruct o as [o|].
  - destruct (decide _) as [?|Himm] in H8; [done|]. destruct (decide _) in H8; [done|]. ok_inv H8.
    pose proof (token_key _ _ Hk) as Hk'. simpl in Hk'. subst k. split.
    { intros o' [= ->]. destruct (decide (act_AccessorID o' = "")); [by left|right].
      destruct (decide (act_AccessorID o' = act_AccessorID t)); [done|]. simpl in Himm. destruct Himm. split; congruence. }
    eexists. split; [reflexivity|]. split_and!; [done..|eauto].
  - ok_inv H8. pose proof (token_key _ _ Hk) as Hk'. simpl in Hk'. subst k. split; [done|]. eexists. split; [reflexivity|]. split_and!; [done..|eauto].
Qed.

Lemma aclTokenSetTxn_ok idx t s u s' : tokens_ok (tokens_of s) → replicable t →
  aclTokenSetTxn idx t false true false false s = (Ok u, s') →
  tokens_ok (tokens_of s') ∧ ∀ id h, has_token (tokens_of s') id h ↔
    listed [token_meta t] id h ∨ (has_token (tokens_of s) id h ∧ id ≠ act_AccessorID t).
Proof using owner.
  intros HT (Hsp&How&Hloc) Hr. apply aclTokenSetTxn_run in Hr as (Hne&Himm&t'&->&Hk&Hm&Hl&Hsec&_).
  assert (act_AccessorID t' = act_AccessorID t) as Hacc by (by injection Hm).
  split.
  { apply map_Forall_insert_2; [|done]. split; [done|]. rewrite Hacc, Hsec. done. }
  intros id h. unfold has_token, listed. split.
  - intros (Hid&k1&t1&H1&Hl1&Hc). destruct (decide (k1 = string_args false (act_SecretID t))) as [->|Hkne].
    + rewrite lookup_insert_eq in H1. injection H1 as <-. left. split; [done|]. exists (token_meta t). split; [by left|].
      rewrite Hm in Hc. exact Hc.
    + rewrite lookup_insert_ne in H1 by done. right. split; [split; [done|]; by exists k1, t1|]. intros ->. destruct Hc as [Hc _]. simpl in Hc.
      apply Hkne. rewrite (token_owner_key _ _ _ HT H1) by congruence. by rewrite Hc, <-How.
  - intros [(Hid&x&->%list_elem_of_singleton&Hc)|[(Hid&k1&t1&H1&Hl1&Hc) Hida]].
    + split; [done|]. eexists _, t'. split; [apply lookup_insert_eq|]. rewrite Hm, Hl. done.
    + split; [done|]. exists k1, t1. split; [|done]. rewrite lookup_insert_ne; [done|]. intros <-.
      destruct Hc as [Hc _]. simpl in Hc. destruct (Himm _ H1); congruence.
Qed.

(** Batches. *)
Lemma delete_tokens_ok idx ids : ∀ s u s', tokens_ok (tokens_of s) → Forall (λ id, spelled id ∧ id ≠ "") ids →
  (for id in ids do aclTokenDeleteTxn idx id "accessor") s = (Ok u, s') →
  tokens_ok (tokens_of s') ∧ ∀ id h, has_token (tokens_of s') id h ↔ has_token (tokens_of s) id h ∧ id ∉ ids.
Proof using Hspelled owner.
  induction ids as [|a ids IH]; intros s u s' HT Hsp Hr; simpl in Hr.
  { ok_inv Hr. split; [done|]. intros id h. pose proof (not_elem_of_nil id). tauto. }
  apply list.Forall_cons in Hsp as [[Ha Hne] Hsp]. apply bind_ok_inv in Hr as ([]&s1&H1&Hr).
  apply aclTokenDeleteTxn_ok in H1 as [HT1 H1]; [|done..]. apply IH in Hr as [HT2 Hr]; [|done..].
  split; [done|]. intros id h. rewrite Hr, H1, elem_of_cons. tauto.
Qed.
Lemma set_tokens_ok idx ts : ∀ s u s', tokens_ok (tokens_of s) → Forall replicable ts → NoDup (act_AccessorID <$> ts) →
  (for t in ts do aclTokenSetTxn idx t false true false false) s = (Ok u, s') →
  tokens_ok (tokens_of s') ∧ ∀ id h, has_token (tokens_of s') id h ↔
    listed (token_meta <$> ts) id h ∨ (has_token (tokens_of s) id h ∧ id ∉ act_AccessorID <$> ts).
Proof using owner.
  induction ts as [|t ts IH]; intros s u s' HT Hg Hnd Hr; simpl in Hr.
  { ok_inv Hr. split; [done|]. intros id h. unfold listed. simpl. pose proof (not_elem_of_nil id).
    split; [tauto|]. intros [(_&x&[]%not_elem_of_nil&_)|[? _]]. done. }
  apply list.Forall_cons in Hg as [Ht Hg]. rewrite fmap_cons in Hnd. apply list.NoDup_cons in Hnd as [Hn Hnd].
  apply bind_ok_inv in Hr as ([]&s1&H1&Hr).
  apply aclTokenSetTxn_ok in H1 as [HT1 H1]; [|done..]. apply IH in Hr as [HT2 Hr]; [|done..].
  split; [done|]. intros id h. rewrite Hr, H1, !fmap_cons, elem_of_cons. unfold listed. setoid_rewrite elem_of_cons.
  assert (content (token_meta t) id h → id ∉ act_AccessorID <$> ts) as Hc by (by intros [<- _]).
  assert (∀ x : meta, x ∈ [] ↔ False) as Hnil by (intros x; split; [by intros ?%not_elem_of_nil|done]).
  setoid_rewrite Hnil. naive_solver.
Qed.

(** ** The list of local tokens *)

Lemma fixup_token_inv t s t' s' : fixup_token t s = (Ok t', s') → (∃ ps rs, t' = act_set_links ps rs t) ∧ s' = s.
Proof using Type.
  unfold fixup_token, fixupTokenPolicyLinks, fixupTokenRoleLinks, fixup_links. intros Hr.
  apply bind_ok_inv in Hr as (t1&s1&H1&Hr).
  apply bind_ok_inv in H1 as (ps&s2&H1&Hps). ok_inv Hps. apply bind_ok_inv in H1 as (o&s3&->%framed_eq_ok&H1).
  2: { apply read_fixup_loop. intros. apply read_policy_name. }
  ok_inv H1. apply bind_ok_inv in Hr as (rs&s2&Hr&Hrs). ok_inv Hrs. apply bind_ok_inv in Hr as (o'&s3&->%framed_eq_ok&Hr).
  2: { apply read_fixup_loop. intros. apply read_role_name. }
  ok_inv Hr. simplify_eq. split; [|done]. eexists _, _. reflexivity.
Qed.
Lemma fixup_token_meta t s t' s' : fixup_token t s = (Ok t', s') → token_meta t' = token_meta t ∧ s' = s.
Proof using Type. by intros [(ps&rs&->) ->]%fixup_token_inv. Qed.
Lemma mmap_fixup_meta ts : ∀ s ts' s', mmap fixup_token ts s = (Ok ts', s') → token_meta <$> ts' = token_meta <$> ts.
Proof using Type.
  induction ts as [|t ts IH]; intros s ts' s' Hr; simpl in Hr; [by ok_inv Hr; simplify_eq|].
  apply bind_ok_inv in Hr as (t'&s1&[Ht ->]%fixup_token_meta&Hr). apply bind_ok_inv in Hr as (ts1&s2&H1&Hr). ok_inv Hr. simplify_eq.
  rewrite !fmap_cons. f_equal; [unfold token_meta; congruence|by eapply IH].
Qed.
Lemma local_single : single_valued tokens_local_index.
Proof using Type. intros k t. unfold index_keys. simpl. lia. Qed.
Lemma elem_of_global T t : t ∈ table_scan tokens_local_index (String "000" "") T ↔ ∃ k, T !! k = Some t ∧ act_Local t = false.
Proof using Type.
  rewrite elem_of_table_scan. split.
  - intros (k&b&Hk&Hb&Hp). exists k. split; [done|]. unfold index_keys in Hb. simpl in Hb.
    destruct (act_Local t); [|done]. apply list_elem_of_singleton in Hb as ->. by destruct k.
  - intros (k&Hk&Hl). exists k, (String "000" k). split; [done|]. unfold index_keys. simpl. rewrite Hl. split; [by left|].
    simpl. by destruct k.
Qed.
Lemma NoDup_ids (l : list ACLToken) : NoDup l →
  (∀ x y, x ∈ l → y ∈ l → act_AccessorID x ≠ "" → act_AccessorID x = act_AccessorID y → x = y) → distinct (token_meta <$> l).
Proof using Type.
  unfold distinct. rewrite <-list_fmap_compose. induction l as [|x l IH]; intros Hnd Hinj; [constructor|].
  apply list.NoDup_cons in Hnd as [Hx Hnd]. rewrite fmap_cons, filter_cons.
  assert (NoDup (filter (λ id, id ≠ "") (m_id ∘ token_meta <$> l))) as Hl by (apply IH; [done|]; intros; apply Hinj; [by right..|done|done]).
  case_decide as Hne; [|done]. apply list.NoDup_cons. split; [|done].
  intros [_ (y&Hy&Hin)%list_elem_of_fmap]%list_elem_of_filter. simpl in *.
  assert (x = y) as -> by (apply Hinj; [by left|by right|done|done]). done.
Qed.

Definition store_tokens (st : Store) : gmap string ACLToken := acl_tokens (acls (st_db st)).

Lemma ACLTokenList_ok st i l : tokens_ok (store_tokens st) → ACLTokenList false true "" "" "" st = Ok (i, l) →
  (∀ id h, has_token (store_tokens st) id h ↔ listed (token_meta <$> l) id h) ∧ distinct (token_meta <$> l).
Proof using owner.
  intros HT Hr. unfold ACLTokenList, read_txn in Hr.
  destruct (mbind' _ _ _) as [r s2] eqn:Hrun in Hr. simpl in Hr. subst r.
  unfold token_list_iter in Hrun. simpl in Hrun. apply bind_ok_inv in Hrun as ([b ts]&s1&H1&Hrun).
  apply bind_ok_inv in H1 as (ts0&s0&H0&H1). unfold tx_Get, mget in H0. injection H0 as <- <-. ok_inv H1. simplify_eq. simpl in Hrun.
  apply bind_ok_inv in Hrun as (res&s3&H3%mmap_fixup_meta&Hrun). apply bind_ok_inv in Hrun as (j&s4&_&Hrun). apply ret_ok_inv in Hrun as [[= -> ->] _]. rewrite H3.
  change (tbl _) with (store_tokens st). split.
  - intros id h. unfold has_token, listed. setoid_rewrite list_elem_of_fmap. setoid_rewrite elem_of_global. naive_solver.
  - apply NoDup_ids.
    + apply NoDup_table_scan; [apply local_single|]. intros k t Hk. by apply HT.
    + intros x y (k&Hk&_)%elem_of_global (k'&Hk'&_)%elem_of_global Hne Heq.
      assert (k = k') as -> by (rewrite (token_owner_key _ _ _ HT Hk), (token_owner_key _ _ _ HT Hk') by congruence; congruence).
      congruence.
Qed.

(** ** The promises *)

Section server.
Context (ext : externals) (raft : nat → raft_run).
(** Nothing else writes to the log: "there's nothing else other than this
    replication routine that alters the local ACLs". *)
Definition alone (run : raft_run) : Prop := match run with Committed before _ _ | Refused before _ => before = [] end.
Context (Halone : ∀ n, alone (raft n)).

Lemma apply_checked_ok c s s' : apply_checked ext raft c s = (Ok tt, s') →
  ∃ now idx r, fsm_apply ext now idx c (rp_store s) = (Ok r, rp_store s').
Proof using Halone.
  unfold apply_checked, r_apply, raftApply. intros Hr. apply bind_ok_inv in Hr as (o&s1&H1&Hr).
  apply bind_ok_inv in Hr as (r&s2&[-> ->]%lift_ok_inv&Hr). ok_inv Hr.
  pose proof (Halone (rp_writes s)) as Ha. destruct (raft (rp_writes s)) as [before now idx|before e]; simpl in Ha; subst before.
  - exists now, idx, r. cbv [mbind' replay fsm_run list.last mtry] in H1. simpl in H1. unfold mtry in H1.
    destruct (fsm_apply ext now idx c (rp_store s)) as [[x| |] st]; by simplify_eq.
  - cbv [mbind' replay fsm_run list.last mthrow] in H1. by simpl in H1.
Qed.

Definition inv_tokens (st : Store) : Prop := tokens_ok (store_tokens st).

Lemma token_replicator_laws list_rpc batch_rpc :
  replicator_laws (aclTokenReplicator ext raft list_rpc batch_rpc) token_meta (λ st, has_token (store_tokens st)) inv_tokens
    (λ id, spelled id ∧ id ≠ "") replicable.
Proof using Halone Hspelled.
  split; simpl.
  - intros st i l. apply ACLTokenList_ok.
  - intros st id h HT (Hne&k&t&Hk&_&<-&_). split; [|done]. destruct (HT _ _ Hk) as [_ Hs]. by apply Hs.
  - intros s s' batch HT Hsp (now&idx&r&Hr)%apply_checked_ok. simpl in Hr. unfold applyACLTokenDeleteOperation, rnil in Hr.
    apply bind_ok_inv in Hr as ([]&st&H1&Hr). ok_inv Hr. apply write_txn_ok_inv in H1 as (tx&H1&Hst).
    unfold inv_tokens, store_tokens. rewrite Hst. by apply delete_tokens_ok in H1.
  - intros s s' us HT Hg Hnd (now&idx&r&Hr)%apply_checked_ok. simpl in Hr. unfold applyACLTokenSetOperation, rnil in Hr. simpl in Hr.
    apply bind_ok_inv in Hr as ([]&st&H1&Hr). ok_inv Hr. apply write_txn_ok_inv in H1 as (tx&H1&Hst).
    unfold aclTokenBatchSetTxn in H1. apply bind_ok_inv in H1 as ([]&tx1&H1&H2).
    apply update_acl_index_tokens in H2. unfold inv_tokens, store_tokens. rewrite Hst, H2. by apply set_tokens_ok in H1.
Qed.
End server.
End tokens.

(** ** Convergence *)

(** C33. Replication of tokens converges: when no accessor ID of the two
    datacenters is spelled in two ways or belongs to two secrets
    ([inv_tokens]), the batch read answers as listed, nothing else writes to
    the log during the round, and the hint of the last index is true (what did
    not change after it is here already), a round that reports success has
    left exactly the global tokens of the primary datacenter, by accessor ID
    and content hash, in however many batches it wrote them, and returns the
    index of the primary datacenter.  The hash leaves the secret out:
    [recreated_token_not_replicated] shows a token whose accessor ID has got
    another secret. *)
Theorem replicateACLTokens_converges (spelled : string → Prop) (owner : string → string)
    ext raft stopped limit list_rpc batch_rpc last remote remoteIndex s s' i :
  (∀ a b, spelled a → spelled b → uuid_parse a = uuid_parse b → a = b) →
  (∀ n, alone (raft n)) →
  inv_tokens spelled owner (rp_store s) →
  list_rpc last = Ok (remote, remoteIndex) → distinct (stub_meta <$> remote) →
  answers_batch (aclTokenReplicator ext raft list_rpc batch_rpc) token_meta (replicable spelled owner) remote →
  synced_until (aclTokenReplicator ext raft list_rpc batch_rpc) (λ st, has_token (store_tokens st))
    (effective remoteIndex last) remote (rp_store s) →
  replicateACLType stopped limit (aclTokenReplicator ext raft list_rpc batch_rpc) last s = (Ok (i, false), s') →
  i = remoteIndex ∧
  ∀ id hash, has_token (store_tokens (rp_store s')) id hash ↔ listed (stub_meta <$> remote) id hash.
Proof.
  intros Hsp Halone HT Hrpc Hd Hb Hsync Hr.
  destruct (replicateACLType_converges _ _ _ _ _ _ (token_replicator_laws spelled owner Hsp ext raft Halone list_rpc batch_rpc)
    stopped limit s s' last i remote remoteIndex HT Hrpc Hd Hb Hsync Hr) as (?&_&?). done.
Qed.

(** ** Where it does not *)

(** Accessor IDs are not immutable for an operator who deletes a token and
    creates another under its accessor ID: the content hash does not see the
    new secret, so replication finds nothing to do, and the old secret stays
    valid in the secondary datacenter. *)
Lemma recreated_token_not_replicated sum256 old new last :
  let t := ACLToken_SetHash sum256 true old in
  let t' := ACLToken_SetHash sum256 true new in
  act_AccessorID new = act_AccessorID old → act_AccessorID old ≠ "" →
  act_Description new = act_Description old → act_Type new = act_Type old → act_Rules new = act_Rules old →
  act_Local new = act_Local old → act_Policies new = act_Policies old → act_Roles new = act_Roles old →
  act_ServiceIdentities new = act_ServiceIdentities old →
  diffACLType [token_meta t] [stub_meta (ACLToken_Stub t')] last = no_diff.
Proof.
  intros t t' Ha Hne H1 H2 H3 H4 H5 H6 H7. unfold diffACLType, SortState, t, t', ACLToken_SetHash. simpl.
  rewrite Ha, H1, H2, H3, H4, H5, H6, H7. rewrite decide_False, decide_False, decide_True by done.
  unfold bytes_Equal. rewrite bool_decide_true by done. by rewrite andb_false_r.
Qed.

Definition demo_policy (id name rules : string) (idx : N) : ACLPolicy := mkACLPolicy id name "" rules 0 [] (Some (name +:+ rules)) idx idx.
Definition policy1 : string := "11111111-1111-1111-1111-111111111111".
Definition policy2 : string := "22222222-2222-2222-2222-222222222222".
Definition no_status : ACLReplicationStatus := mkReplStatus true true "dc1" "policies" 0 0 0 0 0.
Definition demo_server (st : Store) : replication := mkReplication st no_status 0 0.
Definition demo_raft (n : nat) : raft_run := Committed [] 0 (N.of_nat n + 100).
Definition never (n : nat) : bool := false.

(** A policy that the state machine refuses is lost: the replicator of
    policies drops the error ([err != nil] is tested again where it is nil), the
    round reports success, and the next one, whose hint is the index just
    reported, does not look at the policy again.  Here the primary datacenter
    has swapped the names of two policies, with new rules. *)
Definition swapped_before : Store :=
  (ACLPolicyBatchSet 0 5 [demo_policy policy1 "admin" "old" 5; demo_policy policy2 "guest" "old" 5] (NewStateStore None)).2.
Definition swapped_remote : list ACLPolicy := [demo_policy policy1 "guest" "new" 20; demo_policy policy2 "admin" "new" 20].
Definition swap_round (last : N) : M replication (N * bool) :=
  replicateACLType never 1
    (aclPolicyReplicator sample_externals demo_raft (λ _, Ok (ACLPolicy_Stub <$> swapped_remote, 20%N)) (λ _, Ok swapped_remote)) last.
Definition rules_of (s : replication) : list (string * string) :=
  (λ p, (acp_Name p, acp_Rules p)) <$> table_prefix "" (acl_policies (acls (st_db (rp_store s)))).

Lemma refused_policies_lost :
  let '(r1, s1) := swap_round 10 (demo_server swapped_before) in
  let '(r2, s2) := swap_round 20 s1 in
  r1 = Ok (20%N, false) ∧ r2 = Ok (20%N, false) ∧ rp_writes s1 = 1%nat ∧ rp_writes s2 = 1%nat ∧
  rules_of s2 = [("admin", "old"); ("guest", "old")].
Proof. vm_compute. done. Qed.

(** ** A run *)

Definition demo_token : ACLToken :=
  mkACLToken policy1 "s1" "" [] [] [] "" "" false "" None 0 0 (Some "h") 20 20.
Definition demo_batch (ids : list string) : outcome (list ACLToken * bool) :=
  Ok (if decide (policy1 ∈ ids) then [demo_token] else [], false).
Definition demo_list (last : N) : outcome (list ACLTokenListStub * N) := Ok ([ACLToken_Stub demo_token], 20%N).
Definition demo_round : M replication (N * bool) :=
  replicateACLType never 1 (aclTokenReplicator sample_externals demo_raft demo_list demo_batch) 10.

Lemma replicateACLTokens_converges_witness :
  let s := demo_server (NewStateStore None) in
  let s' := (demo_round s).2 in
  (demo_round s).1 = Ok (20%N, false) ∧ has_token (store_tokens (rp_store s')) policy1 "h".
Proof.
  split; [vm_compute; reflexivity|].
  refine (proj2 (proj2 (replicateACLTokens_converges (λ a, a = policy1) (λ _, "s1") sample_externals demo_raft never 1 demo_list demo_batch
    10 [ACLToken_Stub demo_token] 20 (demo_server (NewStateStore None)) _ 20 _ _ _ _ _ _ _ _) policy1 "h") _).
  - intros a b -> ->. done.
  - intros n. done.
  - intros k t Ht. vm_compute in Ht. discriminate.
  - reflexivity.
  - vm_compute. repeat constructor. intros H. inversion H.
  - intros wanted us Hus. destruct wanted as [|w ws].
    { injection Hus as <-. split_and!; [constructor|constructor|]. intros id h.
      split; [by intros (_&x&[]%not_elem_of_nil&_)|by intros [_ []%not_elem_of_nil]]. }
    simpl in Hus. injection Hus as <-. destruct (decide (policy1 ∈ w :: ws)) as [Hin|Hout].
    + split_and!; [by repeat constructor|simpl; repeat constructor; apply not_elem_of_nil|]. intros id h. split; [|tauto]. intros Hl. split; [done|].
      destruct Hl as (_&x&->%list_elem_of_singleton&<-&_). done.
    + split_and!; [constructor|constructor|]. intros id h.
      split; [by intros (_&x&[]%not_elem_of_nil&_)|]. intros [(_&x&->%list_elem_of_singleton&<-&_) Hin]. done.
  - intros id h x (_&k&t&Ht&_) _ _ _. vm_compute in Ht. discriminate.
  - apply surjective_pairing.
  - split; [discriminate|]. exists (stub_meta (ACLToken_Stub demo_token)). split; [by left|]. done.
Defined.

(** The same with config entries: the primary datacenter has renamed a subset
    of a resolver and moved the splitter to it.  Neither entry compiles with
    the old other one, both writes are refused, and the round reports success. *)
Definition subsets (name : string) (idx : N) : list ConfigEntry :=
  [CEResolver (mkResolver ServiceResolver "web" "" {["v1" := mkSubset "" false; name := mkSubset "" false]} None ∅ 0 (mkRaftIndex idx idx));
   CESplitter (mkSplitter ServiceSplitter "web" [mkSplit (f32_of_Z 50) "" "v1" ""; mkSplit (f32_of_Z 50) "" name ""] (mkRaftIndex idx idx))].
Definition web_http : ConfigEntry := CEService (mkServiceConfig ServiceDefaults "web" "http" (mkMeshGateway "") no_expose "" (mkRaftIndex 4 4)).
Definition subset_before : Store :=
  fold_left (λ st c, (@EnsureConfigEntry (sample_env id) 0 7 c st).2) (web_http :: subsets "v2" 5) (NewStateStore None).
Definition config_round (last : N) : M replication (N * bool) :=
  replicateConfig sample_externals demo_raft never 1 (λ _, Ok (web_http :: subsets "v3" 20, 20%N)) last.
Definition split_subsets (s : replication) : list (list string) :=
  omap (λ c, match c with CESplitter e => Some (spl_ServiceSubset <$> spr_Splits e) | _ => None end)
    (table_prefix "" (tbl (A := ConfigEntry) (st_db (rp_store s)))).

Lemma refused_config_entries_lost :
  let '(r1, s1) := config_round 10 (demo_server subset_before) in
  let '(r2, s2) := config_round 20 s1 in
  r1 = Ok (20%N, false) ∧ r2 = Ok (20%N, false) ∧ rp_writes s1 = 2%nat ∧ rp_writes s2 = 2%nat ∧
  split_subsets s2 = [["v1"; "v2"]].
Proof. vm_compute. done. Qed.
