(* ===== verification/LocalProps.v ===== *)
(** * Anti-entropy converges

    A full sync that succeeds makes the catalog and the local state agree, for
    every server that keeps its contract ([server_laws]). *)

From S2P Require Import Prelude Memdb ProxyConfig Structs ConnectTables AclTables ConfigEntries Delay TombstoneGC Store.
From S2P Require Import Txn Fsm Logic MemdbFacts Radix Acl Authorizer Filter CatalogRead Endpoint LocalState.

(** ** The contract of the servers *)

(** The server labels a check with the name and the tags of its service. *)
Definition hc_relabel (name : string) (tags : option (list string)) (c : HealthCheck) : HealthCheck :=
  mkHealthCheck (hc_Node c) (hc_CheckID c) (hc_Name c) (hc_Status c) (hc_Notes c) (hc_Output c)
    (hc_ServiceID c) name tags (hc_Type c) (hc_Definition c) (hc_CreateIndex c) (hc_ModifyIndex c).
Definition same_check (c r : HealthCheck) : bool := HealthCheck_IsSame (hc_relabel (hc_ServiceName r) (hc_ServiceTags r) c) r.
(** An entry that the endpoint takes as it is: it has an ID, and a service its
    weights. *)
Definition plain_service (s : NodeService) : Prop := ns_ID s ≠ "" ∧ is_Some (ns_Weights s).

(** What a client sees of a server that answers from its current state and
    lets the agent register itself: [svcs], [chks] and [info] are what it has of
    the agent's node. *)
Definition node_info : Type := string * option (gmap string string) * option (gmap string string).
Definition node_info_of (n : Node) : node_info := (node_ID n, node_TaggedAddresses n, node_Meta n).
Record server_laws {W} (D : rpc W) (svcs : W → gmap string NodeService) (chks : W → gmap string HealthCheck)
    (info : W → option node_info) : Prop := {
  law_NodeServices token w out w' : Catalog_NodeServices_rpc D token w = (Ok out, w') →
    w' = w ∧ svcs w = match out with Some ns => nss_Services ns | None => ∅ end ∧
    info w = (λ ns, node_info_of (nss_Node ns)) <$> out;
  law_NodeChecks token w out w' : Health_NodeChecks_rpc D token w = (Ok out, w') →
    w' = w ∧ chks w = foldl (λ m rc, <[hc_CheckID rc := rc]> m) ∅ out;
  (** A registration stores what it sends and touches nothing else. *)
  law_Register token req w w' : Catalog_Register_rpc D token req w = (Ok tt, w') →
    let sent := option_list (rr_Check req) ++ rr_Checks req in
    (rr_SkipNodeUpdate req = false → info w' = Some (rr_ID req, rr_TaggedAddresses req, rr_NodeMeta req)) ∧
    (∀ s, rr_Service req = Some s → plain_service s → ∃ r, svcs w' !! ns_ID s = Some r ∧ NodeService_IsSame s r = true) ∧
    (∀ id, (∀ s, rr_Service req = Some s → plain_service s ∧ ns_ID s ≠ id) → svcs w' !! id = svcs w !! id) ∧
    ((∀ c, c ∈ sent → hc_CheckID c ≠ "") →
     (∀ id, id ∈ hc_CheckID <$> sent → ∃ c r, c ∈ sent ∧ hc_CheckID c = id ∧ chks w' !! id = Some r ∧ same_check c r = true) ∧
     (∀ id, id ∉ hc_CheckID <$> sent → chks w' !! id = chks w !! id));
  (** Removing a service removes its checks; one that is unknown has none. *)
  law_Deregister_service token dc node id w r w' : id ≠ "" →
    Catalog_Deregister_rpc D token (mkDeregisterRequest dc node id "") w = (r, w') →
    r = Ok tt ∨ (∃ e, r = Err e ∧ error_contains "Unknown service" e = true) →
    svcs w' = delete id (svcs w) ∧ chks w' = filter (λ kc, hc_ServiceID kc.2 ≠ id) (chks w) ∧ info w' = info w;
  law_Deregister_check token dc node id w r w' : id ≠ "" →
    Catalog_Deregister_rpc D token (mkDeregisterRequest dc node "" id) w = (r, w') →
    r = Ok tt ∨ (∃ e, r = Err e ∧ error_contains "Unknown check" e = true) →
    svcs w' = svcs w ∧ chks w' = delete id (chks w) ∧ info w' = info w;
  law_named w : svcs w !! "" = None ∧ chks w !! "" = None;
  (** The tokens of the agent suffice. *)
  law_Register_allowed token req w e w' : Catalog_Register_rpc D token req w = (Err e, w') → blocked e = false;
  law_Deregister_allowed token req w e w' : Catalog_Deregister_rpc D token req w = (Err e, w') → blocked e = false
}.

Lemma try_ok_inv {S A} (m : M S A) s r s' : mtry m s = (Ok r, s') → m s = (r, s') ∧ ∀ w, r ≠ Panic w.
Proof. unfold mtry. destruct (m s) as [[a|e|w] s1]; intros H; by simplify_eq. Qed.

(** A server that answers every request of the agent. *)
Record server_up {W} (D : rpc W) (cfg : Config) : Prop := {
  up_NodeServices token w : ∃ out w', Catalog_NodeServices_rpc D token w = (Ok out, w');
  up_NodeChecks token w : ∃ out w', Health_NodeChecks_rpc D token w = (Ok out, w');
  up_Register token req w : rr_Node req = cf_NodeName cfg → ∃ w', Catalog_Register_rpc D token req w = (Ok tt, w');
  up_Deregister token service check w :
    ∃ w', Catalog_Deregister_rpc D token (mkDeregisterRequest (cf_Datacenter cfg) (cf_NodeName cfg) service check) w = (Ok tt, w')
}.

Section anti_entropy.
Context {W : Type} (D : rpc W) (svcs : W → gmap string NodeService) (chks : W → gmap string HealthCheck) (info : W → option node_info).
Context (Hlaws : server_laws D svcs chks info) (cfg : Config) (range : list string → list string).
Context (Hrange : ∀ l, range l ≡ₚ l).

Lemma on_world_inv {A} (m : M W A) a r a' : on_world m a = (r, a') →
  ag_state a' = ag_state a ∧ m (ag_world a) = (r, ag_world a').
Proof using Type. unfold on_world. destruct (m (ag_world a)) as [x w]. by intros [= -> <-]. Qed.
Lemma on_local_inv {A} (m : M State A) (a : agent W) r a' : on_local m a = (r, a') →
  ag_world a' = ag_world a ∧ m (ag_state a) = (r, ag_state a').
Proof using Type. unfold on_local. destruct (m (ag_state a)) as [x w]. by intros [= -> <-]. Qed.
Lemma local_inv f (a : agent W) r a' : local f a = (r, a') → ag_world a' = ag_world a ∧ ag_state a' = f (ag_state a).
Proof using Type. intros [Hw Hr]%on_local_inv. unfold mmodify in Hr. by simplify_eq. Qed.
Lemma look_inv {A} (f : State → A) (a : agent W) x a' : look f a = (Ok x, a') → a' = a ∧ x = f (ag_state a).
Proof using Type. unfold look, on_local, mget. destruct a. by intros [= <- <-]. Qed.
Lemma deref_inv {S A} (o : option A) (s : S) x s' : deref o s = (Ok x, s') → o = Some x ∧ s' = s.
Proof using Type. destruct o; [|done]. by intros [= -> ->]. Qed.
Lemma state_keys_elem {A} (m : gmap string A) id : id ∈ keys range m ↔ is_Some (m !! id).
Proof using Hrange.
  unfold keys. rewrite Hrange, list_elem_of_fmap. split.
  - intros ([k x]&->&Hx%elem_of_map_to_list). by exists x.
  - intros [x Hx]. exists (id, x). split; [done|]. by apply elem_of_map_to_list.
Qed.
Lemma keys_NoDup {A} (m : gmap string A) : NoDup (keys range m).
Proof using Hrange. unfold keys. rewrite Hrange. apply NoDup_fst_map_to_list. Qed.

(** ** Coherent local states *)

(** What is registered under an ID: the record of a service but for the tags
    that the servers may override, and the record of a check. *)
Definition untag (s : NodeService) : NodeService := if ns_EnableTagOverride s then ns_set_tags None s else s.
Definition service_at (l : State) (id : string) : option (option NodeService) :=
  (λ s, untag <$> ss_Service s) <$> Local_ServiceState id l.
Definition check_at (l : State) (id : string) : option (option HealthCheck) := cs_Check <$> Local_CheckState id l.

(** What is registered has its record, under its own ID, and checks belong to
    registered services. *)
Record coherent (l : State) : Prop := {
  co_service id o : service_at l id = Some o → ∃ svc, o = Some svc ∧ ns_ID svc = id ∧ plain_service svc;
  co_check id o : check_at l id = Some o →
    ∃ hc, o = Some hc ∧ hc_CheckID hc = id ∧ id ≠ "" ∧ (hc_ServiceID hc ≠ "" → is_Some (service_at l (hc_ServiceID hc)))
}.
(** The same services and checks are registered. *)
Definition keeps (l l' : State) : Prop := ∀ id, service_at l' id = service_at l id ∧ check_at l' id = check_at l id.

(** A check whose output waits for a deferred sync may differ in it. *)
Definition blank (c : HealthCheck) : HealthCheck := hc_set_output (hc_Status c) "" c.
Definition check_agrees (c : CheckState) (r : HealthCheck) : Prop := ∃ hc, cs_Check c = Some hc ∧
  (same_check hc r = true ∨ (is_Some (cs_DeferCheck c) ∧ same_check (blank hc) (blank r) = true)).
Definition local_info (l : State) : node_info := (cf_NodeID cfg, cf_TaggedAddresses cfg, Some (ls_metadata l)).
Definition service_agrees (s : ServiceState) (r : NodeService) : Prop := ∃ svc, ss_Service s = Some svc ∧ NodeService_IsSame svc r = true.

(** Nothing has an empty ID. *)
Definition named (l : State) : Prop := ls_services l !! "" = None ∧ ls_checks l !! "" = None.

(** What is marked as in sync is, and what the server has and the agent has
    not is the server's own. *)
Record reflected (l : State) (w : W) : Prop := {
  rf_coherent : coherent l;
  rf_named : named l;
  rf_service id s : Local_ServiceState id l = Some s → ss_InSync s = true → ∃ r, svcs w !! id = Some r ∧ service_agrees s r;
  rf_services id : is_Some (svcs w !! id) → id = ConsulServiceID ∨ is_Some (ls_services l !! id);
  rf_check id c : Local_CheckState id l = Some c → cs_InSync c = true → ∃ r, chks w !! id = Some r ∧ check_agrees c r;
  rf_checks id : is_Some (chks w !! id) → id = SerfCheckID ∨ is_Some (ls_checks l !! id);
  rf_node : ls_nodeInfoInSync l = true → info w = Some (local_info l)
}.

Lemma IsSame_same_check c r : HealthCheck_IsSame c r = true → same_check c r = true.
Proof using Type. unfold same_check, HealthCheck_IsSame, hc_relabel; simpl. rewrite !andb_true_iff, !bool_decide_eq_true. naive_solver. Qed.
Lemma same_check_ServiceID c r : same_check c r = true → hc_ServiceID c = hc_ServiceID r.
Proof using Type. unfold same_check, HealthCheck_IsSame, hc_relabel; simpl. rewrite !andb_true_iff, !bool_decide_eq_true. naive_solver. Qed.
Lemma untag_ID s : ns_ID (untag s) = ns_ID s.
Proof using Type. unfold untag. by destruct (ns_EnableTagOverride s). Qed.
Lemma untag_plain s : plain_service (untag s) ↔ plain_service s.
Proof using Type. unfold plain_service, untag. by destruct (ns_EnableTagOverride s). Qed.
Lemma Local_ServiceState_Some id l s : Local_ServiceState id l = Some s ↔ ls_services l !! id = Some s ∧ ss_Deleted s = false.
Proof using Type. unfold Local_ServiceState. rewrite bind_Some. split; [intros (x&?&?)|intros []; exists s]; repeat case_match; naive_solver. Qed.
Lemma Local_CheckState_Some id l c : Local_CheckState id l = Some c ↔ ls_checks l !! id = Some c ∧ cs_Deleted c = false.
Proof using Type. unfold Local_CheckState. rewrite bind_Some. split; [intros (x&?&?)|intros []; exists c]; repeat case_match; naive_solver. Qed.
Lemma service_at_Some l id s : Local_ServiceState id l = Some s → service_at l id = Some (untag <$> ss_Service s).
Proof using Type. unfold service_at. by intros ->. Qed.
Lemma check_at_Some l id c : Local_CheckState id l = Some c → check_at l id = Some (cs_Check c).
Proof using Type. unfold check_at. by intros ->. Qed.

Lemma keeps_coherent l l' : keeps l l' → coherent l → coherent l'.
Proof using Type.
  intros Hk [Hs Hc]. split.
  - intros id o. rewrite (proj1 (Hk id)). apply Hs.
  - intros id o. rewrite (proj2 (Hk id)). intros (hc&?&?&?&?)%Hc. exists hc. split_and!; [done..|]. by rewrite (proj1 (Hk _)).
Qed.
#[local] Instance keeps_PreOrder : PreOrder keeps.
Proof using Type. split; [by intros l id|]. intros l1 l2 l3 H1 H2 id. by rewrite (proj1 (H2 id)), (proj2 (H2 id)). Qed.
Lemma coherent_service l id s : coherent l → Local_ServiceState id l = Some s →
  ∃ svc, ss_Service s = Some svc ∧ ns_ID svc = id ∧ plain_service svc.
Proof using Type.
  intros Hco Hs. apply service_at_Some, (co_service l Hco) in Hs as (x&Hx&Hid&Hp). apply fmap_Some in Hx as (svc&->&->).
  exists svc. by rewrite untag_ID in Hid; rewrite untag_plain in Hp.
Qed.
Lemma coherent_check l id c : coherent l → Local_CheckState id l = Some c →
  ∃ hc, cs_Check c = Some hc ∧ hc_CheckID hc = id ∧ id ≠ "" ∧ (hc_ServiceID hc ≠ "" → is_Some (Local_ServiceState (hc_ServiceID hc) l)).
Proof using Type.
  intros Hco Hs. apply check_at_Some, (co_check l Hco) in Hs as (hc&?&?&?&Ha). exists hc. split_and!; [done..|].
  intros [o (s&Hs&_)%fmap_Some]%Ha. by exists s.
Qed.

(** ** The comparison *)

Definition updated_service (remote : gmap string NodeService) (id : string) (o : option ServiceState) : option ServiceState :=
  match remote !! id with
  | None => o
  | Some rs =>
      match o with
      | None => if decide (id = ConsulServiceID) then None else Some (mkServiceState None "" false true None)
      | Some s => compare_service rs s
      end
  end.

Lemma update_service_ok remote id l l' : update_service remote id l = (Ok tt, l') →
  set_services ∅ l' = set_services ∅ l ∧
  (∀ id', ls_services l' !! id' = if decide (id' = id) then updated_service remote id (ls_services l !! id) else ls_services l !! id') ∧
  (is_Some (ls_services l !! id) → is_Some (ls_services l' !! id)).
Proof using Type.
  unfold update_service, updated_service. intros Hr. apply bind_ok_inv in Hr as (o&l1&H1&Hr). unfold mget in H1. injection H1 as <- <-.
  destruct (remote !! id) as [rs|] eqn:Hrem.
  2: { ok_inv Hr. split; [done|]. split; [|done]. intros id'. by destruct (decide (id' = id)) as [->|]. }
  destruct (ls_services l !! id) as [s|] eqn:Hs.
  - apply bind_ok_inv in Hr as (s'&l2&[Hc ->]%deref_inv&Hr). unfold mmodify in Hr. injection Hr as <-. simpl. split; [done|].
    split; [|intros _; rewrite lookup_insert_eq; by eexists]. intros id'. destruct (decide (id' = id)) as [->|]; [by rewrite lookup_insert_eq, Hc|by rewrite lookup_insert_ne].
  - case_decide.
    + apply ret_ok_inv in Hr as [_ ->]. split; [done|]. split; [|by rewrite Hs]. intros id'. by destruct (decide (id' = id)) as [->|].
    + unfold mmodify in Hr. injection Hr as <-. simpl. split; [done|]. split; [|intros []%is_Some_None].
      intros id'. destruct (decide (id' = id)) as [->|]; [by rewrite lookup_insert_eq|by rewrite lookup_insert_ne].
Qed.
Lemma update_services_ok remote ids : ∀ (a a' : agent W), NoDup ids →
  (for id in ids do on_local (update_service remote id)) a = (Ok tt, a') →
  ag_world a' = ag_world a ∧ set_services ∅ (ag_state a') = set_services ∅ (ag_state a) ∧
  ∀ id, ls_services (ag_state a') !! id =
    if decide (id ∈ ids) then updated_service remote id (ls_services (ag_state a) !! id) else ls_services (ag_state a) !! id.
Proof using Type.
  induction ids as [|i ids IH]; intros a a' Hnd Hr; simpl in Hr.
  { ok_inv Hr. split_and!; [done|done|]. intros id. by rewrite decide_False by apply not_elem_of_nil. }
  apply list.NoDup_cons in Hnd as [Hi Hnd]. apply bind_ok_inv in Hr as ([]&a1&[Hw1 H1]%on_local_inv&Hr).
  apply update_service_ok in H1 as (Hc1&H1&_). apply IH in Hr as (Hw&Hc&Hr); [|done].
  split; [congruence|]. split; [congruence|]. intros id. rewrite Hr, H1. destruct (decide (id = i)) as [->|Hne].
  - rewrite decide_False by done. by rewrite decide_True by left.
  - destruct (decide (id ∈ ids)); [rewrite decide_True by (by right); done|]. rewrite decide_False; [done|]. by intros [|]%elem_of_cons.
Qed.

Definition updated_check (remote : gmap string HealthCheck) (id : string) (o : option CheckState) : option CheckState :=
  match remote !! id with
  | None => o
  | Some rc =>
      match o with
      | None => if decide (id = SerfCheckID) then None else Some (mkCheckState None "" zero_time None false true)
      | Some c => compare_check cfg rc c
      end
  end.
Lemma update_check_ok remote id l l' : update_check cfg remote id l = (Ok tt, l') →
  set_checks ∅ l' = set_checks ∅ l ∧
  (∀ id', ls_checks l' !! id' = if decide (id' = id) then updated_check remote id (ls_checks l !! id) else ls_checks l !! id').
Proof using Type.
  unfold update_check, updated_check. intros Hr. apply bind_ok_inv in Hr as (o&l1&H1&Hr). unfold mget in H1. injection H1 as <- <-.
  destruct (remote !! id) as [rs|] eqn:Hrem.
  2: { ok_inv Hr. split; [done|]. intros id'. by destruct (decide (id' = id)) as [->|]. }
  destruct (ls_checks l !! id) as [s|] eqn:Hs.
  - apply bind_ok_inv in Hr as (s'&l2&[Hc ->]%deref_inv&Hr). unfold mmodify in Hr. injection Hr as <-. simpl. split; [done|].
    intros id'. destruct (decide (id' = id)) as [->|]; [by rewrite lookup_insert_eq, Hc|by rewrite lookup_insert_ne].
  - case_decide.
    + apply ret_ok_inv in Hr as [_ ->]. split; [done|]. intros id'. by destruct (decide (id' = id)) as [->|].
    + unfold mmodify in Hr. injection Hr as <-. simpl. split; [done|].
      intros id'. destruct (decide (id' = id)) as [->|]; [by rewrite lookup_insert_eq|by rewrite lookup_insert_ne].
Qed.
Lemma update_checks_ok remote ids : ∀ (a a' : agent W), NoDup ids →
  (for id in ids do on_local (update_check cfg remote id)) a = (Ok tt, a') →
  ag_world a' = ag_world a ∧ set_checks ∅ (ag_state a') = set_checks ∅ (ag_state a) ∧
  ∀ id, ls_checks (ag_state a') !! id =
    if decide (id ∈ ids) then updated_check remote id (ls_checks (ag_state a) !! id) else ls_checks (ag_state a) !! id.
Proof using Type.
  induction ids as [|i ids IH]; intros a a' Hnd Hr; simpl in Hr.
  { ok_inv Hr. split_and!; [done|done|]. intros id. by rewrite decide_False by apply not_elem_of_nil. }
  apply list.NoDup_cons in Hnd as [Hi Hnd]. apply bind_ok_inv in Hr as ([]&a1&[Hw1 H1]%on_local_inv&Hr).
  apply update_check_ok in H1 as (Hc1&H1). apply IH in Hr as (Hw&Hc&Hr); [|done].
  split; [congruence|]. split; [congruence|]. intros id. rewrite Hr, H1. destruct (decide (id = i)) as [->|Hne].
  - rewrite decide_False by done. by rewrite decide_True by left.
  - destruct (decide (id ∈ ids)); [rewrite decide_True by (by right); done|]. rewrite decide_False; [done|]. by intros [|]%elem_of_cons.
Qed.

(** What the comparison makes of an entry. *)
Lemma compare_service_spec rs s s' : compare_service rs s = Some s' →
  (ss_Deleted s = true ∧ s' = s) ∨
  (ss_Deleted s = false ∧ ss_Deleted s' = false ∧ untag <$> ss_Service s' = untag <$> ss_Service s ∧ (ss_InSync s' = true → service_agrees s' rs)).
Proof using Type.
  unfold compare_service. destruct (ss_Deleted s) eqn:Hd; [intros [= <-]; by left|]. destruct (ss_Service s) as [svc|]; [|done].
  intros [= <-]. right. split; [done|]. simpl. split; [done|]. split; [|intros; by eexists].
  f_equal. unfold untag. by destruct (ns_EnableTagOverride svc) eqn:He; simpl; rewrite He.
Qed.
Lemma compare_check_spec rc c c' : compare_check cfg rc c = Some c' →
  (cs_Deleted c = true ∧ c' = c) ∨
  (cs_Deleted c = false ∧ cs_Deleted c' = false ∧ cs_Check c' = cs_Check c ∧ (cs_InSync c' = true → check_agrees c' rc)).
Proof using Type.
  unfold compare_check. destruct (cs_Deleted c) eqn:Hd; [intros [= <-]; by left|]. destruct (cs_Check c) as [hc|] eqn:Hc; [|done].
  intros [= <-]. right. split; [done|]. simpl. split; [done|]. split; [done|]. intros Hs. exists hc. simpl. split; [done|].
  case_decide; [left; by apply IsSame_same_check|].
  destruct (cs_DeferCheck c); [right; split; [by eexists|]|left]; by apply IsSame_same_check.
Qed.

Definition absent_service (remote : gmap string NodeService) (id : string) (s : ServiceState) : ServiceState :=
  match remote !! id with None => ss_set_flags false (ss_Deleted s) s | Some _ => s end.
Definition absent_check (remote : gmap string HealthCheck) (id : string) (c : CheckState) : CheckState :=
  match remote !! id with None => cs_set_flags false (cs_Deleted c) c | Some _ => c end.

Lemma set_services_frame l l' : set_services ∅ l' = set_services ∅ l →
  ls_metadata l' = ls_metadata l ∧ ls_nodeInfoInSync l' = ls_nodeInfoInSync l ∧ ls_checks l' = ls_checks l.
Proof using Type. intros H. split_and!; [exact (f_equal ls_metadata H)|exact (f_equal ls_nodeInfoInSync H)|exact (f_equal ls_checks H)]. Qed.
Lemma set_checks_frame l l' : set_checks ∅ l' = set_checks ∅ l →
  ls_metadata l' = ls_metadata l ∧ ls_nodeInfoInSync l' = ls_nodeInfoInSync l ∧ ls_services l' = ls_services l.
Proof using Type. intros H. split_and!; [exact (f_equal ls_metadata H)|exact (f_equal ls_nodeInfoInSync H)|exact (f_equal ls_services H)]. Qed.
(** Node information that is not stale is the agent's. *)
Lemma node_info_fresh out l : ls_nodeInfoInSync (if node_info_stale cfg out l then set_nodeInfo false l else l) = true →
  (λ ns, node_info_of (nss_Node ns)) <$> out = Some (local_info l).
Proof using Type.
  destruct (node_info_stale cfg out l) eqn:Hst; [done|]. intros _. unfold node_info_stale in Hst. destruct out as [ns|]; [|done].
  rewrite !orb_false_iff, !bool_decide_eq_false in Hst. destruct Hst as [[H1%dec_stable H2%dec_stable] H3%dec_stable].
  simpl. unfold node_info_of, local_info. by rewrite H1, H2, H3.
Qed.

(** The state that the comparison with [remote] and [remotec] leaves. *)
Lemma updateSyncState_ok a a' : updateSyncState D cfg range a = (Ok tt, a') →
  ag_world a' = ag_world a ∧
  ls_metadata (ag_state a') = ls_metadata (ag_state a) ∧
  (ls_nodeInfoInSync (ag_state a') = true → info (ag_world a) = Some (local_info (ag_state a))) ∧
  (∀ id, ls_services (ag_state a') !! id =
    updated_service (svcs (ag_world a)) id (absent_service (svcs (ag_world a)) id <$> ls_services (ag_state a) !! id)) ∧
  (∀ id, ls_checks (ag_state a') !! id =
    updated_check (chks (ag_world a)) id (absent_check (chks (ag_world a)) id <$> ls_checks (ag_state a) !! id)).
Proof using Hlaws Hrange.
  unfold updateSyncState. intros Hr.
  apply bind_ok_inv in Hr as (out1&a1&[Hl1 H1]%on_world_inv&Hr). apply (law_NodeServices _ _ _ _ Hlaws) in H1 as (Hw1&H1&Hi).
  apply bind_ok_inv in Hr as (out2&a2&[Hl2 H2]%on_world_inv&Hr). apply (law_NodeChecks _ _ _ _ Hlaws) in H2 as [Hw2 H2].
  cbv zeta in Hr. rewrite <- H1, <- H2, Hw1 in Hr.
  apply bind_ok_inv in Hr as ([]&a3&[Hw3 Hl3]%local_inv&Hr).
  apply bind_ok_inv in Hr as ([]&a4&[Hw4 Hl4]%local_inv&Hr).
  apply bind_ok_inv in Hr as ([]&a5&H5&Hr). apply update_services_ok in H5 as (Hw5&Hc5&Hs5); [|by apply keys_NoDup].
  apply bind_ok_inv in Hr as ([]&a6&[Hw6 Hl6]%local_inv&Hr). apply update_checks_ok in Hr as (Hw7&Hs7&Hc7); [|by apply keys_NoDup].
  assert (Hls : ls_services (ag_state a3) = ls_services (ag_state a) ∧ ls_checks (ag_state a3) = ls_checks (ag_state a))
    by (rewrite Hl3, Hl2, Hl1; by destruct (node_info_stale cfg out1 (ag_state a))).
  destruct Hls as [Hls Hlc].
  pose proof (set_services_frame _ _ Hc5) as (Hm5&Hn5&Hck5). pose proof (set_checks_frame _ _ Hs7) as (Hm7&Hn7&Hsv7).
  split; [congruence|]. split; [|split; [|split; intros id]].
  - rewrite Hm7, Hl6. simpl. rewrite Hm5, Hl4. simpl. rewrite Hl3, Hl2, Hl1. by destruct (node_info_stale cfg out1 (ag_state a)).
  - rewrite Hn7, Hl6. simpl. rewrite Hn5, Hl4. simpl. rewrite Hl3, Hl2, Hl1, Hi. apply node_info_fresh.
  - rewrite Hsv7, Hl6. simpl. rewrite Hs5, Hl4. simpl. rewrite map_lookup_imap, Hls.
    destruct (decide _) as [Hk|Hk]; rewrite state_keys_elem in Hk; [by destruct (ls_services (ag_state a) !! id)|].
    apply eq_None_not_Some in Hk. unfold updated_service, absent_service. rewrite Hk. by destruct (ls_services (ag_state a) !! id).
  - rewrite Hc7, Hl6. simpl. rewrite Hck5, Hl4. simpl. rewrite map_lookup_imap, Hlc.
    destruct (decide _) as [Hk|Hk]; rewrite state_keys_elem in Hk; [by destruct (ls_checks (ag_state a) !! id)|].
    apply eq_None_not_Some in Hk. unfold updated_check, absent_check. rewrite Hk. by destruct (ls_checks (ag_state a) !! id).
Qed.
Lemma compare_service_None rs s : compare_service rs s = None → ss_Deleted s = false ∧ ss_Service s = None.
Proof using Type. unfold compare_service. by repeat case_match. Qed.
Lemma compare_check_None rc c : compare_check cfg rc c = None → cs_Deleted c = false ∧ cs_Check c = None.
Proof using Type. unfold compare_check. by repeat case_match. Qed.

Lemma compared_service_at l remote id : coherent l →
  (λ s, untag <$> ss_Service s) <$>
    (updated_service remote id (absent_service remote id <$> ls_services l !! id) ≫= λ s, if ss_Deleted s then None else Some s)
  = service_at l id.
Proof using Type.
  intros Hco. pose proof (coherent_service l id) as Hcs. unfold service_at, Local_ServiceState in *.
  unfold updated_service, absent_service. destruct (remote !! id) as [rs|], (ls_services l !! id) as [s|]; simpl in *; [|by case_decide|by destruct (ss_Deleted s)|done].
  destruct (compare_service rs s) as [s'|] eqn:Hs.
  - apply compare_service_spec in Hs as [[Hd ->]|(Hd&Hd'&Heq&_)]; simpl; [done|]. rewrite Hd, Hd'. simpl. by rewrite Heq.
  - apply compare_service_None in Hs as [Hd Hn]. rewrite Hd in *. destruct (Hcs s Hco eq_refl) as (?&?&_). congruence.
Qed.
Lemma compared_check_at l remote id : coherent l →
  cs_Check <$> (updated_check remote id (absent_check remote id <$> ls_checks l !! id) ≫= λ c, if cs_Deleted c then None else Some c)
  = check_at l id.
Proof using Type.
  intros Hco. pose proof (coherent_check l id) as Hcs. unfold check_at, Local_CheckState in *.
  unfold updated_check, absent_check. destruct (remote !! id) as [rs|], (ls_checks l !! id) as [s|]; simpl in *; [|by case_decide|by destruct (cs_Deleted s)|done].
  destruct (compare_check cfg rs s) as [s'|] eqn:Hs.
  - apply compare_check_spec in Hs as [[Hd ->]|(Hd&Hd'&Heq&_)]; simpl; [done|]. rewrite Hd, Hd'. simpl. by rewrite Heq.
  - apply compare_check_None in Hs as [Hd Hn]. rewrite Hd in *. destruct (Hcs s Hco eq_refl) as (?&?&_). congruence.
Qed.

Lemma compared_service_sync remote id o s : updated_service remote id (absent_service remote id <$> o) = Some s →
  ss_Deleted s = false → ss_InSync s = true → ∃ r, remote !! id = Some r ∧ service_agrees s r.
Proof using Type.
  unfold updated_service, absent_service. destruct (remote !! id) as [rs|], o as [s0|]; simpl; try done.
  - intros [[Hd ->]|(_&_&_&Hs)]%compare_service_spec Hd' Hin; [congruence|eauto].
  - case_decide; [done|]. by intros [= <-].
  - by intros [= <-].
Qed.
Lemma compared_check_sync remote id o c : updated_check remote id (absent_check remote id <$> o) = Some c →
  cs_Deleted c = false → cs_InSync c = true → ∃ r, remote !! id = Some r ∧ check_agrees c r.
Proof using Type.
  unfold updated_check, absent_check. destruct (remote !! id) as [rs|], o as [s0|]; simpl; try done.
  - intros [[Hd ->]|(_&_&_&Hs)]%compare_check_spec Hd' Hin; [congruence|eauto].
  - case_decide; [done|]. by intros [= <-].
  - by intros [= <-].
Qed.

(** After the comparison the marks are right. *)
Lemma updateSyncState_reflected a a' : named (ag_state a) → coherent (ag_state a) → updateSyncState D cfg range a = (Ok tt, a') →
  reflected (ag_state a') (ag_world a') ∧ keeps (ag_state a) (ag_state a').
Proof using Hlaws Hrange.
  intros Hna Hco (Hw&Hm&Hinf&Hs&Hc)%updateSyncState_ok.
  assert (Hk : keeps (ag_state a) (ag_state a')).
  { intros id. unfold service_at at 1, check_at at 1, Local_ServiceState, Local_CheckState. rewrite Hs, Hc.
    by rewrite compared_service_at, compared_check_at. }
  split; [|done]. split.
  - by eapply keeps_coherent.
  - destruct Hna as [Hn1 Hn2], (law_named _ _ _ _ Hlaws (ag_world a)) as [Hn3 Hn4]. split; [rewrite Hs, Hn1|rewrite Hc, Hn2].
    + unfold updated_service. by rewrite Hn3.
    + unfold updated_check. by rewrite Hn4.
  - intros id s [Hl Hd]%Local_ServiceState_Some Hin. rewrite Hw. rewrite Hs in Hl. by eapply compared_service_sync.
  - intros id [r Hr]. rewrite Hw in Hr. rewrite Hs. unfold updated_service, absent_service. rewrite Hr.
    destruct (ls_services (ag_state a) !! id) as [s|] eqn:Hl; simpl; [|case_decide; [by left|right; by eexists]]. right.
    destruct (compare_service r s) eqn:Hcmp; [by eexists|]. apply compare_service_None in Hcmp as [Hd Hn].
    destruct (coherent_service _ id s Hco) as (?&?&_); [by apply Local_ServiceState_Some|congruence].
  - intros id s [Hl Hd]%Local_CheckState_Some Hin. rewrite Hw. rewrite Hc in Hl. by eapply compared_check_sync.
  - intros id [r Hr]. rewrite Hw in Hr. rewrite Hc. unfold updated_check, absent_check. rewrite Hr.
    destruct (ls_checks (ag_state a) !! id) as [s|] eqn:Hl; simpl; [|case_decide; [by left|right; by eexists]]. right.
    destruct (compare_check cfg r s) eqn:Hcmp; [by eexists|]. apply compare_check_None in Hcmp as [Hd Hn].
    destruct (coherent_check _ id s Hco) as (?&?&_); [by apply Local_CheckState_Some|congruence].
  - intros Hin. rewrite Hw. unfold local_info. rewrite Hm. by apply Hinf.
Qed.
(** ** Marks

    Pushing changes nothing of the local state but the marks; [P] and [Q] are
    the services and checks that may become marked as in sync. *)
Definition service_step (P : Prop) (s s' : ServiceState) : Prop :=
  ss_Service s' = ss_Service s ∧ ss_Deleted s' = ss_Deleted s ∧
  (ss_InSync s = true → ss_InSync s' = true) ∧ (ss_InSync s' = true → ss_InSync s = true ∨ P).
Definition check_step (P : Prop) (c c' : CheckState) : Prop :=
  cs_Check c' = cs_Check c ∧ cs_Deleted c' = cs_Deleted c ∧
  (cs_InSync c = true → cs_InSync c' = true) ∧ (cs_InSync c' = true → (cs_InSync c = true ∧ cs_DeferCheck c' = cs_DeferCheck c) ∨ P).
Record flags (P Q : string → Prop) (l l' : State) : Prop := {
  fl_services id : option_Forall2 (service_step (P id)) (ls_services l !! id) (ls_services l' !! id);
  fl_checks id : option_Forall2 (check_step (Q id)) (ls_checks l !! id) (ls_checks l' !! id);
  fl_metadata : ls_metadata l' = ls_metadata l
}.

Lemma flags_same (P Q : string → Prop) l l' : ls_services l' = ls_services l → ls_checks l' = ls_checks l → ls_metadata l' = ls_metadata l →
  flags P Q l l'.
Proof using Type.
  intros Hs Hc Hm. split; [intros id; rewrite Hs; destruct (ls_services l !! id)|intros id; rewrite Hc; destruct (ls_checks l !! id)|done];
    constructor; split_and!; auto.
Qed.
Lemma flags_trans (P Q : string → Prop) l1 l2 l3 : flags P Q l1 l2 → flags P Q l2 l3 → flags P Q l1 l3.
Proof using Type.
  intros [Hs1 Hc1 Hm1] [Hs2 Hc2 Hm2]. split; [| |congruence].
  - intros id. specialize (Hs1 id). specialize (Hs2 id).
    inversion Hs1 as [s1 s2 (?&?&?&Hi1) E1 E2|E1 E2]; rewrite <- E2 in Hs2; inversion Hs2 as [s1' s3 (?&?&?&Hi2)|];
      constructor; split_and!; [congruence|congruence|auto|]. intros [?|?]%Hi2; auto.
  - intros id. specialize (Hc1 id). specialize (Hc2 id).
    inversion Hc1 as [s1 s2 (?&?&?&Hi1) E1 E2|E1 E2]; rewrite <- E2 in Hc2; inversion Hc2 as [s1' s3 (?&?&?&Hi2)|];
      constructor; split_and!; [congruence|congruence|auto|]. intros [[? Hd]|?]%Hi2; [|auto]. rewrite Hd. auto.
Qed.
Lemma flags_mono (P Q P' Q' : string → Prop) l l' : (∀ id, P id → P' id) → (∀ id, Q id → Q' id) → flags P Q l l' → flags P' Q' l l'.
Proof using Type.
  intros HP HQ [Hs Hc Hm]. split; [intros id; specialize (Hs id)|intros id; specialize (Hc id)|done].
  - inversion Hs as [? ? (?&?&?&Hi)|]; constructor; split_and!; [done..|]. intros [?|?]%Hi; auto.
  - inversion Hc as [? ? (?&?&?&Hi)|]; constructor; split_and!; [done..|]. intros [?|?]%Hi; auto.
Qed.
Lemma flags_service_back P Q l l' id s' : flags P Q l l' → Local_ServiceState id l' = Some s' →
  ∃ s, Local_ServiceState id l = Some s ∧ service_step (P id) s s'.
Proof using Type.
  intros Hf [Hs' Hd]%Local_ServiceState_Some. pose proof (fl_services _ _ _ _ Hf id) as Hs. rewrite Hs' in Hs.
  inversion Hs as [s ? Hst E|]; subst. exists s. split; [|done]. apply Local_ServiceState_Some. destruct Hst as (_&?&_). by split; [|congruence].
Qed.
Lemma flags_check_back P Q l l' id c' : flags P Q l l' → Local_CheckState id l' = Some c' →
  ∃ c, Local_CheckState id l = Some c ∧ check_step (Q id) c c'.
Proof using Type.
  intros Hf [Hs' Hd]%Local_CheckState_Some. pose proof (fl_checks _ _ _ _ Hf id) as Hs. rewrite Hs' in Hs.
  inversion Hs as [s ? Hst E|]; subst. exists s. split; [|done]. apply Local_CheckState_Some. destruct Hst as (_&?&_). by split; [|congruence].
Qed.
Lemma flags_named P Q l l' : flags P Q l l' → named l → named l'.
Proof using Type.
  intros Hf [H1 H2]. pose proof (fl_services _ _ _ _ Hf "") as Hs. pose proof (fl_checks _ _ _ _ Hf "") as Hc. rewrite H1 in Hs. rewrite H2 in Hc.
  by inversion Hs; inversion Hc.
Qed.
Lemma flags_keeps P Q l l' : flags P Q l l' → keeps l l'.
Proof using Type.
  intros [Hs Hc _] id. unfold service_at, check_at, Local_ServiceState, Local_CheckState. split.
  - destruct (Hs id) as [s s' (H1&H2&_)|]; [|done]. simpl. rewrite H2. destruct (ss_Deleted s); simpl; congruence.
  - destruct (Hc id) as [s s' (H1&H2&_)|]; [|done]. simpl. rewrite H2. destruct (cs_Deleted s); simpl; congruence.
Qed.

(** What is left of an entry once it was pushed. *)
Definition settled_service (l : State) (id : string) : Prop := ∀ s, ls_services l !! id = Some s → ss_Deleted s = false ∧ ss_InSync s = true.
Definition settled_check (l : State) (id : string) : Prop := ∀ c, ls_checks l !! id = Some c → cs_Deleted c = false ∧ cs_InSync c = true.
Definition settles (l l' : State) : Prop := ∀ id,
  (settled_service l id → settled_service l' id) ∧ (settled_check l id → settled_check l' id).
#[local] Instance settles_PreOrder : PreOrder settles.
Proof using Type. split; [by intros l id|]. intros l1 l2 l3 H1 H2 id. specialize (H1 id). specialize (H2 id). naive_solver. Qed.
Lemma flags_settles P Q l l' : flags P Q l l' → settles l l'.
Proof using Type.
  intros [Hs Hc _] id. split.
  - intros Hset s' E. pose proof (Hs id) as Ho. rewrite E in Ho. inversion Ho as [s ? (_&Hd&Hi&_) E'|]; subst.
    symmetry in E'. apply Hset in E' as [? ?]. rewrite Hd. auto.
  - intros Hset s' E. pose proof (Hc id) as Ho. rewrite E in Ho. inversion Ho as [s ? (_&Hd&Hi&_) E'|]; subst.
    symmetry in E'. apply Hset in E' as [? ?]. rewrite Hd. auto.
Qed.
Lemma mark_service_ok id (a a' : agent W) (P Q : string → Prop) : P id → mark_service id a = (Ok tt, a') →
  ag_world a' = ag_world a ∧ flags P Q (ag_state a) (ag_state a') ∧
  ∃ s, ls_services (ag_state a) !! id = Some s ∧ ls_services (ag_state a') !! id = Some (ss_set_flags true (ss_Deleted s) s).
Proof using Type.
  intros HP Hr. apply bind_ok_inv in Hr as (o&a1&[-> ->]%look_inv&Hr). apply bind_ok_inv in Hr as (s&a1&[Hs ->]%deref_inv&Hr).
  apply local_inv in Hr as [Hw Hl]. split; [done|]. rewrite Hl. simpl. split; [|exists s; by rewrite lookup_insert_eq].
  split; simpl; [intros id'|intros id'; destruct (ls_checks (ag_state a) !! id'); constructor; split_and!; auto|done].
  destruct (decide (id' = id)) as [->|]; [rewrite lookup_insert_eq, Hs; constructor; split_and!; auto|].
  rewrite lookup_insert_ne by done. destruct (_ !! id'); constructor; split_and!; auto.
Qed.
Lemma mark_check_ok id (a a' : agent W) (P Q : string → Prop) : Q id → mark_check id a = (Ok tt, a') →
  ag_world a' = ag_world a ∧ flags P Q (ag_state a) (ag_state a') ∧
  ∃ c, ls_checks (ag_state a) !! id = Some c ∧ ls_checks (ag_state a') !! id = Some (cs_set_flags true (cs_Deleted c) c).
Proof using Type.
  intros HP Hr. apply bind_ok_inv in Hr as (o&a1&[-> ->]%look_inv&Hr). apply bind_ok_inv in Hr as (s&a1&[Hs ->]%deref_inv&Hr).
  apply local_inv in Hr as [Hw Hl]. split; [done|]. rewrite Hl. simpl. split; [|exists s; by rewrite lookup_insert_eq].
  split; simpl; [intros id'; destruct (ls_services (ag_state a) !! id'); constructor; split_and!; auto|intros id'|done].
  destruct (decide (id' = id)) as [->|]; [rewrite lookup_insert_eq, Hs; constructor; split_and!; auto|].
  rewrite lookup_insert_ne by done. destruct (_ !! id'); constructor; split_and!; auto.
Qed.
Lemma mark_checks_ok (P Q : string → Prop) cs : ∀ (a a' : agent W), (∀ c, c ∈ cs → Q (hc_CheckID c)) →
  (for c in cs do mark_check (hc_CheckID c)) a = (Ok tt, a') →
  ag_world a' = ag_world a ∧ flags P Q (ag_state a) (ag_state a').
Proof using Type.
  induction cs as [|c cs IH]; intros a a' HQ Hr; simpl in Hr; [ok_inv Hr; split; [done|by apply flags_same]|].
  apply bind_ok_inv in Hr as ([]&a1&H1&Hr). apply (mark_check_ok _ _ _ P Q) in H1 as (Hw1&Hf1&_); [|apply HQ; by left].
  apply IH in Hr as [Hw Hf]; [|intros; apply HQ; by right]. split; [congruence|by eapply flags_trans].
Qed.

(** A registration of entries that are in the local state, which are marked. *)
Lemma reflected_register token S0 c0 cs l1 l l' w w' : reflected l w →
  let sent := option_list c0 ++ cs in
  flags (λ id, ns_ID <$> S0 = Some id) (λ id, id ∈ hc_CheckID <$> sent) l l' →
  (∀ svc, S0 = Some svc → ∃ s, Local_ServiceState (ns_ID svc) l = Some s ∧ ss_Service s = Some svc) →
  (∀ c, c ∈ sent → ∃ st, Local_CheckState (hc_CheckID c) l = Some st ∧ cs_Check st = Some c) →
  ls_metadata l1 = ls_metadata l →
  Catalog_Register_rpc D token (register_node cfg S0 c0 cs l1) w = (Ok tt, w') → reflected l' w'.
Proof using Hlaws.
  intros [Hco Hna Hsv Hsvs Hch Hchs Hnd] sent Hf HS Hcs Hm1 Hr.
  apply (law_Register _ _ _ _ Hlaws) in Hr as (Hinf&Hsv1&Hsv2&Hck). simpl in *. fold sent in Hck.
  assert (Hplain : ∀ svc, S0 = Some svc → plain_service svc).
  { intros svc (s&Hs&Hsvc)%HS. destruct (coherent_service _ _ _ Hco Hs) as (svc'&?&_&?). by simplify_eq. }
  destruct Hck as [Hck1 Hck2].
  { intros c (st&Hst&Hc)%Hcs. by destruct (coherent_check _ _ _ Hco Hst) as (hc&?&_&?&_). }
  split.
  - eapply keeps_coherent; [by eapply flags_keeps|done].
  - by eapply flags_named.
  - intros id s' Hs' Hin. destruct (flags_service_back _ _ _ _ _ _ Hf Hs') as (s&Hs&HS'&_&_&Hst).
    destruct (decide (ns_ID <$> S0 = Some id)) as [(svc&E&Hid)%fmap_Some|Hno].
    + subst id. destruct (HS svc E) as (s2&Hs2&Hsvc2). assert (s2 = s) as -> by congruence.
      destruct (Hsv1 svc E (Hplain svc E)) as (r&Hr&Hsame). exists r. split; [done|]. exists svc. by rewrite HS'.
    + destruct (Hst Hin) as [Hin0|?]; [|done]. destruct (Hsv id s Hs Hin0) as (r&Hr&Ha). exists r. split.
      * rewrite Hsv2; [done|]. intros svc E. split; [by apply Hplain|]. intros <-. by rewrite E in Hno.
      * destruct Ha as (svc&?&?). exists svc. by rewrite HS'.
  - intros id Hr. pose proof (fl_services _ _ _ _ Hf id) as Hs.
    destruct (decide (ns_ID <$> S0 = Some id)) as [(svc&E&->)%fmap_Some|Hno].
    + right. destruct (HS svc E) as (s2&[Hs2 _]%Local_ServiceState_Some&_). rewrite Hs2 in Hs. inversion Hs. by eexists.
    + rewrite Hsv2 in Hr; [|intros svc E; split; [by apply Hplain|intros <-; by rewrite E in Hno]].
      apply Hsvs in Hr as [?|[s E]]; [by left|]. rewrite E in Hs. inversion Hs. right. by eexists.
  - intros id c' Hc' Hin. destruct (flags_check_back _ _ _ _ _ _ Hf Hc') as (c&Hc&HC'&_&_&Hst).
    destruct (decide (id ∈ hc_CheckID <$> sent)) as [Hse|Hse].
    + destruct (Hck1 id Hse) as (x&r&Hx&<-&Hr&Hsame). exists r. split; [done|]. exists x. destruct (Hcs x Hx) as (st&Hst'&Hcx).
      assert (st = c) as -> by congruence. rewrite HC'. by split; [|left].
    + destruct (Hst Hin) as [[Hin0 Hdef]|?]; [|done]. destruct (Hch id c Hc Hin0) as (r&Hr&hc&Hhc&Ha). exists r. split; [by rewrite Hck2|].
      exists hc. by rewrite HC', Hdef.
  - intros id Hr. pose proof (fl_checks _ _ _ _ Hf id) as Hs. destruct (decide (id ∈ hc_CheckID <$> sent)) as [Hse|Hse].
    + right. apply list_elem_of_fmap in Hse as (x&->&(st&[Hst _]%Local_CheckState_Some&_)%Hcs). rewrite Hst in Hs. inversion Hs. by eexists.
    + rewrite Hck2 in Hr by done. apply Hchs in Hr as [?|[s E]]; [by left|]. rewrite E in Hs. inversion Hs. right. by eexists.
  - intros _. rewrite Hinf by done. unfold local_info. rewrite Hm1. by rewrite (fl_metadata _ _ _ _ Hf).
Qed.
(** ** Removals *)
Lemma drop_service_keeps l id s : ls_services l !! id = Some s → ss_Deleted s = true → keeps l (set_services (delete id (ls_services l)) l).
Proof using Type.
  intros Hs Hd id'. split; [|done]. unfold service_at, Local_ServiceState. simpl.
  destruct (decide (id' = id)) as [->|]; [by rewrite lookup_delete_eq, Hs; simpl; rewrite Hd|by rewrite lookup_delete_ne].
Qed.
Lemma drop_check_keeps l l' id c : ls_checks l !! id = Some c → cs_Deleted c = true →
  ls_services l' = ls_services l → ls_checks l' = delete id (ls_checks l) → keeps l l'.
Proof using Type.
  intros Hc Hd E1 E2 id'. unfold service_at, check_at, Local_ServiceState, Local_CheckState. rewrite E1, E2. split; [done|].
  destruct (decide (id' = id)) as [->|]; [by rewrite lookup_delete_eq, Hc; simpl; rewrite Hd|by rewrite lookup_delete_ne].
Qed.

Lemma reflected_drop_service l id s w w' : reflected l w → ls_services l !! id = Some s → ss_Deleted s = true →
  svcs w' = delete id (svcs w) → chks w' = filter (λ kc, hc_ServiceID kc.2 ≠ id) (chks w) → info w' = info w → id ≠ "" →
  reflected (set_services (delete id (ls_services l)) l) w'.
Proof using Type.
  intros [Hco [Hn1 Hn2] Hsv Hsvs Hch Hchs Hnd] Hs Hd Es Ec Ei Hid. split.
  - eapply keeps_coherent; [by eapply drop_service_keeps|done].
  - split; [simpl; rewrite lookup_delete_ne; done|done].
  - intros id' s' [E Hd']%Local_ServiceState_Some Hin. simpl in E. apply lookup_delete_Some in E as [Hne E].
    destruct (Hsv id' s') as (r&?&?); [by apply Local_ServiceState_Some|done|]. exists r. by rewrite Es, lookup_delete_ne.
  - intros id' [r Hr]. rewrite Es in Hr. apply lookup_delete_Some in Hr as [Hne Hr]. simpl. rewrite lookup_delete_ne by done. eauto.
  - intros id' c Hc Hin. destruct (Hch id' c Hc Hin) as (r&Hr&Ha). exists r. split; [|done]. rewrite Ec. apply map_lookup_filter_Some.
    split; [done|]. simpl. intros Heq. destruct (coherent_check _ _ _ Hco Hc) as (hc&Hhc&_&_&Hal). destruct Ha as (hc'&Hhc'&Ha).
    assert (hc' = hc) as -> by congruence.
    assert (Hsid : hc_ServiceID hc = id) by (rewrite <- Heq; destruct Ha as [Ha%same_check_ServiceID|[_ Ha%same_check_ServiceID]]; exact Ha).
    destruct Hal as [s2 [Hs2 ?]%Local_ServiceState_Some]; [congruence|]. congruence.
  - intros id' [r Hr]. rewrite Ec in Hr. apply map_lookup_filter_Some in Hr as [Hr _]. simpl. eauto.
  - intros. rewrite Ei. by apply Hnd.
Qed.
Lemma reflected_drop_check l l' id c w w' : reflected l w → ls_checks l !! id = Some c → cs_Deleted c = true →
  ls_services l' = ls_services l → ls_checks l' = delete id (ls_checks l) →
  ls_metadata l' = ls_metadata l → ls_nodeInfoInSync l' = ls_nodeInfoInSync l →
  svcs w' = svcs w → chks w' = delete id (chks w) → info w' = info w → reflected l' w'.
Proof using Type.
  intros [Hco [Hn1 Hn2] Hsv Hsvs Hch Hchs Hnd] Hc Hd El1 El2 El3 El4 Es Ec Ei. split.
  - eapply keeps_coherent; [by eapply drop_check_keeps|done].
  - split; [by rewrite El1|]. rewrite El2. by apply lookup_delete_None; right.
  - intros id' s' E Hin. unfold Local_ServiceState in E. rewrite El1 in E. rewrite Es. eauto.
  - intros id' Hr. rewrite Es in Hr. rewrite El1. eauto.
  - intros id' c' [E Hd']%Local_CheckState_Some Hin. rewrite El2 in E. apply lookup_delete_Some in E as [Hne E].
    destruct (Hch id' c') as (r&?&?); [by apply Local_CheckState_Some|done|]. exists r. by rewrite Ec, lookup_delete_ne.
  - intros id' [r Hr]. rewrite Ec in Hr. apply lookup_delete_Some in Hr as [Hne Hr]. rewrite El2, lookup_delete_ne by done. eauto.
  - rewrite El4, Ei. unfold local_info. rewrite El3. done.
Qed.

(** One step of pushing keeps all of this. *)
Record progress (a a' : agent W) : Prop := {
  pr_reflected : reflected (ag_state a') (ag_world a');
  pr_keeps : keeps (ag_state a) (ag_state a');
  pr_settles : settles (ag_state a) (ag_state a')
}.
Lemma deleteService_ok id s a a' : reflected (ag_state a) (ag_world a) → ls_services (ag_state a) !! id = Some s → ss_Deleted s = true →
  deleteService D cfg id a = (Ok tt, a') → progress a a' ∧ settled_service (ag_state a') id.
Proof using Hlaws.
  intros Hrf Hs Hd Hr. unfold deleteService in Hr. case_decide as Hid; [done|].
  apply bind_ok_inv in Hr as (token&a1&[-> _]%look_inv&Hr). apply bind_ok_inv in Hr as (r&a2&[H1 Hnp]%try_ok_inv&Hr).
  apply on_world_inv in H1 as [Hl1 H1].
  assert (Hgone : (r = Ok tt ∨ ∃ e, r = Err e ∧ error_contains "Unknown service" e = true) ∧
                  local (λ l, set_services (delete id (ls_services l)) l) a2 = (Ok tt, a')).
  { destruct r as [[]|e|]; [by split; [left|]| |done]. destruct (error_contains "Unknown service" e) eqn:He; [split; [right; eauto|done]|].
    by rewrite (law_Deregister_allowed _ _ _ _ Hlaws _ _ _ _ _ H1) in Hr. }
  destruct Hgone as [Hg [Hw2 Hl2]%local_inv]. apply (law_Deregister_service _ _ _ _ Hlaws) in H1 as (Es&Ec&Ei); [|done|done].
  rewrite Hl1 in Hl2. split; [split|].
  - rewrite Hl2, Hw2. by eapply reflected_drop_service.
  - rewrite Hl2. by eapply drop_service_keeps.
  - rewrite Hl2. intros id'. split; [|done]. intros Hset x. simpl. intros [_ Hx]%lookup_delete_Some. by apply Hset.
  - rewrite Hl2. intros x. simpl. by rewrite lookup_delete_eq.
Qed.
Lemma deleteCheck_ok id c a a' : reflected (ag_state a) (ag_world a) → ls_checks (ag_state a) !! id = Some c → cs_Deleted c = true →
  deleteCheck D cfg id a = (Ok tt, a') → progress a a' ∧ settled_check (ag_state a') id.
Proof using Hlaws.
  intros Hrf Hs Hd Hr. unfold deleteCheck in Hr. case_decide as Hid; [done|].
  apply bind_ok_inv in Hr as (token&a1&[-> _]%look_inv&Hr). apply bind_ok_inv in Hr as (r&a2&[H1 Hnp]%try_ok_inv&Hr).
  apply on_world_inv in H1 as [Hl1 H1].
  assert (Hgone : (r = Ok tt ∨ ∃ e, r = Err e ∧ error_contains "Unknown check" e = true) ∧
                  local (λ l, set_checks (delete id (ls_checks l)) (stop_defer (ls_checks l !! id ≫= cs_DeferCheck) l)) a2 = (Ok tt, a')).
  { destruct r as [[]|e|]; [by split; [left|]| |done]. destruct (error_contains "Unknown check" e) eqn:He; [split; [right; eauto|done]|].
    by rewrite (law_Deregister_allowed _ _ _ _ Hlaws _ _ _ _ _ H1) in Hr. }
  destruct Hgone as [Hg [Hw2 Hl2]%local_inv]. apply (law_Deregister_check _ _ _ _ Hlaws) in H1 as (Es&Ec&Ei); [|done|done].
  rewrite Hl1 in Hl2.
  assert (Hfr : ls_services (ag_state a') = ls_services (ag_state a) ∧ ls_checks (ag_state a') = delete id (ls_checks (ag_state a)) ∧
    ls_metadata (ag_state a') = ls_metadata (ag_state a) ∧ ls_nodeInfoInSync (ag_state a') = ls_nodeInfoInSync (ag_state a)).
  { rewrite Hl2. destruct (_ ≫= cs_DeferCheck); done. }
  destruct Hfr as (F1&F2&F3&F4). split; [split|].
  - rewrite Hw2. by eapply reflected_drop_check.
  - by eapply drop_check_keeps.
  - intros id'. unfold settled_service, settled_check. rewrite F1, F2. split; [done|].
    intros Hset x. intros [_ Hx]%lookup_delete_Some. by apply Hset.
  - unfold settled_check. rewrite F2. intros x. by rewrite lookup_delete_eq.
Qed.
(** ** Registrations *)
Lemma riding_checks_local l id c : coherent l → c ∈ riding_checks cfg range l id →
  ∃ st, Local_CheckState (hc_CheckID c) l = Some st ∧ cs_Check st = Some c.
Proof using Type.
  intros Hco (cid&_&Hc)%list_elem_of_omap. unfold rides in Hc. destruct (ls_checks l !! cid) as [st|] eqn:Hst; [|done]. simpl in Hc.
  destruct (cs_Deleted st) eqn:Hd; simpl in Hc; [done|]. case_match; [|done].
  assert (Hl : Local_CheckState cid l = Some st) by (by apply Local_CheckState_Some).
  destruct (coherent_check _ _ _ Hco Hl) as (hc&Hhc&Hid&_). assert (hc = c) as -> by congruence. rewrite Hid. eauto.
Qed.
(** The checks of a registration, alone or together. *)
Lemma register_checks S0 checks l : ∃ c0 cs, option_list c0 ++ cs = checks ∧
  (match checks with [c] => register_node cfg S0 (Some c) [] | _ => register_node cfg S0 None checks end) l = register_node cfg S0 c0 cs l.
Proof using Type. destruct checks as [|c [|c' cs]]; [by exists None, []|by exists (Some c), []|by exists None, (c :: c' :: cs)]. Qed.

Lemma syncService_ok id s a a' : reflected (ag_state a) (ag_world a) → Local_ServiceState id (ag_state a) = Some s →
  syncService D cfg range id a = (Ok tt, a') → progress a a' ∧ settled_service (ag_state a') id.
Proof using Hlaws.
  intros Hrf Hls Hr. pose proof Hls as [Hs Hd]%Local_ServiceState_Some. pose proof (rf_coherent _ _ Hrf) as Hco.
  destruct (coherent_service _ _ _ Hco Hls) as (svc&Hsvc&Hid&_). unfold syncService in Hr.
  apply bind_ok_inv in Hr as (checks&a1&[-> Hchecks]%look_inv&Hr). apply bind_ok_inv in Hr as (o&a1&[-> Ho]%look_inv&Hr).
  rewrite Ho, Hs in Hr. apply bind_ok_inv in Hr as (s1&a1&[[= <-] ->]%deref_inv&Hr).
  apply bind_ok_inv in Hr as (token&a1&[-> _]%look_inv&Hr). apply bind_ok_inv in Hr as (req&a1&[-> Hreq]%look_inv&Hr).
  destruct (register_checks (ss_Service s) checks (ag_state a)) as (c0&cs&Hsent&Hform). rewrite Hform in Hreq. subst req.
  apply bind_ok_inv in Hr as (r&a2&[H1 Hnp]%try_ok_inv&Hr). apply on_world_inv in H1 as [Hl1 H1].
  destruct r as [[]|e|]; [|by rewrite (law_Register_allowed _ _ _ _ Hlaws _ _ _ _ _ H1) in Hr|done].
  set (P := λ i, ns_ID <$> ss_Service s = Some i). set (Q := λ i, i ∈ hc_CheckID <$> checks).
  apply bind_ok_inv in Hr as ([]&a3&H3&Hr). apply (mark_service_ok _ _ _ P Q) in H3 as (Hw3&Hf3&s3&Hs3&Hs3').
  2: { unfold P. rewrite Hsvc. simpl. by rewrite Hid. }
  apply bind_ok_inv in Hr as ([]&a4&[Hw4 Hl4]%local_inv&Hr). apply (mark_checks_ok P Q) in Hr as [Hw5 Hf5].
  2: { intros c Hc. apply list_elem_of_fmap. eauto. }
  assert (Hf : flags P Q (ag_state a) (ag_state a')).
  { eapply flags_trans; [|eassumption]. rewrite <- Hl1. eapply flags_trans; [eassumption|]. rewrite Hl4. by apply flags_same. }
  split; [split|].
  - rewrite Hw5, Hw4, Hw3. eapply reflected_register; [exact Hrf|rewrite Hsent; exact Hf| | |reflexivity|exact H1].
    + intros svc' E. assert (svc' = svc) as -> by congruence. rewrite Hid. eauto.
    + rewrite Hsent, Hchecks. intros c. by apply riding_checks_local.
  - by eapply flags_keeps.
  - by eapply flags_settles.
  - eapply (flags_settles P Q); [exact Hf5|]. rewrite Hl4. intros x. simpl. rewrite Hs3'. intros [= <-]. simpl. split; [|done].
    rewrite Hl1 in Hs3. congruence.
Qed.
(** The check may have been taken off its timer before. *)
Lemma syncCheck_ok id c l a a' : reflected l (ag_world a) → Local_CheckState id l = Some c → flags (λ _, False) (λ i, i = id) l (ag_state a) →
  syncCheck D cfg id a = (Ok tt, a') → (reflected (ag_state a') (ag_world a') ∧ keeps l (ag_state a') ∧ settles l (ag_state a')) ∧ settled_check (ag_state a') id.
Proof using Hlaws.
  intros Hrf Hlc Hf0 Hr. pose proof (rf_coherent _ _ Hrf) as Hco. pose proof Hlc as [Hc Hd]%Local_CheckState_Some.
  destruct (coherent_check _ _ _ Hco Hlc) as (hc&Hhc&Hid&_). unfold syncCheck in Hr.
  apply bind_ok_inv in Hr as (o&a1&[-> Ho]%look_inv&Hr). apply bind_ok_inv in Hr as (c1&a1&[Hc1 ->]%deref_inv&Hr).
  apply bind_ok_inv in Hr as (token&a1&[-> _]%look_inv&Hr). apply bind_ok_inv in Hr as (hc1&a1&[Hhc1 ->]%deref_inv&Hr).
  apply bind_ok_inv in Hr as (so&a1&[-> Hso]%look_inv&Hr). apply bind_ok_inv in Hr as (req&a1&[-> Hreq]%look_inv&Hr). subst req.
  apply bind_ok_inv in Hr as (r&a2&[H1 Hnp]%try_ok_inv&Hr). apply on_world_inv in H1 as [Hl1 H1].
  destruct r as [[]|e|]; [|by rewrite (law_Register_allowed _ _ _ _ Hlaws _ _ _ _ _ H1) in Hr|done].
  subst o. pose proof (fl_checks _ _ _ _ Hf0 id) as Hst. rewrite Hc, Hc1 in Hst. inversion Hst as [? ? (Hk1&Hk2&_)|]; subst.
  assert (hc1 = hc) as -> by congruence. clear Hst.
  set (S0 := ls_services (ag_state a) !! hc_ServiceID hc ≫= λ s, if ss_Deleted s then None else ss_Service s) in *.
  set (P := λ i, ns_ID <$> S0 = Some i). set (Q := λ i, i ∈ hc_CheckID <$> [hc]).
  apply bind_ok_inv in Hr as ([]&a3&H3&[Hw4 Hl4]%local_inv). apply (mark_check_ok _ _ _ P Q) in H3 as (Hw3&Hf3&s3&Hs3&Hs3').
  2: { apply list_elem_of_singleton. done. }
  assert (Hf : flags P Q l (ag_state a')).
  { eapply flags_trans; [|eapply flags_trans; [exact Hf3|rewrite Hl4; by apply flags_same]]. rewrite Hl1.
    eapply flags_mono; [| |exact Hf0]; [done|]. intros i ->. by apply list_elem_of_singleton. }
  split; [split_and!|].
  - rewrite Hw4, Hw3. eapply (reflected_register _ S0 (Some hc) []); [exact Hrf|exact Hf| | |exact (fl_metadata _ _ _ _ Hf0)|exact H1].
    + unfold S0. intros svc (s&Hs&Hx)%bind_Some. destruct (ss_Deleted s) eqn:Hds; [done|].
      assert (Hls : Local_ServiceState (hc_ServiceID hc) (ag_state a) = Some s) by (by apply Local_ServiceState_Some).
      destruct (flags_service_back _ _ _ _ _ _ Hf0 Hls) as (s0&Hs0&HS&_). rewrite HS in Hx.
      destruct (coherent_service _ _ _ Hco Hs0) as (svc0&Hsvc0&Hid0&_). assert (svc0 = svc) as -> by congruence. rewrite Hid0. eauto.
    + intros c' ->%list_elem_of_singleton. eauto.
  - by eapply flags_keeps.
  - by eapply flags_settles.
  - rewrite Hl4. intros x. simpl. rewrite Hs3'. intros [= <-]. simpl. split; [|done]. rewrite Hl1 in Hs3. congruence.
Qed.
Lemma syncNodeInfo_ok a a' : reflected (ag_state a) (ag_world a) → syncNodeInfo D cfg a = (Ok tt, a') →
  progress a a' ∧ ls_nodeInfoInSync (ag_state a') = true.
Proof using Hlaws.
  intros Hrf Hr. unfold syncNodeInfo in Hr. apply bind_ok_inv in Hr as (req&a1&[-> Hreq]%look_inv&Hr). subst req.
  apply bind_ok_inv in Hr as (r&a2&[H1 Hnp]%try_ok_inv&Hr). apply on_world_inv in H1 as [Hl1 H1].
  destruct r as [[]|e|]; [|by rewrite (law_Register_allowed _ _ _ _ Hlaws _ _ _ _ _ H1) in Hr|done].
  apply local_inv in Hr as [Hw Hl]. rewrite Hl1 in Hl.
  assert (Hf : flags (λ id, ns_ID <$> None = Some id) (λ id, id ∈ hc_CheckID <$> []) (ag_state a) (ag_state a')) by (rewrite Hl; by apply flags_same).
  split; [split|by rewrite Hl].
  - rewrite Hw. eapply (reflected_register _ None None []); [exact Hrf|exact Hf|done| |reflexivity|exact H1]. by intros c ?%elem_of_nil.
  - by eapply flags_keeps.
  - by eapply flags_settles.
Qed.

(** ** Pushing everything *)
Lemma progress_refl a : reflected (ag_state a) (ag_world a) → progress a a.
Proof using Type. intros. by split. Qed.
Lemma progress_trans a1 a2 a3 : progress a1 a2 → progress a2 a3 → progress a1 a3.
Proof using Type. intros [_ ? ?] [? ? ?]. split; [done|by etrans|by etrans]. Qed.

Lemma push_service_ok id a a' : reflected (ag_state a) (ag_world a) → push_service D cfg range id a = (Ok tt, a') →
  progress a a' ∧ settled_service (ag_state a') id.
Proof using Hlaws.
  intros Hrf Hr. unfold push_service in Hr. apply bind_ok_inv in Hr as (o&a1&[-> Ho]%look_inv&Hr). subst o.
  destruct (ls_services (ag_state a) !! id) as [s|] eqn:Hs.
  2: { ok_inv Hr. split; [by apply progress_refl|]. intros s. by rewrite Hs. }
  destruct (ss_Deleted s) eqn:Hd; [by eapply deleteService_ok|]. destruct (ss_InSync s) eqn:Hi.
  - ok_inv Hr. split; [by apply progress_refl|]. intros s'. rewrite Hs. by intros [= <-].
  - eapply syncService_ok; [done| |done]. by apply Local_ServiceState_Some.
Qed.
Lemma push_check_ok id a a' : reflected (ag_state a) (ag_world a) → push_check D cfg id a = (Ok tt, a') →
  progress a a' ∧ settled_check (ag_state a') id.
Proof using Hlaws.
  intros Hrf Hr. unfold push_check in Hr. apply bind_ok_inv in Hr as (o&a1&[-> Ho]%look_inv&Hr). subst o.
  destruct (ls_checks (ag_state a) !! id) as [c|] eqn:Hc.
  2: { ok_inv Hr. split; [by apply progress_refl|]. intros s. by rewrite Hc. }
  destruct (cs_Deleted c) eqn:Hd; [by eapply deleteCheck_ok|]. destruct (cs_InSync c) eqn:Hi.
  - ok_inv Hr. split; [by apply progress_refl|]. intros s'. rewrite Hc. by intros [= <-].
  - apply bind_ok_inv in Hr as ([]&a1&[Hw1 Hl1]%local_inv&Hr). rewrite <- Hw1 in Hrf.
    assert (Hfr : ls_services (ag_state a1) = ls_services (ag_state a) ∧ ls_checks (ag_state a1) = <[id := cs_set_defer None c]> (ls_checks (ag_state a)) ∧
      ls_metadata (ag_state a1) = ls_metadata (ag_state a)) by (rewrite Hl1; by destruct (cs_DeferCheck c)).
    destruct Hfr as (F1&F2&F3). eapply (syncCheck_ok _ c) in Hr as [(?&?&?) ?]; [|exact Hrf|by apply Local_CheckState_Some|].
    + split; [split|]; done.
    + split; [|intros i|done].
      * intros i. rewrite F1. destruct (_ !! i); constructor; split_and!; auto.
      * rewrite F2. destruct (decide (i = id)) as [->|].
        -- rewrite lookup_insert_eq, Hc. constructor. split_and!; auto.
        -- rewrite lookup_insert_ne by done. destruct (_ !! i); constructor; split_and!; auto.
Qed.

Lemma push_services_ok ids : ∀ a a', reflected (ag_state a) (ag_world a) → (for id in ids do push_service D cfg range id) a = (Ok tt, a') →
  progress a a' ∧ ∀ id, id ∈ ids → settled_service (ag_state a') id.
Proof using Hlaws.
  induction ids as [|i ids IH]; intros a a' Hrf Hr; simpl in Hr.
  { ok_inv Hr. split; [by apply progress_refl|]. by intros id ?%elem_of_nil. }
  apply bind_ok_inv in Hr as ([]&a1&[Hp1 Hs1]%push_service_ok&Hr); [|done]. apply IH in Hr as [Hp Hs]; [|apply Hp1].
  split; [by eapply progress_trans|]. intros id [->|?]%elem_of_cons; [|auto]. by apply (pr_settles _ _ Hp).
Qed.
Lemma push_checks_ok ids : ∀ a a', reflected (ag_state a) (ag_world a) → (for id in ids do push_check D cfg id) a = (Ok tt, a') →
  progress a a' ∧ ∀ id, id ∈ ids → settled_check (ag_state a') id.
Proof using Hlaws.
  induction ids as [|i ids IH]; intros a a' Hrf Hr; simpl in Hr.
  { ok_inv Hr. split; [by apply progress_refl|]. by intros id ?%elem_of_nil. }
  apply bind_ok_inv in Hr as ([]&a1&[Hp1 Hs1]%push_check_ok&Hr); [|done]. apply IH in Hr as [Hp Hs]; [|apply Hp1].
  split; [by eapply progress_trans|]. intros id [->|?]%elem_of_cons; [|auto]. by apply (pr_settles _ _ Hp).
Qed.
Lemma SyncChanges_ok a a' : reflected (ag_state a) (ag_world a) → SyncChanges D cfg range a = (Ok tt, a') →
  progress a a' ∧ (∀ id, settled_service (ag_state a') id ∧ settled_check (ag_state a') id) ∧ ls_nodeInfoInSync (ag_state a') = true.
Proof using Hlaws Hrange.
  intros Hrf Hr. unfold SyncChanges in Hr. apply bind_ok_inv in Hr as (ids&a1&[-> ->]%look_inv&Hr).
  apply bind_ok_inv in Hr as ([]&a1&[Hp1 Hs1]%push_services_ok&Hr); [|done].
  apply bind_ok_inv in Hr as (ids&a2&[-> ->]%look_inv&Hr). apply bind_ok_inv in Hr as ([]&a2&[Hp2 Hs2]%push_checks_ok&Hr); [|apply Hp1].
  assert (Hall : progress a1 a2 ∧ ∀ id, settled_service (ag_state a2) id ∧ settled_check (ag_state a2) id).
  { split; [done|]. intros id. split.
    - apply (pr_settles _ _ Hp2). destruct (decide (id ∈ keys range (ls_services (ag_state a)))) as [|Hk]; [auto|].
      apply (pr_settles _ _ Hp1). rewrite state_keys_elem in Hk. apply eq_None_not_Some in Hk. intros s. by rewrite Hk.
    - destruct (decide (id ∈ keys range (ls_checks (ag_state a1)))) as [|Hk]; [auto|].
      apply (pr_settles _ _ Hp2). rewrite state_keys_elem in Hk. apply eq_None_not_Some in Hk. intros s. by rewrite Hk. }
  destruct Hall as [_ Hall]. apply bind_ok_inv in Hr as (b&a3&[-> ->]%look_inv&Hr).
  destruct (ls_nodeInfoInSync (ag_state a2)) eqn:Hi.
  - apply ret_ok_inv in Hr as [_ ->]. split; [by eapply progress_trans|]. done.
  - apply syncNodeInfo_ok in Hr as [Hp3 Hi3]; [|apply Hp2]. split; [eapply progress_trans; [done|by eapply progress_trans]|].
    split; [|done]. intros id. destruct (Hall id). split; by apply (pr_settles _ _ Hp3).
Qed.

(** ** A server that answers *)
Definition runs (m : M (agent W) unit) (a : agent W) : Prop := ∃ a', m a = (Ok tt, a').

Lemma runs_bind (m k : M (agent W) unit) a : runs m a → (∀ a', m a = (Ok tt, a') → runs k a') → runs (m ;;; k) a.
Proof using Type. intros [a' Hm] Hk. destruct (Hk a' Hm) as [a2 Hk2]. exists a2. unfold mbind', mbind. by rewrite Hm. Qed.
Lemma runs_local f a : runs (local f) a.
Proof using Type. by eexists. Qed.
Lemma runs_look {A} (f : State → A) (k : A → M (agent W) unit) a : runs (k (f (ag_state a))) a → runs (let* x := look f in k x) a.
Proof using Type. intros [a' Hk]. exists a'. rewrite <- Hk. unfold look, on_local, mget. by destruct a. Qed.
Lemma runs_deref {A} (x : A) o (k : A → M (agent W) unit) a : o = Some x → runs (k x) a → runs (let* x := deref o in k x) a.
Proof using Type. by intros ->. Qed.
Lemma runs_try {A} (m : M W A) (x : A) w' (k : outcome A → M (agent W) unit) a : m (ag_world a) = (Ok x, w') →
  runs (k (Ok x)) (mkAgent (ag_state a) w') → runs (let* r := mtry (on_world m) in k r) a.
Proof using Type. intros Hm [a' Hk]. exists a'. rewrite <- Hk. unfold mtry, on_world, mbind'. by rewrite Hm. Qed.

Context (Hup : server_up D cfg).

Lemma mark_service_runs id a : is_Some (ls_services (ag_state a) !! id) → runs (mark_service id) a.
Proof using Type. intros [s Hs]. apply runs_look. eapply runs_deref; [done|]. apply runs_local. Qed.
Lemma mark_check_runs id a : is_Some (ls_checks (ag_state a) !! id) → runs (mark_check id) a.
Proof using Type. intros [s Hs]. apply runs_look. eapply runs_deref; [done|]. apply runs_local. Qed.
Lemma mark_checks_runs cs : ∀ a, (∀ c, c ∈ cs → is_Some (ls_checks (ag_state a) !! hc_CheckID c)) → runs (for c in cs do mark_check (hc_CheckID c)) a.
Proof using Type.
  induction cs as [|c cs IH]; intros a Hcs; simpl; [by eexists|]. apply runs_bind.
  - apply mark_check_runs, Hcs. by left.
  - intros a' (_&Hf&_)%(mark_check_ok _ _ _ (λ _, True) (λ _, True)); [|done]. apply IH. intros c' Hc'.
    destruct (Hcs c') as [x Hx]; [by right|]. pose proof (fl_checks _ _ _ _ Hf (hc_CheckID c')) as Ho. rewrite Hx in Ho. inversion Ho. by eexists.
Qed.
Lemma deleteService_runs id a : id ≠ "" → runs (deleteService D cfg id) a.
Proof using Hup.
  intros Hid. unfold deleteService. rewrite decide_False by done. apply runs_look.
  edestruct (up_Deregister _ _ Hup) as [w' Hw]. eapply runs_try; [exact Hw|]. apply runs_local.
Qed.
Lemma deleteCheck_runs id a : id ≠ "" → runs (deleteCheck D cfg id) a.
Proof using Hup.
  intros Hid. unfold deleteCheck. rewrite decide_False by done. apply runs_look.
  edestruct (up_Deregister _ _ Hup) as [w' Hw]. eapply runs_try; [exact Hw|]. apply runs_local.
Qed.
Lemma syncService_runs id a : coherent (ag_state a) → is_Some (ls_services (ag_state a) !! id) → runs (syncService D cfg range id) a.
Proof using Hup.
  intros Hco Hs. pose proof Hs as [s Hs']. unfold syncService. apply runs_look, runs_look. eapply runs_deref; [done|]. apply runs_look, runs_look.
  edestruct (up_Register _ _ Hup) as [w' Hw]; [|eapply runs_try; [exact Hw|]].
  { by destruct (riding_checks cfg range (ag_state a) id) as [|? [|? ?]]. }
  apply runs_bind; [by apply mark_service_runs|]. intros a1 (_&Hf&_)%(mark_service_ok _ _ _ (λ _, True) (λ _, True)); [|done].
  apply runs_bind; [apply runs_local|]. intros a2 [_ Hl]%local_inv. apply mark_checks_runs. intros c Hc. rewrite Hl. simpl.
  apply riding_checks_local in Hc as (st&[Hst _]%Local_CheckState_Some&_); [|done].
  pose proof (fl_checks _ _ _ _ Hf (hc_CheckID c)) as Ho. simpl in Ho. rewrite Hst in Ho. inversion Ho. by eexists.
Qed.
Lemma syncCheck_runs id c hc a : ls_checks (ag_state a) !! id = Some c → cs_Check c = Some hc → runs (syncCheck D cfg id) a.
Proof using Hup.
  intros Hc Hhc. unfold syncCheck. apply runs_look. eapply runs_deref; [done|]. apply runs_look. eapply runs_deref; [done|]. apply runs_look, runs_look.
  edestruct (up_Register _ _ Hup) as [w' Hw]; [|eapply runs_try; [exact Hw|]]; [done|].
  apply runs_bind; [apply mark_check_runs; by eexists|]. intros. apply runs_local.
Qed.
Lemma push_service_runs id a : reflected (ag_state a) (ag_world a) → runs (push_service D cfg range id) a.
Proof using Hup.
  intros Hrf. unfold push_service. apply runs_look. destruct (ls_services (ag_state a) !! id) as [s|] eqn:Hs; [|by eexists].
  destruct (ss_Deleted s); [|destruct (ss_InSync s); [by eexists|]].
  - apply deleteService_runs. intros ->. by rewrite (proj1 (rf_named _ _ Hrf)) in Hs.
  - apply syncService_runs; [by apply rf_coherent in Hrf|by eexists].
Qed.
Lemma push_check_runs id a : reflected (ag_state a) (ag_world a) → runs (push_check D cfg id) a.
Proof using Hup.
  intros Hrf. unfold push_check. apply runs_look. destruct (ls_checks (ag_state a) !! id) as [c|] eqn:Hc; [|by eexists].
  destruct (cs_Deleted c) eqn:Hd; [|destruct (cs_InSync c); [by eexists|]].
  - apply deleteCheck_runs. intros ->. by rewrite (proj2 (rf_named _ _ Hrf)) in Hc.
  - apply runs_bind; [apply runs_local|]. intros a' [_ Hl]%local_inv.
    destruct (coherent_check (ag_state a) id c) as (hc&Hhc&_); [by apply rf_coherent in Hrf|by apply Local_CheckState_Some|].
    eapply (syncCheck_runs _ (cs_set_defer None c) hc); [|done]. rewrite Hl. simpl. by destruct (cs_DeferCheck c); simpl; rewrite lookup_insert_eq.
Qed.
Lemma SyncChanges_runs a : reflected (ag_state a) (ag_world a) → runs (SyncChanges D cfg range) a.
Proof using Hlaws Hup.
  intros Hrf. unfold SyncChanges. apply runs_look. apply runs_bind.
  { generalize (keys range (ls_services (ag_state a))) as ids. intros ids. revert a Hrf. induction ids as [|i ids IH]; intros a Hrf; simpl; [by eexists|].
    apply runs_bind; [by apply push_service_runs|]. intros a' [Hp _]%push_service_ok; [|done]. apply IH, Hp. }
  intros a1 [Hp1 _]%push_services_ok; [|done]. apply runs_look. apply runs_bind.
  { generalize (keys range (ls_checks (ag_state a1))) as ids. intros ids. destruct Hp1 as [Hrf1 _ _]. clear Hrf a. revert a1 Hrf1.
    induction ids as [|i ids IH]; intros a Hrf; simpl; [by eexists|].
    apply runs_bind; [by apply push_check_runs|]. intros a' [Hp _]%push_check_ok; [|done]. apply IH, Hp. }
  intros a2 _. apply runs_look. destruct (ls_nodeInfoInSync (ag_state a2)); [by eexists|]. apply runs_look.
  edestruct (up_Register _ _ Hup) as [w' Hw]; [|eapply runs_try; [exact Hw|]]; [done|]. apply runs_local.
Qed.

Lemma compare_service_runs l id s rs : coherent l → ls_services l !! id = Some s → is_Some (compare_service rs s).
Proof using Type.
  intros Hco Hs. destruct (compare_service rs s) eqn:Hc; [by eexists|]. apply compare_service_None in Hc as [Hd Hn].
  destruct (coherent_service l id s Hco) as (?&?&_); [by apply Local_ServiceState_Some|congruence].
Qed.
Lemma compare_check_runs l id c rc : coherent l → ls_checks l !! id = Some c → is_Some (compare_check cfg rc c).
Proof using Type.
  intros Hco Hs. destruct (compare_check cfg rc c) eqn:Hc; [by eexists|]. apply compare_check_None in Hc as [Hd Hn].
  destruct (coherent_check l id c Hco) as (?&?&_); [by apply Local_CheckState_Some|congruence].
Qed.
Lemma compare_service_absent rs remote id s : is_Some (compare_service rs s) → is_Some (compare_service rs (absent_service remote id s)).
Proof using Type. intros Hs. unfold absent_service. destruct (remote !! id); [done|]. revert Hs. unfold compare_service. simpl. destruct (ss_Deleted s), (ss_Service s); by eauto. Qed.
Lemma compare_check_absent rc remote id c : is_Some (compare_check cfg rc c) → is_Some (compare_check cfg rc (absent_check remote id c)).
Proof using Type. intros Hs. unfold absent_check. destruct (remote !! id); [done|]. revert Hs. unfold compare_check. simpl. destruct (cs_Deleted c), (cs_Check c); by eauto. Qed.
Lemma update_services_runs remote ids : ∀ a, NoDup ids →
  (∀ id s rs, id ∈ ids → ls_services (ag_state a) !! id = Some s → is_Some (compare_service rs s)) →
  runs (for id in ids do on_local (update_service remote id)) a.
Proof using Type.
  induction ids as [|i ids IH]; intros a Hnd Hok; simpl; [by eexists|]. apply list.NoDup_cons in Hnd as [Hi Hnd]. apply runs_bind.
  - assert (∃ l', update_service remote i (ag_state a) = (Ok tt, l')) as [l' Hl']; [|exists (mkAgent l' (ag_world a)); unfold on_local; by rewrite Hl'].
    unfold update_service, mbind', mget, mmodify. destruct (remote !! i) as [rs|]; [|by eexists].
    destruct (ls_services (ag_state a) !! i) as [s|] eqn:Hs; [|case_decide; by eexists].
    destruct (Hok i s rs) as [s' Hs']; [by left|done|]. rewrite Hs'. by eexists.
  - intros a' [_ (_&Hu&_)%update_service_ok]%on_local_inv. apply IH; [done|]. intros id s rs Hid Hs.
    rewrite Hu, decide_False in Hs by (by intros ->). eapply Hok; [by right|done].
Qed.
Lemma update_checks_runs remote ids : ∀ a, NoDup ids →
  (∀ id c rc, id ∈ ids → ls_checks (ag_state a) !! id = Some c → is_Some (compare_check cfg rc c)) →
  runs (for id in ids do on_local (update_check cfg remote id)) a.
Proof using Type.
  induction ids as [|i ids IH]; intros a Hnd Hok; simpl; [by eexists|]. apply list.NoDup_cons in Hnd as [Hi Hnd]. apply runs_bind.
  - assert (∃ l', update_check cfg remote i (ag_state a) = (Ok tt, l')) as [l' Hl']; [|exists (mkAgent l' (ag_world a)); unfold on_local; by rewrite Hl'].
    unfold update_check, mbind', mget, mmodify. destruct (remote !! i) as [rs|]; [|by eexists].
    destruct (ls_checks (ag_state a) !! i) as [s|] eqn:Hs; [|case_decide; by eexists].
    destruct (Hok i s rs) as [s' Hs']; [by left|done|]. rewrite Hs'. by eexists.
  - intros a' [_ (_&Hu)%update_check_ok]%on_local_inv. apply IH; [done|]. intros id s rs Hid Hs.
    rewrite Hu, decide_False in Hs by (by intros ->). eapply Hok; [by right|done].
Qed.
Lemma updateSyncState_runs a : coherent (ag_state a) → runs (updateSyncState D cfg range) a.
Proof using Hrange Hup.
  intros Hco. unfold updateSyncState.
  destruct (up_NodeServices _ _ Hup (AgentToken cfg) (ag_world a)) as (out1&w1&H1).
  destruct (up_NodeChecks _ _ Hup (AgentToken cfg) w1) as (out2&w2&H2).
  assert (Hgo : ∀ (k : option NodeServices → list HealthCheck → M (agent W) unit), runs (k out1 out2) (mkAgent (ag_state a) w2) →
    runs (let* o1 := on_world (Catalog_NodeServices_rpc D (AgentToken cfg)) in let* o2 := on_world (Health_NodeChecks_rpc D (AgentToken cfg)) in k o1 o2) a).
  { intros k [a' Hk]. exists a'. rewrite <- Hk. unfold mbind', on_world. rewrite H1. simpl. by rewrite H2. }
  refine (Hgo (λ o1 o2, _) _). clear Hgo H1 H2.
  apply runs_bind; [apply runs_local|]. intros a1 [_ Hl1]%local_inv. apply runs_bind; [apply runs_local|]. intros a2 [_ Hl2]%local_inv.
  simpl in Hl1. assert (Hls : ls_services (ag_state a1) = ls_services (ag_state a) ∧ ls_checks (ag_state a1) = ls_checks (ag_state a))
    by (rewrite Hl1; by destruct (node_info_stale cfg out1 (ag_state a))).
  destruct Hls as [Hs1 Hc1]. apply runs_bind.
  - apply update_services_runs; [by apply keys_NoDup|]. intros id s rs _. rewrite Hl2. unfold missing_services. simpl. rewrite map_lookup_imap, Hs1.
    intros (s0&Hs0&[= <-])%bind_Some. exact (compare_service_absent rs _ id s0 (compare_service_runs _ _ _ rs Hco Hs0)).
  - intros a3 (_&Hf3&_)%update_services_ok; [|by apply keys_NoDup]. apply set_services_frame in Hf3 as (_&_&Hc3).
    apply runs_bind; [apply runs_local|]. intros a4 [_ Hl4]%local_inv.
    apply update_checks_runs; [by apply keys_NoDup|]. intros id s rs _. rewrite Hl4. unfold missing_checks. simpl. rewrite map_lookup_imap, Hc3, Hl2. simpl. rewrite Hc1.
    intros (s0&Hs0&[= <-])%bind_Some. exact (compare_check_absent rs _ id s0 (compare_check_runs _ _ _ rs Hco Hs0)).
Qed.

(** The catalog is what the agent has registered, and the server's own. *)
Record agreed (l : State) (w : W) : Prop := {
  ag_service id s : ls_services l !! id = Some s → ∃ r, svcs w !! id = Some r ∧ service_agrees s r;
  ag_services id : is_Some (svcs w !! id) → id = ConsulServiceID ∨ is_Some (Local_ServiceState id l);
  ag_check id c : ls_checks l !! id = Some c → ∃ r, chks w !! id = Some r ∧ check_agrees c r;
  ag_checks id : is_Some (chks w !! id) → id = SerfCheckID ∨ is_Some (Local_CheckState id l);
  ag_node : info w = Some (local_info l)
}.
Lemma SyncFull_ok a a' : named (ag_state a) → coherent (ag_state a) → SyncFull D cfg range a = (Ok tt, a') →
  agreed (ag_state a') (ag_world a') ∧ keeps (ag_state a) (ag_state a') ∧ named (ag_state a').
Proof using Hlaws Hrange.
  intros Hna Hco Hr. unfold SyncFull in Hr. apply bind_ok_inv in Hr as ([]&a1&[Hrf1 Hk1]%updateSyncState_reflected&Hr); [|done..].
  apply SyncChanges_ok in Hr as ([Hrf Hk _]&Hset&Hi); [|done]. split; [|split; [by etrans|by apply Hrf]]. split.
  - intros id s Hs. destruct (proj1 (Hset id) s Hs). apply (rf_service _ _ Hrf); [by apply Local_ServiceState_Some|done].
  - intros id [?|[s Hs]]%(rf_services _ _ Hrf); [by left|right]. exists s. apply Local_ServiceState_Some. by destruct (proj1 (Hset id) s Hs).
  - intros id s Hs. destruct (proj2 (Hset id) s Hs). apply (rf_check _ _ Hrf); [by apply Local_CheckState_Some|done].
  - intros id [?|[s Hs]]%(rf_checks _ _ Hrf); [by left|right]. exists s. apply Local_CheckState_Some. by destruct (proj2 (Hset id) s Hs).
  - by apply (rf_node _ _ Hrf).
Qed.

Lemma SyncFull_runs a : named (ag_state a) → coherent (ag_state a) →
  ∃ a', SyncFull D cfg range a = (Ok tt, a') ∧ agreed (ag_state a') (ag_world a') ∧ keeps (ag_state a) (ag_state a') ∧ named (ag_state a').
Proof using Hlaws Hrange Hup.
  intros Hna Hco. destruct (runs_bind (updateSyncState D cfg range) (SyncChanges D cfg range) a) as [a' Ha'].
  - by apply updateSyncState_runs.
  - intros a1 [Hrf _]%updateSyncState_reflected; [|done..]. by apply SyncChanges_runs.
  - exists a'. split; [done|]. by apply SyncFull_ok.
Qed.
End anti_entropy.

(** ** The operations keep the state coherent *)

(** What the agent does with its state: a service or check it adds has an ID,
    a service its weights, a check a service that is registered, and a service
    is removed with all of its checks. *)
Inductive agent_reachable (cfg : Config) : State → Prop :=
  | re_New discard : agent_reachable cfg (NewState discard)
  | re_AddService svc token l l' : agent_reachable cfg l → plain_service svc → AddService (Some svc) token l = (Ok tt, l') → agent_reachable cfg l'
  | re_AddCheck hc token l l' : agent_reachable cfg l → hc_CheckID hc ≠ "" →
      (hc_ServiceID hc ≠ "" → is_Some (Local_ServiceState (hc_ServiceID hc) l)) → AddCheck cfg (Some hc) token l = (Ok tt, l') → agent_reachable cfg l'
  | re_RemoveCheck id l l' : agent_reachable cfg l → RemoveCheck id l = (Ok tt, l') → agent_reachable cfg l'
  | re_RemoveService id ids l l' : agent_reachable cfg l → (∀ cid hc, Local_Check cid l = Some hc → hc_ServiceID hc = id → cid ∈ ids) →
      RemoveServiceWithChecks id ids l = (Ok tt, l') → agent_reachable cfg l'
  | re_UpdateCheck now id status output l l' : agent_reachable cfg l → UpdateCheck cfg now id status output l = (Ok tt, l') → agent_reachable cfg l'
  | re_defer_fired tm l : agent_reachable cfg l → agent_reachable cfg (defer_fired tm l)
  | re_LoadMetadata data l : agent_reachable cfg l → agent_reachable cfg (LoadMetadata data l)
  | re_UnloadMetadata l : agent_reachable cfg l → agent_reachable cfg (UnloadMetadata l)
  | re_AddAliasCheck cid sid ch l : agent_reachable cfg l → agent_reachable cfg (AddAliasCheck cid sid ch l)
  | re_RemoveAliasCheck cid sid l : agent_reachable cfg l → agent_reachable cfg (RemoveAliasCheck cid sid l).

(** The keys of both maps and what is registered under them, afterwards. *)
Record well_formed (l : State) : Prop := { wf_named : named l; wf_coherent : coherent l }.

Lemma well_formed_same l l' : ls_services l' = ls_services l → ls_checks l' = ls_checks l → well_formed l → well_formed l'.
Proof.
  intros Hs Hc [[Hn1 Hn2] Hco]. split; [by split; rewrite ?Hs, ?Hc|]. eapply keeps_coherent; [|done].
  intros id. unfold service_at, check_at, Local_ServiceState, Local_CheckState. by rewrite Hs, Hc.
Qed.
(** A service that is put in place or taken away. *)
Lemma well_formed_set_service l l' id s : well_formed l → id ≠ "" → ls_checks l' = ls_checks l → ls_services l' = <[id := s]> (ls_services l) →
  (ss_Deleted s = false → ∃ svc, ss_Service s = Some svc ∧ ns_ID svc = id ∧ plain_service svc) →
  (ss_Deleted s = true → ∀ cid hc, check_at l cid = Some (Some hc) → hc_ServiceID hc ≠ id) → well_formed l'.
Proof.
  intros [[Hn1 Hn2] [Hsv Hck]] Hid Hc Hs Halive Hdead.
  assert (Hat : ∀ i, service_at l' i = if decide (i = id) then (if ss_Deleted s then None else Some (untag <$> ss_Service s)) else service_at l i).
  { intros i. unfold service_at, Local_ServiceState. rewrite Hs. case_decide; [subst; rewrite lookup_insert_eq; simpl; by destruct (ss_Deleted s)|by rewrite lookup_insert_ne]. }
  assert (Hcat : ∀ i, check_at l' i = check_at l i) by (intros i; unfold check_at, Local_CheckState; by rewrite Hc).
  split; [split; [by rewrite Hs, lookup_insert_ne|by rewrite Hc]|]. split.
  - intros i o. rewrite Hat. case_decide; [subst|by apply Hsv]. destruct (ss_Deleted s) eqn:Hd; [done|]. intros [= <-].
    destruct Halive as (svc&->&?&?); [done|]. exists (untag svc). by rewrite untag_ID, untag_plain.
  - intros i o. rewrite Hcat. intros Ho. destruct (Hck i o Ho) as (hc&->&?&?&Hal). exists hc. split_and!; [done..|]. intros Hne.
    rewrite Hat. case_decide as Heq; [|by apply Hal]. destruct (ss_Deleted s) eqn:Hd; [|by eexists]. by destruct (Hdead eq_refl i hc Ho).
Qed.
Lemma well_formed_set_check l l' id c : well_formed l → id ≠ "" → ls_services l' = ls_services l → ls_checks l' = <[id := c]> (ls_checks l) →
  (cs_Deleted c = false → ∃ hc, cs_Check c = Some hc ∧ hc_CheckID hc = id ∧ (hc_ServiceID hc ≠ "" → is_Some (service_at l (hc_ServiceID hc)))) →
  well_formed l'.
Proof.
  intros [[Hn1 Hn2] [Hsv Hck]] Hid Hs Hc Halive.
  assert (Hat : ∀ i, service_at l' i = service_at l i) by (intros i; unfold service_at, Local_ServiceState; by rewrite Hs).
  assert (Hcat : ∀ i, check_at l' i = if decide (i = id) then (if cs_Deleted c then None else Some (cs_Check c)) else check_at l i).
  { intros i. unfold check_at, Local_CheckState. rewrite Hc. case_decide; [subst; rewrite lookup_insert_eq; simpl; by destruct (cs_Deleted c)|by rewrite lookup_insert_ne]. }
  split; [split; [by rewrite Hs|by rewrite Hc, lookup_insert_ne]|]. split.
  - intros i o. rewrite Hat. apply Hsv.
  - intros i o. rewrite Hcat. case_decide as Heq.
    + subst i. destruct (cs_Deleted c); [done|]. intros [= <-]. destruct Halive as (hc&->&?&?); [done|]. exists hc. split_and!; [done..|].
      rewrite Hat. done.
    + intros (hc&->&?&?&Hal)%Hck. exists hc. split_and!; [done..|]. by rewrite Hat.
Qed.

Lemma close_opt_ok ch l l' : close_opt ch l = (Ok tt, l') → ls_services l' = ls_services l ∧ ls_checks l' = ls_checks l.
Proof. destruct ch as [ch|]; simpl; [|by intros [_ ->]%ret_ok_inv]. unfold close_chan. repeat case_match; intros; by simplify_eq. Qed.
Lemma modify_ok {S} (f : S → S) s u s' : mmodify f s = (Ok u, s') → s' = f s.
Proof. unfold mmodify. by intros [= _ <-]. Qed.
Lemma get_ok {S A} (f : S → A) s x s' : mget f s = (Ok x, s') → x = f s ∧ s' = s.
Proof. unfold mget. by intros [= <- <-]. Qed.
Lemma setServiceStateLocked_ok s l l' : setServiceStateLocked s l = (Ok tt, l') → ∃ svc ch,
  ss_Service s = Some svc ∧ ls_services l' = <[ns_ID svc := ss_set_watch (Some ch) s]> (ls_services l) ∧ ls_checks l' = ls_checks l.
Proof.
  intros Hr. apply bind_ok_inv in Hr as (ch&l1&H1&Hr). apply bind_ok_inv in Hr as (svc&l2&[Hs ->]%deref_inv&Hr).
  apply bind_ok_inv in Hr as (old&l2&[_ ->]%get_ok&Hr). apply bind_ok_inv in Hr as ([]&l3&->%modify_ok&Hr).
  apply bind_ok_inv in Hr as ([]&l4&[H4 H5]%close_opt_ok&->%modify_ok). exists svc, ch. split; [done|]. simpl. rewrite H4, H5. simpl.
  unfold make_chan in H1. injection H1 as _ <-. done.
Qed.
Lemma AddService_ok svc token l l' : plain_service svc → AddService (Some svc) token l = (Ok tt, l') → ∃ ch,
  ls_services l' = <[ns_ID svc := mkServiceState (Some svc) token false false (Some ch)]> (ls_services l) ∧ ls_checks l' = ls_checks l.
Proof.
  intros [Hid _] Hr. unfold AddService, addServiceLocked in Hr. rewrite decide_False in Hr by done.
  apply setServiceStateLocked_ok in Hr as (svc'&ch&[= <-]&Hs&Hc). exists ch. split; done.
Qed.
Lemma AddCheck_ok cfg hc token l l' : AddCheck cfg (Some hc) token l = (Ok tt, l') → ∃ hc' c,
  hc_CheckID hc' = hc_CheckID hc ∧ hc_ServiceID hc' = hc_ServiceID hc ∧ cs_Check c = Some hc' ∧ cs_Deleted c = false ∧
  ls_checks l' = <[hc_CheckID hc := c]> (ls_checks l) ∧ ls_services l' = ls_services l.
Proof.
  unfold AddCheck, addCheckLocked. intros Hr. apply bind_ok_inv in Hr as (b&l1&[-> ->]%get_ok&Hr).
  apply bind_ok_inv in Hr as (f&l1&[-> ->]%get_ok&Hr). revert Hr.
  set (x := if ls_discardCheckOutput l then hc_set_output (hc_Status hc) "" hc else hc). intros Hr.
  assert (Hx : hc_CheckID x = hc_CheckID hc ∧ hc_ServiceID x = hc_ServiceID hc) by (unfold x; by destruct (ls_discardCheckOutput l)).
  destruct Hx as [Hx1 Hx2]. case_decide; [done|]. apply bind_ok_inv in Hr as (hc'&l1&[[= <-] ->]%deref_inv&->%modify_ok).
  exists (hc_set_node (cf_NodeName cfg) x), (mkCheckState (Some (hc_set_node (cf_NodeName cfg) x)) token zero_time None false false).
  split_and!; [done..| |]; simpl; unfold notifyIfAliased; simpl; rewrite ?Hx1; by destruct (ls_checkAliases l !! _).
Qed.
Lemma RemoveCheck_ok id l l' : RemoveCheck id l = (Ok tt, l') → ∃ c,
  ls_checks l !! id = Some c ∧ ls_checks l' = <[id := cs_set_flags false true c]> (ls_checks l) ∧ ls_services l' = ls_services l.
Proof.
  unfold RemoveCheck, removeCheckLocked. intros Hr. apply bind_ok_inv in Hr as (o&l1&[-> ->]%get_ok&Hr).
  destruct (ls_checks l !! id) as [c|]; [|done]. destruct (cs_Deleted c); [done|].
  apply bind_ok_inv in Hr as (hc&l1&[_ ->]%deref_inv&->%modify_ok). exists c. split; [done|]. simpl.
  unfold notifyIfAliased. by destruct (ls_checkAliases l !! _).
Qed.
Lemma RemoveService_ok id l l' : RemoveService id l = (Ok tt, l') → ∃ s,
  ls_services l !! id = Some s ∧ ls_services l' = <[id := ss_set_watch None (ss_set_flags false true s)]> (ls_services l) ∧ ls_checks l' = ls_checks l.
Proof.
  unfold RemoveService, removeServiceLocked. intros Hr. apply bind_ok_inv in Hr as (o&l1&[-> ->]%get_ok&Hr).
  destruct (ls_services l !! id) as [s|]; [|done]. destruct (ss_Deleted s); [done|].
  apply bind_ok_inv in Hr as ([]&l2&->%modify_ok&Hr). apply bind_ok_inv in Hr as ([]&l4&[H4 H5]%close_opt_ok&->%modify_ok).
  exists s. simpl. by rewrite H4, H5.
Qed.
(** Updating a check keeps the entry, whose check may get another status and
    output. *)
Lemma UpdateCheck_ok cfg now id status output l l' : UpdateCheck cfg now id status output l = (Ok tt, l') →
  ls_services l' = ls_services l ∧
  (ls_checks l' = ls_checks l ∨ ∃ c c' hc hc', ls_checks l !! id = Some c ∧ cs_Deleted c = false ∧ ls_checks l' = <[id := c']> (ls_checks l) ∧
     cs_Check c = Some hc ∧ cs_Check c' = Some hc' ∧ cs_Deleted c' = false ∧ hc_CheckID hc' = hc_CheckID hc ∧ hc_ServiceID hc' = hc_ServiceID hc).
Proof.
  unfold UpdateCheck. intros Hr. apply bind_ok_inv in Hr as (o&l1&[-> ->]%get_ok&Hr).
  destruct (ls_checks l !! id) as [c|] eqn:Hc; [|apply ret_ok_inv in Hr as [_ ->]; auto].
  destruct (cs_Deleted c) eqn:Hd; [apply ret_ok_inv in Hr as [_ ->]; auto|].
  apply bind_ok_inv in Hr as (b&l1&[_ ->]%get_ok&Hr). revert Hr. cbv zeta. generalize (if b : bool then "" else output) as out.
  generalize (if decide (status = HealthCritical) then if Critical c then cs_CriticalTime c else now else zero_time) as t. intros t out Hr.
  apply bind_ok_inv in Hr as ([]&l2&->%modify_ok&Hr). simpl in Hr. apply bind_ok_inv in Hr as (hc&l1&[Hhc ->]%deref_inv&Hr). case_decide.
  { apply ret_ok_inv in Hr as [_ ->]. split; [done|]. right. exists c, (cs_set_critical t c), hc, hc. simpl. by rewrite Hhc. }
  case_decide.
  - destruct (cs_DeferCheck c) as [tm|]; [|apply bind_ok_inv in Hr as (tm&l2&[_ ->]%get_ok&Hr); apply bind_ok_inv in Hr as ([]&l2&->%modify_ok&Hr)];
      apply modify_ok in Hr; subst l'; (split; [done|]; right; eexists c, _, hc, _; simpl; rewrite insert_insert_eq; by split_and!).
  - apply bind_ok_inv in Hr as ([]&l2&->%modify_ok&->%modify_ok).
    assert (Hno : ∀ l0 sid, ls_services (notifyIfAliased sid l0) = ls_services l0 ∧ ls_checks (notifyIfAliased sid l0) = ls_checks l0)
      by (intros l0 sid; unfold notifyIfAliased; by destruct (ls_checkAliases l0 !! sid)).
    simpl. rewrite (proj1 (Hno _ _)), (proj2 (Hno _ _)). split; [done|]. right. eexists c, _, hc, _. simpl. rewrite insert_insert_eq. by split_and!.
Qed.

Lemma RemoveCheck_at id l l' : RemoveCheck id l = (Ok tt, l') → ls_services l' = ls_services l ∧
  ∀ i, check_at l' i = if decide (i = id) then None else check_at l i.
Proof.
  intros (c&Hc&Hc'&Hs)%RemoveCheck_ok. split; [done|]. intros i. unfold check_at, Local_CheckState. rewrite Hc'.
  case_decide; [subst; by rewrite lookup_insert_eq|by rewrite lookup_insert_ne].
Qed.
Lemma RemoveCheck_well_formed id m l l' : well_formed (set_services m l) → RemoveCheck id l = (Ok tt, l') → well_formed (set_services m l').
Proof.
  intros Hwf (c&Hc&Hc'&Hs)%RemoveCheck_ok. eapply (well_formed_set_check _ _ id); [exact Hwf| |done|exact Hc'|done].
  intros ->. pose proof (proj2 (wf_named _ Hwf)) as Hn. simpl in Hn. congruence.
Qed.
Lemma RemoveChecks_ok ids m : ∀ l l', (for id in ids do RemoveCheck id) l = (Ok tt, l') →
  ls_services l' = ls_services l ∧ (well_formed (set_services m l) → well_formed (set_services m l')) ∧
  ∀ i, check_at l' i = if decide (i ∈ ids) then None else check_at l i.
Proof.
  induction ids as [|id ids IH]; intros l l' Hr; simpl in Hr.
  { apply ret_ok_inv in Hr as [_ ->]. split_and!; [done..|]. intros i. by rewrite decide_False by apply not_elem_of_nil. }
  apply bind_ok_inv in Hr as ([]&l1&H1&Hr). apply IH in Hr as (Hs&Hw&Hc). pose proof (RemoveCheck_at _ _ _ H1) as [Hs1 Hc1].
  split_and!; [congruence| |]. { intros Hwf. by eapply Hw, RemoveCheck_well_formed. }
  intros i. rewrite Hc, Hc1. destruct (decide (i ∈ ids)); [by rewrite decide_True by (by right)|].
  destruct (decide (i = id)) as [->|]; [by rewrite decide_True by left|]. rewrite decide_False; [done|]. by intros [|]%elem_of_cons.
Qed.
Lemma RemoveServiceWithChecks_well_formed id ids l l' : well_formed l →
  (∀ cid hc, Local_Check cid l = Some hc → hc_ServiceID hc = id → cid ∈ ids) →
  RemoveServiceWithChecks id ids l = (Ok tt, l') → well_formed l'.
Proof.
  intros Hwf Hids Hr. apply bind_ok_inv in Hr as ([]&l1&(s&Hs&Hs1&Hc1)%RemoveService_ok&Hr).
  apply (RemoveChecks_ok _ (ls_services l)) in Hr as (Hs'&Hw&Hc).
  assert (Hwf1 : well_formed (set_services (ls_services l) l')) by (apply Hw; eapply well_formed_same; [| |exact Hwf]; done).
  eapply (well_formed_set_service _ _ id); [exact Hwf1| |done|simpl; by rewrite Hs'|done|].
  { intros ->. by rewrite (proj1 (wf_named _ Hwf)) in Hs. }
  intros _ cid hc. simpl. change (check_at (set_services (ls_services l) l') cid) with (check_at l' cid). rewrite Hc. case_decide as Hin; [done|].
  intros Hat Hsid. apply Hin. apply (Hids cid hc); [|done]. unfold check_at, Local_CheckState in Hat. rewrite Hc1 in Hat.
  unfold Local_Check, Local_CheckState. destruct (ls_checks l !! cid ≫= _); [|done]. simpl in *. by injection Hat.
Qed.

(** What the agent does with its state keeps it coherent. *)
Lemma reachable_well_formed cfg l : agent_reachable cfg l → well_formed l.
Proof.
  induction 1 as [discard|svc token l l' _ IH Hp Hr|hc token l l' _ IH Hid Hal Hr|id l l' _ IH Hr|id ids l l' _ IH Hids Hr
    |now id status output l l' _ IH Hr|tm l _ IH| | | |].
  - split; [done|]. split; intros id o; unfold service_at, check_at, Local_ServiceState, Local_CheckState; simpl; by rewrite lookup_empty.
  - pose proof Hp as [Hid _]. apply AddService_ok in Hr as (ch&Hs&Hc); [|done].
    eapply well_formed_set_service; [exact IH|exact Hid|done|exact Hs|eauto|done].
  - apply AddCheck_ok in Hr as (hc'&c&Hi1&Hi2&Hc&Hd&Hck&Hs). eapply well_formed_set_check; [exact IH|exact Hid|done|exact Hck|].
    intros _. exists hc'. split_and!; [done..|]. rewrite Hi2. intros [s Hs']%Hal. unfold service_at. rewrite Hs'. by eexists.
  - apply (RemoveCheck_well_formed id (ls_services l)) in Hr as Hw; [|eapply well_formed_same; [| |exact IH]; done].
    apply RemoveCheck_ok in Hr as (c&_&_&Hs). eapply well_formed_same; [| |exact Hw]; [by rewrite Hs|done].
  - by eapply RemoveServiceWithChecks_well_formed.
  - apply UpdateCheck_ok in Hr as [Hs [Hc|(c&c'&hc&hc'&Hc&Hd&Hc'&Hhc&Hhc'&Hd'&E1&E2)]]; [by eapply well_formed_same|].
    destruct (coherent_check l id c (wf_coherent _ IH)) as (hc0&?&Hid&Hne&Hal); [by apply Local_CheckState_Some|].
    assert (hc0 = hc) as -> by congruence. eapply well_formed_set_check; [exact IH|exact Hne|done|exact Hc'|].
    intros _. exists hc'. split; [done|]. split; [congruence|]. rewrite E2. intros [s Hs']%Hal. unfold service_at. rewrite Hs'. by eexists.
  - unfold defer_fired. destruct (ls_timers l !! tm) as [id|]; [|done]. simpl. destruct (ls_checks l !! id) as [c|] eqn:Hc; [|by eapply well_formed_same; [| |exact IH]].
    assert (Hne : id ≠ "") by (intros ->; by rewrite (proj2 (wf_named _ IH)) in Hc).
    assert (Hset : ∀ c' l', cs_Check c' = cs_Check c → cs_Deleted c' = cs_Deleted c → ls_services l' = ls_services l →
      ls_checks l' = <[id := c']> (ls_checks l) → well_formed l').
    { intros c' l' E1 E2 E3 E4. eapply well_formed_set_check; [exact IH|exact Hne|exact E3|exact E4|]. rewrite E1, E2. intros Hd.
      destruct (coherent_check l id c (wf_coherent _ IH)) as (hc&?&?&_&Hal); [by apply Local_CheckState_Some|].
      exists hc. split_and!; [done..|]. intros [s Hs']%Hal. unfold service_at. rewrite Hs'. by eexists. }
    destruct (cs_Deleted c) eqn:Hd; [eapply (Hset (cs_set_defer None c))|eapply (Hset (cs_set_flags false false (cs_set_defer None c)))]; done.
  - by eapply well_formed_same; [| |eassumption].
  - by eapply well_formed_same; [| |eassumption].
  - by eapply well_formed_same; [| |eassumption].
  - eapply well_formed_same; [| |eassumption]; unfold RemoveAliasCheck; by repeat case_match.
Qed.

(** ** A server that keeps the contract *)
Record simple_server := mkSimple { sw_node : Node; sw_services : gmap string NodeService; sw_checks : gmap string HealthCheck }.
Definition hc_set_id (id : string) (c : HealthCheck) : HealthCheck :=
  mkHealthCheck (hc_Node c) id (hc_Name c) (hc_Status c) (hc_Notes c) (hc_Output c)
    (hc_ServiceID c) (hc_ServiceName c) (hc_ServiceTags c) (hc_Type c) (hc_Definition c) (hc_CreateIndex c) (hc_ModifyIndex c).
Definition simple_services (w : simple_server) : gmap string NodeService := delete "" (sw_services w).
Definition simple_checks (w : simple_server) : gmap string HealthCheck := map_imap (λ id c, Some (hc_set_id id c)) (delete "" (sw_checks w)).
Definition simple_info (w : simple_server) : option node_info := Some (node_info_of (sw_node w)).
Definition simple_register (req : RegisterRequest) (w : simple_server) : simple_server :=
  mkSimple (mkNode (rr_ID req) (rr_Node req) (rr_Address req) (rr_Datacenter req) (rr_TaggedAddresses req) (rr_NodeMeta req) 0 0)
    (match rr_Service req with Some s => <[ns_ID s := s]> (sw_services w) | None => sw_services w end)
    (foldl (λ m c, <[hc_CheckID c := c]> m) (sw_checks w) (option_list (rr_Check req) ++ rr_Checks req)).
Definition simple_rpc : rpc simple_server := mkRpc
  (λ _ w, (Ok (Some (mkNodeServices (sw_node w) (simple_services w))), w))
  (λ _ w, (Ok (map_to_list (simple_checks w)).*2, w))
  (λ _ req w, (Ok tt, simple_register req w))
  (λ _ req w, (Ok tt, if decide (dr_ServiceID req ≠ "")
                      then mkSimple (sw_node w) (delete (dr_ServiceID req) (sw_services w)) (filter (λ kc, hc_ServiceID kc.2 ≠ dr_ServiceID req) (sw_checks w))
                      else mkSimple (sw_node w) (sw_services w) (delete (dr_CheckID req) (sw_checks w)))).

Lemma foldl_checks_ne cs id : ∀ m : gmap string HealthCheck, id ∉ hc_CheckID <$> cs → foldl (λ m c, <[hc_CheckID c := c]> m) m cs !! id = m !! id.
Proof.
  induction cs as [|c cs IH]; intros m Hid; simpl; [done|]. rewrite fmap_cons, not_elem_of_cons in Hid. destruct Hid.
  rewrite IH by done. by rewrite lookup_insert_ne.
Qed.
Lemma foldl_checks_in cs id : ∀ m : gmap string HealthCheck, id ∈ hc_CheckID <$> cs →
  ∃ c, c ∈ cs ∧ hc_CheckID c = id ∧ foldl (λ m c, <[hc_CheckID c := c]> m) m cs !! id = Some c.
Proof.
  induction cs as [|c cs IH]; intros m Hid; simpl; [by apply not_elem_of_nil in Hid|].
  destruct (decide (id ∈ hc_CheckID <$> cs)) as [Hin|Hin].
  - destruct (IH (<[hc_CheckID c := c]> m) Hin) as (c'&?&?&?). exists c'. split; [by right|done].
  - rewrite fmap_cons in Hid. apply elem_of_cons in Hid as [->|]; [|done]. exists c. split; [by left|]. split; [done|].
    rewrite foldl_checks_ne by done. apply lookup_insert_eq.
Qed.
Lemma simple_checks_lookup w id : simple_checks w !! id = if decide (id = "") then None else hc_set_id id <$> sw_checks w !! id.
Proof.
  unfold simple_checks. rewrite map_lookup_imap. case_decide; [subst; by rewrite lookup_delete_eq|]. rewrite lookup_delete_ne by done.
  by destruct (sw_checks w !! id).
Qed.
Lemma simple_checks_ID w id c : simple_checks w !! id = Some c → hc_CheckID c = id.
Proof. rewrite simple_checks_lookup. case_decide; [done|]. by intros (x&_&->)%fmap_Some. Qed.
Lemma simple_checks_list w : foldl (λ m c, <[hc_CheckID c := c]> m) ∅ (map_to_list (simple_checks w)).*2 = simple_checks w.
Proof.
  apply map_eq. intros id. set (cs := (map_to_list (simple_checks w)).*2).
  assert (Hcs : ∀ c, c ∈ cs ↔ simple_checks w !! hc_CheckID c = Some c).
  { intros c. unfold cs. rewrite list_elem_of_fmap. split.
    - intros ([k x]&->&Hx%elem_of_map_to_list). simpl. by rewrite (simple_checks_ID _ _ _ Hx).
    - intros Hc. exists (hc_CheckID c, c). split; [done|]. by apply elem_of_map_to_list. }
  destruct (decide (id ∈ hc_CheckID <$> cs)) as [Hin|Hin].
  - destruct (foldl_checks_in cs id ∅ Hin) as (c&Hc&<-&->). symmetry. by apply Hcs.
  - rewrite foldl_checks_ne by done. rewrite lookup_empty. symmetry. apply eq_None_not_Some. intros [c Hc]. apply Hin.
    apply list_elem_of_fmap. exists c. pose proof (simple_checks_ID _ _ _ Hc). split; [done|]. apply Hcs. congruence.
Qed.
Lemma NodeService_IsSame_refl s : NodeService_IsSame s s = true.
Proof. unfold NodeService_IsSame. by rewrite !bool_decide_eq_true_2. Qed.
Lemma HealthCheck_IsSame_refl c : HealthCheck_IsSame c c = true.
Proof. unfold HealthCheck_IsSame. by rewrite !bool_decide_eq_true_2. Qed.
Lemma same_check_refl c : same_check c c = true.
Proof. unfold same_check. replace (hc_relabel (hc_ServiceName c) (hc_ServiceTags c) c) with c by (by destruct c). apply HealthCheck_IsSame_refl. Qed.

Lemma simple_laws : server_laws simple_rpc simple_services simple_checks simple_info.
Proof.
  split.
  - intros token w out w' [= <- <-]. done.
  - intros token w out w' [= <- <-]. by rewrite simple_checks_list.
  - intros token req w w' [= <-] sent. split_and!; [done| | |].
    + intros s Hs [Hid _]. exists s. split; [|apply NodeService_IsSame_refl]. unfold simple_services, simple_register. simpl.
      by rewrite Hs, lookup_delete_ne, lookup_insert_eq.
    + intros id Hne. unfold simple_services, simple_register. simpl. destruct (decide (id = "")) as [->|]; [by rewrite !lookup_delete_eq|].
      rewrite !lookup_delete_ne by done. destruct (rr_Service req) as [s|]; [|done]. destruct (Hne s eq_refl). by rewrite lookup_insert_ne.
    + intros Hids. split; intros id Hid.
      * destruct (foldl_checks_in sent id (sw_checks w) Hid) as (c&Hc&<-&Hl). exists c, c. split_and!; [done|done| |apply same_check_refl].
        rewrite simple_checks_lookup, decide_False by (by apply Hids). unfold simple_register. simpl. fold sent. rewrite Hl. simpl. by destruct c.
      * rewrite !simple_checks_lookup. case_decide; [done|]. unfold simple_register. simpl. fold sent. by rewrite foldl_checks_ne.
  - intros token dc node id w r w' Hid [= <- <-] _. simpl. rewrite decide_True by done. split_and!; [apply map_eq; intros i..|done].
    + unfold simple_services. simpl. by rewrite delete_delete.
    + apply option_eq. intros c. rewrite map_lookup_filter_Some, !simple_checks_lookup. simpl. case_decide; [naive_solver|].
      rewrite !fmap_Some. setoid_rewrite map_lookup_filter_Some. simpl. split.
      * intros (x&[? ?]&->). split; [eauto|done].
      * intros [(x&?&->) ?]. eauto.
  - intros token dc node id w r w' Hid [= <- <-] _. simpl. split_and!; [done| |done]. apply map_eq. intros i.
    rewrite simple_checks_lookup. simpl. destruct (decide (i = id)) as [->|]; [rewrite !lookup_delete_eq; by case_decide|].
    by rewrite !lookup_delete_ne, simple_checks_lookup.
  - intros w. split; [apply lookup_delete_eq|]. by rewrite simple_checks_lookup.
  - done.
  - done.
Qed.
Lemma simple_up cfg : server_up simple_rpc cfg.
Proof. split; intros; by repeat eexists. Qed.

(** C38. Anti-entropy converges.  From a well-formed local state, with a server
    that keeps its contract and answers, a full sync succeeds; then the catalog
    has exactly the services and checks that the agent has registered (besides
    the server's own service and check), each the same but for the output of a
    check whose sync is deferred, the node's information is the agent's, what
    was waiting to be removed is gone from both, and the agent still has what
    it had registered. *)
Theorem SyncFull_converges {W} (D : rpc W) svcs chks info cfg range a :
  server_laws D svcs chks info → server_up D cfg → (∀ l, range l ≡ₚ l) → well_formed (ag_state a) →
  ∃ a', SyncFull D cfg range a = (Ok tt, a') ∧ agreed svcs chks info cfg (ag_state a') (ag_world a') ∧
    keeps (ag_state a) (ag_state a') ∧ well_formed (ag_state a').
Proof.
  intros Hlaws Hup Hrange [Hna Hco]. destruct (SyncFull_runs D svcs chks info Hlaws cfg range Hrange Hup a Hna Hco) as (a'&Hr&Hag&Hk&Hn).
  exists a'. split_and!; [done..|]. split; [done|by eapply keeps_coherent].
Qed.

(** An agent with a service and its check, before a server that has an older
    version of the service and another one. *)
Definition demo_cfg : Config := mkConfig "10.0.0.1" 0 "dc1" "node-id" "n1" None "" "".
Definition demo_svc (id : string) (port : Z) : NodeService :=
  mkNodeService "" id id None "" None None port (Some (mkWeights 1 1)) false no_proxy (mkServiceConnect false) 0 0.
Definition demo_check (id sid : string) : HealthCheck := mkHealthCheck "n1" id id HealthPassing "" "" sid sid None "" no_definition 0 0.
Definition demo_local : outcome unit * State :=
  (AddService (Some (demo_svc "web" 80)) "" ;;; AddCheck demo_cfg (Some (demo_check "web-up" "web")) "") (NewState false).
Definition demo_server : simple_server :=
  mkSimple (mkNode "" "n1" "" "dc1" None None 0 0) {[ "web" := demo_svc "web" 8080; "old" := demo_svc "old" 1; "consul" := demo_svc "consul" 8300 ]} ∅.
Definition demo_synced : outcome unit * agent simple_server :=
  SyncFull simple_rpc demo_cfg (λ l, l) (mkAgent (snd demo_local) demo_server).
Example demo_synced_catalog :
  fst demo_synced = Ok tt ∧ (map_to_list (simple_services (ag_world (snd demo_synced)))).*1 ≡ₚ ["web"; "consul"] ∧
  simple_services (ag_world (snd demo_synced)) !! "web" = Some (demo_svc "web" 80) ∧
  simple_checks (ag_world (snd demo_synced)) !! "web-up" = Some (demo_check "web-up" "web").
Proof. split_and!; vm_compute; reflexivity. Qed.

Lemma demo_local_reachable : agent_reachable demo_cfg (snd demo_local).
Proof.
  eapply (re_AddCheck _ (demo_check "web-up" "web") "" (snd (AddService (Some (demo_svc "web" 80)) "" (NewState false)))).
  - eapply (re_AddService _ (demo_svc "web" 80) ""); [apply (re_New _ false)|split; [done|by eexists]|vm_compute; reflexivity].
  - done.
  - intros _. eexists. vm_compute. reflexivity.
  - vm_compute. reflexivity.
Qed.
Lemma SyncFull_converges_witness : ∃ a', demo_synced = (Ok tt, a') ∧
  agreed simple_services simple_checks simple_info demo_cfg (ag_state a') (ag_world a').
Proof.
  destruct (SyncFull_converges simple_rpc simple_services simple_checks simple_info demo_cfg (λ l, l) (mkAgent (snd demo_local) demo_server)) as (a'&Hr&Hag&_).
  - exact simple_laws.
  - apply simple_up.
  - done.
  - apply (reachable_well_formed demo_cfg), demo_local_reachable.
  - exists a'. split; [exact Hr|exact Hag].
Defined.

(** A check is accepted for a service that was removed but not yet pushed: its
    entry is still in the map, which is all that [addCheckLocked] looks at. *)
Definition demo_removed : outcome unit * State :=
  (AddService (Some (demo_svc "web" 80)) "" ;;; RemoveService "web" ;;; AddCheck demo_cfg (Some (demo_check "web-up" "web")) "") (NewState false).
Lemma check_of_removed_service_added :
  fst demo_removed = Ok tt ∧ Local_Service "web" (snd demo_removed) = None ∧
  Local_Check "web-up" (snd demo_removed) = Some (demo_check "web-up" "web").
Proof. vm_compute. done. Qed.
