(* ===== verification/AclEndpointProps.v ===== *)
(** * What requests to the ACL endpoint may do to tokens

    A request that sets a token changes no token's identity: its accessor and
    secret IDs, whether it is local, its auth method and its times; and a token
    it creates is fresh and properly issued. *)

From S2P Require Import Prelude Memdb ProxyConfig Structs ConnectTables AclTables ConfigEntries Delay TombstoneGC Store PreparedQuery Catalog.
From S2P Require Import AclState Txn Fsm Logic MemdbFacts StoreFacts SideFacts SessionInv Radix Acl Authorizer Filter Endpoint Replication ReplicationTokens.
From S2P Require Import Frames Snapshot SnapshotFacts AclEndpoint.

(** ** Lookups of tokens *)

Lemma obind_ok {A B} (o : outcome A) (k : A → outcome B) b : obind o k = Ok b → ∃ a, o = Ok a ∧ k a = Ok b.
Proof. destruct o; [eauto|done..]. Qed.
Lemma owrap_ok {A} fmt (o : outcome A) a : owrap fmt o = Ok a → o = Ok a.
Proof. by destruct o. Qed.

(** A read answers with a token as it is stored, but for its links. *)
Lemma aclTokenGet_ok value index st i o : aclTokenGet value index st = Ok (i, o) →
  ∃ raw s', token_First value index (begin_txn false 0 st) = (Ok raw, s') ∧
  match raw, o with Some t0, Some t => ∃ ps rs, t = act_set_links ps rs t0 | None, None => True | _, _ => False end.
Proof.
  unfold aclTokenGet, read_txn. destruct (mbind' _ _ _) as [r s2] eqn:Hr. simpl. intros ->.
  apply bind_ok_inv in Hr as (o'&s1&H1&Hr). apply bind_ok_inv in Hr as (j&s3&_&Hr). apply ret_ok_inv in Hr as [[= -> ->] _].
  apply wrap_ok_inv in H1. unfold aclTokenGetTxn in H1. apply bind_ok_inv in H1 as (raw&s4&H4&H1). apply wrap_ok_inv in H4. exists raw, s4. split; [done|].
  destruct raw as [t0|]; [|by ok_inv H1; simplify_eq].
  apply bind_ok_inv in H1 as (t&s5&[Hf _]%fixup_token_inv&H1). ok_inv H1. by simplify_eq.
Qed.
Lemma by_secret st i o secret : ACLTokenGetBySecret secret st = Ok (i, o) →
  match store_tokens st !! string_args false secret, o with
  | Some t0, Some t => ∃ ps rs, t = act_set_links ps rs t0 | None, None => True | _, _ => False end.
Proof. intros (raw&s'&Hraw&Ho)%aclTokenGet_ok. unfold token_First in Hraw. simpl in Hraw. by injection Hraw as <- _. Qed.
Lemma by_accessor st i o a : stored_ok (store_tokens st) → ACLTokenGetByAccessor a st = Ok (i, o) →
  match o with
  | Some t => ∃ k t0 ps rs, store_tokens st !! k = Some t0 ∧ t = act_set_links ps rs t0 ∧ act_AccessorID t0 ≠ "" ∧
                uuid_parse (act_AccessorID t0) = uuid_parse a
  | None => ∀ k t0, store_tokens st !! k = Some t0 → act_AccessorID t0 ≠ "" → uuid_parse (act_AccessorID t0) ≠ uuid_parse a
  end.
Proof.
  intros HT (raw&s'&Hraw&Ho)%aclTokenGet_ok. unfold token_First in Hraw. simpl in Hraw.
  apply bind_ok_inv in Hraw as (b&s1&[Hb ->]%lift_ok_inv&Hr). unfold tx_FirstUnique, mget in Hr. injection Hr as Hraw <-.
  assert (Hp : uuid_parse a = Ok b) by (destruct (uuid_parse a); simpl in Hb; congruence).
  change (tbl _) with (store_tokens st) in Hraw.
  assert (Hin : ∀ kx, kx ∈ filter (λ kx, bool_decide (b ∈ index_keys tokens_accessor_index kx.1 kx.2)) (map_to_list (store_tokens st)) ↔
    store_tokens st !! kx.1 = Some kx.2 ∧ act_AccessorID kx.2 ≠ "" ∧ uuid_parse (act_AccessorID kx.2) = Ok b).
  { intros [k t]. rewrite list_elem_of_filter, elem_of_map_to_list, bool_decide_spec, (accessor_index_keys (λ _, "")). simpl. tauto. }
  destruct (filter _ _) as [|[k t0] l]; simpl in Hraw; subst raw; destruct o as [t|]; try done.
  - intros k t0 Hk Hne Heq. apply (not_elem_of_nil (k, t0)), Hin. simpl. rewrite Heq, Hp. done.
  - destruct (proj1 (Hin (k, t0))) as (Hk&Hne&Heq); [by left|]. simpl in *. destruct Ho as (ps&rs&->).
    exists k, t0, ps, rs. by rewrite Hp.
Qed.

(** ** Duplicates *)

Section compact.
Context {A : Type} (key : A → string) (same : A → A → bool) (join : A → A → A).
Context (Hsame : ∀ a b, same a b = true ↔ key a = key b) (Hjoin : ∀ a b, key (join a b) = key a).
Definition key_le (a b : A) : Prop := String.le (key a) (key b).

(** Compacting a sorted list leaves one item per key. *)
Lemma compact_once l : ∀ kept, StronglySorted key_le (kept :: l) →
  NoDup (key <$> compact same join kept l) ∧ (∀ x, x ∈ compact same join kept l → ∃ y, y ∈ kept :: l ∧ key x = key y).
Proof using Hsame Hjoin.
  induction l as [|x l IH]; intros kept Hs; simpl.
  { split; [by apply NoDup_singleton|]. intros x ->%list_elem_of_singleton. exists kept. split; [by left|done]. }
  inversion Hs as [|? ? Hs' Hall]; subst. inversion Hs' as [|? ? Hs2 Hall2]; subst. apply list.Forall_cons in Hall as [Hkx Hkl].
  destruct (same kept x) eqn:Hk.
  - apply Hsame in Hk. destruct (IH (join kept x)) as [Hnd Hin].
    { constructor; [done|]. eapply list.Forall_impl; [exact Hkl|]. intros y. unfold key_le. by rewrite Hjoin. }
    split; [done|]. intros y [z [Hz Hyz]]%Hin. apply elem_of_cons in Hz as [->|Hz]; [|exists z; split; [by right; right|done]].
    exists kept. rewrite Hyz, Hjoin. split; [by left|done].
  - destruct (IH x Hs') as [Hnd Hin]. split.
    + rewrite fmap_cons. apply list.NoDup_cons. split; [|done]. intros (y&Hy&(z&Hz&Hyz)%Hin)%list_elem_of_fmap.
      assert (Hxz : key_le x z) by (apply elem_of_cons in Hz as [->|Hz]; [unfold key_le; reflexivity|by eapply list.Forall_forall in Hall2]).
      assert (key kept = key x); [|apply Hsame in H; congruence].
      unfold key_le in *. apply (anti_symm String.le); [done|]. by rewrite Hy, Hyz.
    + intros y [->|Hy]%elem_of_cons; [exists kept; split; [by left|done]|]. destruct (Hin y Hy) as (z&?&?). exists z. split; [by right|done].
Qed.
End compact.

#[local] Instance identity_le_total : Total identity_le.
Proof. intros a b. apply (total String.le). Qed.
#[local] Instance identity_le_trans : Transitive identity_le.
Proof. intros a b c. unfold identity_le. apply transitivity. Qed.
Lemma same_service_spec a b : same_service a b = true ↔ asi_ServiceName a = asi_ServiceName b.
Proof. apply String.eqb_eq. Qed.
Lemma dedupe_names l : NoDup (asi_ServiceName <$> dedupeServiceIdentities l) ∧
  ∀ x, x ∈ dedupeServiceIdentities l → ∃ y, y ∈ l ∧ asi_ServiceName x = asi_ServiceName y.
Proof.
  unfold dedupeServiceIdentities. destruct (length l <=? 1)%nat eqn:Hl.
  { apply Nat.leb_le in Hl. split; [|eauto]. destruct l as [|a [|b l]]; simpl in *; [constructor|by apply NoDup_singleton|lia]. }
  pose proof (StronglySorted_merge_sort identity_le l) as Hs. pose proof (merge_sort_Permutation identity_le l) as Hp.
  destruct (merge_sort identity_le l) as [|x l']; [split; [constructor|by intros x ?%elem_of_nil]|].
  destruct (compact_once asi_ServiceName same_service join_identities same_service_spec (λ _ _, eq_refl) l' x Hs) as [Hnd Hin].
  split; [done|]. intros y (z&Hz&?)%Hin. exists z. by rewrite <- Hp.
Qed.
(** Identities that hold everywhere hold everywhere together. *)
Lemma compact_nowhere l : ∀ kept, Forall (λ s, asi_Datacenters s = []) (kept :: l) →
  Forall (λ s, asi_Datacenters s = []) (compact same_service join_identities kept l).
Proof.
  induction l as [|x l IH]; intros kept Hall; simpl; [done|]. apply list.Forall_cons in Hall as [Hk [Hx Hl]%list.Forall_cons].
  destruct (same_service kept x); [|constructor; [done|apply IH; by constructor]]. apply IH. constructor; [|done]. simpl. by rewrite decide_True by auto.
Qed.
Lemma dedupe_nowhere l : Forall (λ s, asi_Datacenters s = []) l → Forall (λ s, asi_Datacenters s = []) (dedupeServiceIdentities l).
Proof.
  intros Hl. unfold dedupeServiceIdentities. destruct (length l <=? 1)%nat; [done|].
  pose proof (merge_sort_Permutation identity_le l) as Hp. destruct (merge_sort identity_le l) as [|x l']; [constructor|].
  apply compact_nowhere. by rewrite Hp.
Qed.

(** ** The token that is handed to Raft *)

Section request.
Context {T : Type → Type} `{RadixOps T}.
Context (ext : externals) (cfg : acl_config) (sum256 : string → string).
Context (now : Z) (resolved : outcome (option (Authorizer T))) (raft : raft_run) (uuids : nat → list (outcome string)).

(** What is fixed once a token exists. *)
Definition same_identity (o t : ACLToken) : Prop :=
  act_AccessorID t = act_AccessorID o ∧ act_SecretID t = act_SecretID o ∧ act_Local t = act_Local o ∧
  act_AuthMethod t = act_AuthMethod o ∧ act_ExpirationTime t = act_ExpirationTime o ∧ act_CreateTime t = act_CreateTime o.
(** A token that no other token of [toks] can be taken for, that expires in
    time. *)
Definition fresh_id (toks : gmap string ACLToken) (id : string) : Prop :=
  ACLIDReserved id = false ∧ ∀ k o, toks !! k = Some o → act_SecretID o ≠ id ∧ (id ≠ "" → act_AccessorID o ≠ id).
Definition in_time (t : ACLToken) : Prop := HasExpirationTime t = true → ∃ e, act_ExpirationTime t = Some e ∧
  (act_CreateTime t ≤ e)%Z ∧ (act_CreateTime t + ac_ACLTokenMinExpirationTTL cfg ≤ e ≤ act_CreateTime t + ac_ACLTokenMaxExpirationTTL cfg)%Z.
Definition issued (fromLogin : bool) (toks : gmap string ACLToken) (t : ACLToken) : Prop :=
  fresh_id toks (act_AccessorID t) ∧ fresh_id toks (act_SecretID t) ∧ act_CreateTime t = now ∧ in_time t ∧
  (if fromLogin then act_AuthMethod t ≠ "" ∧ act_Local t = true else act_AuthMethod t = "").
Definition proper (t : ACLToken) : Prop :=
  act_Rules t = "" ∧ act_Type t = "" ∧ NoDup (asi_ServiceName <$> act_ServiceIdentities t) ∧
  Forall (λ s, isValidServiceIdentityName (asi_ServiceName s) = true ∧ (act_Local t = true → asi_Datacenters s = [])) (act_ServiceIdentities t) ∧
  act_ExpirationTTL t = 0%Z.

Lemma none_fresh st a i j : stored_ok (store_tokens st) → ACLIDReserved a = false →
  ACLTokenGetByAccessor a st = Ok (i, None) → ACLTokenGetBySecret a st = Ok (j, None) → fresh_id (store_tokens st) a.
Proof using Type.
  intros HT Hres Ha Hs. split; [done|]. intros k o Hk. split.
  - intros Heq. apply by_secret in Hs. destruct (HT k o Hk) as [Hp%token_key _]. rewrite Heq in Hp. subst k. by rewrite Hk in Hs.
  - intros Hne Heq. apply by_accessor in Ha; [|done]. apply (Ha k o Hk); congruence.
Qed.
Lemma generated_fresh st draws id : stored_ok (store_tokens st) → GenerateUUID checkTokenUUID draws st = Ok id → fresh_id (store_tokens st) id.
Proof using Type.
  intros HT. induction draws as [|d draws IH]; [done|]. intros (x&->&(ok&Hok&Hg)%obind_ok)%obind_ok.
  destruct ok; [|by apply IH]. injection Hg as <-. unfold checkTokenUUID in Hok.
  apply obind_ok in Hok as ([i o]&Ha&Hok). simpl in Hok. destruct o; [done|]. apply obind_ok in Hok as ([j o]&Hs&Hok). simpl in Hok.
  destruct o; [done|]. injection Hok as Hres%negb_true_iff. by eapply none_fresh.
Qed.
(** The two IDs of a new token: each is looked up as both. *)
Lemma new_accessor_fresh st what id m i n a : stored_ok (store_tokens st) →
  (if decide (id = "") then m = None else ACLTokenGetByAccessor id st = Ok (i, m)) →
  new_id uuids what id n m ACLTokenGetBySecret st = Ok a → fresh_id (store_tokens st) a ∧ (id ≠ "" → a = id).
Proof using Type.
  intros HT Hm. unfold new_id. destruct (decide (id = "")) as [|Hne]; [intros ?%generated_fresh; done|].
  destruct (ParseUUID id); [|done..]. case_decide as Hmn; [done|]. subst m.
  intros ([j o]&Ho%owrap_ok&Hr)%obind_ok. simpl in Hr. case_decide as Hon; [done|]. subst o.
  destruct (ACLIDReserved id) eqn:Hres; [done|]. injection Hr as <-. split; [|done]. by eapply none_fresh.
Qed.
Lemma new_secret_fresh st what id m i n a : stored_ok (store_tokens st) →
  (if decide (id = "") then m = None else ACLTokenGetBySecret id st = Ok (i, m)) →
  new_id uuids what id n m ACLTokenGetByAccessor st = Ok a → fresh_id (store_tokens st) a.
Proof using Type.
  intros HT Hm. unfold new_id. destruct (decide (id = "")) as [|Hne]; [intros ?%generated_fresh; done|].
  destruct (ParseUUID id); [|done..]. case_decide as Hmn; [done|]. subst m.
  intros ([j o]&Ho%owrap_ok&Hr)%obind_ok. simpl in Hr. case_decide as Hon; [done|]. subst o.
  destruct (ACLIDReserved id) eqn:Hres; [done|]. injection Hr as <-. by eapply none_fresh.
Qed.

(** What a step keeps of the token of the request. *)
Definition request_fields (t t' : ACLToken) : Prop :=
  act_ServiceIdentities t' = act_ServiceIdentities t ∧ act_Rules t' = act_Rules t ∧ act_Type t' = act_Type t ∧ act_Local t' = act_Local t ∧ act_ExpirationTTL t' = 0%Z.
Lemma check_expiration_ok t t' : check_expiration cfg t = Ok t' → in_time t' ∧ request_fields t t' ∧ act_CreateTime t' = act_CreateTime t ∧
  act_AccessorID t' = act_AccessorID t ∧ act_SecretID t' = act_SecretID t ∧ act_AuthMethod t' = act_AuthMethod t.
Proof using Type.
  unfold check_expiration. intros (t1&H1&Hr)%obind_ok.
  assert (Hf : request_fields t t1 ∧ act_CreateTime t1 = act_CreateTime t ∧ act_AccessorID t1 = act_AccessorID t ∧ act_SecretID t1 = act_SecretID t ∧
    act_AuthMethod t1 = act_AuthMethod t).
  { revert H1. case_decide; [intros [= <-]; (by split_and!)|]. destruct (_ <? _)%Z; [done|]. destruct (HasExpirationTime t); [done|]. intros [= <-]. (by split_and!). }
  assert (t1 = t' ∧ in_time t1) as [-> Hin].
  { destruct (act_ExpirationTime t1) as [e|] eqn:He; [|injection Hr as <-; split; [done|]; unfold in_time, HasExpirationTime; by rewrite He].
    destruct (HasExpirationTime t1) eqn:Hh; simpl in Hr; [|injection Hr as <-; split; [done|]; unfold in_time; by rewrite Hh].
    destruct (Z.ltb_spec e (act_CreateTime t1)); [done|]. destruct (Z.ltb_spec (ac_ACLTokenMaxExpirationTTL cfg) (e - act_CreateTime t1)); [done|].
    destruct (Z.ltb_spec (e - act_CreateTime t1) (ac_ACLTokenMinExpirationTTL cfg)); [done|]. injection Hr as <-. split; [done|]. intros _. exists e.
    split; [done|]. lia. }
  split; [done|]. exact Hf.
Qed.
Lemma create_token_ok fromLogin am sm i j t st t' : stored_ok (store_tokens st) →
  (if decide (act_AccessorID t = "") then am = None else ACLTokenGetByAccessor (act_AccessorID t) st = Ok (i, am)) →
  (if decide (act_SecretID t = "") then sm = None else ACLTokenGetBySecret (act_SecretID t) st = Ok (j, sm)) →
  create_token cfg now uuids fromLogin am sm t st = Ok t' → issued fromLogin (store_tokens st) t' ∧ request_fields t t'.
Proof using Type.
  intros HT Ham Hsm. unfold create_token. intros (a&Ha&Hr)%obind_ok. apply obind_ok in Hr as (x&Hx&Hr).
  eapply new_accessor_fresh in Ha as [Hfa _]; [|done..]. eapply new_secret_fresh in Hx; [|done..].
  apply obind_ok in Hr as ([]&Hlogin&Hr). apply check_expiration_ok in Hr as (Hin&Hf&Hc&Hacc&Hsec&Hauth). simpl in *.
  split; [|exact Hf]. unfold issued. rewrite Hc, Hacc, Hsec, Hauth. split_and!; [done..|].
  clear Ham Hsm. destruct fromLogin; case_decide as Hd; try done.
  destruct (act_Local t) eqn:Hl; [|done]. split; [done|]. destruct Hf as (_&_&_&Hfl&_). by rewrite Hfl.
Qed.
Lemma update_token_ok m t t' : update_token (T := T) now m t = Ok t' → ∃ o, m = Some o ∧ IsExpired o now = false ∧
  act_AccessorID t' = act_AccessorID t ∧ act_SecretID t' = act_SecretID o ∧ act_Local t' = act_Local o ∧ act_AuthMethod t' = act_AuthMethod o ∧
  act_ExpirationTime t' = act_ExpirationTime o ∧ act_CreateTime t' = act_CreateTime o ∧ request_fields t t'.
Proof using Type.
  unfold update_token. destruct (ParseUUID _); [|done..]. case_decide; [done|]. destruct m as [o|]; [|done].
  destruct (IsExpired o now) eqn:Hexp; [done|]. case_decide as Hs; [done|]. case_decide as Hl; [done|]. case_decide as Ha; [done|].
  case_decide as Httl; [done|]. destruct (HasExpirationTime t && _) eqn:He; [done|]. intros [= <-]. exists o. simpl.
  split_and!; try done.
  - destruct (decide (act_SecretID t = "")); [done|]. destruct (decide (act_SecretID o = act_SecretID t)); [done|]. destruct Hs. done.
  - destruct (decide (act_AuthMethod t = "")); [done|]. destruct (decide (act_AuthMethod t = act_AuthMethod o)); [done|]. destruct Ha. done.
  - destruct (HasExpirationTime t) eqn:Ht; simpl in He; [|done]. apply orb_false_iff in He as [_ He]. by apply bool_decide_eq_false in He as He%dec_stable.
Qed.

Lemma check_identities_ok owner local l : check_identities owner local l = Ok tt →
  Forall (λ s, isValidServiceIdentityName (asi_ServiceName s) = true ∧ (local = true → asi_Datacenters s = [])) l.
Proof using Type.
  induction l as [|x l IH]; [constructor|]. simpl. case_decide; [done|]. destruct (local && _) eqn:Hl; [done|].
  destruct (isValidServiceIdentityName _) eqn:Hv; [|done]. intros Hr%IH. constructor; [|done]. split; [done|]. intros ->. simpl in Hl.
  by apply bool_decide_eq_false in Hl as Hl%dec_stable.
Qed.
Lemma identities_dedupe local l : Forall (λ s, isValidServiceIdentityName (asi_ServiceName s) = true ∧ (local = true → asi_Datacenters s = [])) l →
  Forall (λ s, isValidServiceIdentityName (asi_ServiceName s) = true ∧ (local = true → asi_Datacenters s = [])) (dedupeServiceIdentities l).
Proof using Type.
  intros Hl. apply list.Forall_forall. intros x Hx. destruct (dedupe_names l) as [_ Hn]. destruct (Hn x Hx) as (y&Hy&->).
  assert (Hy' := Hl). eapply list.Forall_forall in Hy' as [Hv _]; [|exact Hy]. split; [done|]. intros ->.
  assert (Hd : Forall (λ s, asi_Datacenters s = []) l) by (eapply list.Forall_impl; [exact Hl|]; intros s [_ Hs]; by apply Hs).
  eapply dedupe_nowhere, list.Forall_forall in Hd; eauto.
Qed.

(** The token that is written, in terms of those that are there. *)
Definition rewrites (toks : gmap string ACLToken) (t : ACLToken) : Prop := ∃ k o, toks !! k = Some o ∧ IsExpired o now = false ∧
  act_AccessorID o ≠ "" ∧ same_identity o (act_set_ids (act_AccessorID o) (act_SecretID t) t).
Lemma token_to_set_ok args fromLogin st t' : stored_ok (store_tokens st) →
  token_to_set (T := T) cfg sum256 now uuids args fromLogin st = Ok t' →
  (issued fromLogin (store_tokens st) t' ∨ rewrites (store_tokens st) t') ∧ proper t' ∧
  LocalTokensEnabled cfg = true ∧ (InACLDatacenter cfg = true ∨ act_Local t' = true).
Proof using Type.
  intros HT. unfold token_to_set. set (t := tsr_ACLToken args). destruct (LocalTokensEnabled cfg); [|done]. simpl.
  destruct (negb (InACLDatacenter cfg) && negb (act_Local t)) eqn:Hdc; [done|].
  intros (am&Ham&Hr)%obind_ok. apply obind_ok in Hr as (sm&Hsm&Hr). apply obind_ok in Hr as (t1&H1&Hr).
  assert (Ham' : ∃ i, if decide (act_AccessorID t = "") then am = None else ACLTokenGetByAccessor (act_AccessorID t) st = Ok (i, am)).
  { destruct (decide (act_AccessorID t = "")); [exists 0%N; congruence|]. apply obind_ok in Ham as ([i o]&Ho%owrap_ok&[= <-]). by exists i. }
  assert (Hsm' : ∃ i, if decide (act_SecretID t = "") then sm = None else ACLTokenGetBySecret (act_SecretID t) st = Ok (i, sm)).
  { destruct (decide (act_SecretID t = "")); [exists 0%N; congruence|]. apply obind_ok in Hsm as ([i o]&Ho%owrap_ok&[= <-]). by exists i. }
  destruct Ham' as [i Ham'], Hsm' as [j Hsm'].
  assert (Hor : (issued fromLogin (store_tokens st) t1 ∨ rewrites (store_tokens st) t1) ∧ request_fields t t1).
  { revert H1. destruct (decide (act_AccessorID t = "" ∨ tsr_Create args = true)) as [|Hup].
    - intros H1. eapply create_token_ok in H1 as [? ?]; [|done..]. auto.
    - intros (o&->&Hexp&Ha&Hs&Hl&Hau&He&Hc&Hf)%update_token_ok. split; [|done]. right.
      rewrite decide_False in Ham' by tauto. apply by_accessor in Ham' as (k&t0&ps&rs&Hk&->&Hne&_); [|done].
      exists k, t0. unfold same_identity. by split_and!. }
  destruct Hor as [Hor (Hf1&Hf2&Hf3&Hf4&Hf5)].
  apply obind_ok in Hr as (ps&_&Hr). apply obind_ok in Hr as (rs&_&Hr). apply obind_ok in Hr as ([]&Hids%check_identities_ok&Hr).
  clear Ham Hsm Ham' Hsm'. case_decide as Hrules; [done|]. case_decide as Htype; [done|]. injection Hr as <-. simpl in *.
  assert (Hdc' : InACLDatacenter cfg = true ∨ act_Local t1 = true).
  { rewrite Hf4. apply andb_false_iff in Hdc as [?%negb_false_iff|?%negb_false_iff]; auto. }
  split_and!; try done. unfold proper. simpl. split_and!; try done.
  - apply dedupe_names.
  - by apply identities_dedupe.
Qed.
End request.

(** ** The write *)

Lemma write_txn_tokens {A} now' (m : Tx A) st : (∀ a, (write_txn now' (λ _, true) m st).1 ≠ Ok a) →
  store_tokens (write_txn now' (λ _, true) m st).2 = store_tokens st.
Proof. unfold write_txn. destruct (m _) as [[a| |] tx]; [|done..]. intros Hn. by destruct (Hn a). Qed.
Definition written (idx : N) (t : ACLToken) (toks toks' : gmap string ACLToken) : Prop :=
  let k := string_args false (act_SecretID t) in
  act_AccessorID t ≠ "" ∧ (∀ o, toks !! k = Some o → act_AccessorID o = "" ∨ act_AccessorID o = act_AccessorID t) ∧
  ∃ ps rs create, toks' = <[k := act_set_indexes create idx (act_set_links ps rs t)]> toks.
Lemma fsm_token_set ext now' idx t allow prohibit st r st' :
  fsm_apply ext now' idx (ACLTokenSetRequestType (mkTokenBatchSet [t] false allow prohibit)) st = (r, st') →
  store_tokens st' = store_tokens st ∨ written idx t (store_tokens st) (store_tokens st').
Proof.
  simpl. unfold applyACLTokenSetOperation, rnil. simpl. unfold ACLTokenBatchSet, mbind'.
  destruct (write_txn _ _ _ st) as [[[]|e|w] st1] eqn:Hw; intros [= <- <-].
  2, 3: by left; pose proof (write_txn_tokens now' (aclTokenBatchSetTxn idx [t] false allow prohibit) st) as Ht; rewrite Hw in Ht; apply Ht.
  right. apply write_txn_ok_inv in Hw as (tx&H1&Hst). unfold aclTokenBatchSetTxn in H1. apply bind_ok_inv in H1 as ([]&tx1&H1&H2).
  apply update_acl_index_tokens in H2. simpl in H1. apply bind_ok_inv in H1 as ([]&tx2&H1&[_ ->]%ret_ok_inv).
  apply aclTokenSetTxn_run in H1 as (Hne&Himm&t'&Htok&_&_&_&_&ps&rs&c&->). split; [done|]. split; [exact Himm|].
  exists ps, rs, c. unfold store_tokens. rewrite Hst, H2. exact Htok.
Qed.

Section endpoint.
Context {T : Type → Type} `{RadixOps T}.
Context (ext : externals) (cfg : acl_config) (sum256 : string → string).
Context (now : Z) (resolved : outcome (option (Authorizer T))) (raft : raft_run) (uuids : nat → list (outcome string)).

Lemma on_store_inv {A} (m : M Store A) s r s' : as_on_store m s = (r, s') → m (as_store s) = (r, as_store s').
Proof using Type. unfold as_on_store. destruct (m (as_store s)) as [x st]. by intros [= -> <-]. Qed.
Lemma as_read_inv {A} (f : Store → outcome A) s r s' : as_read f s = (r, s') → r = f (as_store s) ∧ as_store s' = as_store s.
Proof using Type. intros Hr%on_store_inv. unfold mread in Hr. by simplify_eq. Qed.
(** What other servers commit between the checks of a request and its write
    leaves the tokens as they are. *)
Definition tokens_kept (st : Store) : Prop :=
  match raft with Committed before _ _ | Refused before _ => store_tokens (replay ext before st).2 = store_tokens st end.
Lemma raft_token_set t allow prohibit st r st' : tokens_kept st →
  raftApply ext raft (ACLTokenSetRequestType (mkTokenBatchSet [t] false allow prohibit)) st = (r, st') →
  store_tokens st' = store_tokens st ∨ ∃ idx, written idx t (store_tokens st) (store_tokens st').
Proof using Type.
  unfold tokens_kept, raftApply, mbind'. destruct raft as [before now' idx|before e]; intros Hkept;
    destruct (replay ext before st) as [[[]|e'|w] st1]; simpl in Hkept; rewrite <- Hkept;
    try (intros [= _ <-]; by left).
  unfold mtry. destruct (fsm_apply _ _ _ _ st1) as [x st2] eqn:Hf.
  pose proof (fsm_token_set ext now' idx t allow prohibit st1 x st2 Hf) as Hor.
  intros Hr. assert (st' = st2) as -> by (destruct x; by simplify_eq). destruct Hor; eauto.
Qed.

Lemma tokenSetInternal_run args fromLogin s r s' : tokens_kept (as_store s) →
  tokenSetInternal ext cfg sum256 now (T := T) raft uuids args fromLogin s = (r, s') →
  store_tokens (as_store s') = store_tokens (as_store s) ∨
  ∃ t idx, token_to_set (T := T) cfg sum256 now uuids args fromLogin (as_store s) = Ok t ∧
    written idx t (store_tokens (as_store s)) (store_tokens (as_store s')).
Proof using Type.
  intros Hal. unfold tokenSetInternal, mbind' at 1. destruct (as_read _ s) as [r1 s1] eqn:H1. apply as_read_inv in H1 as [-> Hs1].
  destruct (token_to_set _ _ _ _ _ _ _) as [t| |] eqn:Ht; [|intros [= _ <-]; left; by rewrite Hs1..].
  intros Hr. assert (Hor : store_tokens (as_store s') = store_tokens (as_store s1) ∨ ∃ idx, written idx t (store_tokens (as_store s1)) (store_tokens (as_store s'))).
  2: { rewrite Hs1 in Hor. destruct Hor as [?|[idx ?]]; eauto. }
  unfold mbind' at 1, mwrap in Hr. destruct (as_on_store _ s1) as [r2 s2] eqn:H2. apply on_store_inv in H2.
  apply raft_token_set in H2; [|by rewrite Hs1].
  assert (Hs : as_store s' = as_store s2); [|by rewrite Hs].
  destruct r2 as [resp|e|w]; [|by injection Hr as _ <-..]. unfold mbind', RemoveIdentity, mmodify, mlift in Hr.
  destruct resp; [|by injection Hr as _ <-..]. unfold mtry in Hr.
  destruct (as_read _ _) as [r3 s3] eqn:H3 in Hr. apply as_read_inv in H3 as [_ H3]. simpl in H3. rewrite <- H3.
  destruct r3 as [[i [o|]]| |]; by injection Hr as _ <-.
Qed.
End endpoint.

(** ** Requests that write a token *)

Inductive token_request :=
| ReqSet (args : ACLTokenSetRequest)
| ReqClone (primary : outcome ACLToken) (accessor description : string)
| ReqLogin (token method bearer meta : string).
Definition is_login (req : token_request) : bool := match req with ReqLogin _ _ _ _ => true | _ => false end.

Section requests.
Context {T : Type → Type} `{RadixOps T}.
Context (ext : externals) (cfg : acl_config) (sum256 : string → string).
Context (now : Z) (resolved : outcome (option (Authorizer T))) (raft : raft_run) (uuids : nat → list (outcome string)).
Context (hil : string → gmap string string → outcome string) (NewValidator : ACLAuthMethod → outcome Validator).

Definition serve_token (req : token_request) : M acl_server ACLToken :=
  match req with
  | ReqSet args => TokenSet ext cfg sum256 now resolved raft uuids args
  | ReqClone primary accessor description => TokenClone ext cfg sum256 now resolved raft uuids primary accessor description
  | ReqLogin token method bearer meta => Login ext cfg sum256 now (T := T) raft uuids hil NewValidator token method bearer meta
  end.
Definition permitted (req : token_request) : Prop := is_login req = true ∨ ∃ a, resolved = Ok (Some a) ∧ ACLWrite a = true.

Lemma require_write_ok : require_write resolved = Ok tt → ∃ a, resolved = Ok (Some a) ∧ ACLWrite a = true.
Proof using Type.
  unfold require_write. intros (rule&->&Hr)%obind_ok. destruct rule as [a|]; [|done]. simpl in Hr. exists a. split; [done|].
  unfold permit in Hr. by destruct (ACLWrite a).
Qed.
Lemma mlift_bind {S A B} (o : outcome A) (k : A → M S B) s r s' : (let* x := mlift o in k x) s = (r, s') →
  (s' = s ∧ ∀ x, o ≠ Ok x) ∨ ∃ x, o = Ok x ∧ k x s = (r, s').
Proof using Type. unfold mbind', mlift. destruct o; [eauto|intros [= _ <-]; by left..]. Qed.
Lemma as_read_bind {A B} (f : Store → outcome A) (k : A → M acl_server B) s r s' : (let* x := as_read f in k x) s = (r, s') →
  as_store s' = as_store s ∨ ∃ x s1, f (as_store s) = Ok x ∧ as_store s1 = as_store s ∧ k x s1 = (r, s').
Proof using Type.
  unfold mbind'. destruct (as_read f s) as [x s1] eqn:H1. apply as_read_inv in H1 as [-> Hs1].
  destruct (f (as_store s)) as [x| |]; [intros Hr; right; eauto|intros [= _ <-]; by left..].
Qed.

Lemma getOrReplace_store name idx v s r s' : getOrReplaceAuthMethodValidator name idx v s = (r, s') → as_store s' = as_store s.
Proof using Type.
  unfold getOrReplaceAuthMethodValidator, mbind', mget. destruct (getCachedAuthMethodValidator name s) as [[i old]|];
    [destruct (idx <=? i)%N|]; by intros [= _ <-].
Qed.
Lemma loadAuthMethodValidator_store idx m s r s' : loadAuthMethodValidator NewValidator idx m s = (r, s') → as_store s' = as_store s.
Proof using Type.
  unfold loadAuthMethodValidator. unfold mbind' at 1, mget.
  assert (Hload : ∀ r s', (let* v := mwrap "auth method validator for %q could not be initialized: %v" (mlift (NewValidator m)) in
    getOrReplaceAuthMethodValidator (aam_Name m) idx v) s = (r, s') → as_store s' = as_store s).
  { intros r0 s0. unfold mbind', mwrap, mlift. destruct (NewValidator m); [apply getOrReplace_store|by intros [= _ <-]..]. }
  destruct (getCachedAuthMethodValidator (aam_Name m) s) as [[i v]|]; [|apply Hload].
  destruct (idx <=? i)%N; [by intros [= _ <-]|apply Hload].
Qed.

(** Each of them writes no token, or one through [tokenSetInternal]. *)
Lemma serve_token_run req s r s' : tokens_kept ext raft (as_store s) → serve_token req s = (r, s') →
  store_tokens (as_store s') = store_tokens (as_store s) ∨
  permitted req ∧ ∃ t idx args, token_to_set (T := T) cfg sum256 now uuids args (is_login req) (as_store s) = Ok t ∧
    written idx t (store_tokens (as_store s)) (store_tokens (as_store s')).
Proof using Type.
  intros Hal. destruct req as [args|primary accessor description|token method bearer meta]; simpl.
  - unfold TokenSet. intros [[-> _]|([]&_&Hr)]%mlift_bind; [by left|]. destruct (_ && _) in Hr; [injection Hr as _ <-; by left|].
    apply mlift_bind in Hr as [[-> _]|([]&Hw%require_write_ok&Hr)]; [by left|].
    apply tokenSetInternal_run in Hr as [?|(t&idx&?&?)]; [by left|right|done]. split; [by right|eauto].
  - unfold TokenClone. intros [[-> _]|([]&_&Hr)]%mlift_bind; [by left|].
    apply mlift_bind in Hr as [[-> _]|([]&Hw%require_write_ok&Hr)]; [by left|].
    apply as_read_bind in Hr as [->|([i o]&s1&_&Hs1&Hr)]; [by left|]. rewrite <- Hs1. destruct o as [t|]; [|injection Hr as _ <-; by left].
    destruct (IsExpired t now); [injection Hr as _ <-; by left|]. destruct (_ && _) in Hr; [injection Hr as _ <-; by left|].
    case_decide; [injection Hr as _ <-; by left|]. case_decide; [injection Hr as _ <-; by left|].
    apply tokenSetInternal_run in Hr as [?|(t'&idx&?&?)]; [by left|right|by rewrite Hs1]. split; [by right|eauto].
  - unfold Login. intros [[-> _]|([]&_&Hr)]%mlift_bind; [by left|]. apply mlift_bind in Hr as [[-> _]|([]&_&Hr)]; [by left|].
    case_decide; [injection Hr as _ <-; by left|]. apply as_read_bind in Hr as [->|([i o]&s1&_&Hs1&Hr)]; [by left|].
    rewrite <- Hs1. destruct o as [m|]; [|injection Hr as _ <-; by left].
    unfold mbind' at 1 in Hr. destruct (loadAuthMethodValidator _ _ _ s1) as [r2 s2] eqn:H2. apply loadAuthMethodValidator_store in H2. rewrite <- H2.
    destruct r2 as [v| |]; [|injection Hr as _ <-; by left..]. apply mlift_bind in Hr as [[-> _]|(fields&_&Hr)]; [by left|].
    apply as_read_bind in Hr as [->|([ids links]&s3&_&Hs3&Hr)]; [by left|]. rewrite <- Hs3. case_decide; [injection Hr as _ <-; by left|].
    unfold mbind', mtry in Hr. destruct (tokenSetInternal _ _ _ _ _ _ _ _ s3) as [r4 s4] eqn:H4.
    apply tokenSetInternal_run in H4; [|by rewrite Hs3, H2, Hs1]. assert (s' = s4) as -> by (destruct r4; by injection Hr as _ <-).
    destruct H4 as [?|(t'&idx&?&?)]; [by left|right]. split; [by left|eauto].
Qed.
End requests.

(** C30. The identity of a token is immutable.  Whatever a request to set or
    clone a token or a login does in a reachable store, provided that no other
    write commits to the token table between the checks of the request and its
    own write (there is no lock over the two; other entries may come between),
    every token that is there stays, as it is or
    with the same accessor and secret ID, locality, auth method, expiration and
    creation time, and is not revived once it has expired; a token that is
    added has IDs that no other token has in either role, is outside the
    reserved range, expires within the configured bounds, and carries an auth
    method only from a login, which makes local tokens only; what is written
    has valid service identities without duplicates; and only a request that
    may write ACLs, or a login, writes at all. *)
Theorem token_writes_keep_identity {T : Type → Type} `{RadixOps T} ext cfg sum256 now (resolved : outcome (option (Authorizer T)))
    raft uuids hil NewValidator req s r s' :
  reachable (as_store s) → tokens_kept ext raft (as_store s) →
  serve_token ext cfg sum256 now resolved raft uuids hil NewValidator req s = (r, s') →
  let toks := store_tokens (as_store s) in
  let toks' := store_tokens (as_store s') in
  (∀ k o, toks !! k = Some o → ∃ t, toks' !! k = Some t ∧ (t = o ∨ (same_identity o t ∧ IsExpired o now = false ∧ proper t))) ∧
  (∀ k t, toks !! k = None → toks' !! k = Some t → issued cfg now (is_login req) toks t ∧ proper t) ∧
  (toks' ≠ toks → permitted resolved req ∧ LocalTokensEnabled cfg = true).
Proof.
  intros Hws%reachable_well_stored Hal Hr. pose proof (ws_ACLToken _ Hws) as HT. change (stored_ok (store_tokens (as_store s))) in HT.
  apply serve_token_run in Hr as [Heq|(Hp&t&idx&args&Ht&Hw)]; [|clear Hws|done]; cbv zeta.
  { rewrite Heq. split_and!; [eauto|congruence|done]. }
  apply token_to_set_ok in Ht as (Hor&Hprop&Hen&_); [|done]. destruct Hw as (Hne&Himm&ps&rs&c&->).
  set (k0 := string_args false (act_SecretID t)) in *. set (toks := store_tokens (as_store s)) in *.
  assert (Hnew : issued cfg now (is_login req) toks t → toks !! k0 = None).
  { intros (_&[_ Hf]&_). apply eq_None_not_Some. intros [o Ho]. destruct (Hf _ _ Ho) as [Hs _].
    destruct (HT _ _ Ho) as [Hk%token_key _]. unfold k0 in Hk. by apply str_nul_inj in Hk. }
  assert (Hold : rewrites now toks t → ∃ o, toks !! k0 = Some o ∧ same_identity o t ∧ IsExpired o now = false).
  { intros (k&o&Hk&Hexp&Hane&Hsi&Hs&Hid). simpl in *. destruct (HT _ _ Hk) as [Hkey%token_key _]. rewrite <- Hs in Hkey. fold k0 in Hkey. subst k.
    exists o. split_and!; [done| |done]. destruct (Himm _ Hk) as [?|Ha]; [done|]. by repeat split; [..|apply Hid|apply Hid|apply Hid|apply Hid]. }
  split_and!.
  - intros k o Ho. destruct (decide (k = k0)) as [->|Hkne]; [|exists o; rewrite lookup_insert_ne by done; auto].
    rewrite lookup_insert_eq. eexists. split; [done|]. right. destruct Hor as [Hi|Hrw]; [by rewrite (Hnew Hi) in Ho|].
    destruct (Hold Hrw) as (o'&Ho'&Hsame&Hexp). assert (o' = o) as -> by congruence. done.
  - intros k x Hk Hx. destruct (decide (k = k0)) as [->|Hkne]; [|rewrite lookup_insert_ne in Hx by done; congruence].
    rewrite lookup_insert_eq in Hx. injection Hx as <-. destruct Hor as [Hi|Hrw]; [done|]. destruct (Hold Hrw) as (o'&Ho'&_). congruence.
  - done.
Qed.

(** ** A run *)

Definition accessor1 : string := "11111111-1111-4111-8111-111111111111".
Definition accessor2 : string := "22222222-2222-4222-8222-222222222222".
Definition secret2 : string := "44444444-4444-4444-8444-444444444444".
Definition secret1 : string := "33333333-3333-4333-8333-333333333333".
Definition web (dcs : list string) : ACLServiceIdentity := mkServiceIdentity "web" dcs.
Definition token1 : ACLToken :=
  mkACLToken accessor1 secret1 "first" [] [] [web []] "" "" false "" None 0 7 None 0 0.
(** The policies "ops" and "dev" and the token above. *)
Definition policy_named (id name : string) : ACLPolicy := mkACLPolicy id name "" "" 2 [] None 0 0.
Definition before_log : list (Z * N * command) :=
  [(0%Z, 3%N, ACLPolicySetRequestType [policy_named accessor1 "ops"]);
   (0%Z, 4%N, ACLRoleSetRequestType (mkRoleBatchSet [mkACLRole accessor2 "team" "" [mkRolePolicyLink accessor1 ""] [] None 0 0] false));
   (0%Z, 5%N, ACLTokenSetRequestType (mkTokenBatchSet [token1] false false false))].
Definition server_before : acl_server := mkAclServer (fsm_run sample_externals before_log (NewStateStore None)).2 ∅ ∅ ∅ ∅.
Definition demo_cfg : acl_config := mkAclConfig true false "dc1" "dc1" false "" 60 86400.
Definition demo_uuids (n : nat) : list (outcome string) := [Ok (if decide (n = 0) then accessor2 else secret2)].
(** Another server writes a policy in between. *)
Definition demo_raft : raft_run := Committed [(100%Z, 9%N, ACLPolicySetRequestType [policy_named accessor2 "dev"])] 100 10.
Definition demo_serve (rules : Authorizer (gmap string)) : token_request → M acl_server ACLToken :=
  serve_token sample_externals demo_cfg id 100 (Ok (Some rules)) demo_raft demo_uuids (λ s _, Ok s) (λ _, Err (EMsg "none" [])).
(** An update that names a role and repeats a service identity, one that tries
    another secret ID, and a clone. *)
Definition demo_update : token_request := ReqSet (mkTokenSetRequest
  (mkACLToken accessor1 "" "changed" [] [mkTokenRoleLink "" "team"] [web ["dc1"]; mkServiceIdentity "api" []; web []] "" "" false "" None 0 0 None 0 0) false).
Definition demo_hijack : token_request := ReqSet (mkTokenSetRequest
  (mkACLToken accessor1 secret2 "" [] [] [] "" "" false "" None 0 0 None 0 0) false).
Definition token_view (s : acl_server) : list (string * string * string * list string * list string * Z) :=
  (λ kt, (act_AccessorID kt.2, act_SecretID kt.2, act_Description kt.2, trl_ID <$> act_Roles kt.2, asi_ServiceName <$> act_ServiceIdentities kt.2,
          act_CreateTime kt.2)) <$> map_to_list (store_tokens (as_store s)).

Lemma token_writes_keep_identity_witness :
  let '(r, s') := demo_serve ManageAll demo_update server_before in
  token_view s' = [(accessor1, secret1, "changed", [accessor2], ["api"; "web"], 7%Z)] ∧
  (∀ k o, store_tokens (as_store server_before) !! k = Some o → ∃ t, store_tokens (as_store s') !! k = Some t ∧ act_SecretID t = act_SecretID o) ∧
  (demo_serve ManageAll demo_hijack server_before).1 = Err (EMsg "Changing a tokens SecretID is not permitted" []) ∧
  (demo_serve DenyAll demo_update server_before).1 = Err ErrPermissionDenied.
Proof.
  destruct (demo_serve ManageAll demo_update server_before) as [r s'] eqn:Hrun. split; [|split].
  - transitivity (token_view (demo_serve ManageAll demo_update server_before).2); [by rewrite Hrun|vm_compute; reflexivity].
  - intros k o Ho. destruct (token_writes_keep_identity sample_externals demo_cfg id 100 (Ok (Some ManageAll)) demo_raft demo_uuids
      (λ s _, Ok s) (λ _, Err (EMsg "none" [])) demo_update server_before r s') as (Hold&_&_).
    + by exists sample_externals, before_log, None.
    + vm_compute. reflexivity.
    + exact Hrun.
    + destruct (Hold k o Ho) as (t&Ht&[->|((_&Hs&_)&_)]); [exact (ex_intro _ o (conj Ht eq_refl))|exact (ex_intro _ t (conj Ht Hs))].
  - split; vm_compute; reflexivity.
Defined.

(** A clone has the policies and the service identities of the token, but none
    of its roles. *)
Lemma clone_drops_roles t description : act_Roles (clone_of t description) = [] ∧
  act_Policies (clone_of t description) = act_Policies t ∧ act_ServiceIdentities (clone_of t description) = act_ServiceIdentities t.
Proof. done. Qed.
Lemma clone_of_team_token :
  let s := (demo_serve ManageAll demo_update server_before).2 in
  let s' := (demo_serve ManageAll (ReqClone (Ok token1) accessor1 "") s).2 in
  token_view s' = [(accessor1, secret1, "changed", [accessor2], ["api"; "web"], 7%Z); (accessor2, secret2, "changed", [], ["api"; "web"], 100%Z)].
Proof. vm_compute. reflexivity. Qed.

(** The store takes a policy under a new spelling of its name, the endpoint
    does not. *)
Lemma policy_rename_case :
  let renamed := policy_named accessor1 "OPS" in
  policy_to_set id demo_uuids (λ _ _, Ok tt) renamed (as_store server_before) = Err (EMsg "Invalid Policy: A policy with name %q already exists" ["OPS"]) ∧
  (fsm_apply sample_externals 0 9 (ACLPolicySetRequestType [renamed]) (as_store server_before)).1 = Ok RNil.
Proof. vm_compute. done. Qed.

(** When another server creates a token with the same accessor ID between the
    checks and the write, both are there: the store finds the token to update
    by its secret ID and does not look for its accessor ID. *)
Definition racing : ACLToken := mkACLToken accessor2 secret2 "racing" [] [] [] "" "" false "" None 0 7 None 0 0.
Definition late : ACLToken := mkACLToken accessor2 "" "late" [] [] [] "" "" false "" None 0 0 None 0 0.
Lemma racing_create_shares_accessor :
  let raft := Committed [(100%Z, 9%N, ACLTokenSetRequestType (mkTokenBatchSet [racing] false false false))] 100 10 in
  let '(r, s') := TokenSet (T := gmap string) sample_externals demo_cfg id 100 (Ok (Some ManageAll)) raft
    (λ _, [Ok "55555555-5555-4555-8555-555555555555"]) (mkTokenSetRequest late true) server_before in
  length (filter (λ x, x.1.1.1.1.1 = accessor2) (token_view s')) = 2.
Proof. vm_compute. reflexivity. Qed.
